(* ===== verification/_CoqProject ===== *)
-Q . S2P
Prelude.v
Memory.v
Cyclic.v
SeqlockRing.v
SeqlockWeak.v
SeqlockCrash.v
SeqlockSeq.v
Storage.v
Slots.v
SpscQueue.v
EventCount.v
Polling.v
Serialization.v
Context.v
Printf.v
ArgPack.v
Format.v
Unbound.v
ConsoleFormat.v
Console.v
Dispatch.v
ConsoleThreads.v
Metrics.v
Binding.v
Process.v
Stats.v
Report.v
Hardware.v
Bench.v
BenchBodies.v
Handles.v
DeviceHealth.v
OverwriteExamples.v
CustomBinding.v
WorkerInbox.v
Traces.v
WorkerPool.v
TracePipeline.v
ControlLoop.v
LoggingTour.v
Types.v
TypesTour.v
