(* ===== verification/Prelude.v ===== *)
(** * Verification of xmBase: the foundation layer of the XMotion family

    xmBase is a header-mostly C++ library: lock-free single-writer transports
    (include/xmbase/concurrency), serialization helpers, and a telemetry front
    door (include/xmbase/telemetry) with two compiled parts, the unbound fallback
    (src/telemetry_unbound.cpp) and the default console binding
    (src/telemetry_console_binding.cpp).  A measurement harness
    (include/xmbase/testing, bench) exercises it, and so do the programs of
    examples/, whose claims about themselves are proved here too.

    ** How the parts interact

    A slot or a buffer (MessageSlot, MessageBuffer) is a seqlock ring whose cells
    live in a storage policy and whose readers may park on an event count.  An
    event goes from a macro of event.hpp through the active binding, found by
    [ActiveBinding], with its arguments packed by [PackArgs]; the console binding
    formats the pack and writes one line, the unbound fallback does so without a
    binding.  Metric handles point at atomic slots.  Spans and contexts are
    thread-local.

    ** Files

    - Prelude.v: integers at their width ([wrap], [sint]), bytes, alignment, and
      the lemmas and tactics the files share.
    - Memory.v: the C++ memory machine (relaxed, acquire, release, fences, read-
      modify-writes, plain accesses with race detection), programs as trees of its
      operations, their sequential and concurrent meanings, and the rely-guarantee
      logic [wp] with its soundness for any number of threads.
    - Cyclic.v: positions on a ring of cells.
    - SeqlockRing.v, detail/seqlock_ring.hpp: the verbs as programs.
      SeqlockWeak.v: no torn read, consecutive snapshots, no read that goes back,
      wait-freedom, under the weak memory model with one writer and any readers.
      SeqlockSeq.v: every script of verbs, killed stores and repairs included,
      refines an abstract last-N history.  SeqlockCrash.v: a run in which a crash
      repair lets a torn copy validate.
    - Storage.v, storage.hpp: carving a region, the placement of the ring.
    - Slots.v, message_slot.hpp and message_buffer.hpp: the facades; the class
      [LatestValue] states what they promise, [latest_wins] is proved against it;
      what the verbs of a ring answer after a loop of stores.
    - SpscQueue.v, spsc_queue.hpp: no data race, FIFO, and refinement of a bounded
      queue.
    - EventCount.v, event_count.hpp: the futex and the condition-variable forms as
      transition systems of any waiters and notifiers; no lost wake-up, bounded
      waits.  Polling.v: the sleep-and-poll form of systems without a futex.
    - Serialization.v: byte orders (round trips) and checksums (bursts detected).
    - Context.v, context.hpp and span.hpp: identifiers, scopes as a tree of spans,
      propagation as bytes.
    - Printf.v: the part of the C library's formatted output the library uses.
    - ArgPack.v, binding.hpp: the 160-byte argument pack, its round trip.
    - Format.v: what a format with placeholders means.  Unbound.v and
      ConsoleFormat.v: the two formatters refine it; the console's specification
      parser accepts exactly its grammar.
    - Console.v, telemetry_console_binding.cpp: level, source registry, lines, the
      write loop, the entry points.
    - Dispatch.v, binding.hpp, event.hpp, handles.hpp, health.hpp: the table of a
      binding, dispatch, macros and their compile-time floor; the class
      [LevelLaws] states what the front door relies on, and [event_to_console]
      composes packing, formatting, line assembly and writing.
    - ConsoleThreads.v: the console under any number of threads, one step per access
      to the level, the registry's mutex and write(2): whole lines, stable source
      ids, no deadlock, and a well-formedness that every step keeps.
    - Metrics.v, binding.hpp: counters, gauges and histograms under any
      interleaving of compare-and-swap loops, over binary64.
    - Binding.v, telemetry_unbound.cpp: installation and lazy adoption of a
      binding, on the memory machine; publication of its table, life cycle, and a
      run in which an explicit unbind is undone.
    - Process.v: Binding.v composed with the console and the fallback: where every
      event of a process of one thread goes when nothing was ever initialized.
    - Stats.v, Report.v, Bench.v: testing/bench_harness.hpp,
      testing/alloc_probe.hpp and bench/xmbase_bench.cpp: percentiles,
      measurement loops, the replaced operators new, the JSON report against the
      grammar of JSON, what the benchmark program prints and its exit code.
      BenchBodies.v: the lambdas it measures, over the library's own operations.
      Hardware.v: what the harness reads of the machine, from the contents of the
      files of /proc, and the UTC time stamp (a round trip of the calendar).
    - Handles.v, handles.hpp: counters, gauges and histograms of a thread on the
      memory of their slots.
    - Types.v, types/: the vocabulary types over a class of Eigen's operations;
      TypesTour.v, the program that tours them.
    - The programs of examples/: DeviceHealth.v (health transitions held by
      hysteresis, over any binding and at the console), CustomBinding.v (a second
      implementation of the binding table and the whole program over it),
      WorkerInbox.v (producer and worker over a bounded queue), Traces.v (the
      emissions of programs and contexts in use), WorkerPool.v (trace contexts on a
      reused thread pool), TracePipeline.v (one trace over three producers and a
      fan-in), ControlLoop.v (200 cycles of a controller with its instruments, at
      the console), LoggingTour.v (levels and floors in one thread, then four
      threads), OverwriteExamples.v (three producers and consumers over the ring,
      on the weak memory machine).

    ** How code is modelled

    Fixed-width integers are [Z] with wrap-around written out; sizes that the code
    assumes small (2^63 stores, 2^32 cells) are hypotheses.  Concurrent code is a
    program over Memory.v or a transition per shared access; a run is any sequence
    of steps.  Errors and undefined behaviour are [None].  Bytes written and system
    calls are data: write(2), fopen and the clock are inputs that may answer
    anything.  Code outside the repository (the wrapped operation of a benchmark,
    the pid, the terminal test, the sine of the control loop) is a parameter, and
    Eigen a class with its laws.  Floating-point expressions are evaluated one
    operation at a time in binary64, as without contraction.  A loop that runs for a
    time is the list of its iterations; a condition variable with a predicate is a
    guard.  Definitions of the same name in several files (a program's [main], a
    thread's step) are told apart by their file.

    ** Bounds and fuel

    Loops of [srun] take fuel; the theorems give an amount that suffices ([S fuel]
    where the first iteration leaves, one unit per call accepted in the write
    loop) or show that the loop never leaves.  Formatting is bounded by the buffer
    as in the code.  Percentile ranks are exact for up to 1024 samples (the
    programs take at most 400); the rounded product is checked at each size.  The
    benchmark's lambdas are shown to return for 2^61 calls, more than any run makes.
    Runs of threads need no fuel: they end because a measure decreases.

    ** Not modelled

    Load buffering (Memory.v keeps program order of a load and a later store);
    stores that take an earlier place in a location's modification order (Memory.v
    appends each store; it matters only for the cells of Binding.v, which have
    several writers, and leaves out some of their orders); [CpuRelax]; the Windows
    branches of the console; the address of a region ([Carve] aligns offsets: the
    base is taken to be aligned); the allocations of the platform under the measured
    lambdas, which are a parameter; the readers of the contended
    benchmark, which the ring's own theorems cover; the deletes of alloc_probe.hpp,
    which only free; the tests. *)

From Stdlib Require Import ZArith Lia Ascii String.
From stdpp Require Import base list numbers.

(** ** Notation scope and automation *)

Declare Scope xm_scope.
Delimit Scope xm_scope with XM.

Create HintDb xm.
Create Rewrite HintDb xm_rew.

(** [invert H]: inversion, substitution and clearing of the inverted hypothesis. *)
Ltac invert H := inversion H; subst; clear H.

(** [split_hyps]: opens every conjunction and existential of the context. *)
Ltac split_hyps :=
  repeat match goal with
         | H : _ /\ _ |- _ => destruct H
         | H : exists _, _ |- _ => destruct H
         end.

(** [case_ifs]: case analysis on every [if] over a boolean of the goal. *)
Ltac case_ifs :=
  repeat match goal with
         | |- context [if ?b then _ else _] =>
             match type of b with bool => let E := fresh "E" in destruct b eqn:E end
         end.

(** [zbool]: turns boolean comparisons of the context into propositions. *)
Ltac zbool :=
  repeat match goal with
         | H : (_ <=? _)%Z = true |- _ => apply Z.leb_le in H
         | H : (_ <=? _)%Z = false |- _ => apply Z.leb_gt in H
         | H : (_ <? _)%Z = true |- _ => apply Z.ltb_lt in H
         | H : (_ <? _)%Z = false |- _ => apply Z.ltb_ge in H
         | H : (_ =? _)%Z = true |- _ => apply Z.eqb_eq in H
         | H : (_ =? _)%Z = false |- _ => apply Z.eqb_neq in H
         | H : (_ <=? _)%nat = true |- _ => apply Nat.leb_le in H
         | H : (_ <=? _)%nat = false |- _ => apply Nat.leb_gt in H
         | H : (_ <? _)%nat = true |- _ => apply Nat.ltb_lt in H
         | H : (_ <? _)%nat = false |- _ => apply Nat.ltb_ge in H
         | H : (_ =? _)%nat = true |- _ => apply Nat.eqb_eq in H
         | H : (_ =? _)%nat = false |- _ => apply Nat.eqb_neq in H
         | H : (_ && _)%bool = true |- _ => apply andb_true_iff in H; destruct H
         | H : (_ || _)%bool = false |- _ => apply orb_false_iff in H; destruct H
         | H : negb _ = true |- _ => apply negb_true_iff in H
         | H : negb _ = false |- _ => apply negb_false_iff in H
         end.

(** ** Machine integers

    A w-bit unsigned integer is a [Z] in [0, 2^w); conversions and arithmetic
    wrap with [wrap]; a signed integer of the same width is the two's
    complement reading [sint]. *)

Definition wrap (w z : Z) : Z := (z mod 2 ^ w)%Z.
Abbreviation u8 := (wrap 8).
Abbreviation u16 := (wrap 16).
Abbreviation u32 := (wrap 32).
Abbreviation u64 := (wrap 64).

Definition sint (w z : Z) : Z :=
  let u := wrap w z in
  if (u <? 2 ^ (w - 1))%Z then u else (u - 2 ^ w)%Z.

Definition in_width (w z : Z) : Prop := (0 <= z < 2 ^ w)%Z.

Lemma wrap_range w z : (0 <= w)%Z -> in_width w (wrap w z).
Proof. intros Hw. apply Z.mod_pos_bound, Z.pow_pos_nonneg; lia. Qed.

Lemma wrap_id w z : in_width w z -> wrap w z = z.
Proof. intros H. apply Z.mod_small, H. Qed.

Lemma wrap_wrap w z : (0 <= w)%Z -> wrap w (wrap w z) = wrap w z.
Proof. intros. apply wrap_id, wrap_range; lia. Qed.

Lemma wrap_add_l w x y : wrap w (wrap w x + y) = wrap w (x + y).
Proof. apply Zplus_mod_idemp_l. Qed.

Lemma wrap_add_r w x y : wrap w (x + wrap w y) = wrap w (x + y).
Proof. apply Zplus_mod_idemp_r. Qed.

Lemma wrap_sub w x y : wrap w (wrap w x - wrap w y) = wrap w (x - y).
Proof. unfold wrap. now rewrite <- Zminus_mod. Qed.

(** The low bits of a wrapped integer are those of the integer. *)
Lemma wrap_testbit w z i :
  (0 <= w)%Z -> Z.testbit (wrap w z) i = ((i <? w)%Z && Z.testbit z i)%bool.
Proof. intros. unfold wrap. now rewrite Z.testbit_mod_pow2. Qed.

Lemma in_width_testbit w z i :
  in_width w z -> (0 <= w <= i)%Z -> Z.testbit z i = false.
Proof.
  intros H Hi. rewrite <- (wrap_id w z H), wrap_testbit by lia.
  now replace (i <? w)%Z with false by (symmetry; apply Z.ltb_ge; lia).
Qed.

Lemma sint_wrap w z : (0 <= w)%Z -> sint w (wrap w z) = sint w z.
Proof. intros. unfold sint. now rewrite wrap_wrap. Qed.

Lemma sint_range w z :
  (0 < w)%Z -> (- 2 ^ (w - 1) <= sint w z < 2 ^ (w - 1))%Z.
Proof.
  intros Hw. unfold sint. pose proof (wrap_range w z ltac:(lia)) as [H1 H2].
  assert (2 ^ w = 2 * 2 ^ (w - 1))%Z as E.
  { rewrite <- Z.pow_succ_r by lia. f_equal; lia. }
  case_ifs; zbool; lia.
Qed.

(** The two's complement reading inverts the conversion to unsigned. *)
Lemma sint_of_signed w z :
  (0 < w)%Z -> (- 2 ^ (w - 1) <= z < 2 ^ (w - 1))%Z -> sint w (wrap w z) = z.
Proof.
  intros Hw Hz. rewrite sint_wrap by lia. unfold sint, wrap.
  assert (2 ^ w = 2 * 2 ^ (w - 1))%Z as E.
  { rewrite <- Z.pow_succ_r by lia. f_equal; lia. }
  destruct (Z_lt_dec z 0).
  - assert (z mod 2 ^ w = z + 2 ^ w)%Z as ->.
    { rewrite <- (Z.mod_add z 1 (2 ^ w)) by lia. rewrite Z.mod_small; lia. }
    case_ifs; zbool; lia.
  - rewrite Z.mod_small by lia. case_ifs; zbool; lia.
Qed.

(** [(b + (a - 1)) & ~(a - 1)] on [size_t]: the round-up of the layout code. *)
Definition align_up (a b : Z) : Z := Z.land (u64 (b + (a - 1))) (u64 (Z.lnot (a - 1))).

(** Clearing the low [k] bits. *)
Lemma land_lnot_ones x k :
  (0 <= k <= 64)%Z -> in_width 64 x ->
  Z.land x (u64 (Z.lnot (2 ^ k - 1))) = (2 ^ k * (x / 2 ^ k))%Z.
Proof.
  intros Hk Hx. rewrite (Z.mul_comm (2 ^ k)), <- Z.shiftl_mul_pow2, <- Z.shiftr_div_pow2 by lia.
  apply Z.bits_inj'. intros i Hi.
  rewrite Z.land_spec, wrap_testbit, Z.lnot_spec, Z.shiftl_spec by lia.
  replace (2 ^ k - 1)%Z with (Z.ones k) by (rewrite Z.ones_equiv; lia).
  rewrite Z.testbit_ones_nonneg by lia.
  destruct (Z.ltb_spec i k).
  - rewrite (Z.testbit_neg_r _ (i - k)) by lia. cbn. now rewrite !andb_false_r.
  - rewrite Z.shiftr_spec by lia. replace (i - k + k)%Z with i by lia. cbn.
    rewrite andb_true_r. destruct (Z.ltb_spec i 64); [apply andb_true_r|].
    rewrite (in_width_testbit 64 x i); [done|done|lia].
Qed.

(** It is the least multiple of [2 ^ k] that is not below [b]. *)
Lemma align_up_spec k b :
  (0 <= k <= 63)%Z -> (0 <= b)%Z -> (b + 2 ^ k <= 2 ^ 64)%Z ->
  (align_up (2 ^ k) b mod 2 ^ k = 0 /\ b <= align_up (2 ^ k) b < b + 2 ^ k)%Z.
Proof.
  intros Hk Hb Hs. unfold align_up. pose proof (Z.pow_pos_nonneg 2 k ltac:(lia) ltac:(lia)) as Hp.
  rewrite (wrap_id 64 (b + (2 ^ k - 1))) by (unfold in_width; lia).
  rewrite land_lnot_ones by (unfold in_width; lia).
  pose proof (Z.div_mod (b + (2 ^ k - 1)) (2 ^ k) ltac:(lia)).
  pose proof (Z.mod_pos_bound (b + (2 ^ k - 1)) (2 ^ k) ltac:(lia)).
  split; [|lia]. rewrite Z.mul_comm. apply Z.mod_mul. lia.
Qed.

(** A number already aligned is kept, and alignment does not depend on the route. *)
Lemma align_up_id k b :
  (0 <= k <= 63)%Z -> (0 <= b)%Z -> (b + 2 ^ k <= 2 ^ 64)%Z -> (b mod 2 ^ k = 0)%Z ->
  align_up (2 ^ k) b = b.
Proof.
  intros Hk Hb Hs Hm. destruct (align_up_spec k b Hk Hb Hs) as [H1 H2].
  pose proof (Z.pow_pos_nonneg 2 k ltac:(lia) ltac:(lia)) as Hp.
  pose proof (Z.div_mod b (2 ^ k) ltac:(lia)).
  pose proof (Z.div_mod (align_up (2 ^ k) b) (2 ^ k) ltac:(lia)).
  set (x := align_up (2 ^ k) b) in *. set (p := (2 ^ k)%Z) in *.
  assert (x / p = b / p)%Z by (apply Z.le_antisymm; nia). nia.
Qed.

(** ** Bytes and byte strings

    A byte is a [Z] in [0, 256); a buffer and a C string (without its NUL) are
    lists of bytes. *)

Abbreviation bytes := (list Z).
Abbreviation is_byte := (in_width 8).

Definition bytes_of_string (s : string) : bytes :=
  List.map (fun c => Z.of_N (N_of_ascii c)) (list_ascii_of_string s).

(** [s.rfind(p, 0) == 0] and [s.find(p) != npos]. *)
Fixpoint starts_with (p s : bytes) : bool :=
  match p, s with
  | [], _ => true
  | c :: p, d :: s => Z.eqb c d && starts_with p s
  | _ :: _, [] => false
  end.

Fixpoint contains (p s : bytes) : bool :=
  starts_with p s || match s with [] => false | _ :: s => contains p s end.

Lemma starts_with_app p s : starts_with p (p ++ s) = true.
Proof. induction p as [|c p IH]; [done|]. cbn. by rewrite Z.eqb_refl, IH. Qed.

(** Used only to read results in examples. *)
Definition string_of_bytes (b : bytes) : string :=
  string_of_list_ascii (List.map (fun z => ascii_of_N (Z.to_N z)) b).

Lemma bytes_of_string_bytes s : Forall is_byte (bytes_of_string s).
Proof.
  unfold bytes_of_string. apply List.Forall_forall. intros x Hx.
  apply in_map_iff in Hx. destruct Hx as (c & <- & _).
  pose proof (N_ascii_bounded c). split; lia.
Qed.
#[export] Hint Resolve bytes_of_string_bytes : xm.

(** Little-endian words: the byte order of the supported hosts (x86_64 and
    aarch64), which [memcpy] between integers and buffers exposes. *)
Fixpoint le_word (bs : bytes) : Z :=
  match bs with
  | [] => 0
  | b :: bs => (b + 256 * le_word bs)%Z
  end.

Fixpoint le_bytes (n : nat) (z : Z) : bytes :=
  match n with
  | O => []
  | S n => (z mod 256)%Z :: le_bytes n (z / 256)%Z
  end.

Lemma length_le_bytes n z : length (le_bytes n z) = n.
Proof. revert z; induction n; intros; cbn; auto. Qed.

Lemma le_bytes_bytes n z : Forall is_byte (le_bytes n z).
Proof.
  revert z; induction n; intros; cbn; constructor; auto.
  apply Z.mod_pos_bound; lia.
Qed.
#[export] Hint Resolve le_bytes_bytes : xm.
#[export] Hint Rewrite length_le_bytes : xm_rew.

Lemma le_word_le_bytes n z : le_word (le_bytes n z) = wrap (8 * Z.of_nat n) z.
Proof.
  unfold wrap. revert z; induction n as [|n IH]; intros z; cbn [le_bytes le_word].
  - now rewrite Z.mod_1_r.
  - rewrite IH.
    replace (8 * Z.of_nat (S n))%Z with (8 + 8 * Z.of_nat n)%Z by lia.
    rewrite Z.pow_add_r by lia. change (2 ^ 8)%Z with 256%Z.
    rewrite Z.rem_mul_r by lia. reflexivity.
Qed.

Lemma le_bytes_le_word bs :
  Forall is_byte bs -> le_bytes (length bs) (le_word bs) = bs.
Proof.
  induction 1 as [|b bs Hb _ IH]; cbn [length le_bytes le_word]; [done|].
  assert ((b + 256 * le_word bs) mod 256 = b)%Z as ->.
  { rewrite Z.mul_comm, Z_mod_plus_full. apply Z.mod_small, Hb. }
  assert ((b + 256 * le_word bs) / 256 = le_word bs)%Z as ->.
  { rewrite Z.mul_comm, Z_div_plus_full, Z.div_small by (unfold in_width in *; lia). lia. }
  now rewrite IH.
Qed.

Lemma le_word_range bs :
  Forall is_byte bs -> in_width (8 * Z.of_nat (length bs)) (le_word bs).
Proof.
  intros H. rewrite <- (le_bytes_le_word bs H) at 2.
  rewrite le_word_le_bytes. apply wrap_range; lia.
Qed.

Lemma le_word_app_zeros bs n : le_word (bs ++ repeat 0%Z n) = le_word bs.
Proof.
  induction bs as [|b bs IH]; cbn; [|now rewrite IH].
  induction n as [|n IH]; cbn; [done|]. rewrite IH. lia.
Qed.

(** ** Word staging of a record (the seqlock's [memcpy] to and from words) *)

(** [k] little-endian 64-bit words of a record, zero filled past its end. *)
Fixpoint words_of_bytes (k : nat) (bs : bytes) : list Z :=
  match k with
  | O => []
  | S k => le_word (take 8 bs) :: words_of_bytes k (drop 8 bs)
  end.

(** The first [n] bytes of the staged words. *)
Definition bytes_of_words (n : nat) (ws : list Z) : bytes :=
  take n (concat (map (le_bytes 8) ws)).

Lemma length_words_of_bytes k bs : length (words_of_bytes k bs) = k.
Proof. revert bs; induction k; intros; cbn; auto. Qed.
#[export] Hint Rewrite length_words_of_bytes : xm_rew.

Lemma le_bytes_word_short n bs :
  Forall is_byte bs -> (length bs <= n)%nat ->
  le_bytes n (le_word bs) = bs ++ repeat 0%Z (n - length bs).
Proof.
  intros Hb Hn. rewrite <- (le_word_app_zeros bs (n - length bs)).
  rewrite <- (le_bytes_le_word (bs ++ repeat 0%Z (n - length bs))) at 2.
  - f_equal. rewrite length_app, repeat_length. lia.
  - apply Forall_app; split; [done|]. apply List.Forall_forall. intros x Hx.
    apply repeat_spec in Hx. subst; split; lia.
Qed.

Lemma bytes_of_words_of_bytes k bs :
  Forall is_byte bs -> (length bs <= 8 * k)%nat ->
  bytes_of_words (length bs) (words_of_bytes k bs) = bs.
Proof.
  unfold bytes_of_words. revert bs.
  induction k as [|k IH]; intros bs Hb Hk.
  - destruct bs; [done|cbn in Hk; lia].
  - cbn [words_of_bytes map concat].
    rewrite le_bytes_word_short
      by (try apply Forall_take; try rewrite length_take; auto; lia).
    destruct (le_lt_dec 8 (length bs)) as [H8|H8].
    + rewrite length_take, Nat.min_l, Nat.sub_diag, app_nil_r by lia.
      rewrite take_app, length_take, Nat.min_l by lia.
      rewrite take_take, Nat.min_r by lia.
      rewrite <- (length_drop bs 8), IH, take_drop; auto using Forall_drop.
      rewrite length_drop; lia.
    + rewrite (take_ge bs 8) by lia. rewrite <- app_assoc, take_app_le by lia.
      apply take_ge; lia.
Qed.

(** ** Options as the error monad of the models *)

Lemma bind_Some {A B} (o : option A) (f : A -> option B) b :
  (o ≫= f) = Some b <-> exists a, o = Some a /\ f a = Some b.
Proof. destruct o; cbn; naive_solver. Qed.

(** ** Lists *)

Lemma Forall2_lookup_lr' {A B} (P : A -> B -> Prop) l k i x y :
  Forall2 P l k -> l !! i = Some x -> k !! i = Some y -> P x y.
Proof. intros H Hx Hy. eapply Forall2_lookup_lr; eauto. Qed.

Lemma lookup_snoc_last {A} (l : list A) x : (l ++ [x]) !! length l = Some x.
Proof. now rewrite lookup_app_r, Nat.sub_diag. Qed.

Lemma lookup_seq_nat n i : (i < n)%nat -> seq 0 n !! i = Some i.
Proof. intros. rewrite lookup_seq_lt; auto. Qed.

Lemma lookup_repeat_lt {A} (x : A) n i : (i < n)%nat -> repeat x n !! i = Some x.
Proof. revert i; induction n; intros [|i] Hi; cbn; try lia; [done|]. apply IHn; lia. Qed.

Lemma sum_list_with_insert {A} (f : A -> nat) l i x y :
  l !! i = Some x -> sum_list_with f (<[i := y]> l) + f x = sum_list_with f l + f y.
Proof.
  revert i. induction l as [|z l IH]; intros [|i] Hi; cbn in Hi; [done|done|injection Hi as ->; cbn; lia|].
  change (<[S i:=y]> (z :: l)) with (z :: <[i:=y]> l). cbn. specialize (IH i Hi). lia.
Qed.

(** What an update of one entry does to what all entries contribute. *)
Lemma insert_concat_map {A B} (f : A -> list B) l i x y :
  l !! i = Some x -> f x ++ concat (map f (<[i := y]> l)) ≡ₚ f y ++ concat (map f l).
Proof.
  revert i. induction l as [|a l IH]; intros [|i] Hi; try done; cbn in *.
  - injection Hi as ->. solve_Permutation.
  - specialize (IH i Hi). rewrite !app_assoc, !(Permutation_app_comm _ (f a)), <- !app_assoc. by rewrite IH.
Qed.

(** The entries of a list of pairs under one key, in order. *)
Definition select {A} (k : nat) (l : list (nat * A)) : list A :=
  omap (fun x => if decide (fst x = k) then Some (snd x) else None) l.

Lemma select_snoc {A} k (l : list (nat * A)) j x :
  select k (l ++ [(j, x)]) = if decide (j = k) then select k l ++ [x] else select k l.
Proof. unfold select. rewrite omap_app. cbn. case_decide; [done|apply app_nil_r]. Qed.

(** Running the first of two steps, without evaluating the second. *)
Lemma bind_step {A B C} (m : option (A * B)) (g : B -> option C) x s r :
  m = Some (x, s) -> g s = r -> ('(_, s) ← m; g s) = r.
Proof. by intros -> <-. Qed.

Lemma bind_value {A B C} (m : option (A * B)) (g : A -> B -> option C) x s r :
  m = Some (x, s) -> g x s = r -> ('(x, s) ← m; g x s) = r.
Proof. by intros -> <-. Qed.

Lemma bind_one {B C} (m : option B) (g : B -> option C) s r : m = Some s -> g s = r -> (s ← m; g s) = r.
Proof. by intros -> <-. Qed.
