(* ===== verification/Memory.v ===== *)
(** * A C++ memory machine and its program logic

    The concurrency headers are written against [std::atomic] with explicit
    memory orders and fences.  This file gives the part of the C++ memory model
    they use as an executable machine:
    - a location holds its modification order, a list of messages; a message
      carries a value and the view its writer released with it;
    - a view maps a location to the newest timestamp known; a thread has a
      current view, an acquire view (what an acquire fence would add) and a
      release view (what the last release fence published);
    - a relaxed load may return any message that is not older than the
      thread's view; acquire loads join the message's view; a release store
      (or a relaxed store after a release fence) publishes the view;
    - a read-modify-write acts on the newest message;
    - a plain (non-atomic) access is a data race, and the machine is stuck,
      unless every earlier conflicting access is in the thread's view.
    This is the release/acquire + relaxed + fences fragment in its
    view-based operational form, without load buffering; stores extend the
    modification order at its end, which is exact for the single-writer
    locations and read-modify-writes of this code.

    Operations are programs ([prog]), trees of memory operations, so that one
    translation of a C++ function has both a sequential meaning ([srun]) and a
    concurrent one ([tstep], [cstep]).  [wp] is a rely-guarantee weakest
    precondition, [wp_sound] its soundness for any number of threads. *)

From Stdlib Require Import ZArith Lia.
From stdpp Require Import base list numbers relations.
From S2P Require Import Prelude.

Inductive memory_order := relaxed | acquire | release | acq_rel.

Definition has_acquire (o : memory_order) : bool :=
  match o with acquire | acq_rel => true | _ => false end.
Definition has_release (o : memory_order) : bool :=
  match o with release | acq_rel => true | _ => false end.

(** ** Programs *)

Section Prog.
Context {loc val : Type}.

Inductive prog (A : Type) : Type :=
| Ret (a : A)
| Load (l : loc) (o : memory_order) (k : val -> prog A)
| Store (l : loc) (v : val) (o : memory_order) (k : prog A)
| Fence (o : memory_order) (k : prog A)
| FetchUpd (l : loc) (f : val -> val) (o : memory_order) (k : val -> prog A)
| CasWeak (l : loc) (e d : val) (o : memory_order) (k : bool -> val -> prog A)
| NaLoad (l : loc) (k : val -> prog A)
| NaStore (l : loc) (v : val) (k : prog A)
| Loop (B : Type) (body : prog (option B)) (k : B -> prog A).

End Prog.

Arguments prog : clear implicits.
Arguments Ret {loc val A} a.
Arguments Load {loc val A} l o k.
Arguments Store {loc val A} l v o k.
Arguments Fence {loc val A} o k.
Arguments FetchUpd {loc val A} l f o k.
Arguments CasWeak {loc val A} l e d o k.
Arguments NaLoad {loc val A} l k.
Arguments NaStore {loc val A} l v k.
Arguments Loop {loc val A B} body k.

Section Bind.
Context {loc val : Type}.

Fixpoint pbind {A C : Type} (p : prog loc val A) (f : A -> prog loc val C)
  : prog loc val C :=
  match p with
  | Ret a => f a
  | Load l o k => Load l o (fun v => pbind (k v) f)
  | Store l v o k => Store l v o (pbind k f)
  | Fence o k => Fence o (pbind k f)
  | FetchUpd l g o k => FetchUpd l g o (fun v => pbind (k v) f)
  | CasWeak l e d o k => CasWeak l e d o (fun b v => pbind (k b v) f)
  | NaLoad l k => NaLoad l (fun v => pbind (k v) f)
  | NaStore l v k => NaStore l v (pbind k f)
  | Loop body k => Loop body (fun b => pbind (k b) f)
  end.

(** One iteration of a loop, and what follows it. *)
Definition unroll {A B : Type} (body : prog loc val (option B)) (k : B -> prog loc val A)
  : prog loc val A :=
  pbind body (fun r => match r with Some b => k b | None => Loop body k end).

(** The first [n] memory operations of a program: what a writer that is killed
    after them has executed. *)
Fixpoint prefix_ops {A : Type} (n : nat) (p : prog loc val A) : prog loc val unit :=
  match n with
  | O => Ret tt
  | S n =>
      match p with
      | Ret _ => Ret tt
      | Load l o k => Load l o (fun v => prefix_ops n (k v))
      | Store l v o k => Store l v o (prefix_ops n k)
      | Fence o k => Fence o (prefix_ops n k)
      | FetchUpd l g o k => FetchUpd l g o (fun v => prefix_ops n (k v))
      | CasWeak l e d o k => CasWeak l e d o (fun b v => prefix_ops n (k b v))
      | NaLoad l k => NaLoad l (fun v => prefix_ops n (k v))
      | NaStore l v k => NaStore l v (prefix_ops n k)
      | Loop body k => Ret tt
      end
  end.

(** At most [n] memory operations on every path: wait-freedom. *)
Fixpoint ops_le {A : Type} (n : nat) (p : prog loc val A) : Prop :=
  match p with
  | Ret _ => True
  | Load _ _ k | FetchUpd _ _ _ k | NaLoad _ k =>
      exists n', n = S n' /\ forall v, ops_le n' (k v)
  | Store _ _ _ k | Fence _ k | NaStore _ _ k => exists n', n = S n' /\ ops_le n' k
  | CasWeak _ _ _ _ k => exists n', n = S n' /\ forall b v, ops_le n' (k b v)
  | Loop _ _ => False
  end.

Lemma ops_le_mono {A} (p : prog loc val A) n n' : ops_le n p -> (n <= n')%nat -> ops_le n' p.
Proof.
  revert n n'; induction p; intros n n' Hp Hn; cbn in *; try done;
    destruct Hp as (n1 & -> & Hp); destruct n' as [|n2]; try lia;
    exists n2; split; try done; intros; eauto with lia.
Qed.

Lemma ops_le_bind {A C} (p : prog loc val A) (f : A -> prog loc val C) n n' :
  ops_le n p -> (forall a, ops_le n' (f a)) -> ops_le (n + n') (pbind p f).
Proof.
  revert n; induction p; intros n Hp Hf; cbn in *;
    try (eapply ops_le_mono; [apply Hf | lia]); try done;
    destruct Hp as (n1 & -> & Hp); exists (n1 + n')%nat; split; try done; eauto.
Qed.

End Bind.

Declare Scope prog_scope.
Delimit Scope prog_scope with prog.
Notation "'let!' x ':=' p 'in' q" := (pbind p (fun x => q))
  (at level 10, x name, p at level 100, q at level 200) : prog_scope.
Notation "p ';;;' q" := (pbind p (fun _ => q))
  (at level 100, right associativity) : prog_scope.

Section Ops.
Context {loc val : Type}.
Definition load (l : loc) (o : memory_order) : prog loc val val := Load l o Ret.
Definition store (l : loc) (v : val) (o : memory_order) : prog loc val unit :=
  Store l v o (Ret tt).
Definition fence (o : memory_order) : prog loc val unit := Fence o (Ret tt).
Definition na_load (l : loc) : prog loc val val := NaLoad l Ret.
Definition na_store (l : loc) (v : val) : prog loc val unit := NaStore l v (Ret tt).
Definition fetch_upd (l : loc) (f : val -> val) (o : memory_order) : prog loc val val :=
  FetchUpd l f o Ret.
Definition cas_weak (l : loc) (e d : val) (o : memory_order) : prog loc val (bool * val) :=
  CasWeak l e d o (fun b v => Ret (b, v)).
(** [for (;;) body], left when the body yields a result. *)
Definition forever {B : Type} (body : prog loc val (option B)) : prog loc val B :=
  Loop body Ret.
End Ops.

(** ** Views *)

Section Machine.
Context {loc val : Type} `{EqDecision loc, EqDecision val}.

(** What a view tracks: a location's messages, and the plain reads a thread
    has made of a location (for race detection). *)
Inductive vloc :=
| At (l : loc)
| Rd (tid : nat) (l : loc).

#[global] Instance vloc_eq_dec : EqDecision vloc.
Proof. solve_decision. Defined.

Definition view := vloc -> nat.
Definition vbot : view := fun _ => 0.
Definition vjoin (V W : view) : view := fun x => Nat.max (V x) (W x).
Definition vsingle (x : vloc) (t : nat) : view :=
  fun y => if decide (y = x) then t else 0.
Definition vle (V W : view) : Prop := forall x, V x <= W x.

#[global] Instance vle_preorder : PreOrder vle.
Proof. split; [intros V x; lia | intros U V W H1 H2 x; specialize (H1 x); specialize (H2 x); lia]. Qed.

Lemma vjoin_l V W : vle V (vjoin V W).
Proof. intros x; unfold vjoin; lia. Qed.
Lemma vjoin_r V W : vle W (vjoin V W).
Proof. intros x; unfold vjoin; lia. Qed.
Lemma vsingle_eq x t : vsingle x t x = t.
Proof. unfold vsingle. now rewrite decide_True. Qed.
Lemma vsingle_ne x y t : y <> x -> vsingle x t y = 0.
Proof. intros. unfold vsingle. now rewrite decide_False. Qed.

#[global] Instance vjoin_proper : Proper (vle ==> vle ==> vle) vjoin.
Proof. intros U U' HU V V' HV x. specialize (HU x). specialize (HV x). unfold vjoin; lia. Qed.

(** ** Memory and thread views *)

Record message := Msg { mval : val; mview : view }.
Record memory := Mem { hist : loc -> list message; reads : nat -> loc -> nat }.
Record tview := TV { cur : view; acq : view; rel : view }.

Definition append (m : memory) (l : loc) (msg : message) : memory :=
  Mem (fun l' => if decide (l' = l) then hist m l ++ [msg] else hist m l') (reads m).

Definition add_read (m : memory) (tid : nat) (l : loc) : memory :=
  Mem (hist m)
      (fun i l' => if decide (i = tid /\ l' = l) then S (reads m i l') else reads m i l').

Definition read_msg (o : memory_order) (l : loc) (ts : nat) (m : memory) (tv : tview)
  : option (val * tview) :=
  match hist m l !! ts with
  | None => None
  | Some msg =>
      if (cur tv (At l) <=? ts)%nat then
        let V := vjoin (mview msg) (vsingle (At l) ts) in
        Some (mval msg,
              TV (vjoin (cur tv) (if has_acquire o then V else vsingle (At l) ts))
                 (vjoin (acq tv) V) (rel tv))
      else None
  end.

Definition write_msg (base : view) (o : memory_order) (l : loc) (v : val)
    (m : memory) (tv : tview) : tview * memory :=
  let V := vsingle (At l) (length (hist m l)) in
  let tv' := TV (vjoin (cur tv) V) (vjoin (acq tv) V) (rel tv) in
  let pub := if has_release o then cur tv' else vjoin (rel tv) V in
  (tv', append m l (Msg v (vjoin base pub))).

Definition do_fence (o : memory_order) (tv : tview) : tview :=
  let c := if has_acquire o then vjoin (cur tv) (acq tv) else cur tv in
  TV c (vjoin (acq tv) c) (if has_release o then c else rel tv).

(** The thread's view contains the newest message of the location. *)
Definition sees_last (l : loc) (tv : tview) (m : memory) : bool :=
  (length (hist m l) <=? S (cur tv (At l)))%nat.

(** ... and every plain read of it by the [nt] threads. *)
Definition sees_reads (nt : nat) (l : loc) (tv : tview) (m : memory) : bool :=
  forallb (fun i => (reads m i l <=? cur tv (Rd i l))%nat) (seq 0 nt).

(** One step of thread [tid]; [ch] is the nondeterministic choice: the
    timestamp a load reads, the outcome of a weak compare-exchange. *)
Definition tstep (nt tid ch : nat) {A : Type} (p : prog loc val A) (tv : tview) (m : memory)
  : option (prog loc val A * tview * memory) :=
  match p with
  | Ret _ => None
  | Load l o k =>
      match read_msg o l ch m tv with
      | Some (v, tv') => Some (k v, tv', m)
      | None => None
      end
  | Store l v o k => let '(tv', m') := write_msg vbot o l v m tv in Some (k, tv', m')
  | Fence o k => Some (k, do_fence o tv, m)
  | FetchUpd l f o k =>
      match read_msg o l (pred (length (hist m l))) m tv with
      | Some (v, tv') =>
          let base := match last (hist m l) with Some msg => mview msg | None => vbot end in
          let '(tv'', m') := write_msg base o l (f v) m tv' in
          Some (k v, tv'', m')
      | None => None
      end
  | CasWeak l e d o k =>
      match read_msg o l ch m tv with
      | Some (v, tv') =>
          if decide (v = e /\ S ch = length (hist m l)) then
            let base := match last (hist m l) with Some msg => mview msg | None => vbot end in
            let '(tv'', m') := write_msg base o l d m tv' in
            Some (k true v, tv'', m')
          else Some (k false v, tv', m)
      | None => None
      end
  | NaLoad l k =>
      match last (hist m l) with
      | Some msg =>
          if sees_last l tv m then
            let V := vsingle (Rd tid l) (S (reads m tid l)) in
            Some (k (mval msg), TV (vjoin (cur tv) V) (vjoin (acq tv) V) (rel tv),
                  add_read m tid l)
          else None
      | None => None
      end
  | NaStore l v k =>
      if sees_last l tv m && sees_reads nt l tv m then
        let V := vsingle (At l) (length (hist m l)) in
        Some (k, TV (vjoin (cur tv) V) (vjoin (acq tv) V) (rel tv), append m l (Msg v vbot))
      else None
  | Loop body k => Some (unroll body k, tv, m)
  end.

(** The next access of the program is a data race. *)
Definition racing (nt : nat) {A : Type} (p : prog loc val A) (tv : tview) (m : memory) : bool :=
  match p with
  | NaLoad l _ => negb (sees_last l tv m)
  | NaStore l _ _ => negb (sees_last l tv m && sees_reads nt l tv m)
  | _ => false
  end.

(** ** Configurations: a pool of threads over one memory *)

Record config (R : Type) := Cfg { threads : list (prog loc val R * tview); mem : memory }.
Arguments Cfg {R} threads mem.
Arguments threads {R} c.
Arguments mem {R} c.

(** An action names the thread that moves and its choice. *)
Definition exec {R} (c : config R) (a : nat * nat) : option (config R) :=
  match threads c !! fst a with
  | Some (p, tv) =>
      match tstep (length (threads c)) (fst a) (snd a) p tv (mem c) with
      | Some (p', tv', m') => Some (Cfg (<[fst a := (p', tv')]> (threads c)) m')
      | None => None
      end
  | None => None
  end.

Definition cstep {R} (c c' : config R) : Prop := exists a, exec c a = Some c'.

(** Runs a schedule: the executable form of a run. *)
Fixpoint run {R} (c : config R) (sched : list (nat * nat)) : option (config R) :=
  match sched with
  | [] => Some c
  | a :: sched => match exec c a with Some c' => run c' sched | None => None end
  end.

Lemma run_rtc {R} (c c' : config R) sched : run c sched = Some c' -> rtc cstep c c'.
Proof.
  revert c; induction sched as [|a sched IH]; intros c; cbn; [intros [= ->]; constructor|].
  destruct (exec c a) as [c1|] eqn:E; [|done]. intros H.
  econstructor; [exists a; exact E|]. eauto.
Qed.

(** The result of thread [i], once it has one. *)
Definition thread_result {R} (i : nat) (c : config R) : option R :=
  match threads c !! i with Some (Ret r, _) => Some r | _ => None end.

(** A computed schedule that ends with a result is a run that ends with it. *)
Lemma run_result {R} (c : config R) sched i r :
  (run c sched ≫= thread_result i) = Some r ->
  exists c' tv, rtc cstep c c' /\ threads c' !! i = Some (Ret r, tv).
Proof.
  destruct (run c sched) as [c'|] eqn:E; [|done]. cbn. unfold thread_result.
  destruct (threads c' !! i) as [[p tv]|] eqn:Ht; [|done]. destruct p; try done.
  intros [= ->]. exists c', tv. split; [by eapply run_rtc|done].
Qed.

Definition racy {R} (c : config R) : Prop :=
  exists tid p tv, threads c !! tid = Some (p, tv) /\
                   racing (length (threads c)) p tv (mem c) = true.

End Machine.

Arguments vloc : clear implicits.
Arguments view : clear implicits.
Arguments message : clear implicits.
Arguments memory : clear implicits.
Arguments tview : clear implicits.
Arguments config : clear implicits.
Arguments Cfg {loc val R} threads mem.
Arguments threads {loc val R} c.
Arguments mem {loc val R} c.

(** ** Memory growth *)

Section Growth.
Context {loc val : Type} `{EqDecision loc, EqDecision val}.
Local Abbreviation memory := (memory loc val).
Local Abbreviation tview := (tview loc).

Definition mem_le (m m' : memory) : Prop :=
  (forall l, hist m l `prefix_of` hist m' l) /\ (forall i l, reads m i l <= reads m' i l).

#[global] Instance mem_le_preorder : PreOrder mem_le.
Proof.
  split.
  - intros m; split; auto.
  - intros m1 m2 m3 [H1 H1'] [H2 H2']; split; [intros l; etrans; eauto|].
    intros i l; specialize (H1' i l); specialize (H2' i l); lia.
Qed.

Lemma mem_le_append (m : memory) l msg : mem_le m (append m l msg).
Proof.
  split; [|done]. intros l'; cbn. case_decide; [subst|done]. by eexists.
Qed.

Lemma mem_le_add_read (m : memory) i l : mem_le m (add_read m i l).
Proof. split; [done|]. intros j l'; cbn. case_decide; lia. Qed.

Lemma mem_le_lookup (m m' : memory) l t msg :
  mem_le m m' -> hist m l !! t = Some msg -> hist m' l !! t = Some msg.
Proof. intros [H _] Ht. eapply prefix_lookup_Some; eauto. Qed.

Lemma mem_le_length (m m' : memory) l : mem_le m m' -> length (hist m l) <= length (hist m' l).
Proof. intros [H _]. by apply prefix_length. Qed.

Lemma hist_append (m : memory) l l' msg :
  hist (append m l msg) l' = if decide (l' = l) then hist m l' ++ [msg] else hist m l'.
Proof. cbn. case_decide; congruence. Qed.

Lemma hist_append_eq (m : memory) l msg : hist (append m l msg) l = hist m l ++ [msg].
Proof. rewrite hist_append. by rewrite decide_True. Qed.

Lemma hist_append_ne (m : memory) l l' msg : l' <> l -> hist (append m l msg) l' = hist m l'.
Proof. intros. rewrite hist_append. by rewrite decide_False. Qed.

(** What every read gives: the message, and the thread's new view. *)
Lemma read_msg_spec o l ts (m : memory) (tv : tview) v tv' :
  read_msg o l ts m tv = Some (v, tv') ->
  exists msg, hist m l !! ts = Some msg /\ mval msg = v /\ cur tv (At l) <= ts /\
    vle (cur tv) (cur tv') /\ vle (acq tv) (acq tv') /\ rel tv' = rel tv /\
    ts <= cur tv' (At l) /\ vle (mview msg) (acq tv') /\ ts <= acq tv' (At l) /\
    (has_acquire o = true -> vle (mview msg) (cur tv')) /\
    tv' = TV (vjoin (cur tv) (if has_acquire o then vjoin (mview msg) (vsingle (At l) ts)
                              else vsingle (At l) ts))
             (vjoin (acq tv) (vjoin (mview msg) (vsingle (At l) ts))) (rel tv).
Proof.
  unfold read_msg. destruct (hist m l !! ts) as [msg|] eqn:E; [|done].
  destruct (_ <=? _)%nat eqn:Hle; [|done]. intros [= <- <-]. exists msg.
  apply Nat.leb_le in Hle.
  repeat apply conj; try done; try (intros x; unfold vjoin; cbn; lia); cbn.
  - unfold vjoin. destruct (has_acquire o); unfold vjoin; rewrite vsingle_eq; lia.
  - unfold vjoin. rewrite vsingle_eq; lia.
  - intros ->. intros x. unfold vjoin; lia.
Qed.

Lemma read_msg_exists o l ts (m : memory) (tv : tview) msg :
  hist m l !! ts = Some msg -> cur tv (At l) <= ts ->
  exists tv', read_msg o l ts m tv = Some (mval msg, tv').
Proof.
  intros H Hle. unfold read_msg. rewrite H. replace (_ <=? _)%nat with true; [by eexists|].
  symmetry; by apply Nat.leb_le.
Qed.

End Growth.

(** ** Rely-guarantee logic

    [owns tid l]: only thread [tid] writes [l].  [inv] is the memory invariant.
    [wp tid p Q tv m]: from view [tv], in any memory the other threads may have
    extended [m] to, [p] preserves [inv], does not race, and ends in [Q]. *)

Section Logic.
Context {loc val : Type} `{EqDecision loc, EqDecision val}.
Context (nt : nat) (owns : nat -> loc -> Prop) (inv : memory loc val -> Prop).
Local Abbreviation memory := (memory loc val).
Local Abbreviation tview := (tview loc).

Definition rely (tid : nat) (m m' : memory) : Prop :=
  mem_le m m' /\ (forall l, owns tid l -> hist m' l = hist m l) /\
  (forall l, reads m' tid l = reads m tid l).

Definition may_write (tid : nat) (l : loc) : Prop := forall i, owns i l -> i = tid.

#[global] Instance rely_preorder tid : PreOrder (rely tid).
Proof.
  split.
  - intros m; split; [reflexivity|done].
  - intros m1 m2 m3 (H1 & H2 & H3) (H4 & H5 & H6). split; [by etrans|].
    split; intros; [rewrite H5, H2 | rewrite H6, H3]; auto.
Qed.

Lemma rely_le tid m m' : rely tid m m' -> mem_le m m'.
Proof. by intros []. Qed.

Fixpoint wp (tid : nat) {A : Type} (p : prog loc val A) (Q : A -> tview -> memory -> Prop)
    (tv : tview) (m : memory) : Prop :=
  match p with
  | Ret a => exists m0, rely tid m0 m /\ Q a tv m0
  | Load l o k =>
      forall m', rely tid m m' -> inv m' -> forall ts v tv',
        read_msg o l ts m' tv = Some (v, tv') -> wp tid (k v) Q tv' m'
  | Store l v o k =>
      forall m', rely tid m m' -> inv m' ->
        may_write tid l /\
        inv (write_msg vbot o l v m' tv).2 /\
        wp tid k Q (write_msg vbot o l v m' tv).1 (write_msg vbot o l v m' tv).2
  | Fence o k => wp tid k Q (do_fence o tv) m
  | FetchUpd l f o k =>
      forall m', rely tid m m' -> inv m' ->
        may_write tid l /\ forall msg tv',
        last (hist m' l) = Some msg ->
        read_msg o l (pred (length (hist m' l))) m' tv = Some (mval msg, tv') ->
        let w := write_msg (mview msg) o l (f (mval msg)) m' tv' in
        inv w.2 /\ wp tid (k (mval msg)) Q w.1 w.2
  | CasWeak l e d o k =>
      forall m', rely tid m m' -> inv m' ->
        may_write tid l /\ forall ts v tv',
        read_msg o l ts m' tv = Some (v, tv') ->
        wp tid (k false v) Q tv' m' /\
        forall msg, last (hist m' l) = Some msg -> S ts = length (hist m' l) -> v = e ->
          let w := write_msg (mview msg) o l d m' tv' in
          inv w.2 /\ wp tid (k true v) Q w.1 w.2
  | NaLoad l k =>
      forall m', rely tid m m' -> inv m' ->
        sees_last l tv m' = true /\ forall msg, last (hist m' l) = Some msg ->
        let V := vsingle (Rd tid l) (S (reads m' tid l)) in
        inv (add_read m' tid l) /\
        wp tid (k (mval msg)) Q (TV (vjoin (cur tv) V) (vjoin (acq tv) V) (rel tv))
           (add_read m' tid l)
  | NaStore l v k =>
      forall m', rely tid m m' -> inv m' ->
        may_write tid l /\ sees_last l tv m' = true /\ sees_reads nt l tv m' = true /\
        let V := vsingle (At l) (length (hist m' l)) in
        inv (append m' l (Msg v vbot)) /\
        wp tid k Q (TV (vjoin (cur tv) V) (vjoin (acq tv) V) (rel tv))
           (append m' l (Msg v vbot))
  | Loop body k =>
      exists J : tview -> memory -> Prop, J tv m /\ forall tv m, J tv m ->
        wp tid body
           (fun r tv m => match r with Some b => wp tid (k b) Q tv m | None => J tv m end) tv m
  end.

Lemma wp_mono tid {A} (p : prog loc val A) (Q Q' : A -> tview -> memory -> Prop) tv m :
  (forall a tv m, Q a tv m -> Q' a tv m) -> wp tid p Q tv m -> wp tid p Q' tv m.
Proof.
  revert Q Q' tv m; induction p; intros Q Q' tv m HQ Hp; cbn in *; eauto.
  - destruct Hp as (m0 & ? & ?); eauto.
  - intros m' Hr Hi. destruct (Hp m' Hr Hi) as (? & ? & ?). eauto.
  - intros m' Hr Hi. destruct (Hp m' Hr Hi) as (? & Hp'). split; [done|].
    intros msg tv' Hl Hrd. destruct (Hp' msg tv' Hl Hrd). eauto.
  - intros m' Hr Hi. destruct (Hp m' Hr Hi) as (? & Hp'). split; [done|].
    intros ts v tv' Hrd. destruct (Hp' ts v tv' Hrd) as [Hf Ht]. split; [eauto|].
    intros msg Hl Hts Hv. destruct (Ht msg Hl Hts Hv). eauto.
  - intros m' Hr Hi. destruct (Hp m' Hr Hi) as (? & Hp'). split; [done|].
    intros msg Hl. destruct (Hp' msg Hl). eauto.
  - intros m' Hr Hi. destruct (Hp m' Hr Hi) as (? & ? & ? & ? & ?). eauto 10.
  - destruct Hp as (J & HJ & Hb). exists J; split; [done|].
    intros tv' m' HJ'. eapply IHp; [|apply Hb, HJ']. intros [b|] ? ?; cbn; eauto.
Qed.

Lemma wp_stable tid {A} (p : prog loc val A) (Q : A -> tview -> memory -> Prop) tv m m' :
  rely tid m m' -> wp tid p Q tv m -> wp tid p Q tv m'.
Proof.
  revert Q tv m m'; induction p; intros Q tv m m' Hr Hp; cbn in *;
    try (intros m'' Hr'; apply Hp; by etrans); eauto.
  - destruct Hp as (m0 & ? & ?). exists m0; split; [by etrans|done].
  - destruct Hp as (J & HJ & Hb).
    exists (fun tv m' => exists m, rely tid m m' /\ J tv m); split; [by exists m|].
    intros tv1 m1 (m0 & Hr0 & HJ0). eapply IHp; [done|].
    eapply wp_mono; [|apply Hb, HJ0]. intros [b|] tv2 m2; cbn; [done|].
    intros HJ2. exists m2; split; [reflexivity|done].
Qed.

Lemma wp_bind tid {A C} (p : prog loc val A) (f : A -> prog loc val C)
    (Q : C -> tview -> memory -> Prop) tv m :
  wp tid p (fun a tv m => wp tid (f a) Q tv m) tv m -> wp tid (pbind p f) Q tv m.
Proof.
  revert C f Q tv m; induction p; intros C kf Q tv m Hp; cbn in *; eauto.
  - destruct Hp as (m0 & ? & ?). by eapply wp_stable.
  - intros m' Hr Hi. destruct (Hp m' Hr Hi) as (? & ? & ?). eauto.
  - intros m' Hr Hi. destruct (Hp m' Hr Hi) as (? & Hp'). split; [done|].
    intros msg tv' Hl Hrd. destruct (Hp' msg tv' Hl Hrd). eauto.
  - intros m' Hr Hi. destruct (Hp m' Hr Hi) as (? & Hp'). split; [done|].
    intros ts v tv' Hrd. destruct (Hp' ts v tv' Hrd) as [Hf Ht]. split; [eauto|].
    intros msg Hl Hts Hv. destruct (Ht msg Hl Hts Hv). eauto.
  - intros m' Hr Hi. destruct (Hp m' Hr Hi) as (? & Hp'). split; [done|].
    intros msg Hl. destruct (Hp' msg Hl). eauto.
  - intros m' Hr Hi. destruct (Hp m' Hr Hi) as (? & ? & ? & ? & ?). eauto 10.
  - destruct Hp as (J & HJ & Hb). exists J; split; [done|].
    intros tv' m' HJ'. eapply wp_mono; [|apply Hb, HJ'].
    intros [b|] tv2 m2; cbn; [|done]. eauto.
Qed.

Lemma wp_ret tid {A} (a : A) (Q : A -> tview -> memory -> Prop) tv m :
  Q a tv m -> wp tid (Ret a) Q tv m.
Proof. intros; exists m; split; [reflexivity|done]. Qed.

(** For a postcondition that other threads' steps keep, the memory a program
    ends in extends the one it started from. *)
Lemma wp_keep tid {A} (p : prog loc val A) m0 (Q : A -> tview -> memory -> Prop) tv m :
  (forall a tv m m', rely tid m m' -> Q a tv m -> Q a tv m') ->
  mem_le m0 m -> wp tid p Q tv m -> wp tid p (fun a tv m => mem_le m0 m /\ Q a tv m) tv m.
Proof.
  assert (forall m1 m', rely tid m1 m' -> mem_le m0 m1 -> mem_le m0 m') as Hk
    by (intros ? ? []; intros; by etrans).
  assert (forall m1 l msg, mem_le m0 m1 -> mem_le m0 (append m1 l msg)) as Hka
    by (intros; etrans; [eassumption|apply mem_le_append]).
  assert (forall m1 i l, mem_le m0 m1 -> mem_le m0 (add_read m1 i l)) as Hkr
    by (intros; etrans; [eassumption|apply mem_le_add_read]).
  revert Q tv m; induction p; intros Q tv m HQ Hm Hp; cbn in *; eauto.
  - destruct Hp as (m1 & Hr & HQ1). exists m. split; [reflexivity|]. split; [done|]. eauto.
  - intros m' Hr Hi. destruct (Hp m' Hr Hi) as (? & ? & ?). eauto 10.
  - intros m' Hr Hi. destruct (Hp m' Hr Hi) as (? & Hp'). split; [done|].
    intros msg tv' Hl Hrd. destruct (Hp' msg tv' Hl Hrd). eauto 10.
  - intros m' Hr Hi. destruct (Hp m' Hr Hi) as (? & Hp'). split; [done|].
    intros ts v tv' Hrd. destruct (Hp' ts v tv' Hrd) as [Hf Ht]. split; [eauto|].
    intros msg Hl Hts Hv. destruct (Ht msg Hl Hts Hv). eauto 10.
  - intros m' Hr Hi. destruct (Hp m' Hr Hi) as (? & Hp'). split; [done|].
    intros msg Hl. destruct (Hp' msg Hl). eauto 10.
  - intros m' Hr Hi. destruct (Hp m' Hr Hi) as (? & ? & ? & ? & ?). eauto 10.
  - destruct Hp as (J & HJ & Hb).
    exists (fun tv m' => mem_le m0 m' /\ exists m, rely tid m m' /\ J tv m).
    split; [split; [done|by exists m]|]. intros tv1 m1 (Hm1 & m2 & Hr2 & HJ2).
    eapply wp_mono; [|apply (IHp (fun r tv m => match r with
        | Some b => wp tid (k b) Q tv m
        | None => exists m', rely tid m' m /\ J tv m' end)); [|exact Hm1|]].
    + intros [b|] tv3 m3 [Hm3 Hq]; cbn; [by apply H|done].
    + intros [b|] tv3 m3 m4 Hr; [by apply wp_stable|].
      intros (m5 & ? & ?). exists m5; split; [by etrans|done].
    + eapply wp_mono; [|eapply wp_stable; [exact Hr2|apply Hb, HJ2]].
      intros [b|] tv3 m3; cbn; [done|]. intros; exists m3; split; [reflexivity|done].
Qed.

(** A loop: an invariant [J] that every iteration re-establishes or leaves. *)
Lemma wp_forever tid {B} (body : prog loc val (option B)) (J : tview -> memory -> Prop)
    (Q : B -> tview -> memory -> Prop) tv m :
  J tv m ->
  (forall tv m, J tv m ->
     wp tid body (fun r tv m => match r with Some b => Q b tv m | None => J tv m end) tv m) ->
  wp tid (forever body) Q tv m.
Proof.
  intros HJ Hb. exists J; split; [done|]. intros tv' m' HJ'.
  eapply wp_mono; [|apply Hb, HJ']. intros [b|] ? ?; cbn; [|done].
  intros; by apply wp_ret.
Qed.

(** *** Soundness *)

(** A step keeps the invariant and the thread's [wp], and leaves the others'
    locations and read counters alone. *)
Lemma rely_append i tid (m : memory) l msg :
  may_write tid l -> i <> tid -> rely i m (append m l msg).
Proof.
  intros Hw Hi. split; [apply mem_le_append|]. split; [|done].
  intros l' Ho. rewrite hist_append. case_decide; [subst|done].
  exfalso. apply Hi. by apply Hw.
Qed.

Lemma rely_add_read i tid (m : memory) l : i <> tid -> rely i m (add_read m tid l).
Proof.
  intros Hi. split; [apply mem_le_add_read|]. split; [done|].
  intros l'; cbn. case_decide; [naive_solver|done].
Qed.

Lemma tstep_wp tid ch {A} (p : prog loc val A) (Q : A -> tview -> memory -> Prop)
    tv m p' tv' m' :
  wp tid p Q tv m -> inv m -> tstep nt tid ch p tv m = Some (p', tv', m') ->
  inv m' /\ wp tid p' Q tv' m' /\ (forall i, i <> tid -> rely i m m').
Proof.
  intros Hp Hi Hs. destruct p; cbn in Hs; cbn in Hp; try done;
    try (destruct (Hp m ltac:(reflexivity) Hi) as (Hw & Hp')).
  - destruct (read_msg o l ch m tv) as [[v tv1]|] eqn:E; [|done]. injection Hs as <- <- <-.
    split_and!; [done | by eapply Hp; eauto; reflexivity | reflexivity].
  - destruct Hp' as [Hp1 Hp2]. injection Hs as <- <- <-.
    split_and!; [done|done|]. intros. by eapply rely_append.
  - injection Hs as <- <- <-. split_and!; [done..|reflexivity].
  - destruct (read_msg o l _ m tv) as [[v tv1]|] eqn:E; [|done].
    destruct (read_msg_spec _ _ _ _ _ _ _ E) as (msg & Hmsg & Hv & _).
    assert (last (hist m l) = Some msg) as Hl by (by rewrite last_lookup).
    rewrite Hl in Hs. subst v. destruct (Hp' msg tv1 Hl eq_refl) as [Hp1 Hp2].
    injection Hs as <- <- <-. split_and!; [done|done|]. intros. by eapply rely_append.
  - destruct (read_msg o l ch m tv) as [[v tv1]|] eqn:E; [|done].
    destruct (Hp' _ _ _ E) as [Hf Ht]. case_decide as Hd.
    + destruct Hd as [-> Hd].
      destruct (read_msg_spec _ _ _ _ _ _ _ E) as (msg & Hmsg & Hv & _).
      assert (last (hist m l) = Some msg) as Hl by (by rewrite last_lookup, <- Hd).
      rewrite Hl in Hs. destruct (Ht msg Hl Hd eq_refl) as [Hp1 Hp2].
      injection Hs as <- <- <-. split_and!; [done|done|]. intros. by eapply rely_append.
    + injection Hs as <- <- <-. split_and!; [done..|reflexivity].
  - destruct (last (hist m l)) as [msg|] eqn:Hl; [|done]. rewrite Hw in Hs.
    destruct (Hp' msg eq_refl) as [Hp1 Hp2]. injection Hs as <- <- <-.
    split_and!; [done|done|]. intros. by apply rely_add_read.
  - destruct Hp' as (H1 & H2 & Hp1 & Hp2). rewrite H1, H2 in Hs. injection Hs as <- <- <-.
    split_and!; [done|done|]. intros. by eapply rely_append.
  - injection Hs as <- <- <-. split_and!; [done| |reflexivity].
    destruct Hp as (J & HJ & Hb). apply wp_bind. eapply wp_mono; [|apply Hb, HJ].
    intros [b|] tv1 m1; cbn; [done|]. intros. by exists J.
Qed.

Lemma wp_not_racing tid {A} (p : prog loc val A) (Q : A -> tview -> memory -> Prop) tv m :
  wp tid p Q tv m -> inv m -> racing nt p tv m = false.
Proof.
  intros Hp Hi. destruct p; cbn; try done; cbn in Hp;
    destruct (Hp m ltac:(reflexivity) Hi) as (Hw & Hp').
  - by rewrite Hw.
  - destruct Hp' as (-> & -> & _). done.
Qed.

Context {R : Type} (Q : nat -> R -> tview -> memory -> Prop).

Definition cfg_ok (c : config loc val R) : Prop :=
  length (threads c) = nt /\ inv (mem c) /\
  forall tid p tv, threads c !! tid = Some (p, tv) -> wp tid p (Q tid) tv (mem c).

Lemma cstep_ok (c c' : config loc val R) : cfg_ok c -> cstep c c' -> cfg_ok c'.
Proof.
  intros (Hn & Hi & Ht) ([tid ch] & He). unfold exec in He; cbn in He.
  destruct (threads c !! tid) as [[p tv]|] eqn:Hl; [|done].
  destruct (tstep _ tid ch p tv (mem c)) as [[[p' tv'] m']|] eqn:Es; [|done].
  injection He as <-. rewrite Hn in Es.
  destruct (tstep_wp _ _ _ _ _ _ _ _ _ (Ht _ _ _ Hl) Hi Es) as (Hi' & Hp' & Hr).
  split_and!; cbn; [by rewrite length_insert|done|].
  intros i q tvq. destruct (decide (i = tid)) as [->|Hne].
  - rewrite list_lookup_insert_eq by (by eapply lookup_lt_Some). by intros [= <- <-].
  - rewrite list_lookup_insert_ne by done. intros Hq. eapply wp_stable; eauto.
Qed.

(** Every reachable configuration satisfies the invariant, no access races, and
    every finished thread's result satisfies its postcondition. *)
Lemma wp_sound (c c' : config loc val R) :
  cfg_ok c -> rtc cstep c c' ->
  inv (mem c') /\ ~ racy c' /\
  forall tid r tv, threads c' !! tid = Some (Ret r, tv) ->
    exists m0, rely tid m0 (mem c') /\ Q tid r tv m0.
Proof.
  intros Hc Hr. assert (cfg_ok c') as (Hn & Hi & Ht).
  { induction Hr as [|c1 c2 c3 Hs _ IH]; [done|]. eauto using cstep_ok. }
  split_and!; [done| |].
  - intros (tid & p & tv & Hl & Hrc). rewrite Hn in Hrc.
    rewrite (wp_not_racing tid p (Q tid) tv (mem c')) in Hrc; [done| |done]. eauto.
  - intros tid r tv Hl. apply (Ht _ _ _ Hl).
Qed.

End Logic.

(** ** Sequential meaning

    One thread alone over a flat memory.  [fuel] bounds the iterations of each
    loop; the rest is structural. *)

Section Sequential.
Context {loc val : Type} `{EqDecision loc, EqDecision val}.

Definition upd (s : loc -> val) (l : loc) (v : val) : loc -> val :=
  fun l' => if decide (l' = l) then v else s l'.

Fixpoint srun (fuel : nat) {A : Type} (p : prog loc val A) (s : loc -> val)
  : option (A * (loc -> val)) :=
  match p with
  | Ret a => Some (a, s)
  | Load l _ k | NaLoad l k => srun fuel (k (s l)) s
  | Store l v _ k | NaStore l v k => srun fuel k (upd s l v)
  | Fence _ k => srun fuel k s
  | FetchUpd l f _ k => srun fuel (k (s l)) (upd s l (f (s l)))
  | CasWeak l e d _ k =>
      if decide (s l = e) then srun fuel (k true (s l)) (upd s l d)
      else srun fuel (k false (s l)) s
  | Loop body k =>
      (fix iter (n : nat) (s : loc -> val) : option (A * (loc -> val)) :=
         match n with
         | O => None
         | S n =>
             match srun fuel body s with
             | Some (Some b, s') => srun fuel (k b) s'
             | Some (None, s') => iter n s'
             | None => None
             end
         end) fuel s
  end.

Lemma srun_bind fuel {A B} (p : prog loc val A) (f : A -> prog loc val B) s :
  srun fuel (pbind p f) s =
  match srun fuel p s with Some (a, s') => srun fuel (f a) s' | None => None end.
Proof.
  revert B f s; induction p as [| | | | | | | |A B body IHb k IHk]; intros C g s; cbn; auto.
  - case_decide; auto.
  - assert (forall n s,
      (fix iter (n : nat) (s : loc -> val) := match n with O => None | S n =>
          match srun fuel body s with
          | Some (Some b, s') => srun fuel (pbind (k b) g) s'
          | Some (None, s') => iter n s' | None => None end end) n s =
      match (fix iter (n : nat) (s : loc -> val) := match n with O => None | S n =>
          match srun fuel body s with
          | Some (Some b, s') => srun fuel (k b) s'
          | Some (None, s') => iter n s' | None => None end end) n s with
      | Some (a, s') => srun fuel (g a) s' | None => None end) as H; [|apply H].
    induction n as [|n IHn]; intros s1; [done|].
    destruct (srun fuel body s1) as [[[b|] s2]|]; auto.
Qed.

(** A loop whose first iteration leaves needs one unit of fuel. *)
Lemma srun_forever_now fuel {B} (body : prog loc val (option B)) b s s' :
  srun (S fuel) body s = Some (Some b, s') -> srun (S fuel) (forever body) s = Some (b, s').
Proof. intros H. cbn in *. by rewrite H. Qed.

(** A loop whose iteration changes nothing and does not leave never returns. *)
Lemma srun_forever_stuck fuel fuel' {B} (body : prog loc val (option B)) s :
  fuel' = fuel -> srun fuel body s = Some (None, s) -> srun fuel' (forever body) s = None.
Proof.
  intros -> H. unfold forever. cbn.
  assert (forall n, (fix iter (n : nat) (s : loc -> val) : option (B * (loc -> val)) :=
      match n with O => None | S n =>
        match srun fuel body s with
        | Some (Some b, s') => Some (b, s') | Some (None, s') => iter n s' | None => None
        end end) n s = None) as Hn; [|apply Hn].
  induction n as [|n IH]; [done|]. by rewrite H.
Qed.

Lemma upd_eq s l v : upd s l v l = v.
Proof. unfold upd. by rewrite decide_True. Qed.
Lemma upd_ne s l l' v : l' <> l -> upd s l v l' = s l'.
Proof. intros. unfold upd. by rewrite decide_False. Qed.

End Sequential.
#[export] Hint Rewrite @upd_eq : xm_rew.
