(* ===== verification/Cyclic.v ===== *)
(** * Positions on a ring of cells

    Both lock-free cores put position [p] in cell [p mod N].  [nstores c j] counts
    the positions below [c] that fall in cell [j]; its lemmas are the laps
    arithmetic of the seqlock ring and of the SPSC queue. *)

From Stdlib Require Import ZArith Lia.
From stdpp Require Import base list numbers.
From S2P Require Import Prelude.

Section Cyclic.
Variable N : nat.
Hypothesis N_pos : (0 < N)%nat.

(** How many of the first [c] stores went to cell [j]. *)
Fixpoint nstores (c j : nat) : nat :=
  match c with
  | O => O
  | S c => nstores c j + (if decide (c mod N = j) then 1 else 0)
  end.

Lemma nstores_self c j : (j < N)%nat -> nstores (j + N * c) j = c /\
  forall d, (0 < d <= N)%nat -> nstores (j + N * c + d) j = S c.
Proof.
  intros Hj.
  assert (forall c0 d, (d <= N)%nat -> (forall e, (e < d)%nat -> (c0 + e) mod N <> j) ->
            nstores (c0 + d) j = nstores c0 j) as Hskip.
  { intros c0 d. induction d as [|d IH]; intros Hd He.
    - by rewrite Nat.add_0_r.
    - rewrite Nat.add_succ_r. cbn. rewrite IH by (auto with lia).
      rewrite decide_False by (apply He; lia). lia. }
  assert (forall c, nstores (j + N * c) j = c ->
     forall d, (0 < d <= N)%nat -> nstores (j + N * c + d) j = S c) as Hstep.
  { intros c' Hc d Hd. destruct d as [|d]; [lia|].
    replace (j + N * c' + S d) with (S (j + N * c') + d) by lia.
    rewrite Hskip; [| lia |].
    - cbn. rewrite Hc, decide_True; [lia|].
      rewrite Nat.mul_comm, Nat.Div0.mod_add. by apply Nat.mod_small.
    - intros e He. replace (S (j + N * c') + e) with ((j + S e) + c' * N) by lia.
      rewrite Nat.Div0.mod_add. intros Heq.
      destruct (le_lt_dec N (j + S e)).
      + replace (j + S e) with ((j + S e - N) + 1 * N) in Heq by lia.
        rewrite Nat.Div0.mod_add, Nat.mod_small in Heq by lia. lia.
      + rewrite Nat.mod_small in Heq by lia. lia. }
  assert (nstores (j + N * c) j = c) as Hc; [|split; auto].
  induction c as [|c IH].
  - replace (j + N * 0) with (0 + j) by lia. rewrite Hskip; [done|lia|].
    intros e He. cbn. rewrite Nat.mod_small by lia. lia.
  - replace (j + N * S c) with (j + N * c + N) by lia. apply Hstep; auto; lia.
Qed.

(** The next store's cell has had [c / N] stores. *)
Lemma nstores_mod c : nstores c (c mod N) = c / N.
Proof.
  pose proof (Nat.div_mod_eq c N) as E. pose proof (Nat.mod_upper_bound c N).
  rewrite E at 1. rewrite Nat.add_comm. apply nstores_self. lia.
Qed.

(** A completed store is counted. *)
Lemma nstores_done k c : k < c -> S (k / N) <= nstores c (k mod N).
Proof.
  intros Hk. induction c as [|c IH]; [lia|]. cbn.
  destruct (decide (k = c)) as [->|].
  - rewrite nstores_mod, decide_True; [lia|done].
  - specialize (IH ltac:(lia)). lia.
Qed.

Lemma nstores_le c j : nstores c j <= c.
Proof using N_pos. induction c; cbn; [lia|]. case_decide; lia. Qed.

Lemma nstores_mono c c' j : c <= c' -> nstores c j <= nstores c' j.
Proof using N_pos. induction 1; cbn; lia. Qed.

(** A cell with more than [S (p / N)] stores has had the store of [p + N]. *)
Lemma nstores_lap c p : S (p / N) < nstores c (p mod N) -> p + N < c.
Proof.
  intros H. destruct (le_lt_dec c (p + N)) as [Hc|]; [|done]. exfalso.
  pose proof (nstores_mono c (p + N) (p mod N) Hc). pose proof (Nat.div_mod_eq p N).
  destruct (nstores_self (S (p / N)) (p mod N)) as [E _]; [apply Nat.mod_upper_bound; lia|].
  replace (p mod N + N * S (p / N)) with (p + N) in E by lia. lia.
Qed.

(** No position of cell [t mod N] lies strictly between [t - N] and [t]. *)
Lemma nstores_gap t h : h <= t -> t < h + N -> nstores t (t mod N) = nstores h (t mod N).
Proof.
  intros H1 H2. apply Nat.le_antisymm; [|by apply nstores_mono].
  destruct (le_lt_dec (nstores t (t mod N)) (nstores h (t mod N))) as [|Hlt]; [done|exfalso].
  assert (forall c, h <= c <= t -> nstores c (t mod N) = nstores h (t mod N)) as Hc; [|rewrite (Hc t) in Hlt; lia].
  intros c. induction c as [|c IH]; intros Hc; [by replace h with 0 by lia|].
  destruct (decide (S c = h)) as [<-|]; [done|]. cbn. rewrite IH by lia.
  rewrite decide_False; [lia|]. intros E.
  pose proof (Nat.div_mod_eq c N). pose proof (Nat.div_mod_eq t N).
  assert (c / N < t / N) by nia. nia.
Qed.

End Cyclic.
