(* ===== verification/SeqlockRing.v ===== *)
(** * The seqlock overwrite ring (detail/seqlock_ring.hpp)

    The operations of [SeqlockRing<T, N>] as programs over the memory machine:
    same loads, stores, fences and memory orders, in the same order.  [T] is
    its byte image: a record of [sizeT] bytes. *)

From Stdlib Require Import ZArith Lia.
From stdpp Require Import base list numbers relations.
From S2P Require Import Prelude Memory.

Local Open Scope Z_scope.

(** The placed atomics: the [Header] cursor, and cell [n]'s sequence word,
    write index and payload words. *)
Inductive rloc :=
| WriteCount
| Seq (n : nat)
| Index (n : nat)
| Word (n i : nat).

#[global] Instance rloc_eq_dec : EqDecision rloc.
Proof. solve_decision. Defined.

(** [enum class LoadResult], with the value [LoadBounded] writes to [out]. *)
Inductive LoadResult :=
| kValue (out : bytes)
| kEmpty
| kStalled.

Section Ring.
Variable N : nat.        (* the depth: number of cells *)
Variable sizeT : nat.    (* sizeof(T) *)

Definition kDepth : nat := N.
Definition kWords : nat := ((sizeT + 8 - 1) / 8)%nat.

Definition rprog := prog rloc Z.

(** [cells_[pos % N]] *)
Definition cell_of (pos : Z) : nat := Z.to_nat (pos mod Z.of_nat N).

Fixpoint store_words (c i : nat) (staged : list Z) : rprog unit :=
  match staged with
  | [] => Ret tt
  | w :: staged => (store (Word c i) w relaxed ;;; store_words c (S i) staged)%prog
  end.

Fixpoint load_words (c i n : nat) : rprog (list Z) :=
  match n with
  | O => Ret []
  | S n => (let! w := load (Word c i) relaxed in
            let! ws := load_words c (S i) n in Ret (w :: ws))%prog
  end.

(** The constructor's initialization: zero cursor, zero cells. *)
Fixpoint init_cells (n : nat) : rprog unit :=
  match n with
  | O => Ret tt
  | S n' =>
      (init_cells n' ;;;
       store (Seq n') 0 relaxed ;;;
       store (Index n') 0 relaxed ;;;
       store_words n' 0 (repeat 0 kWords))%prog
  end.

Definition SeqlockRing_ctor (initialize : bool) : rprog unit :=
  if initialize then (store WriteCount 0 relaxed ;;; init_cells N)%prog else Ret tt.

Definition RStore (value : bytes) : rprog unit :=
  (let! idx := load WriteCount relaxed in
   let c := cell_of idx in
   let staged := words_of_bytes kWords value in
   let! s := load (Seq c) relaxed in
   store (Seq c) (u64 (s + 1)) relaxed ;;;          (* odd: in progress *)
   fence release ;;;                                (* W1 *)
   store (Index c) idx relaxed ;;;
   store_words c 0 staged ;;;
   store (Seq c) (u64 (s + 2)) release ;;;          (* W2 *)
   store WriteCount (u64 (idx + 1)) release)%prog.  (* W3 *)

(** The copy every reader makes of a cell after its first sequence load: the
    index, the words, the (R2) fence, the second sequence load. *)
Definition copy_cell (c : nat) : rprog (Z * list Z * Z) :=
  (let! idx := load (Index c) relaxed in
   let! staged := load_words c 0 kWords in
   fence acquire ;;;                                (* R2 *)
   let! s2 := load (Seq c) relaxed in
   Ret (idx, staged, s2))%prog.

Definition is_odd (s : Z) : bool := negb (Z.land s 1 =? 0).

(** One iteration of the [for (;;)] of [Load]: [None] is [continue],
    [Some None] is [return false], [Some (Some out)] is [return true]. *)
Definition Load_attempt : rprog (option (option bytes)) :=
  (let! c := load WriteCount acquire in             (* R0 *)
   if c =? 0 then Ret (Some None) else
   let cell := cell_of (u64 (c - 1)) in
   let! s1 := load (Seq cell) acquire in            (* R1 *)
   if s1 =? 0 then Ret (Some None) else
   if is_odd s1 then Ret None else
   let! r := copy_cell cell in
   let '(idx, staged, s2) := r in
   if negb (s2 =? s1) then Ret None else
   if negb (idx =? u64 (c - 1)) then Ret None else
   Ret (Some (Some (bytes_of_words sizeT staged))))%prog.

Definition RLoad : rprog (option bytes) := forever Load_attempt.

(** One iteration of [LoadBounded]'s loop: [None] is a bounded retry. *)
Definition LoadBounded_attempt : rprog (option LoadResult) :=
  (let! c := load WriteCount acquire in             (* R0 *)
   if c =? 0 then Ret (Some kEmpty) else
   let cell := cell_of (u64 (c - 1)) in
   let! s1 := load (Seq cell) acquire in            (* R1 *)
   if s1 =? 0 then Ret (Some kEmpty) else
   if is_odd s1 then Ret None else
   let! r := copy_cell cell in
   let '(idx, staged, s2) := r in
   if ((s2 =? s1) && (idx =? u64 (c - 1)))%bool
   then Ret (Some (kValue (bytes_of_words sizeT staged)))
   else Ret None)%prog.

Fixpoint attempts (n : nat) : rprog LoadResult :=
  match n with
  | O => Ret kStalled
  | S n => (let! r := LoadBounded_attempt in
            match r with Some res => Ret res | None => attempts n end)%prog
  end.

(** [for (uint32_t attempt = 0; attempt <= max_retries; ++attempt)]: at
    [max_retries = UINT32_MAX] the 32-bit counter never exceeds the bound and
    the loop has no other exit than a return. *)
Definition RLoadBounded (max_retries : Z) : rprog LoadResult :=
  if max_retries =? 2 ^ 32 - 1 then forever LoadBounded_attempt
  else attempts (S (Z.to_nat max_retries)).

(** The walk of [Snapshot]: [n] entries left, the [i]-th wanted position
    [c - 1 - i]; returns the entries taken, newest first. *)
Fixpoint snapshot_walk (c : Z) (i : nat) (n : nat) : rprog (list bytes) :=
  match n with
  | O => Ret []
  | S n =>
      let want := u64 (c - 1 - Z.of_nat i) in
      let cell := cell_of want in
      (let! s1 := load (Seq cell) acquire in        (* R1 *)
       if ((s1 =? 0) || is_odd s1)%bool then Ret [] else
       let! r := copy_cell cell in
       let '(idx, staged, s2) := r in
       if negb (s2 =? s1) then Ret [] else
       if negb (idx =? want) then Ret [] else
       let! rest := snapshot_walk c (S i) n in
       Ret (bytes_of_words sizeT staged :: rest))%prog
  end.

Definition RSnapshot (k : Z) : rprog (list bytes) :=
  (let! c := load WriteCount acquire in             (* R0 *)
   let limit := if c <? k then c else k in
   let limit := if Z.of_nat N <? limit then Z.of_nat N else limit in
   snapshot_walk c 0 (Z.to_nat limit))%prog.

Definition RRepairAfterWriterCrash : rprog unit :=
  (let! idx := load WriteCount relaxed in
   let c := cell_of idx in
   let! s := load (Seq c) relaxed in
   if is_odd s then store (Seq c) 0 release else Ret tt)%prog.

(** Placed bytes: [sizeof(Cell)], [sizeof(Header)], the region layout. *)
Definition RoundUpCacheLine (b : Z) : Z := align_up 64 b.
Definition CellBytes : Z := 8 + 8 + 8 * Z.of_nat kWords.
Definition HeaderBytes : Z := 8.
Definition StorageBytes : Z := RoundUpCacheLine (CellBytes * Z.of_nat N) + HeaderBytes.

End Ring.

#[global] Arguments kWords : simpl never.
#[global] Arguments cell_of : simpl never.
#[global] Arguments is_odd : simpl never.
