(* ===== verification/SeqlockWeak.v ===== *)
(** * The seqlock ring under the weak memory model

    One writer thread storing any sequence of values, any number of reader
    threads running [Load], [LoadBounded] and [Snapshot]: no torn copy ever
    validates, a validated copy carries exactly the wanted position, snapshots
    are strictly consecutive, and reads never go backwards.  The proof is the
    header comment's: pairs (W1)-(R2), (W2)-(R1), (W3)-(R0), and the
    lap-detection argument, as an invariant on message views. *)

From Stdlib Require Import ZArith Lia.
From stdpp Require Import base list numbers relations.
From S2P Require Import Prelude Memory Cyclic SeqlockRing.

(** What a client does and sees. *)
Inductive rop := OpLoad | OpAttempt | OpBounded (max_retries : Z) | OpSnapshot (k : nat).
Inductive robs :=
| ObsLoad (r : option bytes)
| ObsAttempt (r : option (option bytes))
| ObsBounded (r : LoadResult)
| ObsSnapshot (k : nat) (outs : list bytes).

Section Weak.
Variable N sizeT : nat.
Hypothesis N_pos : (0 < N)%nat.

Variable nt : nat.              (* number of threads; thread 0 is the writer *)
Variable vs : list bytes.       (* the values the writer stores, in order *)
Hypothesis vs_short : (Z.of_nat (length vs) < 2 ^ 63)%Z.

Local Abbreviation memory := (memory rloc Z).
Local Abbreviation tview := (tview rloc).
Local Abbreviation kW := (kWords sizeT).

(** The staged words of the value stored at position [k]. *)
Definition pos_words (k : nat) : list Z := words_of_bytes kW (default [] (vs !! k)).

Local Abbreviation nstores := (Cyclic.nstores N).

(** ** The invariant on messages *)

Record ring_inv (m : memory) : Prop := {
  (* a sequence word's n-th value is n; an even one publishes the cell (W2) *)
  inv_seq : forall j t msg, hist m (Seq j) !! t = Some msg ->
    mval msg = Z.of_nat t /\ t <= 2 * nstores (length vs) j /\
    forall n, t = 2 * n ->
      n <= mview msg (At (Index j)) /\ forall w, w < kW -> n <= mview msg (At (Word j w));
  (* index and words of the n-th store carry the odd sequence before them (W1) *)
  inv_idx : forall j n msg, hist m (Index j) !! S n = Some msg ->
    mval msg = Z.of_nat (j + N * n) /\ 2 * n + 1 <= mview msg (At (Seq j));
  inv_word : forall j w n msg, hist m (Word j w) !! S n = Some msg -> w < kW ->
    Some (mval msg) = pos_words (j + N * n) !! w /\ 2 * n + 1 <= mview msg (At (Seq j));
  (* the cursor's n-th value is n; it carries every completed cell (W3) *)
  inv_cnt : forall t msg, hist m WriteCount !! t = Some msg ->
    mval msg = Z.of_nat t /\ t <= length vs /\
    forall k, k < t -> 2 * S (k / N) <= mview msg (At (Seq (k mod N)))
}.

(** Thread 0 owns every location. *)
Definition owns (tid : nat) (l : rloc) : Prop := tid = 0.

Local Abbreviation rely := (rely owns).
Local Abbreviation wp := (wp nt owns ring_inv).

Definition tv_le (tv tv' : tview) : Prop :=
  vle (cur tv) (cur tv') /\ vle (acq tv) (acq tv').

#[local] Instance tv_le_preorder : PreOrder tv_le.
Proof. split; [intros tv; split; reflexivity | intros ? ? ? [] []; split; by etrans]. Qed.

(** *** Reader side *)

(** The invariant rules the values: positions and sequences fit in 64 bits. *)
Lemma Z_of_nat_u64 n : (n <= 2 * length vs)%nat -> u64 (Z.of_nat n) = Z.of_nat n.
Proof. intros. apply wrap_id. unfold in_width. lia. Qed.

Lemma cell_of_nat k : cell_of N (Z.of_nat k) = k mod N.
Proof. unfold cell_of. rewrite <- Nat2Z.inj_mod. apply Nat2Z.id. Qed.

Lemma is_odd_nat n : is_odd (Z.of_nat n) = Nat.odd n.
Proof.
  unfold is_odd. change 1%Z with (Z.ones 1). rewrite Z.land_ones by lia.
  change (2 ^ 1)%Z with (Z.of_nat 2). rewrite <- Nat2Z.inj_mod.
  rewrite <- Nat.negb_even. f_equal.
  destruct (Nat.even n) eqn:E.
  - apply Nat.even_spec in E as [q ->]. rewrite Nat.mul_comm, Nat.Div0.mod_mul. done.
  - assert (Nat.odd n = true) as O by (by rewrite <- Nat.negb_even, E).
    apply Nat.odd_spec in O as [q ->]. rewrite Nat.add_comm, Nat.mul_comm, Nat.Div0.mod_add. done.
Qed.

(** A reader's view at an index or word message forces the sequence it will
    see after its acquire fence. *)
Lemma wp_load_words tid j n (k0 : nat) (i : nat)
    (Q : list Z -> tview -> memory -> Prop) tv m :
  (i + k0 <= kW)%nat -> (1 <= n)%nat ->
  (forall w, w < kW -> n <= cur tv (At (Word j w))) ->
  (forall ws tv' m', rely tid m m' -> tv_le tv tv' -> length ws = k0 ->
     (forall q, q < k0 -> exists nw, n <= S nw /\ ws !! q = pos_words (j + N * nw) !! (i + q)
                                     /\ 2 * nw + 1 <= acq tv' (At (Seq j))) ->
     Q ws tv' m') ->
  wp tid (load_words j i k0) Q tv m.
Proof.
  intros Hi Hn. revert i Q tv m Hi.
  induction k0 as [|k0 IH]; intros i Q tv m Hi Hw HQ; cbn.
  - exists m. split; [reflexivity|]. apply HQ; [reflexivity..|done|]. lia.
  - intros m1 Hr1 Hinv ts v tv1 Hrd.
    apply read_msg_spec in Hrd as (msg & Hmsg & <- & Hts & Hc & Ha & _ & _ & Hmv & _).
    pose proof (Hw i ltac:(lia)) as Hwi. destruct ts as [|nw]; [lia|].
    destruct (inv_word _ Hinv _ _ _ _ Hmsg ltac:(lia)) as [Hval Hseq].
    apply wp_bind. apply IH; [lia| |].
    { intros w Hlt. etrans; [by apply Hw|apply Hc]. }
    intros ws tv2 m2 Hr2 [Hc2 Ha2] Hlen Hws. apply wp_ret.
    apply HQ; [by etrans|split; by etrans|cbn; lia|].
    intros [|q] Hq.
    + exists nw. rewrite Nat.add_0_r. split_and!; [lia|by symmetry|].
      etrans; [exact Hseq|]. etrans; [apply Hmv|apply Ha2].
    + destruct (Hws q ltac:(lia)) as (n' & ? & E & ?). exists n'.
      change ((mval msg :: ws) !! S q) with (ws !! q). rewrite E.
      replace (i + S q)%nat with (S i + q)%nat by lia. auto.
Qed.

(** A copy whose second sequence load returns the even value the first one
    did is the payload and index of one store; otherwise the sequence moved. *)
Lemma wp_copy_cell tid j n (Q : Z * list Z * Z -> tview -> memory -> Prop) tv m :
  (1 <= n)%nat -> 2 * n <= cur tv (At (Seq j)) -> n <= cur tv (At (Index j)) ->
  (forall w, w < kW -> n <= cur tv (At (Word j w))) ->
  (forall idx ws t2 tv' m', rely tid m m' -> ring_inv m' -> tv_le tv tv' ->
     2 * n <= t2 < length (hist m' (Seq j)) -> t2 <= 2 * length vs ->
     (t2 = 2 * n -> idx = Z.of_nat (j + N * (n - 1)) /\ ws = pos_words (j + N * (n - 1))) ->
     Q (idx, ws, Z.of_nat t2) tv' m') ->
  wp tid (copy_cell sizeT j) Q tv m.
Proof.
  intros Hn Hs Hi Hw HQ. unfold copy_cell. cbn.
  intros m1 Hr1 Hinv1 ti vi tv1 Hrd.
  apply read_msg_spec in Hrd as (mi & Hmi & <- & Hti & Hc1 & Ha1 & _ & _ & Hmvi & _).
  destruct ti as [|ni]; [lia|]. destruct (inv_idx _ Hinv1 _ _ _ Hmi) as [Hvi Hsi].
  apply wp_bind, (wp_load_words tid j n); [cbn; lia|lia| |].
  { intros w Hlt. etrans; [by apply Hw|apply Hc1]. }
  intros ws tv2 m2 Hr2 [Hc2 Ha2] Hlen Hws. cbn.
  intros m3 Hr3 Hinv3 t2 v2 tv3 Hrd3.
  apply read_msg_spec in Hrd3 as (msg2 & Hm2 & <- & Ht2 & Hc3 & Ha3 & _).
  cbn in Ht2, Hc3, Ha3. destruct (inv_seq _ Hinv3 _ _ _ Hm2) as (Hv2 & Hb2 & _).
  rewrite Hv2. exists m3; split; [reflexivity|].
  pose proof (nstores_le N N_pos (length vs) j). assert (t2 <= 2 * length vs) by lia.
  assert (2 * ni + 1 <= acq tv2 (At (Seq j))) as Hai.
  { etrans; [exact Hsi|]. etrans; [apply Hmvi|apply Ha2]. }
  unfold vjoin in Ht2. pose proof (Hc1 (At (Seq j))). pose proof (Hc2 (At (Seq j))).
  apply HQ; auto.
  - by do 2 (etrans; [eassumption|]).
  - split.
    + etrans; [exact Hc1|]. etrans; [exact Hc2|]. etrans; [|exact Hc3]. apply vjoin_l.
    + etrans; [exact Ha1|]. etrans; [exact Ha2|]. etrans; [|exact Ha3]. apply vjoin_l.
  - split; [lia|]. by eapply lookup_lt_Some.
  - intros ->. split.
    + rewrite Hvi. f_equal. replace ni with (n - 1) by lia. done.
    + apply list_eq. intros q. destruct (le_lt_dec kW q) as [Hq|Hq].
      * rewrite !lookup_ge_None_2; [done| |lia].
        unfold pos_words. rewrite length_words_of_bytes. lia.
      * destruct (Hws q Hq) as (nw & Hnw & -> & Hsw). cbn.
        replace nw with (n - 1) by lia. done.
Qed.

(** The value a validated copy of position [p] yields. *)
Definition payload (p : nat) : bytes := bytes_of_words sizeT (pos_words p).

(** A lap has reached position [p]'s cell: a store to it after [p]'s began. *)
Definition lapped (m : memory) (p : nat) : Prop :=
  2 * S (p / N) + 1 < length (hist m (Seq (p mod N))).

(** The view holds the completed publication of every position below [c]. *)
Definition knows (c : nat) (tv : tview) : Prop :=
  forall k, k < c -> 2 * S (k / N) <= cur tv (At (Seq (k mod N))).

Lemma knows_le c tv tv' : tv_le tv tv' -> knows c tv -> knows c tv'.
Proof. intros [Hc _] Hk k Hlt. etrans; [by apply Hk|apply Hc]. Qed.

Lemma lapped_le m m' p : mem_le m m' -> lapped m p -> lapped m' p.
Proof. unfold lapped. intros Hm Hl. pose proof (mem_le_length _ _ (Seq (p mod N)) Hm). lia. Qed.

Lemma wp_load_cursor tid (Q : Z -> tview -> memory -> Prop) tv m :
  (forall c tv' m', rely tid m m' -> tv_le tv tv' -> c <= length vs ->
     cur tv (At WriteCount) <= c <= cur tv' (At WriteCount) -> knows c tv' ->
     Q (Z.of_nat c) tv' m') ->
  wp tid (load WriteCount acquire) Q tv m.
Proof.
  intros HQ. cbn. intros m1 Hr1 Hinv t v tv1 Hrd.
  apply read_msg_spec in Hrd as (msg & Hmsg & <- & Ht & Hc & Ha & _ & Hct & _ & _ & Hacq & _).
  destruct (inv_cnt _ Hinv _ _ Hmsg) as (Hv & Hb & Hk). rewrite Hv.
  exists m1; split; [reflexivity|]. apply HQ; [done|by split|done|lia|].
  intros k Hlt. etrans; [by apply Hk|]. by apply Hacq.
Qed.

(** The first sequence load of the cell of a published position [p]: it cannot
    return zero; an even value makes the cell's copy consistent. *)
Lemma wp_load_seq tid p c (Q : Z -> tview -> memory -> Prop) tv m :
  knows c tv -> p < c ->
  (forall t tv' m', rely tid m m' -> ring_inv m' -> tv_le tv tv' ->
     2 * S (p / N) <= t < length (hist m' (Seq (p mod N))) -> t <= 2 * length vs ->
     t <= cur tv' (At (Seq (p mod N))) ->
     (forall n, t = 2 * n -> n <= cur tv' (At (Index (p mod N))) /\
        forall w, w < kW -> n <= cur tv' (At (Word (p mod N) w))) ->
     Q (Z.of_nat t) tv' m') ->
  wp tid (load (Seq (p mod N)) acquire) Q tv m.
Proof.
  intros Hk Hp HQ. cbn. intros m1 Hr1 Hinv t v tv1 Hrd.
  apply read_msg_spec in Hrd as (msg & Hmsg & <- & Ht & Hc & Ha & _ & Hct & _ & _ & Hacq & _).
  destruct (inv_seq _ Hinv _ _ _ Hmsg) as (Hv & Hb & He). rewrite Hv.
  pose proof (Hk p Hp). exists m1; split; [reflexivity|].
  pose proof (nstores_le N N_pos (length vs) (p mod N)).
  apply HQ; [done|done|by split|split; [lia|by eapply lookup_lt_Some]|lia|done|].
  intros n Hn. destruct (He n Hn) as [H1 H2]. specialize (Hacq eq_refl).
  split; [etrans; [exact H1|apply Hacq]|].
  intros w Hw. etrans; [by apply H2|apply Hacq].
Qed.

(** The copy of position [p]'s cell after an even first sequence [2 * n]. *)
Lemma wp_copy_position tid p n (Q : Z * list Z * Z -> tview -> memory -> Prop) tv m :
  S (p / N) <= n -> 2 * n <= cur tv (At (Seq (p mod N))) -> 2 * n <= 2 * length vs ->
  n <= cur tv (At (Index (p mod N))) ->
  (forall w, w < kW -> n <= cur tv (At (Word (p mod N) w))) ->
  (forall idx ws s2 tv' m', rely tid m m' -> tv_le tv tv' ->
     (s2 = Z.of_nat (2 * n) -> idx = Z.of_nat p -> ws = pos_words p) ->
     ((s2 = Z.of_nat (2 * n) /\ idx = Z.of_nat p) \/ lapped m' p) ->
     Q (idx, ws, s2) tv' m') ->
  wp tid (copy_cell sizeT (p mod N)) Q tv m.
Proof.
  intros Hp Hs Hb Hi Hw HQ. apply (wp_copy_cell tid (p mod N) n); auto; [lia|].
  intros idx ws t2 tv' m' Hr Hinv Htv Ht2 Hb2 Hval.
  pose proof (Nat.div_mod_eq p N) as Ep. unfold lapped in HQ.
  apply HQ; [done|done| |].
  - intros Et Eidx. assert (t2 = 2 * n) as Et2 by lia. destruct (Hval Et2) as [Hidx Hws].
    rewrite Hws. f_equal. lia.
  - destruct (decide (t2 = 2 * n)) as [Et2|]; [|right; lia].
    destruct (Hval Et2) as [Hidx Hws]. destruct (decide (n = S (p / N))) as [->|]; [|right; lia].
    left. split; [by rewrite Et2|]. rewrite Hidx. f_equal. lia.
Qed.

(** What every verb does at the cell of a published position [p], up to its
    own exits: [e] on a zero sequence, [o] on an odd one, [f] on the copy. *)
Lemma wp_read_position tid {A} p c (K : Z -> rprog A) (e o : rprog A)
    (f : Z -> Z * list Z * Z -> rprog A) (Q : A -> tview -> memory -> Prop) tv m :
  (forall s1, K s1 = if (s1 =? 0)%Z then e else if is_odd s1 then o
                     else pbind (copy_cell sizeT (p mod N)) (f s1)) ->
  knows c tv -> p < c ->
  (forall tv' m', rely tid m m' -> tv_le tv tv' -> lapped m' p -> wp tid o Q tv' m') ->
  (forall idx ws s1 s2 tv' m', rely tid m m' -> tv_le tv tv' ->
     (s2 = s1 -> idx = Z.of_nat p -> ws = pos_words p) ->
     ((s2 = s1 /\ idx = Z.of_nat p) \/ lapped m' p) ->
     wp tid (f s1 (idx, ws, s2)) Q tv' m') ->
  wp tid (pbind (load (Seq (p mod N)) acquire) K) Q tv m.
Proof.
  intros HK Hk Hp Ho Hf. apply wp_bind, (wp_load_seq tid p c); [done|done|].
  intros t tv2 m2 Hr2 Hinv2 Htv2 Ht Htb Htc Hev. rewrite HK.
  destruct (Z.of_nat t =? 0)%Z eqn:Et; zbool; [lia|]. rewrite is_odd_nat.
  destruct (Nat.odd t) eqn:Eo.
  { apply Ho; [done|done|]. unfold lapped. apply Nat.odd_spec in Eo as [q Hq]. lia. }
  rewrite <- Nat.negb_even in Eo. apply negb_false_iff, Nat.even_spec in Eo as [n Hn].
  destruct (Hev n Hn) as [Hni Hnw]. subst t.
  apply wp_bind, (wp_copy_position tid p n); [lia|lia|lia|done|done|].
  intros idx ws s2 tv3 m3 Hr3 Htv3 Hval Hlap.
  apply Hf; [by etrans|by etrans|done|done].
Qed.

(** One read attempt, whichever verb makes it. *)
Definition attempt_post (tv : tview) (out : option (option bytes)) (tv' : tview) (m' : memory) : Prop :=
  tv_le tv tv' /\ exists c, cur tv (At WriteCount) <= c <= cur tv' (At WriteCount) /\ c <= length vs /\
  match out with
  | Some (Some v) => exists p, c = S p /\ v = payload p
  | Some None => c = 0
  | None => 0 < c /\ lapped m' (c - 1)
  end.

Lemma u64_pred c : 0 < c <= length vs -> u64 (Z.of_nat c - 1) = Z.of_nat (c - 1).
Proof. intros. rewrite <- (Z_of_nat_u64 (c - 1)) by lia. f_equal. lia. Qed.

(** Closes an exit of an attempt that captured cursor [c]. *)
Local Ltac attempt_exit c :=
  apply wp_ret; split; [by etrans|]; exists c; split_and!; try lia; try done.

Lemma wp_Load_attempt tid tv m :
  wp tid (Load_attempt N sizeT) (attempt_post tv) tv m.
Proof.
  unfold Load_attempt. apply wp_bind, wp_load_cursor.
  intros c tv1 m1 _ Htv1 Hcb Hc Hk. destruct (Z.of_nat c =? 0)%Z eqn:Ec; zbool.
  { attempt_exit c. }
  rewrite u64_pred, cell_of_nat by lia.
  eapply (wp_read_position tid (c - 1) c); [intros; reflexivity|done|lia| |].
  - intros tv' m' Hr Htv' Hl. pose proof (proj1 Htv' (At WriteCount)). attempt_exit c.
  - intros idx ws s1 s2 tv' m' Hr Htv' Hval Hl. pose proof (proj1 Htv' (At WriteCount)).
    cbv beta iota.
    destruct (s2 =? s1)%Z eqn:E2; [destruct (idx =? Z.of_nat (c - 1))%Z eqn:Ei|];
      cbv beta iota delta [negb]; zbool.
    + attempt_exit c. exists (c - 1). split; [lia|]. unfold payload. by rewrite <- Hval.
    + attempt_exit c. destruct Hl as [[]|]; [congruence|done].
    + attempt_exit c. destruct Hl as [[]|]; [congruence|done].
Qed.

(** [LoadBounded]'s outcomes in the shape of [Load]'s. *)
Definition bounded_outcome (r : option LoadResult) : option (option bytes) :=
  match r with
  | Some (kValue v) => Some (Some v)
  | Some kEmpty => Some None
  | Some kStalled | None => None
  end.

Lemma wp_LoadBounded_attempt tid tv m :
  wp tid (LoadBounded_attempt N sizeT)
     (fun r tv' m' => r <> Some kStalled /\ attempt_post tv (bounded_outcome r) tv' m') tv m.
Proof.
  unfold LoadBounded_attempt. apply wp_bind, wp_load_cursor.
  intros c tv1 m1 _ Htv1 Hcb Hc Hk. destruct (Z.of_nat c =? 0)%Z eqn:Ec; zbool.
  { apply wp_ret. split; [done|]. split; [done|]. exists c; split_and!; try lia. cbn. lia. }
  rewrite u64_pred, cell_of_nat by lia.
  eapply (wp_read_position tid (c - 1) c); [intros; reflexivity|done|lia| |].
  - intros tv' m' Hr Htv' Hl. pose proof (proj1 Htv' (At WriteCount)).
    apply wp_ret. split; [done|]. split; [by etrans|]. exists c; cbn; split_and!; try lia; done.
  - intros idx ws s1 s2 tv' m' Hr Htv' Hval Hl. pose proof (proj1 Htv' (At WriteCount)).
    cbv beta iota.
    destruct ((s2 =? s1) && (idx =? Z.of_nat (c - 1)))%Z%bool eqn:E; apply wp_ret;
      (split; [done|]; split; [by etrans|]; exists c; cbn; split_and!; try lia).
    + zbool. exists (c - 1). split; [lia|]. unfold payload. by rewrite <- Hval.
    + destruct Hl as [[-> ->]|]; [|done]. by rewrite !Z.eqb_refl in E.
Qed.

(** ** The three verbs *)

(** A single-value read that started knowing cursor [lo]: nothing only if
    nothing was known to be published, else the value of a position that is not
    older than what was known. *)
Definition load_post (tv : tview) (out : option bytes) (tv' : tview) (m' : memory) : Prop :=
  tv_le tv tv' /\ exists c, cur tv (At WriteCount) <= c <= cur tv' (At WriteCount) /\ c <= length vs /\
  match out with
  | Some v => exists p, c = S p /\ v = payload p
  | None => c = 0
  end.

Lemma attempt_load tv tv1 out tv' m' :
  tv_le tv tv1 -> attempt_post tv1 (Some out) tv' m' -> load_post tv out tv' m'.
Proof.
  intros Htv [Htv' (c & Hc & Hb & Ho)]. pose proof (proj1 Htv (At WriteCount)).
  split; [by etrans|]. exists c. split_and!; try lia. done.
Qed.

Lemma wp_RLoad tid tv m : wp tid (RLoad N sizeT) (load_post tv) tv m.
Proof.
  apply (wp_forever _ _ _ _ _ (fun tv' _ => tv_le tv tv')); [reflexivity|].
  intros tv1 m1 Htv1. eapply wp_mono; [|apply wp_Load_attempt].
  intros [out|] tv' m' Hp; cbn.
  - by eapply attempt_load.
  - etrans; [exact Htv1|]. apply Hp.
Qed.

(** [kStalled] promises nothing; the other outcomes are [Load]'s. *)
Definition bounded_post (tv : tview) (r : LoadResult) (tv' : tview) (m' : memory) : Prop :=
  tv_le tv tv' /\
  match r with
  | kValue v => load_post tv (Some v) tv' m'
  | kEmpty => load_post tv None tv' m'
  | kStalled => exists p, p < length vs /\ lapped m' p
  end.

Lemma bounded_of_attempt tv tv1 r tv' m' :
  tv_le tv tv1 -> r <> kStalled -> attempt_post tv1 (bounded_outcome (Some r)) tv' m' ->
  bounded_post tv r tv' m'.
Proof.
  intros Htv Hr Hp. split; [etrans; [exact Htv|apply Hp]|].
  destruct r; cbn in Hp; [by eapply attempt_load..|done].
Qed.

Lemma wp_attempts tid n tv0 tv m :
  tv_le tv0 tv -> (n = 0 -> exists p, p < length vs /\ lapped m p) ->
  wp tid (attempts N sizeT n) (bounded_post tv0) tv m.
Proof.
  revert tv m. induction n as [|n IH]; intros tv m Htv Hl; cbn [attempts].
  - apply wp_ret. split; [done|]. by apply Hl.
  - apply wp_bind. eapply wp_mono; [|apply wp_LoadBounded_attempt].
    intros [r|] tv' m' [Hns Hp].
    + apply wp_ret. eapply bounded_of_attempt; eauto. by intros ->.
    + apply IH; [etrans; [exact Htv|apply Hp]|]. intros _.
      destruct Hp as [_ (c & _ & Hb & H0 & Hlap)]. exists (c - 1). split; [lia|done].
Qed.

Lemma wp_RLoadBounded tid max_retries tv m :
  wp tid (RLoadBounded N sizeT max_retries) (bounded_post tv) tv m.
Proof.
  unfold RLoadBounded. destruct (_ =? _)%Z.
  - apply (wp_forever _ _ _ _ _ (fun tv' _ => tv_le tv tv')); [reflexivity|].
    intros tv1 m1 Htv1. eapply wp_mono; [|apply wp_LoadBounded_attempt].
    intros [r|] tv' m' [Hns Hp]; cbn.
    + eapply bounded_of_attempt; eauto. by intros ->.
    + etrans; [exact Htv1|]. apply Hp.
  - apply wp_attempts; [reflexivity|done].
Qed.

(** The walk takes consecutive descending positions and stops early only where
    a lap has reached the next one. *)
Definition walk_post (c i n : nat) (tv : tview) (outs : list bytes) (tv' : tview) (m' : memory) : Prop :=
  tv_le tv tv' /\ length outs <= n /\
  (forall q v, outs !! q = Some v -> v = payload (c - 1 - (i + q))) /\
  (length outs < n -> lapped m' (c - 1 - (i + length outs))).

Lemma wp_snapshot_walk tid c i n tv m :
  c <= length vs -> i + n <= c -> knows c tv ->
  wp tid (snapshot_walk N sizeT (Z.of_nat c) i n) (walk_post c i n tv) tv m.
Proof.
  revert i tv m. induction n as [|n IH]; intros i tv m Hc Hi Hk; cbn [snapshot_walk].
  { apply wp_ret. split; [reflexivity|]. split_and!; cbn; [lia|done|lia]. }
  replace (u64 (Z.of_nat c - 1 - Z.of_nat i)) with (Z.of_nat (c - 1 - i)).
  2:{ rewrite <- (Z_of_nat_u64 (c - 1 - i)) by lia. f_equal. lia. }
  rewrite cell_of_nat.
  assert (forall tv' m', tv_le tv tv' -> lapped m' (c - 1 - i) ->
            wp tid (Ret []) (walk_post c i (S n) tv) tv' m') as Hstop.
  { intros tv' m' Htv Hl. apply wp_ret. split; [done|]. split_and!; cbn; [lia|done|].
    by rewrite Nat.add_0_r. }
  eapply (wp_read_position tid (c - 1 - i) c _ (Ret []) (Ret [])); [|done|lia| |].
  { intros s1. destruct (s1 =? 0)%Z; cbn [orb]; [reflexivity|]. destruct (is_odd s1); reflexivity. }
  { intros; by apply Hstop. }
  intros idx ws s1 s2 tv' m' Hr Htv' Hval Hl.
  cbv beta iota.
  destruct (s2 =? s1)%Z eqn:E2; [destruct (idx =? Z.of_nat (c - 1 - i))%Z eqn:Ei|];
    cbv beta iota delta [negb]; zbool.
  2,3: apply Hstop; [done|]; destruct Hl as [[]|]; [congruence|done].
  apply wp_bind. eapply wp_mono; [|apply IH; [done|lia|by eapply knows_le]].
  intros rest tv2 m2 (Htv2 & Hlen & Hpos & Hlap). apply wp_ret.
  split; [by etrans|]. split_and!; cbn [length]; [lia| |].
  - intros [|q] v; [intros [= <-]|intros Hq].
    + rewrite Nat.add_0_r. unfold payload. by rewrite <- Hval.
    + rewrite (Hpos q v Hq). f_equal. lia.
  - intros Hlt. replace (i + S (length rest)) with (S i + length rest) by lia. apply Hlap. lia.
Qed.

Definition snapshot_post (k : Z) (tv : tview) (outs : list bytes) (tv' : tview) (m' : memory) : Prop :=
  tv_le tv tv' /\ exists c, cur tv (At WriteCount) <= c <= cur tv' (At WriteCount) /\ c <= length vs /\
  let limit := Nat.min (Nat.min (Z.to_nat k) c) N in
  length outs <= limit /\
  (forall q v, outs !! q = Some v -> v = payload (c - 1 - q)) /\
  (length outs < limit -> lapped m' (c - 1 - length outs)).

Lemma wp_RSnapshot tid k tv m : (0 <= k)%Z -> wp tid (RSnapshot N sizeT k) (snapshot_post k tv) tv m.
Proof.
  intros Hk0. unfold RSnapshot. apply wp_bind, wp_load_cursor.
  intros c tv1 m1 _ Htv1 Hcb Hc Hk.
  set (lim := if (Z.of_nat N <? _)%Z then _ else _).
  assert (Z.to_nat lim = Nat.min (Nat.min (Z.to_nat k) c) N) as ->.
  { unfold lim. destruct (Z.of_nat c <? k)%Z eqn:?; case_ifs; zbool; lia. }
  eapply wp_mono; [|apply wp_snapshot_walk; [done|lia|done]].
  intros outs tv' m' (Htv' & Hlen & Hpos & Hlap). pose proof (proj1 Htv' (At WriteCount)).
  split; [by etrans|]. exists c. split_and!; try lia; auto.
Qed.

(** ** Writer side

    The writer owns every location, so its view is always full; its progress
    is the length of every history. *)

Definition wstate (L : rloc -> nat) (tv : tview) (m : memory) : Prop :=
  forall l, length (hist m l) = L l /\ L l <= S (cur tv (At l)).

Definition lens_upd (L : rloc -> nat) (l : rloc) : rloc -> nat :=
  fun l' => if decide (l' = l) then S (L l') else L l'.

Lemma wstate_rely L tv m m' : rely 0 m m' -> wstate L tv m -> wstate L tv m'.
Proof. intros (_ & Ho & _) Hw l. rewrite (Ho l); [apply Hw|done]. Qed.

Lemma wstate_ext L L' tv m : (forall l, L l = L' l) -> wstate L tv m -> wstate L' tv m.
Proof. intros He Hw l. rewrite <- (He l). apply Hw. Qed.

Lemma wp_wload {A} L l o (k : Z -> rprog A) (Q : A -> tview -> memory -> Prop) tv m :
  wstate L tv m ->
  (forall v tv' m', ring_inv m' -> wstate L tv' m' -> rel tv' = rel tv ->
     (exists msg, hist m' l !! pred (L l) = Some msg /\ v = mval msg) ->
     wp 0 (k v) Q tv' m') ->
  wp 0 (Load l o k) Q tv m.
Proof.
  intros Hw Hk. cbn. intros m1 Hr Hinv ts v tv1 Hrd.
  apply (wstate_rely _ _ _ _ Hr) in Hw.
  apply read_msg_spec in Hrd as (msg & Hmsg & Hv & Hts & Hc & _ & Hrel & _ & _ & _ & _ & ->).
  cbn in Hrel, Hc. destruct (Hw l) as [HL Hcl]. pose proof (lookup_lt_Some _ _ _ Hmsg).
  assert (ts = pred (L l)) as -> by lia.
  apply Hk; [done| |done|by exists msg].
  intros l'. destruct (Hw l') as [HL' Hcl']. split; [done|].
  specialize (Hc (At l')). cbn in *. lia.
Qed.

(** The message a store appends, and the writer's state after it. *)
Definition stored (L : rloc -> nat) (o : memory_order) (l : rloc) (v : Z) (tv : tview) : message rloc Z :=
  Msg v (vjoin vbot (if has_release o then vjoin (cur tv) (vsingle (At l) (L l))
                     else vjoin (rel tv) (vsingle (At l) (L l)))).

Lemma wp_wstore {A} L l v o (k : rprog A) (Q : A -> tview -> memory -> Prop) tv m :
  wstate L tv m ->
  (forall m', ring_inv m' -> wstate L tv m' -> ring_inv (append m' l (stored L o l v tv))) ->
  (forall tv' m', ring_inv m' -> wstate (lens_upd L l) tv' m' -> rel tv' = rel tv ->
     wp 0 k Q tv' m') ->
  wp 0 (Store l v o k) Q tv m.
Proof.
  intros Hw Hs Hk. cbn. intros m1 Hr Hinv. apply (wstate_rely _ _ _ _ Hr) in Hw.
  destruct (Hw l) as [HL _]. rewrite HL. specialize (Hs m1 Hinv Hw).
  split_and!; [by intros i ->|exact Hs|]. apply Hk; [exact Hs| |done].
  intros l'. rewrite hist_append. unfold lens_upd. destruct (Hw l') as [HL' Hc'].
  cbn. unfold vjoin. case_decide as Hd.
  - subst. rewrite length_app, vsingle_eq. cbn. lia.
  - split; [done|]. lia.
Qed.

(** Appending keeps the invariant, one lemma per kind of location. *)
Lemma lookup_append (m : memory) l l' t msg msg' :
  hist (append m l msg) l' !! t = Some msg' ->
  hist m l' !! t = Some msg' \/ (l' = l /\ t = length (hist m l) /\ msg' = msg).
Proof.
  rewrite hist_append. case_decide; [subst|by left].
  rewrite lookup_snoc_Some. intros [[_ ?]|[-> <-]]; auto.
Qed.

Lemma inv_append_seq m j msg :
  ring_inv m -> mval msg = Z.of_nat (length (hist m (Seq j))) ->
  length (hist m (Seq j)) <= 2 * nstores (length vs) j ->
  (forall n, length (hist m (Seq j)) = 2 * n ->
     n <= mview msg (At (Index j)) /\ forall w, w < kW -> n <= mview msg (At (Word j w))) ->
  ring_inv (append m (Seq j) msg).
Proof.
  intros Hinv Hv Hb He. split.
  - intros j' t msg' [H|([= ->] & -> & ->)]%lookup_append; [by eapply inv_seq|auto].
  - intros j' n msg' [H|([=] & _)]%lookup_append. by eapply inv_idx.
  - intros j' w n msg' [H|([=] & _)]%lookup_append. by eapply inv_word.
  - intros t msg' [H|([=] & _)]%lookup_append. by eapply inv_cnt.
Qed.

Lemma inv_append_idx m j n msg :
  ring_inv m -> length (hist m (Index j)) = S n -> mval msg = Z.of_nat (j + N * n) ->
  2 * n + 1 <= mview msg (At (Seq j)) -> ring_inv (append m (Index j) msg).
Proof.
  intros Hinv Hl Hv Hs. split.
  - intros j' t msg' [H|([=] & _)]%lookup_append. by eapply inv_seq.
  - intros j' n' msg' [H|([= ->] & E & ->)]%lookup_append; [by eapply inv_idx|].
    assert (n' = n) as -> by lia. auto.
  - intros j' w n' msg' [H|([=] & _)]%lookup_append. by eapply inv_word.
  - intros t msg' [H|([=] & _)]%lookup_append. by eapply inv_cnt.
Qed.

Lemma inv_append_word m j w n msg :
  ring_inv m -> length (hist m (Word j w)) = S n -> Some (mval msg) = pos_words (j + N * n) !! w ->
  2 * n + 1 <= mview msg (At (Seq j)) -> ring_inv (append m (Word j w) msg).
Proof.
  intros Hinv Hl Hv Hs. split.
  - intros j' t msg' [H|([=] & _)]%lookup_append. by eapply inv_seq.
  - intros j' n' msg' [H|([=] & _)]%lookup_append. by eapply inv_idx.
  - intros j' w' n' msg' [H|([= -> ->] & E & ->)]%lookup_append; [by eapply inv_word|].
    assert (n' = n) as -> by lia. auto.
  - intros t msg' [H|([=] & _)]%lookup_append. by eapply inv_cnt.
Qed.

Lemma inv_append_cnt m msg :
  ring_inv m -> mval msg = Z.of_nat (length (hist m WriteCount)) ->
  length (hist m WriteCount) <= length vs ->
  (forall k, k < length (hist m WriteCount) ->
     2 * S (k / N) <= mview msg (At (Seq (k mod N)))) ->
  ring_inv (append m WriteCount msg).
Proof.
  intros Hinv Hv Hb Hk. split.
  - intros j' t msg' [H|([=] & _)]%lookup_append. by eapply inv_seq.
  - intros j' n' msg' [H|([=] & _)]%lookup_append. by eapply inv_idx.
  - intros j' w n' msg' [H|([=] & _)]%lookup_append. by eapply inv_word.
  - intros t msg' [H|(_ & -> & ->)]%lookup_append; [by eapply inv_cnt|auto].
Qed.

(** Histories during store number [c]: [sq] sequence stores, [ix] index stores
    and [wd] words of it done. *)
Definition lens_mid (c sq ix wd : nat) (l : rloc) : nat :=
  match l with
  | WriteCount => S c
  | Seq j => S (2 * nstores c j) + (if decide (c mod N = j) then sq else 0)
  | Index j => S (nstores c j) + (if decide (c mod N = j) then ix else 0)
  | Word j w => S (if decide (w < kW) then nstores c j else 0) +
                (if decide (c mod N = j /\ w < wd) then 1 else 0)
  end.

(** Histories after [c] complete stores. *)
Definition lens (c : nat) : rloc -> nat := lens_mid c 0 0 0.

Local Ltac lens_tac :=
  intros l; unfold lens, lens_mid, lens_upd; destruct l; cbn [Cyclic.nstores];
  repeat case_decide; simplify_eq; try lia; try tauto;
  try (match goal with H : ?x <> ?y |- _ => exfalso; apply H; f_equal; lia end).

Section OneStore.
Variable c : nat.
Variable v : bytes.
Hypothesis Hv : vs !! c = Some v.
Local Abbreviation j := (c mod N).
Local Abbreviation n := (c / N).

Lemma store_pos_words : words_of_bytes kW v = pos_words (j + N * n).
Proof.
  unfold pos_words. rewrite Nat.add_comm, <- Nat.div_mod_eq, Hv. done.
Qed.

Lemma store_bound : S n <= nstores (length vs) j /\ n <= c /\ c < length vs.
Proof.
  pose proof (lookup_lt_Some _ _ _ Hv). split_and!; [| |done].
  - etrans; [|apply (nstores_mono N N_pos (S c)); lia]. cbn. rewrite (nstores_mod N N_pos), decide_True by done. lia.
  - apply Nat.Div0.div_le_upper_bound. nia.
Qed.

Lemma lens_mid_self sq ix wd w :
  lens_mid c sq ix wd (Seq j) = S (2 * n) + sq /\ lens_mid c sq ix wd (Index j) = S n + ix /\
  (w < kW -> lens_mid c sq ix wd (Word j w) = S n + (if decide (w < wd) then 1 else 0)).
Proof.
  unfold lens_mid. rewrite (nstores_mod N N_pos). rewrite !decide_True by done. split_and!; [done..|].
  intros Hw. rewrite decide_True by done. repeat case_decide; tauto || lia.
Qed.

(** A view that is full in a phase of the store. *)
Lemma wstate_self sq ix wd tv m :
  wstate (lens_mid c sq ix wd) tv m ->
  (length (hist m (Seq j)) = S (2 * n) + sq /\ 2 * n + sq <= cur tv (At (Seq j))) /\
  (length (hist m (Index j)) = S n + ix /\ n + ix <= cur tv (At (Index j))) /\
  (forall w, w < kW -> length (hist m (Word j w)) = S n + (if decide (w < wd) then 1 else 0) /\
     n + (if decide (w < wd) then 1 else 0) <= cur tv (At (Word j w))).
Proof.
  intros Hw. pose proof (fun w => lens_mid_self sq ix wd w) as E.
  split_and!; intros.
  - destruct (Hw (Seq j)), (E 0) as (E1 & _). lia.
  - destruct (Hw (Seq j)), (E 0) as (E1 & _). lia.
  - destruct (Hw (Index j)), (E 0) as (_ & E2 & _). lia.
  - destruct (Hw (Index j)), (E 0) as (_ & E2 & _). lia.
  - destruct (Hw (Word j w)), (E w) as (_ & _ & E3). specialize (E3 H). lia.
Qed.

(** The odd sequence, the release fence and the index. *)
Lemma wp_store_head {A} (k : rprog A) (Q : A -> tview -> memory -> Prop) tv m :
  wstate (lens c) tv m ->
  (forall tv' m', wstate (lens_mid c 1 1 0) tv' m' -> 2 * n + 1 <= rel tv' (At (Seq j)) ->
     wp 0 k Q tv' m') ->
  wp 0 (Store (Seq j) (Z.of_nat (2 * n + 1)) relaxed (Fence release
         (Store (Index j) (Z.of_nat c) relaxed k))) Q tv m.
Proof.
  intros Hw Hk. destruct store_bound as (Hb & Hnc & Hc). apply (wp_wstore (lens c)); [done| |].
  { intros m' Hinv' Hw'. destruct (wstate_self _ _ _ _ _ Hw') as ([Hl _] & _).
    apply inv_append_seq; [done|cbn; lia|lia|]. intros; lia. }
  intros tv3 m3 Hinv3 Hw3 _.
  apply (wstate_ext _ (lens_mid c 1 0 0)) in Hw3; [|lens_tac].
  destruct (wstate_self _ _ _ _ _ Hw3) as ([_ Hodd] & _). cbn [wp].
  apply (wp_wstore (lens_mid c 1 0 0)); [exact Hw3| |].
  { intros m' Hinv' Hw'. destruct (wstate_self _ _ _ _ _ Hw') as (_ & [Hl _] & _).
    apply (inv_append_idx _ _ n); [done|lia| |].
    - cbn. f_equal. pose proof (Nat.div_mod_eq c N). lia.
    - cbn. unfold vjoin. lia. }
  intros tv4 m4 Hinv4 Hw4 Hrel4. apply Hk; [|rewrite Hrel4; cbn; lia].
  eapply wstate_ext; [|exact Hw4]. lens_tac.
Qed.

(** The payload words. *)
Lemma wp_store_words {A} i (k : rprog A) (Q : A -> tview -> memory -> Prop) tv m :
  i <= kW -> 2 * n + 1 <= rel tv (At (Seq j)) -> wstate (lens_mid c 1 1 i) tv m ->
  (forall tv' m', wstate (lens_mid c 1 1 kW) tv' m' -> wp 0 k Q tv' m') ->
  wp 0 (pbind (store_words j i (drop i (pos_words (j + N * n)))) (fun _ => k)) Q tv m.
Proof.
  intros Hi Hrel Hw Hk. assert (length (pos_words (j + N * n)) = kW) as Hlen
    by (unfold pos_words; apply length_words_of_bytes).
  remember (kW - i) as d eqn:Hd. revert i tv m Hi Hrel Hd Hw.
  induction d as [|d IH]; intros i tv m Hi Hrel Hd Hw.
  - rewrite drop_ge by lia. cbn. replace i with kW in Hw by lia. by apply Hk.
  - destruct (lookup_lt_is_Some_2 (pos_words (j + N * n)) i ltac:(lia)) as [w Hwi].
    rewrite (drop_S _ _ _ Hwi). cbn [store_words pbind store].
    apply (wp_wstore _ _ _ _ _ _ _ _ Hw).
    + intros m1 Hinv1 Hw1. destruct (wstate_self _ _ _ _ _ Hw1) as (_ & _ & Hws).
      destruct (Hws i ltac:(lia)) as [Hl _]. rewrite decide_False in Hl by lia.
      apply (inv_append_word _ _ _ n); [done|lia|done|].
      cbn. unfold vjoin. rewrite vsingle_ne by done. lia.
    + intros tv' m' _ Hw' Hrel'. apply IH; [lia|by rewrite Hrel'|lia|].
      eapply wstate_ext; [|exact Hw']. lens_tac.
Qed.

(** The even sequence and the cursor. *)
Lemma wp_store_tail (Q : unit -> tview -> memory -> Prop) tv m :
  wstate (lens_mid c 1 1 kW) tv m ->
  (forall tv' m', wstate (lens (S c)) tv' m' -> Q tt tv' m') ->
  wp 0 (Store (Seq j) (Z.of_nat (2 * n + 2)) release
         (Store WriteCount (Z.of_nat (c + 1)) release (Ret tt))) Q tv m.
Proof.
  intros Hw Hk. destruct store_bound as (Hb & Hnc & Hc).
  destruct (wstate_self _ _ _ _ _ Hw) as (_ & [_ Hix] & Hws).
  apply (wp_wstore _ _ _ _ _ _ _ _ Hw).
  { intros m' Hinv' Hw'. destruct (wstate_self _ _ _ _ _ Hw') as ([Hl _] & _).
    apply inv_append_seq; [done|cbn; lia|lia|].
    intros n' Hn'. cbn. unfold vjoin. split; [lia|]. intros w Hlt.
    destruct (Hws w Hlt) as [_ H]. rewrite decide_True in H by done. lia. }
  intros tv6 m6 Hinv6 Hw6 _. apply (wstate_ext _ (lens_mid c 2 1 kW)) in Hw6; [|lens_tac].
  apply (wp_wstore _ _ _ _ _ _ _ _ Hw6).
  { intros m' Hinv' Hw'. destruct (Hw' WriteCount) as [Hl _]. cbn in Hl.
    apply inv_append_cnt; [done|cbn; lia|lia|].
    intros k Hlt. destruct (Hw6 (Seq (k mod N))) as [_ H]. cbn [lens_mid] in H.
    pose proof (nstores_done N N_pos k (S c) ltac:(lia)) as Hd. cbn [Cyclic.nstores] in Hd.
    cbn. unfold vjoin. repeat case_decide; lia. }
  intros tv7 m7 Hinv7 Hw7 _. apply wp_ret, Hk. eapply wstate_ext; [|exact Hw7]. lens_tac.
Qed.

Lemma wp_RStore tv m :
  wstate (lens c) tv m -> wp 0 (RStore N sizeT v) (fun _ tv m => wstate (lens (S c)) tv m) tv m.
Proof.
  intros Hw. destruct store_bound as (Hb & Hnc & Hc).
  unfold RStore. apply (wp_wload (lens c)); [done|].
  intros idx tv1 m1 Hinv1 Hw1 _ (msg1 & Hm1 & ->).
  destruct (inv_cnt _ Hinv1 _ _ Hm1) as (-> & _). cbn [lens lens_mid pred].
  rewrite cell_of_nat, store_pos_words. cbn [pbind load store fence].
  apply (wp_wload (lens c)); [done|]. intros s tv2 m2 Hinv2 Hw2 _ (msg2 & Hm2 & ->).
  destruct (inv_seq _ Hinv2 _ _ _ Hm2) as (-> & _).
  unfold lens. rewrite (proj1 (lens_mid_self 0 0 0 0)). cbn [plus pred].
  rewrite Nat.add_0_r.
  replace (u64 (Z.of_nat (2 * n) + 1)) with (Z.of_nat (2 * n + 1))
    by (rewrite <- (Z_of_nat_u64 (2 * n + 1)) by lia; f_equal; lia).
  replace (u64 (Z.of_nat (2 * n) + 2)) with (Z.of_nat (2 * n + 2))
    by (rewrite <- (Z_of_nat_u64 (2 * n + 2)) by lia; f_equal; lia).
  replace (u64 (Z.of_nat c + 1)) with (Z.of_nat (c + 1))
    by (rewrite <- (Z_of_nat_u64 (c + 1)) by lia; f_equal; lia).
  apply (wp_store_head _ _ _ _ Hw2). intros tv4 m4 Hw4 Hrel4.
  apply (wp_store_words 0); [lia|done|done|]. intros tv5 m5 Hw5.
  by apply wp_store_tail.
Qed.
End OneStore.

(** ** Clients: one writer, any readers *)

Fixpoint writer (l : list bytes) : rprog (list robs) :=
  match l with
  | [] => Ret []
  | v :: l => (RStore N sizeT v ;;; writer l)%prog
  end.

Fixpoint reader (ops : list rop) : rprog (list robs) :=
  match ops with
  | [] => Ret []
  | op :: ops =>
      (let! o := match op with
                 | OpLoad => let! r := RLoad N sizeT in Ret (ObsLoad r)
                 | OpAttempt => let! r := Load_attempt N sizeT in Ret (ObsAttempt r)
                 | OpBounded n => let! r := RLoadBounded N sizeT n in Ret (ObsBounded r)
                 | OpSnapshot k => let! outs := RSnapshot N sizeT (Z.of_nat k) in
                                   Ret (ObsSnapshot k outs)
                 end in
       let! os := reader ops in Ret (o :: os))%prog
  end.

Definition ring_mem0 : memory := Mem (fun _ => [Msg 0%Z vbot]) (fun _ _ => 0).
Definition tv0 : tview := TV vbot vbot vbot.
Definition ring_cfg (readers : list (list rop)) : config rloc Z (list robs) :=
  Cfg ((writer vs, tv0) :: map (fun ops => (reader ops, tv0)) readers) ring_mem0.

(** What one observation, made between cursors [lo] and [hi], may be, in a
    memory [m]: a failed read is always a lap of the writer. *)
Definition obs_ok (m : memory) (lo hi : nat) (o : robs) : Prop :=
  match o with
  | ObsLoad (Some v) | ObsBounded (kValue v) | ObsAttempt (Some (Some v)) =>
      exists p, lo <= S p <= hi /\ vs !! p = Some v
  | ObsLoad None | ObsBounded kEmpty | ObsAttempt (Some None) => lo = 0
  | ObsBounded kStalled => exists p, p < length vs /\ lapped m p
  | ObsAttempt None => exists p, lo <= S p <= hi /\ lapped m p
  | ObsSnapshot k outs =>
      exists c, lo <= c <= hi /\
      let limit := Nat.min (Nat.min k c) N in
      length outs <= limit /\
      (forall q v, outs !! q = Some v -> vs !! (c - 1 - q) = Some v) /\
      (length outs < limit -> lapped m (c - 1 - length outs))
  end.

(** A reader's observations, in order, under a cursor that never goes back. *)
Fixpoint history_ok (m : memory) (lo : nat) (os : list robs) : Prop :=
  match os with
  | [] => True
  | o :: os => exists hi, lo <= hi /\ obs_ok m lo hi o /\ history_ok m hi os
  end.

Lemma obs_ok_le m m' lo hi o : mem_le m m' -> obs_ok m lo hi o -> obs_ok m' lo hi o.
Proof.
  intros Hm. pose proof (fun p => lapped_le m m' p Hm).
  destruct o as [[]|[[]|]|[]|]; cbn; naive_solver.
Qed.

Lemma history_ok_le m m' lo os : mem_le m m' -> history_ok m lo os -> history_ok m' lo os.
Proof.
  intros Hm. revert lo. induction os as [|o os IH]; intros lo; cbn; [done|].
  intros (hi & ? & ? & ?). exists hi. eauto using obs_ok_le.
Qed.

Hypothesis vs_wf : Forall (fun v => length v = sizeT /\ Forall is_byte v) vs.

Lemma payload_value p : p < length vs -> vs !! p = Some (payload p).
Proof.
  intros Hp. destruct (lookup_lt_is_Some_2 vs p Hp) as [v Hv].
  rewrite Forall_lookup in vs_wf. destruct (vs_wf _ _ Hv) as [Hl Hb].
  unfold payload, pos_words. rewrite Hv.
  change (default [] (Some v)) with v. rewrite <- Hl at 1.
  rewrite bytes_of_words_of_bytes; [done|done|]. unfold kWords.
  pose proof (Nat.div_mod_eq (sizeT + 8 - 1) 8). pose proof (Nat.mod_upper_bound (sizeT + 8 - 1) 8).
  lia.
Qed.

Lemma load_obs tv out tv' m' :
  load_post tv out tv' m' ->
  obs_ok m' (cur tv (At WriteCount)) (cur tv' (At WriteCount)) (ObsLoad out).
Proof.
  intros [_ (c & Hc & Hb & Ho)]. destruct out as [v|]; cbn; [|lia].
  destruct Ho as (p & -> & ->). exists p. split; [lia|]. by apply payload_value.
Qed.

Lemma attempt_obs tv out tv' m' :
  attempt_post tv out tv' m' ->
  obs_ok m' (cur tv (At WriteCount)) (cur tv' (At WriteCount)) (ObsAttempt out).
Proof.
  intros [Htv (c & Hc & Hb & Ho)]. destruct out as [out|].
  - assert (load_post tv out tv' m') as Hl by (split; [done|by exists c]).
    by destruct out; apply load_obs in Hl.
  - cbn. exists (c - 1). split; [lia|]. apply Ho.
Qed.

(** One operation of a client. *)
Lemma wp_reader_op tid op tv m :
  wp tid (match op with
          | OpLoad => let! r := RLoad N sizeT in Ret (ObsLoad r)
          | OpAttempt => let! r := Load_attempt N sizeT in Ret (ObsAttempt r)
          | OpBounded n => let! r := RLoadBounded N sizeT n in Ret (ObsBounded r)
          | OpSnapshot k => let! outs := RSnapshot N sizeT (Z.of_nat k) in Ret (ObsSnapshot k outs)
          end)%prog
    (fun o tv' m' => tv_le tv tv' /\
       obs_ok m' (cur tv (At WriteCount)) (cur tv' (At WriteCount)) o) tv m.
Proof.
  destruct op as [| |n|k]; apply wp_bind.
  - eapply wp_mono; [|apply wp_RLoad]. intros r tv' m' Hp. apply wp_ret.
    split; [apply Hp|by eapply load_obs].
  - eapply wp_mono; [|apply wp_Load_attempt]. intros r tv' m' Hp. apply wp_ret.
    split; [apply Hp|by eapply attempt_obs].
  - eapply wp_mono; [|apply wp_RLoadBounded]. intros r tv' m' [Htv Hp]. apply wp_ret.
    split; [done|]. destruct r; [by apply load_obs in Hp..|done].
  - eapply wp_mono; [|apply wp_RSnapshot; lia].
    intros outs tv' m' (Htv & c & Hc & Hb & Hlen & Hpos & Hlap).
    apply wp_ret. split; [done|]. cbn. exists c. rewrite Nat2Z.id in Hlen, Hlap.
    split_and!; try lia; [|done]. intros q v Hq. rewrite (Hpos q v Hq). apply payload_value.
    pose proof (lookup_lt_Some _ _ _ Hq). lia.
Qed.

Lemma wp_reader tid ops tv m :
  wp tid (reader ops)
    (fun os _ m' => history_ok m' (cur tv (At WriteCount)) os /\ length os = length ops) tv m.
Proof.
  revert tv m. induction ops as [|op ops IH]; intros tv m; cbn [reader]; [by apply wp_ret|].
  apply wp_bind. eapply wp_mono; [|apply wp_reader_op].
  intros o tv' m' [Htv Ho]. apply wp_bind.
  eapply wp_mono; [|apply (wp_keep _ _ _ _ _ m'); [|reflexivity|apply IH]].
  2:{ intros os tv2 m2 m3 Hr [Hos Hlen]. split; [|done].
      eapply history_ok_le; [by eapply rely_le|done]. }
  intros os tv2 m2 [Hm [Hos Hlen]]. apply wp_ret. split; [|cbn; lia].
  exists (cur tv' (At WriteCount)). split_and!; [apply Htv|by eapply obs_ok_le|done].
Qed.

Lemma wp_writer c tv m :
  wstate (lens c) tv m -> wp 0 (writer (drop c vs)) (fun _ _ _ => True) tv m.
Proof.
  remember (length vs - c) as d eqn:Hd. revert c tv m Hd.
  induction d as [|d IH]; intros c tv m Hd Hw.
  - rewrite drop_ge by lia. by apply wp_ret.
  - destruct (lookup_lt_is_Some_2 vs c ltac:(lia)) as [v Hv].
    rewrite (drop_S _ _ _ Hv). cbn [writer]. apply wp_bind.
    eapply wp_mono; [|by eapply wp_RStore]. intros ? tv' m' Hw'. apply IH; [lia|done].
Qed.

Lemma ring_inv0 : ring_inv ring_mem0.
Proof.
  assert (forall (l : rloc) t msg, hist ring_mem0 l !! t = Some msg -> t = 0 /\ msg = Msg 0%Z vbot) as H0.
  { intros l [|t] msg; cbn; [intros [= <-]; done|done]. }
  split.
  - intros j t msg [-> ->]%H0. split_and!; [done|lia|]. intros n Hn. assert (n = 0) as -> by lia.
    cbn. split; [lia|intros; lia].
  - intros j n msg [? ?]%H0. done.
  - intros j w n msg [? ?]%H0. done.
  - intros t msg [-> ->]%H0. split_and!; [done|lia|]. intros; lia.
Qed.

Lemma wstate0 : wstate (lens 0) tv0 ring_mem0.
Proof.
  intros l. cbn. destruct l; cbn; repeat case_decide; lia.
Qed.

Lemma ring_cfg_ok readers :
  nt = S (length readers) ->
  cfg_ok nt owns ring_inv
    (fun tid os _ m => tid <> 0 -> history_ok m 0 os /\
       exists ops, readers !! (pred tid) = Some ops /\ length os = length ops)
    (ring_cfg readers).
Proof.
  intros Hnt. split_and!; [cbn; by rewrite length_map|apply ring_inv0|].
  intros [|tid] p tv; cbn [threads ring_cfg].
  - intros [= <- <-]. eapply wp_mono; [|apply (wp_writer 0), wstate0]. done.
  - change ((?x :: ?l) !! S tid) with (l !! tid). rewrite list_lookup_fmap.
    destruct (readers !! tid) as [ops|] eqn:E; [|done]. intros [= <- <-].
    eapply wp_mono; [|apply wp_reader]. intros os tv m [Hh Hl] _. split; [done|].
    exists ops. cbn. by rewrite E.
Qed.
End Weak.

Section Theorems.
Variable N sizeT : nat.
Variable vs : list bytes.
Variable readers : list (list rop).
Hypothesis N_pos : 0 < N.
Hypothesis vs_short : (Z.of_nat (length vs) < 2 ^ 63)%Z.
Hypothesis vs_wf : Forall (fun v => length v = sizeT /\ Forall is_byte v) vs.

(** Everything the logic gives about a run of a writer and its readers. *)
Lemma ring_run (c' : config rloc Z (list robs)) :
  rtc cstep (ring_cfg N sizeT vs readers) c' ->
  ring_inv N sizeT vs (mem c') /\
  forall i os tv, threads c' !! S i = Some (Ret os, tv) ->
    history_ok N vs (mem c') 0 os /\ exists ops, readers !! i = Some ops /\ length os = length ops.
Proof.
  intros Hr. pose proof (ring_cfg_ok N sizeT N_pos (S (length readers)) vs vs_short vs_wf readers eq_refl) as Hok.
  destruct (wp_sound _ _ _ _ _ _ Hok Hr) as (Hinv & _ & Hres). split; [done|].
  intros i os tv Ht. destruct (Hres _ _ _ Ht) as (m0 & Hrely & Hq).
  destruct (Hq (Nat.neq_succ_0 i)) as [Hh Hops]. split; [|done].
  eapply (history_ok_le N); [done|by eapply rely_le|done].
Qed.

(** A lap of position [p] needs the store of position [p + N]. *)
Lemma lapped_store m p : ring_inv N sizeT vs m -> lapped N m p -> p + N < length vs.
Proof.
  unfold lapped. intros Hinv Hl.
  destruct (lookup_lt_is_Some_2 (hist m (Seq (p mod N))) (2 * S (p / N) + 1) Hl) as [msg Hm].
  destruct (inv_seq _ _ _ _ Hinv _ _ _ Hm) as (_ & Hb & _). apply (nstores_lap N N_pos); lia.
Qed.

(** A failed attempt, a stalled bounded read, a shortened snapshot. *)
Definition obs_full (o : robs) : Prop :=
  match o with
  | ObsAttempt None | ObsBounded kStalled => False
  | ObsSnapshot k outs => exists c, c <= length vs /\ outs = take k (reverse (take c vs))
  | _ => True
  end.

Lemma reverse_take_lookup (l : list bytes) c q :
  c <= length l -> q < c -> reverse (take c l) !! q = l !! (c - 1 - q).
Proof.
  intros Hc Hq. rewrite reverse_lookup; rewrite length_take; [|lia].
  rewrite Nat.min_l by lia. rewrite lookup_take_lt by lia. f_equal. lia.
Qed.

Lemma obs_ok_full m lo hi o :
  ring_inv N sizeT vs m -> length vs <= N -> obs_ok N vs m lo hi o -> obs_full o.
Proof.
  intros Hinv Hv Ho.
  assert (forall p, ~ lapped N m p) as Hno by (intros p Hl; apply lapped_store in Hl; auto; lia).
  destruct o as [r|[r|]|[]|k outs]; cbn in *; try done; try naive_solver.
  destruct Ho as (c & Hc & Hlen & Hpos & Hlap).
  assert (length outs = Nat.min k c) as Hl.
  { destruct (decide (length outs < Nat.min (Nat.min k c) N)) as [H|H].
    - exfalso. by eapply Hno, Hlap.
    - destruct (decide (c <= N)); [lia|]. destruct outs as [|v outs]; cbn in *; [lia|].
      pose proof (lookup_lt_Some _ _ _ (Hpos 0 v eq_refl)). lia. }
  destruct (decide (c <= length vs)) as [Hcv|Hcv].
  - exists c. split; [done|]. apply list_eq. intros q. destruct (decide (q < Nat.min k c)) as [Hq|Hq].
    + destruct (lookup_lt_is_Some_2 outs q ltac:(lia)) as [v Hv1]. rewrite Hv1.
      rewrite lookup_take_lt, reverse_take_lookup by lia. symmetry. by apply Hpos.
    + rewrite !lookup_ge_None_2; [done| |lia].
      rewrite length_take, length_reverse, length_take. lia.
  - destruct outs as [|v outs]; cbn in *.
    + exists 0. split; [lia|]. by destruct k.
    + pose proof (lookup_lt_Some _ _ _ (Hpos 0 v eq_refl)). lia.
Qed.

Lemma history_full m lo os :
  ring_inv N sizeT vs m -> length vs <= N -> history_ok N vs m lo os -> Forall obs_full os.
Proof.
  intros Hinv Hv. revert lo. induction os as [|o os IH]; intros lo; cbn; [done|].
  intros (hi & _ & Ho & Hh). constructor; [by eapply obs_ok_full|by eapply IH].
Qed.

(** C1: one writer storing any values and any readers running any [Load], single
    attempts, [LoadBounded] and [Snapshot], in any interleaving and with any
    stale read the memory model allows: every value a reader returns is the
    exact byte image of a stored value, at a position that never goes back
    along the reader's operations; "empty" is reported only before the reader
    has seen a value; a failed attempt, a stalled bounded read or a shortened
    snapshot happens only when the writer lapped the wanted cell; and a
    snapshot is a strictly consecutive run of stored values, newest first. *)
Theorem seqlock_reads_consistent (c' : config rloc Z (list robs)) i os tv :
  rtc cstep (ring_cfg N sizeT vs readers) c' ->
  threads c' !! S i = Some (Ret os, tv) ->
  history_ok N vs (mem c') 0 os.
Proof. intros Hr Ht. destruct (ring_run c' Hr) as [_ H]. apply (H _ _ _ Ht). Qed.

(** With a depth that covers the values stored, no interleaving makes a
    reader fail: every attempt returns, a bounded read never stalls, and a
    snapshot returns all the entries it asks for (the newest [min k c]). *)
Theorem seqlock_depth_suffices (c' : config rloc Z (list robs)) i os tv :
  length vs <= N ->
  rtc cstep (ring_cfg N sizeT vs readers) c' ->
  threads c' !! S i = Some (Ret os, tv) ->
  Forall obs_full os.
Proof.
  intros Hv Hr Ht. destruct (ring_run c' Hr) as [Hinv H]. destruct (H _ _ _ Ht) as [Hh _].
  eapply history_full; eauto.
Qed.
End Theorems.

Section WaitFree.
Variable N sizeT : nat.
Local Abbreviation kW := (kWords sizeT).

Lemma ops_le_store_words c i ws : ops_le (length ws) (store_words c i ws).
Proof. revert i; induction ws as [|w ws IH]; intros i; cbn; [done|]. eauto. Qed.

Lemma ops_le_load_words c i n : ops_le n (load_words c i n).
Proof.
  revert i; induction n as [|n IH]; intros i; cbn; [done|]. exists n. split; [done|]. intros w.
  eapply ops_le_mono; [apply (ops_le_bind _ _ n 0); [apply IH|done]|lia].
Qed.

Lemma ops_le_copy_cell c : ops_le (kW + 3) (copy_cell sizeT c).
Proof.
  exists (kW + 2). split; [lia|]. intros idx. cbn [pbind]. apply ops_le_bind; [apply ops_le_load_words|]. intros ws.
  exists 1. split; [done|]. by exists 0.
Qed.

Lemma ops_le_attempt : ops_le (kW + 5) (LoadBounded_attempt N sizeT).
Proof.
  exists (kW + 4). split; [lia|]. intros c. cbn [pbind].
  destruct (c =? 0)%Z; [done|]. exists (kW + 3). split; [lia|]. intros s1. cbn [pbind].
  destruct (s1 =? 0)%Z; [done|]. destruct (is_odd s1); [done|].
  replace (kW + 3) with (kW + 3 + 0) by lia. apply ops_le_bind; [apply ops_le_copy_cell|].
  intros [[idx ws] s2]. by destruct (_ && _).
Qed.

Lemma ops_le_attempts n : ops_le (n * (kW + 5)) (attempts N sizeT n).
Proof.
  induction n as [|n IH]; [done|]. apply ops_le_bind; [apply ops_le_attempt|].
  intros [r|]; [done|exact IH].
Qed.

Lemma ops_le_walk c i n : ops_le (n * (kW + 4)) (snapshot_walk N sizeT c i n).
Proof.
  revert i. induction n as [|n IH]; intros i; [done|]. cbn [snapshot_walk].
  replace (S n * (kW + 4)) with (1 + (kW + 3 + (n * (kW + 4) + 0))) by lia.
  exists (kW + 3 + (n * (kW + 4) + 0)). split; [done|]. intros s1. cbn [pbind]. destruct (_ || _); [done|].
  apply ops_le_bind; [apply ops_le_copy_cell|]. intros [[idx ws] s2].
  destruct (negb _); [done|]. destruct (negb _); [done|]. apply ops_le_bind; [apply IH|done].
Qed.

(** C23: wait-freedom.  [Store] is at most [kWords + 7] memory operations whatever
    the readers do; [Snapshot] is at most [1 + N * (kWords + 4)] whatever [k] the
    caller asks for; [LoadBounded] is at most [max_retries + 1] attempts of
    [kWords + 5] operations, for any [max_retries] below 2^32 - 1 (at 2^32 - 1 the
    loop's 32-bit counter never exceeds it). *)
Theorem seqlock_wait_free value k max_retries :
  length value = sizeT -> (0 <= max_retries < 2 ^ 32 - 1)%Z ->
  ops_le (kW + 7) (RStore N sizeT value) /\
  ops_le (1 + N * (kW + 4)) (RSnapshot N sizeT k) /\
  ops_le (S (Z.to_nat max_retries) * (kW + 5)) (RLoadBounded N sizeT max_retries).
Proof.
  intros Hv Hm. split_and!.
  - exists (kW + 6). split; [lia|]. intros idx. exists (kW + 5). split; [lia|]. intros s.
    exists (kW + 4). split; [lia|]. exists (kW + 3). split; [lia|].
    exists (kW + 2). split; [lia|]. cbn [pbind store]. apply ops_le_bind.
    + eapply ops_le_mono; [apply ops_le_store_words|]. by rewrite length_words_of_bytes.
    + intros _. exists 1. split; [done|]. by exists 0.
  - exists (N * (kW + 4)). split; [done|]. intros c. eapply ops_le_mono; [apply ops_le_walk|].
    apply Nat.mul_le_mono_r. repeat case_match; zbool; lia.
  - unfold RLoadBounded. replace (_ =? _)%Z with false by (symmetry; apply Z.eqb_neq; lia).
    apply ops_le_attempts.
Qed.
End WaitFree.

(** ** Concrete runs *)

Definition demo_a : bytes := [1; 2; 3; 4; 5; 6; 7; 8]%Z.
Definition demo_b : bytes := [9; 9; 9; 9; 0; 0; 0; 1]%Z.

(** Two stores into a ring of two; the reader looks after the first store with
    a stale cursor, then snapshots both. *)
Definition demo_sched : list (nat * nat) :=
  let w := map (pair 0) in let r := map (pair 1) in
  w [0; 0; 0; 0; 0; 0; 0; 0] ++ r [1; 2; 1] ++ w [1; 0; 0; 0; 0; 0] ++
  r [1; 0; 2] ++ w [0; 0] ++ r [2; 2; 1; 1; 0; 2; 2; 1; 1; 0; 2].

Lemma demo_run :
  (run (ring_cfg 2 8 [demo_a; demo_b] [[OpAttempt; OpSnapshot 2]]) demo_sched
     ≫= thread_result 1) = Some [ObsAttempt (Some (Some demo_a)); ObsSnapshot 2 [demo_b; demo_a]].
Proof. vm_compute. reflexivity. Qed.

Lemma demo_wf : Forall (fun v => length v = 8 /\ Forall is_byte v) [demo_a; demo_b].
Proof. repeat constructor; done. Qed.

Lemma seqlock_reads_consistent_witness :
  exists c' : config rloc Z (list robs), history_ok 2 [demo_a; demo_b] (mem c') 0
    [ObsAttempt (Some (Some demo_a)); ObsSnapshot 2 [demo_b; demo_a]].
Proof.
  destruct (run_result _ _ _ _ demo_run) as (c' & tv & Hr & Ht). exists c'.
  eapply (seqlock_reads_consistent 2 8); [lia|done|apply demo_wf|exact Hr|exact Ht].
Defined.

Lemma seqlock_depth_suffices_witness :
  Forall (obs_full [demo_a; demo_b])
    [ObsAttempt (Some (Some demo_a)); ObsSnapshot 2 [demo_b; demo_a]].
Proof.
  destruct (run_result _ _ _ _ demo_run) as (c' & tv & Hr & Ht).
  eapply (seqlock_depth_suffices 2 8); [lia|done|apply demo_wf|cbn; lia|exact Hr|exact Ht].
Defined.

Lemma seqlock_wait_free_witness :
  ops_le 8 (RStore 2 8 demo_a) /\ ops_le 11 (RSnapshot 2 8 1000) /\
  ops_le 24 (RLoadBounded 2 8 3).
Proof. apply (seqlock_wait_free 2 8 demo_a 1000 3); [done|lia]. Defined.
