(* ===== verification/SeqlockCrash.v ===== *)
(** * Crash repair and a reader that straddles it

    [RepairAfterWriterCrash] sets the in-flight cell's sequence back to 0, so
    sequence numbers are reused: the W1-R2 argument (a sequence that has moved
    never comes back) no longer covers a reader whose two sequence loads lie on
    both sides of crash, repair and the next store.  This file gives the run,
    and the quiescent behaviour of the repair is in SeqlockSeq.v. *)

From Stdlib Require Import ZArith Lia.
From stdpp Require Import base list numbers relations.
From S2P Require Import Prelude Memory SeqlockRing SeqlockWeak.

(** A writer that stores [a], is killed after [n] operations of storing [b]; a
    restarted writer repairs the ring and stores [d]. *)
Definition crashing_writer (N sizeT n : nat) (a b d : bytes) : rprog (list robs) :=
  (RStore N sizeT a ;;;
   prefix_ops n (RStore N sizeT b) ;;;
   RRepairAfterWriterCrash N ;;;
   RStore N sizeT d ;;; Ret [])%prog.

Definition crash_cfg (N sizeT n : nat) (a b d : bytes) : config rloc Z (list robs) :=
  Cfg [(crashing_writer N sizeT n a b d, tv0); (reader N sizeT [OpAttempt], tv0)] ring_mem0.

(** Two words per record: [old] is stored, the writer dies storing [lost],
    [new] is stored after the repair. *)
Definition rec_old : bytes := repeat 1%Z 16.
Definition rec_lost : bytes := repeat 2%Z 16.
Definition rec_new : bytes := repeat 3%Z 16.
Definition rec_torn : bytes := repeat 1%Z 8 ++ repeat 3%Z 8.

(** The reader copies the index and the first word before the crash, the second
    word and the second sequence load after the new store. *)
Definition crash_sched : list (nat * nat) :=
  let w := map (pair 0) in let r := map (pair 1) in
  w (repeat 0 9) ++ r [1; 2; 1; 1] ++
  w ([1; 2; 0; 0] ++ [1; 3; 0] ++ [1; 4; 0; 0; 0; 0; 0; 0; 0]) ++ r [2; 0; 6].

Lemma crash_run :
  (run (crash_cfg 1 16 4 rec_old rec_lost rec_new) crash_sched ≫= thread_result 1)
  = Some [ObsAttempt (Some (Some rec_torn))].
Proof. vm_compute. reflexivity. Qed.

(** C39: a torn copy validates across a crash repair.  There is a run, of one
    writer at a time, in which a single attempt of [Load] returns a value that
    is none of the three values ever passed to [Store]. *)
Theorem repair_lets_a_torn_read_validate :
  exists c' tv v,
    rtc cstep (crash_cfg 1 16 4 rec_old rec_lost rec_new) c' /\
    threads c' !! 1 = Some (Ret [ObsAttempt (Some (Some v))], tv) /\
    v <> rec_old /\ v <> rec_lost /\ v <> rec_new.
Proof.
  destruct (run_result _ _ _ _ crash_run) as (c' & tv & Hr & Ht).
  exists c', tv, rec_torn. split_and!; done.
Qed.
