(* ===== verification/SeqlockSeq.v ===== *)
(** * The seqlock ring as a last-N history: a refinement

    Between operations (no store in progress in another thread) the ring
    implements an abstract history: the values published so far, and the state
    of the cell the next store will overwrite.  [spec_step] gives what every
    verb must return, a writer killed in the middle of a store and the repair
    of the restarted writer included; [ring_rep] relates it to the memory;
    [ring_refines] says every script of verbs behaves like the specification. *)

From Stdlib Require Import ZArith Lia.
From stdpp Require Import base list numbers relations.
From S2P Require Import Prelude Memory SeqlockRing.

Section Sequential.
Variable N sizeT : nat.
Hypothesis N_pos : 0 < N.
Local Abbreviation kW := (kWords sizeT).
Local Abbreviation state := (rloc -> Z).

(** ** The abstract history *)

(** The cell the next store goes to: it still holds the value stored [N]
    positions ago ([Intact]); a writer died in it ([InFlight]); it was repaired
    ([Retracted]); or it was completed without being published ([Ahead]). *)
Inductive slot_state := Intact | InFlight | Retracted | Ahead.

#[global] Instance slot_state_eq_dec : EqDecision slot_state.
Proof. solve_decision. Defined.

Record ring_spec := Ring {
  published : list bytes;      (* every value published, oldest first *)
  next_cell : slot_state;
  started : nat                (* stores begun, complete or not *)
}.

Inductive verb :=
| VStore (v : bytes)
| VCrash (n : nat) (v : bytes)       (* killed after [n] operations of the store *)
| VRepair
| VLoad
| VLoadBounded (max_retries : Z)
| VSnapshot (k : Z).

Inductive answer :=
| ADone
| ALoad (r : option bytes)
| ABounded (r : LoadResult)
| ASnapshot (outs : list bytes).

(** What the newest-value verbs see: [None] is a cell that never validates. *)
Definition spec_latest (a : ring_spec) : option (option bytes) :=
  match last (published a) with
  | None => Some None
  | Some v =>
      if decide (N = 1) then
        match next_cell a with
        | Intact => Some (Some v)
        | Retracted => Some None
        | InFlight | Ahead => None
        end
      else Some (Some v)
  end.

(** How many of the newest values are still held. *)
Definition spec_depth (a : ring_spec) : nat :=
  match next_cell a with Intact => N | _ => N - 1 end.

Definition spec_store (v : bytes) (a : ring_spec) : ring_spec :=
  Ring (published a ++ [v]) Intact (S (started a)).

Definition spec_crash (n : nat) (v : bytes) (a : ring_spec) : ring_spec :=
  if n <? 3 then a
  else if n <? kW + 6 then Ring (published a) InFlight (S (started a))
  else if n <? kW + 7 then Ring (published a) Ahead (S (started a))
  else spec_store v a.

Definition spec_repair (a : ring_spec) : ring_spec :=
  match next_cell a with
  | InFlight => Ring (published a) Retracted (started a)
  | _ => a
  end.

Definition spec_snapshot (k : Z) (a : ring_spec) : list bytes :=
  take (Nat.min (Z.to_nat k) (spec_depth a)) (reverse (published a)).

(** One verb: the answer ([None]: the verb does not return) and the new state. *)
Definition spec_step (op : verb) (a : ring_spec) : option (answer * ring_spec) :=
  match op with
  | VStore v => Some (ADone, spec_store v a)
  | VCrash n v => Some (ADone, spec_crash n v a)
  | VRepair => Some (ADone, spec_repair a)
  | VLoad => match spec_latest a with Some r => Some (ALoad r, a) | None => None end
  | VLoadBounded _ =>
      Some (ABounded match spec_latest a with
                     | Some (Some v) => kValue v
                     | Some None => kEmpty
                     | None => kStalled
                     end, a)
  | VSnapshot k => Some (ASnapshot (spec_snapshot k a), a)
  end.

(** The contract of the callers: values are records of [sizeT] bytes; a writer
    repairs the ring before it stores again after a crash; retry bounds below
    UINT32_MAX. *)
Definition legal (op : verb) (a : ring_spec) : Prop :=
  match op with
  | VStore v | VCrash _ v =>
      length v = sizeT /\ Forall is_byte v /\ next_cell a <> InFlight
  | VLoadBounded m => (0 <= m < 2 ^ 32 - 1)%Z
  | VSnapshot k => (0 <= k < 2 ^ 64)%Z
  | _ => True
  end.

(** ** The implementation's verbs *)

Definition verb_prog (op : verb) : rprog answer :=
  match op with
  | VStore v => RStore N sizeT v ;;; Ret ADone
  | VCrash n v => prefix_ops n (RStore N sizeT v) ;;; Ret ADone
  | VRepair => RRepairAfterWriterCrash N ;;; Ret ADone
  | VLoad => let! r := RLoad N sizeT in Ret (ALoad r)
  | VLoadBounded m => let! r := RLoadBounded N sizeT m in Ret (ABounded r)
  | VSnapshot k => let! outs := RSnapshot N sizeT k in Ret (ASnapshot outs)
  end%prog.

Fixpoint run_verbs (fuel : nat) (ops : list verb) (s : state) : option (list answer) :=
  match ops with
  | [] => Some []
  | op :: ops =>
      match srun fuel (verb_prog op) s with
      | Some (r, s) => match run_verbs fuel ops s with
                       | Some rs => Some (r :: rs) | None => None end
      | None => None
      end
  end.

Fixpoint run_spec (ops : list verb) (a : ring_spec) : option (list answer) :=
  match ops with
  | [] => Some []
  | op :: ops =>
      match spec_step op a with
      | Some (r, a) => match run_spec ops a with
                       | Some rs => Some (r :: rs) | None => None end
      | None => None
      end
  end.

Fixpoint all_legal (ops : list verb) (a : ring_spec) : Prop :=
  match ops with
  | [] => True
  | op :: ops =>
      legal op a /\ match spec_step op a with Some (_, a) => all_legal ops a | None => True end
  end.

(** ** Flat-memory meaning of the cell operations *)

Definition cell_words (s : state) (c : nat) : list Z := map (fun i => s (Word c i)) (seq 0 kW).

Fixpoint set_words (s : state) (c i : nat) (ws : list Z) : state :=
  match ws with
  | [] => s
  | w :: ws => set_words (upd s (Word c i) w) c (S i) ws
  end.

Lemma srun_load_words fuel c i n s :
  srun fuel (load_words c i n) s = Some (map (fun i => s (Word c i)) (seq i n), s).
Proof.
  revert i. induction n as [|n IH]; intros i; [done|]. cbn. by rewrite srun_bind, IH.
Qed.

Lemma srun_copy_cell fuel c s :
  srun fuel (copy_cell sizeT c) s = Some (s (Index c), cell_words s c, s (Seq c), s).
Proof. unfold copy_cell. cbn. by rewrite srun_bind, srun_load_words. Qed.

Lemma srun_store_words fuel c i ws s :
  srun fuel (store_words c i ws) s = Some (tt, set_words s c i ws).
Proof. revert i s. induction ws as [|w ws IH]; intros i s; [done|]. apply IH. Qed.

Lemma set_words_other s c i ws l :
  (forall k, l = Word c k -> k < i) -> set_words s c i ws l = s l.
Proof.
  revert i s. induction ws as [|w ws IH]; intros i s Hl; [done|]. cbn.
  rewrite IH by (intros k ->; specialize (Hl k eq_refl); lia).
  apply upd_ne. intros ->. specialize (Hl i eq_refl). lia.
Qed.

Lemma set_words_read s c i ws :
  map (fun k => set_words s c i ws (Word c k)) (seq i (length ws)) = ws.
Proof.
  revert i s. induction ws as [|w ws IH]; intros i s; [done|]. cbn. f_equal; [|apply IH].
  rewrite set_words_other by (intros k [= ->]; lia). by rewrite upd_eq.
Qed.

(** ** The representation invariant *)

(** Cell [n] holds the completed store of [v] at position [p]. *)
Definition cell_holds (s : state) (n p : nat) (v : bytes) : Prop :=
  s (Seq n) <> 0%Z /\ is_odd (s (Seq n)) = false /\ s (Index n) = Z.of_nat p /\
  cell_words s n = words_of_bytes kW v.

Local Abbreviation count a := (length (published a)).
Local Abbreviation next a := (length (published a) mod N).

Record ring_rep (a : ring_spec) (s : state) : Prop := {
  rep_count : s WriteCount = Z.of_nat (count a);
  rep_started : count a <= started a;
  rep_live : forall p v, published a !! p = Some v -> count a <= p + spec_depth a ->
    cell_holds s (p mod N) p v;
  rep_fresh : forall n, count a <= n < N -> n <> next a \/ next_cell a = Intact ->
    s (Seq n) = 0%Z;
  rep_next : match next_cell a with
             | Intact => is_odd (s (Seq (next a))) = false
             | InFlight => is_odd (s (Seq (next a))) = true
             | Retracted => s (Seq (next a)) = 0%Z
             | Ahead => is_odd (s (Seq (next a))) = false /\ s (Seq (next a)) <> 0%Z /\
                        s (Index (next a)) = Z.of_nat (count a)
             end;
  rep_bound : forall n, n < N -> (0 <= s (Seq n) <= 2 * Z.of_nat (started a))%Z;
  rep_values : Forall (fun v => length v = sizeT /\ Forall is_byte v) (published a)
}.

Lemma cell_of_pos n : cell_of N (Z.of_nat n) = n mod N.
Proof. unfold cell_of. rewrite <- Nat2Z.inj_mod. lia. Qed.

Lemma is_odd_succ z : is_odd (z + 1) = negb (is_odd z).
Proof.
  unfold is_odd. rewrite !(Z.land_ones _ 1) by lia. change (2 ^ 1)%Z with 2%Z.
  pose proof (Z.mod_pos_bound z 2 ltac:(lia)).
  destruct (decide (z mod 2 = 0)%Z) as [E|E].
  - rewrite E. replace ((z + 1) mod 2)%Z with 1%Z; [done|].
    rewrite <- Z.add_mod_idemp_l, E by lia. done.
  - assert (z mod 2 = 1)%Z as E1 by lia.
    assert ((z + 1) mod 2 = 0)%Z as -> by (rewrite <- Z.add_mod_idemp_l, E1 by lia; done).
    by rewrite E1.
Qed.

Lemma is_odd_0 : is_odd 0 = false.
Proof. done. Qed.

(** Two of the last [N] positions share a cell only if they are equal. *)
Lemma mod_inj p q c : p < c -> q < c -> c <= p + N -> c <= q + N -> p mod N = q mod N -> p = q.
Proof.
  intros. pose proof (Nat.div_mod_eq p N). pose proof (Nat.div_mod_eq q N).
  assert (p / N = q / N) by nia. lia.
Qed.

(** The cell of the next store is that of position [count - N]. *)
Lemma mod_next p c : p < c -> p mod N = c mod N -> p + N <= c.
Proof.
  intros. pose proof (Nat.div_mod_eq p N). pose proof (Nat.div_mod_eq c N).
  assert (p / N < c / N) by nia. nia.
Qed.

Lemma live_not_next a p : p < count a -> count a <= p + spec_depth a ->
  p mod N = next a -> next_cell a = Intact.
Proof.
  intros Hp Hd Hm%mod_next; [|done]. unfold spec_depth in Hd.
  destruct (next_cell a); [done|lia..].
Qed.

(** ** Readers *)

#[local] Arguments copy_cell : simpl never.

Definition attempt_val (s : state) : option (option bytes) :=
  let c := s WriteCount in
  let cell := cell_of N (u64 (c - 1)) in
  if (c =? 0)%Z then Some None else
  if (s (Seq cell) =? 0)%Z then Some None else
  if is_odd (s (Seq cell)) then None else
  if negb (s (Index cell) =? u64 (c - 1))%Z then None else
  Some (Some (bytes_of_words sizeT (cell_words s cell))).

Lemma srun_Load_attempt fuel s : srun fuel (Load_attempt N sizeT) s = Some (attempt_val s, s).
Proof.
  unfold Load_attempt, attempt_val. cbn.
  destruct (s WriteCount =? 0)%Z; [done|]. cbn.
  destruct (s (Seq _) =? 0)%Z; [done|]. destruct (is_odd _); [done|].
  rewrite srun_bind, srun_copy_cell. rewrite Z.eqb_refl. cbn. by destruct (negb _).
Qed.

Lemma srun_LoadBounded_attempt fuel s :
  srun fuel (LoadBounded_attempt N sizeT) s =
  Some (match attempt_val s with
        | Some (Some v) => Some (kValue v) | Some None => Some kEmpty | None => None end, s).
Proof.
  unfold LoadBounded_attempt, attempt_val. cbn.
  destruct (s WriteCount =? 0)%Z; [done|]. cbn.
  destruct (s (Seq _) =? 0)%Z; [done|]. destruct (is_odd _); [done|].
  rewrite srun_bind, srun_copy_cell. rewrite Z.eqb_refl. cbn. by destruct (_ =? _)%Z.
Qed.

Lemma srun_attempts fuel n s :
  srun fuel (attempts N sizeT (S n)) s =
  Some (match attempt_val s with
        | Some (Some v) => kValue v | Some None => kEmpty | None => kStalled end, s).
Proof.
  induction n as [|n IH]; cbn [attempts] in *; rewrite srun_bind, srun_LoadBounded_attempt;
    destruct (attempt_val s) as [[]|]; done.
Qed.

Lemma cell_value s n p v : cell_holds s n p v -> length v = sizeT -> Forall is_byte v ->
  bytes_of_words sizeT (cell_words s n) = v.
Proof.
  intros (_ & _ & _ & ->) <- Hb. apply bytes_of_words_of_bytes; [done|]. unfold kWords.
  pose proof (Nat.div_mod_eq (length v + 8 - 1) 8).
  pose proof (Nat.mod_upper_bound (length v + 8 - 1) 8). lia.
Qed.

Section Rep.
Variable a : ring_spec.
Variable s : state.
Hypothesis Hrep : ring_rep a s.
Hypothesis Hsmall : (Z.of_nat (started a) < 2 ^ 62)%Z.

Lemma rep_small : (Z.of_nat (count a) < 2 ^ 62)%Z.
Proof. pose proof (rep_started _ _ Hrep). lia. Qed.

Lemma rep_value p v : published a !! p = Some v -> length v = sizeT /\ Forall is_byte v.
Proof. exact (Forall_lookup_1 _ _ _ _ (rep_values _ _ Hrep)). Qed.

(** The position the readers look for, at distance [i] from the newest. *)
Lemma want_pos i : i < count a ->
  u64 (s WriteCount - 1 - Z.of_nat i) = Z.of_nat (count a - 1 - i).
Proof.
  intros. pose proof rep_small. rewrite (rep_count _ _ Hrep), wrap_id; unfold in_width; lia.
Qed.

Lemma attempt_val_spec : attempt_val s = spec_latest a.
Proof.
  unfold attempt_val, spec_latest. rewrite last_lookup, (rep_count _ _ Hrep).
  destruct (decide (count a = 0)) as [E|E].
  { rewrite E. destruct (published a); [done|]. cbn in E; lia. }
  replace (Z.of_nat (count a) =? 0)%Z with false by (symmetry; apply Z.eqb_neq; lia).
  pose proof (want_pos 0 ltac:(lia)) as Hw.
  rewrite (rep_count _ _ Hrep), !Z.sub_0_r, Nat.sub_0_r in Hw. rewrite Hw, cell_of_pos.
  destruct (lookup_lt_is_Some_2 (published a) (pred (count a)) ltac:(lia)) as [v Hv]. rewrite Hv.
  replace (pred (count a)) with (count a - 1) in Hv by lia.
  assert (count a <= count a - 1 + spec_depth a ->
    (if (s (Seq ((count a - 1) mod N)) =? 0)%Z then Some None
     else if is_odd (s (Seq ((count a - 1) mod N))) then None
     else if negb (s (Index ((count a - 1) mod N)) =? Z.of_nat (count a - 1))%Z then None
     else Some (Some (bytes_of_words sizeT (cell_words s ((count a - 1) mod N)))))
    = Some (Some v)) as Hlive.
  { intros Hd. pose proof (rep_live _ _ Hrep _ _ Hv Hd) as Hc.
    destruct (rep_value _ _ Hv). erewrite cell_value by eauto.
    destruct Hc as (H1 & H2 & H3 & _). rewrite (proj2 (Z.eqb_neq _ _) H1), H2, H3, Z.eqb_refl.
    done. }
  pose proof (rep_next _ _ Hrep) as Hn. unfold spec_depth in Hlive.
  case_decide as HN.
  - assert (forall m, m mod N = 0) as Hm by (intros; rewrite HN; apply Nat.mod_1_r).
    rewrite !Hm in *. destruct (next_cell a); [apply Hlive; lia| | |].
    + destruct (Z.eqb_spec (s (Seq 0)) 0) as [E0|]; [by rewrite E0 in Hn|]. by rewrite Hn.
    + by rewrite Hn.
    + destruct Hn as (H1 & H2 & H3). rewrite (proj2 (Z.eqb_neq _ _) H2), H1, H3.
      by rewrite (proj2 (Z.eqb_neq _ _)) by lia.
  - apply Hlive. destruct (next_cell a); lia.
Qed.

(** The walk of a snapshot takes entries as long as they are held. *)
Lemma walk_live fuel i n v :
  published a !! (count a - 1 - i) = Some v -> i < count a -> i < spec_depth a ->
  srun fuel (snapshot_walk N sizeT (s WriteCount) i (S n)) s =
  match srun fuel (snapshot_walk N sizeT (s WriteCount) (S i) n) s with
  | Some (rest, s') => Some (v :: rest, s') | None => None end.
Proof.
  intros Hv Hi Hd. cbn [snapshot_walk]. rewrite want_pos, cell_of_pos by done.
  pose proof (rep_live _ _ Hrep _ _ Hv ltac:(lia)) as Hc. destruct (rep_value _ _ Hv).
  assert (bytes_of_words sizeT (cell_words s ((count a - 1 - i) mod N)) = v) as Hval
    by (by eapply cell_value). destruct Hc as (H1 & H2 & H3 & _).
  cbn -[snapshot_walk]. rewrite (proj2 (Z.eqb_neq _ _) H1), H2. cbn -[snapshot_walk].
  rewrite srun_bind, srun_copy_cell, Z.eqb_refl, H3, Z.eqb_refl. cbn -[snapshot_walk].
  rewrite srun_bind, Hval. by destruct (srun _ _ _) as [[]|].
Qed.

Lemma walk_lost fuel n :
  next_cell a <> Intact -> N <= count a ->
  srun fuel (snapshot_walk N sizeT (s WriteCount) (N - 1) (S n)) s = Some ([], s).
Proof.
  intros Hn HN. cbn [snapshot_walk]. rewrite want_pos, cell_of_pos by lia.
  replace ((count a - 1 - (N - 1)) mod N) with (next a).
  2:{ replace (count a) with (count a - 1 - (N - 1) + 1 * N) at 1 by lia. apply Nat.Div0.mod_add. }
  pose proof (rep_next _ _ Hrep) as Hx. pose proof rep_small. cbn -[snapshot_walk].
  destruct (next_cell a); [done| | |].
  - rewrite Hx, orb_true_r. done.
  - rewrite Hx. done.
  - destruct Hx as (H1 & H2 & H3). rewrite H1, (proj2 (Z.eqb_neq _ _) H2). cbn -[snapshot_walk].
    rewrite srun_bind, srun_copy_cell, Z.eqb_refl, H3. cbn -[snapshot_walk].
    by rewrite (proj2 (Z.eqb_neq _ _)) by lia.
Qed.

Lemma srun_walk fuel n i :
  i + n <= count a -> i + n <= N ->
  srun fuel (snapshot_walk N sizeT (s WriteCount) i n) s =
  Some (take (Nat.min n (spec_depth a - i)) (drop i (reverse (published a))), s).
Proof.
  revert i. induction n as [|n IH]; intros i Hc HN; [done|].
  destruct (decide (i < spec_depth a)) as [Hi|Hi].
  - destruct (lookup_lt_is_Some_2 (published a) (count a - 1 - i) ltac:(lia)) as [v Hv].
    erewrite walk_live, IH by (eauto; lia).
    assert (reverse (published a) !! i = Some v) as Hr.
    { rewrite reverse_lookup by lia. rewrite <- Hv. f_equal. lia. }
    rewrite (drop_S _ _ _ Hr).
    replace (Nat.min (S n) (spec_depth a - i)) with (S (Nat.min n (spec_depth a - S i))) by lia.
    done.
  - rewrite (proj2 (Nat.sub_0_le _ _)), Nat.min_0_r by lia. unfold spec_depth in Hi.
    destruct (decide (next_cell a = Intact)) as [E|E]; [rewrite E in Hi; lia|].
    replace i with (N - 1) by (destruct (next_cell a); (done || lia)).
    apply walk_lost; [done|]. destruct (next_cell a); (done || lia).
Qed.

Lemma srun_RSnapshot fuel k :
  (0 <= k)%Z -> srun fuel (RSnapshot N sizeT k) s = Some (spec_snapshot k a, s).
Proof.
  intros Hk. unfold RSnapshot. cbn -[snapshot_walk].
  pose proof (rep_count _ _ Hrep) as Hcnt.
  set (limit := Z.to_nat _).
  assert (limit = Nat.min (Nat.min (Z.to_nat k) (count a)) N) as ->.
  { subst limit. rewrite Hcnt. repeat case_match; zbool; lia. }
  rewrite srun_walk by lia. unfold spec_snapshot. do 2 f_equal. rewrite drop_0, Nat.sub_0_r.
  assert (spec_depth a <= N) by (unfold spec_depth; destruct (next_cell a); lia).
  destruct (decide (Nat.min (Z.to_nat k) (spec_depth a) <= count a)).
  - f_equal. lia.
  - rewrite !take_ge; rewrite ?length_reverse; (done || lia).
Qed.
End Rep.

(** ** The writer, whole or killed *)

Definition in_cell (n : nat) (l : rloc) : Prop :=
  match l with Seq m | Index m | Word m _ => m = n | WriteCount => False end.

(** A store's memory after its sequence, index and words have been written. *)
Definition staged_state (s : state) (n : nat) (v : bytes) : state :=
  set_words (upd (upd s (Seq n) (u64 (s (Seq n) + 1))) (Index n) (s WriteCount)) n 0
    (words_of_bytes kW v).

Definition closed_state (s : state) (n : nat) (v : bytes) : state :=
  upd (staged_state s n v) (Seq n) (u64 (s (Seq n) + 2)).

Lemma srun_RStore fuel v s :
  srun fuel (RStore N sizeT v) s =
  Some (tt, upd (closed_state s (cell_of N (s WriteCount)) v) WriteCount (u64 (s WriteCount + 1))).
Proof. unfold RStore. cbn. by rewrite srun_bind, srun_store_words. Qed.

Lemma srun_prefix_words fuel {A} c (f : unit -> rprog A) n i ws s :
  srun fuel (prefix_ops n (pbind (store_words c i ws) f)) s =
  if n <? length ws then Some (tt, set_words s c i (take n ws))
  else srun fuel (prefix_ops (n - length ws) (f tt)) (set_words s c i ws).
Proof.
  revert n i s. induction ws as [|w ws IH]; intros n i s.
  - cbn [length take]. rewrite Nat.sub_0_r. by destruct n.
  - destruct n as [|n]; [done|]. cbn -[Nat.ltb]. rewrite IH. done.
Qed.

Lemma staged_other s n v l : ~ in_cell n l -> staged_state s n v l = s l.
Proof.
  intros Hl. unfold staged_state. rewrite set_words_other by (intros k ->; by destruct Hl).
  rewrite !upd_ne; [done|intros ->; by destruct Hl..].
Qed.

(** The three ways a killed store leaves the ring. *)
Lemma srun_prefix_RStore fuel n v s :
  let c := cell_of N (s WriteCount) in
  exists s', srun fuel (prefix_ops n (RStore N sizeT v)) s = Some (tt, s') /\
    if n <? 3 then s' = s
    else if n <? kW + 6 then
      s' (Seq c) = u64 (s (Seq c) + 1) /\ forall l, ~ in_cell c l -> s' l = s l
    else if n <? kW + 7 then s' = closed_state s c v
    else s' = upd (closed_state s c v) WriteCount (u64 (s WriteCount + 1)).
Proof.
  intros c. do 2 (destruct n as [|n]; [by exists s|]). destruct n as [|n]; [by exists s|].
  set (s1 := upd s (Seq c) (u64 (s (Seq c) + 1))).
  assert (forall l, ~ in_cell c l -> s1 l = s l) as H1
    by (intros l Hl; apply upd_ne; intros ->; by destruct Hl).
  do 2 (destruct n as [|n]; [exists s1; split; [done|];
    rewrite (proj2 (Nat.ltb_ge _ 3)), (proj2 (Nat.ltb_lt _ (kW + 6))) by lia;
    split; [apply upd_eq|exact H1]|]).
  set (s2 := upd s1 (Index c) (s WriteCount)).
  assert (srun fuel (prefix_ops (S (S (S (S (S n))))) (RStore N sizeT v)) s =
    srun fuel (prefix_ops n (store_words c 0 (words_of_bytes kW v) ;;;
      store (Seq c) (u64 (s (Seq c) + 2)) release ;;;
      store WriteCount (u64 (s WriteCount + 1)) release)%prog) s2) as -> by done.
  rewrite srun_prefix_words, length_words_of_bytes.
  assert (forall k l, ~ in_cell c l -> set_words s2 c 0 (take k (words_of_bytes kW v)) l = s l) as Hoth.
  { intros k l Hl. rewrite set_words_other by (intros j ->; by destruct Hl).
    unfold s2. rewrite upd_ne by (intros ->; by destruct Hl). by apply H1. }
  assert (forall ws, set_words s2 c 0 ws (Seq c) = u64 (s (Seq c) + 1)) as Hseq
    by (intros ws; rewrite set_words_other by done; unfold s2; rewrite upd_ne by done; apply upd_eq).
  change (S (S (S (S (S n)))) <? 3) with false. cbv iota.
  destruct (Nat.ltb_spec n kW).
  - eexists; split; [done|]. rewrite (proj2 (Nat.ltb_lt _ _)) by lia. auto.
  - remember (n - kW) as d eqn:Hd. destruct d as [|[|d]].
    + eexists; split; [done|]. rewrite (proj2 (Nat.ltb_lt _ _)) by lia.
      split; [apply Hseq|]. intros l Hl. rewrite <- (firstn_all (words_of_bytes kW v)). by apply Hoth.
    + eexists; split; [done|]. rewrite (proj2 (Nat.ltb_ge _ _)), (proj2 (Nat.ltb_lt _ _)) by lia. done.
    + exists (upd (closed_state s c v) WriteCount (u64 (s WriteCount + 1))).
      split; [by destruct d|]. by rewrite !(proj2 (Nat.ltb_ge _ _)) by lia.
Qed.

Lemma closed_other s n v l : ~ in_cell n l -> closed_state s n v l = s l.
Proof.
  intros Hl. unfold closed_state. rewrite upd_ne by (intros ->; by destruct Hl). by apply staged_other.
Qed.

Lemma closed_holds s n p v :
  s WriteCount = Z.of_nat p -> is_odd (s (Seq n)) = false -> (0 <= s (Seq n) < 2 ^ 63)%Z ->
  cell_holds (closed_state s n v) n p v /\ closed_state s n v (Seq n) = (s (Seq n) + 2)%Z.
Proof.
  intros Hc Ho Hb.
  assert (closed_state s n v (Seq n) = (s (Seq n) + 2)%Z) as E.
  { unfold closed_state. rewrite upd_eq. apply wrap_id. unfold in_width. lia. }
  split; [|done]. unfold cell_holds. rewrite E. split_and!.
  - lia.
  - replace (s (Seq n) + 2)%Z with (s (Seq n) + 1 + 1)%Z by lia. by rewrite !is_odd_succ, Ho.
  - unfold closed_state, staged_state. rewrite upd_ne, set_words_other, upd_eq by done. done.
  - unfold cell_words. rewrite <- (set_words_read (upd (upd s (Seq n) (u64 (s (Seq n) + 1)))
      (Index n) (s WriteCount)) n 0 (words_of_bytes kW v)).
    rewrite length_words_of_bytes. apply map_ext. intros k. unfold closed_state. by rewrite upd_ne.
Qed.

Lemma cell_holds_other s s' n m p v :
  (forall l, ~ in_cell n l -> s' l = s l) -> m <> n -> cell_holds s m p v -> cell_holds s' m p v.
Proof.
  intros He Hm (H1 & H2 & H3 & H4). unfold cell_holds, cell_words.
  rewrite !(He (Seq m)), (He (Index m)) by (cbn; congruence). split_and!; try done.
  rewrite <- H4. apply map_ext. intros k. apply He. cbn; congruence.
Qed.

(** Whatever happens inside the next cell, the rest of the history stays. *)
Lemma rep_scribble a s s' st start' :
  ring_rep a s -> (forall l, ~ in_cell (next a) l -> s' l = s l) -> st <> Intact ->
  started a <= start' -> (0 <= s' (Seq (next a)) <= 2 * Z.of_nat start')%Z ->
  match st with
  | Intact => False
  | InFlight => is_odd (s' (Seq (next a))) = true
  | Retracted => s' (Seq (next a)) = 0%Z
  | Ahead => is_odd (s' (Seq (next a))) = false /\ s' (Seq (next a)) <> 0%Z /\
             s' (Index (next a)) = Z.of_nat (count a)
  end -> ring_rep (Ring (published a) st start') s'.
Proof.
  intros Hrep He Hst Hle Hb Hm. pose proof (rep_started _ _ Hrep). split; cbn [published next_cell started].
  - rewrite (He WriteCount) by (intros []). apply (rep_count _ _ Hrep).
  - lia.
  - intros p v Hp Hd. pose proof (lookup_lt_Some _ _ _ Hp).
    assert (count a <= p + (N - 1)) by (unfold spec_depth in Hd; destruct st; cbn [next_cell] in Hd; (done || lia)).
    assert (p mod N <> next a) as Hne by (intros E%mod_next; lia).
    eapply cell_holds_other; [exact He|done|]. apply (rep_live _ _ Hrep); [done|].
    unfold spec_depth. destruct (next_cell a); lia.
  - intros n Hn [Hne|?]; [|done]. rewrite He by (cbn; congruence).
    apply (rep_fresh _ _ Hrep); [lia|by left].
  - by destruct st.
  - intros n Hn. destruct (decide (n = next a)) as [->|Hne]; [done|].
    rewrite He by (cbn; congruence). pose proof (rep_bound _ _ Hrep n Hn). lia.
  - apply (rep_values _ _ Hrep).
Qed.

Section Step.
Variable a : ring_spec.
Variable s : state.
Hypothesis Hrep : ring_rep a s.
Hypothesis Hsmall : (Z.of_nat (started a) < 2 ^ 62)%Z.

Lemma next_lt : next a < N.
Proof. apply Nat.mod_upper_bound. lia. Qed.

Lemma next_even : next_cell a <> InFlight -> is_odd (s (Seq (next a))) = false.
Proof.
  intros H. pose proof (rep_next _ _ Hrep) as Hn. destruct (next_cell a); try done.
  - by rewrite Hn.
  - apply Hn.
Qed.

Lemma next_cell_of : cell_of N (s WriteCount) = next a.
Proof. rewrite (rep_count _ _ Hrep). apply cell_of_pos. Qed.

Lemma rep_store v :
  length v = sizeT -> Forall is_byte v -> next_cell a <> InFlight ->
  ring_rep (spec_store v a)
    (upd (closed_state s (next a) v) WriteCount (u64 (s WriteCount + 1))).
Proof.
  intros Hl Hb Hf. pose proof (rep_small a s Hrep Hsmall). pose proof (rep_started _ _ Hrep).
  pose proof (rep_bound _ _ Hrep _ next_lt) as Hbd.
  destruct (closed_holds s (next a) (count a) v) as [Hc Es];
    [apply Hrep|by apply next_even|lia|].
  set (s' := upd _ _ _).
  assert (forall l, l <> WriteCount -> s' l = closed_state s (next a) v l) as Hs'
    by (intros; by apply upd_ne).
  assert (forall l, l <> WriteCount -> ~ in_cell (next a) l -> s' l = s l) as Ho
    by (intros; rewrite Hs' by done; by apply closed_other).
  assert (forall n p w, cell_holds (closed_state s (next a) v) n p w -> cell_holds s' n p w) as Hh.
  { intros n p w (H1 & H2 & H3 & H4). unfold cell_holds. rewrite !Hs' by done.
    by split_and!. }
  assert (count (spec_store v a) = S (count a)) as Hlen by (cbn; rewrite length_app; cbn; lia).
  assert (forall p, p < S (count a) -> S (count a) <= p + N -> p <> count a ->
    p mod N <> next a /\ count a <= p + spec_depth a) as Hlive.
  { intros p Hp Hd Hne. split; [intros E%mod_next; lia|]. unfold spec_depth. destruct (next_cell a); lia. }
  split; rewrite ?Hlen.
  - unfold s'. rewrite upd_eq, (rep_count _ _ Hrep), wrap_id; unfold in_width; lia.
  - cbn. lia.
  - cbn [spec_store published next_cell]. intros p w Hp Hd. change (spec_depth _) with N in Hd.
    pose proof (lookup_lt_Some _ _ _ Hp) as Hlt. rewrite length_app in Hlt; cbn in Hlt.
    destruct (decide (p = count a)) as [->|Hne].
    + rewrite lookup_snoc_last in Hp. injection Hp as <-. by apply Hh.
    + destruct (Hlive p) as [H1 H2]; [lia..|]. rewrite lookup_app_l in Hp by lia. apply Hh.
      eapply cell_holds_other; [apply closed_other|exact H1|]. by apply (rep_live _ _ Hrep).
  - intros n Hn _. assert (n <> next a) by (rewrite Nat.mod_small; lia).
    rewrite Ho by (cbn; congruence). apply (rep_fresh _ _ Hrep); [lia|by left].
  - cbn [spec_store next_cell].
    destruct (decide (S (count a) mod N = next a)) as [->|Hne].
    { rewrite Hs' by done. apply Hc. }
    pose proof (Nat.mod_upper_bound (S (count a)) N ltac:(lia)).
    rewrite Ho by (cbn; congruence). destruct (decide (S (count a) < N)) as [|].
    + rewrite (rep_fresh _ _ Hrep); [done|rewrite Nat.mod_small; lia|by left].
    + destruct (lookup_lt_is_Some_2 (published a) (S (count a) - N)) as [w Hw].
      { destruct (decide (N = 1)) as [HN|]; [|lia]. exfalso. apply Hne. rewrite HN. by rewrite !Nat.mod_1_r. }
      pose proof (rep_live _ _ Hrep _ _ Hw) as (_ & H2 & _).
      { unfold spec_depth. destruct (next_cell a); lia. }
      rewrite <- H2. do 3 f_equal.
      replace (S (count a)) with (S (count a) - N + 1 * N) at 1 by lia. apply Nat.Div0.mod_add.
  - cbn [spec_store started]. intros n Hn. rewrite Hs' by done.
    destruct (decide (n = next a)) as [->|Hne]; [rewrite Es; lia|].
    rewrite closed_other by (cbn; congruence). pose proof (rep_bound _ _ Hrep n Hn). lia.
  - apply Forall_app. split; [apply (rep_values _ _ Hrep)|]. by repeat constructor.
Qed.

Lemma rep_ahead v :
  next_cell a <> InFlight ->
  ring_rep (Ring (published a) Ahead (S (started a))) (closed_state s (next a) v).
Proof.
  intros Hf. pose proof (rep_started _ _ Hrep). pose proof (rep_bound _ _ Hrep _ next_lt) as Hbd.
  destruct (closed_holds s (next a) (count a) v) as [(H1 & H2 & H3 & _) Es];
    [apply Hrep|by apply next_even|lia|].
  eapply rep_scribble; [exact Hrep|apply closed_other|done|lia|rewrite Es; lia|done].
Qed.

Lemma rep_inflight s' :
  next_cell a <> InFlight ->
  s' (Seq (next a)) = u64 (s (Seq (next a)) + 1) -> (forall l, ~ in_cell (next a) l -> s' l = s l) ->
  ring_rep (Ring (published a) InFlight (S (started a))) s'.
Proof.
  intros Hf Hs He. pose proof (rep_bound _ _ Hrep _ next_lt) as Hbd.
  rewrite wrap_id in Hs by (unfold in_width; lia).
  eapply rep_scribble; [exact Hrep|exact He|done|lia|rewrite Hs; lia|].
  by rewrite Hs, is_odd_succ, next_even.
Qed.

(** The crash and the repair. *)
Lemma rep_crash fuel n v :
  length v = sizeT -> Forall is_byte v -> next_cell a <> InFlight ->
  exists s', srun fuel (prefix_ops n (RStore N sizeT v)) s = Some (tt, s') /\
             ring_rep (spec_crash n v a) s'.
Proof.
  intros Hl Hb Hf. destruct (srun_prefix_RStore fuel n v s) as (s' & Hr & Hs').
  exists s'. split; [exact Hr|]. rewrite next_cell_of in Hs'. unfold spec_crash.
  destruct (n <? 3); [by subst|]. destruct (n <? kW + 6).
  - destruct Hs'. by apply rep_inflight.
  - destruct (n <? kW + 7); subst; [by apply rep_ahead|by apply rep_store].
Qed.

Lemma rep_repair fuel :
  exists s', srun fuel (RRepairAfterWriterCrash N) s = Some (tt, s') /\ ring_rep (spec_repair a) s'.
Proof.
  unfold RRepairAfterWriterCrash. cbn. rewrite next_cell_of. unfold spec_repair.
  destruct (decide (next_cell a = InFlight)) as [E|E].
  - pose proof (rep_next _ _ Hrep) as Hn. rewrite E in Hn |- *. rewrite Hn. eexists; split; [done|].
    eapply rep_scribble; [exact Hrep| |done|lia|rewrite upd_eq; lia|by rewrite upd_eq].
    intros l Hl. apply upd_ne. intros ->. by destruct Hl.
  - rewrite next_even by done. exists s. split; [done|]. by destruct (next_cell a).
Qed.

(** One verb refines the specification. *)
Lemma verb_refines fuel op :
  legal op a ->
  match spec_step op a with
  | Some (r, a') => exists s', srun (S fuel) (verb_prog op) s = Some (r, s') /\ ring_rep a' s'
  | None => srun (S fuel) (verb_prog op) s = None
  end.
Proof.
  pose proof (attempt_val_spec a s Hrep Hsmall) as Hav.
  destruct op as [v|n v| | |m|k]; cbn [legal spec_step verb_prog]; intros Hleg;
    rewrite ?srun_bind.
  - destruct Hleg as (? & ? & ?). rewrite srun_RStore, next_cell_of. eexists; split; [done|].
    by apply rep_store.
  - destruct Hleg as (? & ? & ?). destruct (rep_crash (S fuel) n v) as (s' & -> & ?); eauto.
  - destruct (rep_repair (S fuel)) as (s' & -> & ?); eauto.
  - pose proof (srun_Load_attempt (S fuel) s) as Ha. rewrite Hav in Ha.
    destruct (spec_latest a) as [r|].
    + exists s. split; [|done]. unfold RLoad. by rewrite (srun_forever_now _ _ _ _ _ Ha).
    + unfold RLoad. by rewrite (srun_forever_stuck _ _ _ _ eq_refl Ha).
  - exists s. split; [|done]. unfold RLoadBounded.
    rewrite (proj2 (Z.eqb_neq _ _)) by lia. by rewrite srun_attempts, Hav.
  - exists s. split; [|done]. by rewrite (srun_RSnapshot a s Hrep Hsmall) by lia.
Qed.
End Step.

Lemma spec_started op a r a' :
  spec_step op a = Some (r, a') -> started a' <= S (started a).
Proof.
  destruct op; cbn; try (by intros [= _ <-]; cbn; lia).
  - intros [= _ <-]. unfold spec_crash. repeat case_match; cbn; lia.
  - intros [= _ <-]. unfold spec_repair. case_match; cbn; lia.
  - case_match; [|done]. intros [= _ <-]. lia.
Qed.

Lemma run_refines fuel ops a s :
  ring_rep a s -> (Z.of_nat (started a + length ops) < 2 ^ 62)%Z -> all_legal ops a ->
  run_verbs (S fuel) ops s = run_spec ops a.
Proof.
  revert a s. induction ops as [|op ops IH]; intros a s Hrep Hb Hl; [done|].
  cbn [length all_legal run_verbs run_spec] in *. destruct Hl as [Hleg Hl].
  pose proof (verb_refines a s Hrep ltac:(lia) fuel op Hleg) as Hv.
  destruct (spec_step op a) as [[r a']|] eqn:E; [|by rewrite Hv].
  destruct Hv as (s' & -> & Hrep'). apply spec_started in E. rewrite (IH a'); [done..|lia|done].
Qed.

(** ** Construction *)

Lemma srun_init_cells fuel n s :
  exists s', srun fuel (init_cells sizeT n) s = Some (tt, s') /\ s' WriteCount = s WriteCount /\
    forall m, m < n -> s' (Seq m) = 0%Z /\ s' (Index m) = 0%Z /\ cell_words s' m = repeat 0%Z kW.
Proof.
  induction n as [|n IH]; [exists s; split_and!; [done|done|lia]|].
  destruct IH as (s1 & Hr & Hc & Hz). cbn [init_cells]. rewrite srun_bind, Hr. cbn.
  rewrite srun_store_words. eexists; split; [done|]. split.
  { rewrite set_words_other by done. by rewrite !upd_ne. }
  intros m Hm. destruct (decide (m = n)) as [->|Hne].
  - split_and!; [by rewrite set_words_other, upd_ne, upd_eq|by rewrite set_words_other, upd_eq|].
    pose proof (set_words_read (upd (upd s1 (Seq n) 0%Z) (Index n) 0%Z) n 0 (repeat 0%Z kW)) as Hw.
    by rewrite repeat_length in Hw.
  - specialize (Hz m ltac:(lia)) as (H1 & H2 & H3).
    rewrite !set_words_other, !upd_ne by (intros; congruence). split_and!; try done.
    rewrite <- H3. apply map_ext. intros k. rewrite set_words_other, !upd_ne; intros; congruence.
Qed.

Definition empty_ring : ring_spec := Ring [] Intact 0.

Lemma ctor_rep fuel s :
  exists s', srun fuel (SeqlockRing_ctor N sizeT true) s = Some (tt, s') /\ ring_rep empty_ring s'.
Proof.
  cbn. destruct (srun_init_cells fuel N (upd s WriteCount 0%Z)) as (s' & Hr & Hc & Hz).
  exists s'. split; [done|]. rewrite upd_eq in Hc.
  assert (0 mod N < N) by (apply Nat.mod_upper_bound; lia).
  split; cbn [empty_ring published next_cell started length]; try done.
  - intros n Hn _. apply Hz. lia.
  - by rewrite (proj1 (Hz _ H)).
  - intros n Hn. rewrite (proj1 (Hz _ Hn)). lia.
Qed.

(** C3: the ring refines the last-N history.  On a constructed ring, every script
    of fewer than 2^62 verbs, stores, killed stores, repairs, loads, bounded
    loads and snapshots, gives answer by answer what the abstract history says,
    and a verb returns exactly when the history says it does. *)
Theorem ring_refines fuel ops s :
  (Z.of_nat (length ops) < 2 ^ 62)%Z -> all_legal ops empty_ring ->
  exists s', srun (S fuel) (SeqlockRing_ctor N sizeT true) s = Some (tt, s') /\
             run_verbs (S fuel) ops s' = run_spec ops empty_ring.
Proof.
  intros Hb Hl. destruct (ctor_rep (S fuel) s) as (s' & Hc & Hrep). exists s'. split; [done|].
  by apply run_refines.
Qed.

(** The state after a store and a store killed at its last operation. *)
Lemma spec_crash_last v a : spec_crash (kW + 6) v a = Ring (published a) Ahead (S (started a)).
Proof.
  unfold spec_crash.
  by rewrite (proj2 (Nat.ltb_ge _ _)), (proj2 (Nat.ltb_ge _ _)), (proj2 (Nat.ltb_lt _ _)) by lia.
Qed.

Lemma spec_crash_mid n v a :
  3 <= n < kW + 6 -> spec_crash n v a = Ring (published a) InFlight (S (started a)).
Proof.
  intros. unfold spec_crash.
  by rewrite (proj2 (Nat.ltb_ge _ _)), (proj2 (Nat.ltb_lt _ _)) by lia.
Qed.

(** Repair covers a writer killed inside the copy, not one killed between its
    even sequence store and its cursor store.  At depth 1, after a repair in the
    first case the slot reads as never written; in the second case it is left as
    it was: bounded loads report a stall and a plain load does not return,
    however long it runs, until the next store. *)
Theorem repair_depth1 fuel s v w m n :
  N = 1 ->
  length v = sizeT -> Forall is_byte v -> length w = sizeT -> Forall is_byte w ->
  (0 <= m < 2 ^ 32 - 1)%Z -> 3 <= n < kW + 6 ->
  exists s', srun (S fuel) (SeqlockRing_ctor N sizeT true) s = Some (tt, s') /\
  run_verbs (S fuel) [VStore v; VCrash n w; VLoadBounded m; VRepair; VLoad; VStore w; VLoad] s' =
    Some [ADone; ADone; ABounded kStalled; ADone; ALoad None; ADone; ALoad (Some w)] /\
  run_verbs (S fuel) [VStore v; VCrash (kW + 6) w; VRepair; VLoadBounded m] s' =
    Some [ADone; ADone; ADone; ABounded kStalled] /\
  run_verbs (S fuel) [VStore v; VCrash (kW + 6) w; VRepair; VLoad] s' = None.
Proof.
  intros HN Hv Hvb Hw Hwb Hm Hn.
  destruct (ctor_rep (S fuel) s) as (s' & Hc & Hrep). exists s'. split; [done|].
  split_and!; (erewrite run_refines; [|exact Hrep|cbn; lia|]);
    cbn [all_legal run_spec spec_step spec_store spec_repair published next_cell started legal
         empty_ring app];
    rewrite ?spec_crash_mid, ?spec_crash_last by done;
    cbn [spec_step spec_store spec_repair published next_cell started legal run_spec all_legal app];
    unfold spec_latest; cbn [published next_cell last];
    (destruct (decide (N = 1)); [|done]); cbn; repeat split; done || lia.
Qed.
End Sequential.

(** ** Concrete runs *)

Definition rec_a : bytes := [1; 2; 3; 4; 5; 6; 7; 8; 9]%Z.
Definition rec_b : bytes := [9; 8; 7; 6; 5; 4; 3; 2; 1]%Z.

(** A ring of two: store, store, a killed store, a snapshot, repair, store. *)
Definition demo_script : list verb :=
  [VLoad; VStore rec_a; VStore rec_b; VSnapshot 9; VCrash 5 rec_a; VLoadBounded 3;
   VSnapshot 9; VRepair; VStore rec_a; VSnapshot 9].

Lemma ring_refines_witness :
  exists s', srun 1 (SeqlockRing_ctor 2 9 true) (fun _ => 77%Z) = Some (tt, s') /\
    run_verbs 2 9 1 demo_script s' =
    Some [ALoad None; ADone; ADone; ASnapshot [rec_b; rec_a]; ADone; ABounded (kValue rec_b);
          ASnapshot [rec_b]; ADone; ADone; ASnapshot [rec_a; rec_b]].
Proof.
  apply (ring_refines 2 9 ltac:(lia) 0 demo_script); [done|].
  cbn; split_and!; try done; try lia; by repeat constructor.
Defined.

Lemma repair_depth1_witness :
  exists s', srun 1 (SeqlockRing_ctor 1 9 true) (fun _ => 0%Z) = Some (tt, s') /\
  run_verbs 1 9 1 [VStore rec_a; VCrash 5 rec_b; VLoadBounded 3; VRepair; VLoad; VStore rec_b; VLoad] s' =
    Some [ADone; ADone; ABounded kStalled; ADone; ALoad None; ADone; ALoad (Some rec_b)] /\
  run_verbs 1 9 1 [VStore rec_a; VCrash 8 rec_b; VRepair; VLoadBounded 3] s' =
    Some [ADone; ADone; ADone; ABounded kStalled] /\
  run_verbs 1 9 1 [VStore rec_a; VCrash 8 rec_b; VRepair; VLoad] s' = None.
Proof.
  apply (repair_depth1 1 9 ltac:(lia) 0 (fun _ => 0%Z) rec_a rec_b 3 5); try done; try lia;
    by repeat constructor.
Defined.
