(* ===== verification/Storage.v ===== *)
(** * Storage policies: where the cells live (storage.hpp)

    [RegionStorage] is a bump allocator over a caller-provided region,
    [HeapStorage] a source of fresh zeroed blocks; both implement the policy
    interface the primitives are written against, and the ring's two carves are
    placed through it. *)

From Stdlib Require Import ZArith Lia.
From stdpp Require Import base list numbers relations.
From S2P Require Import Prelude Memory SeqlockRing.

Local Open Scope Z_scope.

(** ** The policy contract

    [P] is a policy instance, [W] the memory it hands out; a handle is an offset
    (region) or a block number (heap).  [None] is the failed assertion. *)
Class StoragePolicy (P W : Type) := {
  MakeArray : Z -> Z -> Z -> P -> W -> option (Z * P * W);  (* sizeof, alignof, count *)
  Initialize : P -> bool
}.

Definition MakeSingle {P W} `{StoragePolicy P W} (sizeU alignU : Z) (p : P) (w : W)
  : option (Z * P * W) := MakeArray sizeU alignU 1 p w.

(** ** RegionStorage *)

Record RegionStorage := Region {
  size_ : Z;
  cursor_ : Z;
  initialize_ : bool
}.

Definition RegionStorage_ctor (size : Z) (initialize : bool) : RegionStorage :=
  Region size 0 initialize.

Definition used (r : RegionStorage) : Z := cursor_ r.

(** The bytes [at, at + n) set to zero: [::new (p) U()] over the cells. *)
Definition zero_fill (at_ n : nat) (m : bytes) : bytes :=
  take at_ m ++ repeat 0 (Nat.min n (length m - at_)) ++ drop (at_ + n) m.

(** [assert] is checked when [debug] holds and compiled out otherwise. *)
Definition Carve (debug : bool) (sizeU alignU count : Z) (r : RegionStorage) (m : bytes)
  : option (Z * RegionStorage * bytes) :=
  let align := if alignU <? 64 then 64 else alignU in
  let at_ := align_up align (cursor_ r) in
  let cursor := u64 (at_ + u64 (sizeU * count)) in
  if (debug && negb (cursor <=? size_ r))%bool then None else
  let m' := if initialize_ r then zero_fill (Z.to_nat at_) (Z.to_nat (sizeU * count)) m else m in
  Some (at_, Region (size_ r) cursor (initialize_ r), m').

#[global] Instance RegionStorage_policy (debug : bool) : StoragePolicy RegionStorage bytes := {
  MakeArray := Carve debug;
  Initialize := initialize_
}.

(** ** HeapStorage: every block is new and zeroed *)

Inductive HeapStorage := Heap.

Definition heap_make (sizeU alignU count : Z) (p : HeapStorage) (w : list bytes)
  : option (Z * HeapStorage * list bytes) :=
  Some (Z.of_nat (length w), p, w ++ [repeat 0 (Z.to_nat (sizeU * count))]).

#[global] Instance HeapStorage_policy : StoragePolicy HeapStorage (list bytes) := {
  MakeArray := heap_make;
  Initialize := fun _ => true
}.

(** ** The ring's placement: cells, then the cursor header

    [alignof] of both is that of a 64-bit atomic. *)
Definition place_ring {P W} `{StoragePolicy P W} (N sizeT : nat) (p : P) (w : W)
  : option ((Z * Z * bool) * P * W) :=
  match MakeArray (CellBytes sizeT) 8 (Z.of_nat N) p w with
  | None => None
  | Some (cells, p, w) =>
      match MakeSingle HeaderBytes 8 p w with
      | None => None
      | Some (header, p, w) => Some ((cells, header, Initialize p), p, w)
      end
  end.

(** ** What one carve does *)

Definition carve_ok (sizeU alignU count : Z) (r : RegionStorage) : Prop :=
  exists k, 0 <= k <= 12 /\ alignU = 2 ^ k /\ 0 <= sizeU /\ 0 <= count /\
    0 <= cursor_ r /\ cursor_ r + sizeU * count + 4096 <= 2 ^ 63.

Lemma length_zero_fill a n m :
  (a <= length m)%nat -> length (zero_fill a n m) = length m.
Proof.
  intros. unfold zero_fill. rewrite !length_app, repeat_length, length_take, length_drop. lia.
Qed.

Lemma zero_fill_lookup a n m i :
  (a <= length m)%nat ->
  zero_fill a n m !! i =
  if decide (a <= i < a + n /\ i < length m)%nat then Some 0 else m !! i.
Proof.
  intros Ha. unfold zero_fill. destruct (decide (i < a)%nat) as [Hi|Hi].
  - rewrite lookup_app_l, lookup_take_lt by (rewrite ?length_take; lia).
    rewrite decide_False by lia. done.
  - rewrite lookup_app_r by (rewrite length_take; lia). rewrite length_take, Nat.min_l by lia.
    destruct (decide (i - a < Nat.min n (length m - a))%nat) as [Hz|Hz].
    + rewrite lookup_app_l by (rewrite repeat_length; lia).
      rewrite decide_True by lia. apply lookup_repeat_lt. lia.
    + rewrite lookup_app_r by (rewrite repeat_length; lia).
      rewrite repeat_length, lookup_drop. rewrite decide_False by lia.
      destruct (decide (length m <= i)%nat).
      * rewrite !lookup_ge_None_2; [done|lia|].
        destruct (decide (n <= length m - a)%nat); lia.
      * f_equal. lia.
Qed.

(** One carve: the offset is cache-line and type aligned and not below the
    cursor, the new cursor closes the block, and only the block is zeroed. *)
Lemma Carve_spec debug sizeU alignU count r m :
  carve_ok sizeU alignU count r ->
  let at_ := align_up (if alignU <? 64 then 64 else alignU) (cursor_ r) in
  Carve debug sizeU alignU count r m =
    (if (debug && negb (at_ + sizeU * count <=? size_ r))%bool then None
     else Some (at_, Region (size_ r) (at_ + sizeU * count) (initialize_ r),
                if initialize_ r then zero_fill (Z.to_nat at_) (Z.to_nat (sizeU * count)) m else m)) /\
  at_ mod 64 = 0 /\ at_ mod alignU = 0 /\ cursor_ r <= at_ < cursor_ r + 4096.
Proof.
  intros (k & Hk & -> & Hs & Hc & Hcur & Hb). cbn zeta.
  assert (0 <= sizeU * count) by nia.
  assert (exists j, 6 <= j <= 12 /\ k <= j /\ (if 2 ^ k <? 64 then 64 else 2 ^ k) = 2 ^ j) as (j & Hj & Hkj & Ej).
  { destruct (Z.ltb_spec (2 ^ k) 64) as [Hlt|Hge].
    - exists 6. split; [lia|]. split; [|done]. change 64 with (2 ^ 6) in Hlt.
      apply Z.pow_lt_mono_r_iff in Hlt; lia.
    - exists k. split; [|done]. change 64 with (2 ^ 6) in Hge. apply Z.pow_le_mono_r_iff in Hge; lia. }
  assert (2 ^ j <= 4096) by (change 4096 with (2 ^ 12); apply Z.pow_le_mono_r; lia).
  destruct (align_up_spec j (cursor_ r)) as [Ha Hr]; [lia..|].
  assert (forall i, 0 <= i <= j -> align_up (2 ^ j) (cursor_ r) mod 2 ^ i = 0) as Hmod.
  { intros i Hi. apply Z.mod_divide in Ha; [|lia]. apply Z.mod_divide; [lia|].
    etrans; [|exact Ha]. exists (2 ^ (j - i)). rewrite <- Z.pow_add_r by lia. f_equal; lia. }
  rewrite !Ej. split_and!; try lia.
  - unfold Carve.
    rewrite Ej, (wrap_id 64 (sizeU * count)), wrap_id by (unfold in_width; lia). done.
  - change 64 with (2 ^ 6). apply Hmod. lia.
  - apply Hmod. lia.
Qed.

(** ** Any sequence of carves *)

(** A placement request: sizeof, alignof, count. *)
Definition request := (Z * Z * Z)%type.

Fixpoint carve_all {P W} `{StoragePolicy P W} (reqs : list request) (p : P) (w : W)
  : option (list Z * P * W) :=
  match reqs with
  | [] => Some ([], p, w)
  | (sizeU, alignU, count) :: reqs =>
      match MakeArray sizeU alignU count p w with
      | None => None
      | Some (h, p, w) =>
          match carve_all reqs p w with
          | None => None
          | Some (hs, p, w) => Some (h :: hs, p, w)
          end
      end
  end.

Definition req_bytes (q : request) : Z := let '(sizeU, _, count) := q in sizeU * count.
Definition req_ok (q : request) : Prop :=
  let '(sizeU, alignU, count) := q in
  (exists k, 0 <= k <= 12 /\ alignU = 2 ^ k) /\ 0 <= sizeU /\ 0 <= count.

Fixpoint total (reqs : list request) : Z :=
  match reqs with [] => 0 | q :: reqs => req_bytes q + 4096 + total reqs end.

Lemma total_nonneg reqs : Forall req_ok reqs -> 0 <= total reqs.
Proof.
  induction 1 as [|[[s a] c] reqs (_ & ? & ?) _ IH]; cbn; [lia|]. nia.
Qed.

(** Blocks handed out in order: each aligned, each past the end of the one before. *)
Fixpoint blocks_from (lo : Z) (reqs : list request) (hs : list Z) (hi : Z) : Prop :=
  match reqs, hs with
  | [], [] => lo = hi
  | q :: reqs, h :: hs => lo <= h /\ h mod 64 = 0 /\ h mod (let '(_, a, _) := q in a) = 0 /\
                          blocks_from (h + req_bytes q) reqs hs hi
  | _, _ => False
  end.

Lemma carve_all_spec debug reqs r m :
  Forall req_ok reqs -> 0 <= cursor_ r -> cursor_ r + total reqs <= 2 ^ 63 ->
  match carve_all (H := RegionStorage_policy debug) reqs r m with
  | Some (hs, r', m') =>
      blocks_from (cursor_ r) reqs hs (cursor_ r') /\ size_ r' = size_ r /\
      (debug = true -> reqs <> [] -> cursor_ r' <= size_ r) /\
      initialize_ r' = initialize_ r /\ (initialize_ r = false -> m' = m)
  | None => debug = true /\ size_ r < cursor_ r + total reqs
  end.
Proof.
  intros Hq. revert r m. induction Hq as [|[[sizeU alignU] count] reqs Hok Hq IH]; intros r m Hc Hb.
  { cbn. split_and!; done. }
  pose proof (total_nonneg reqs Hq). destruct Hok as ((k & Hk & Ha) & Hs & Hn).
  cbn [carve_all MakeArray RegionStorage_policy total req_bytes] in *.
  assert (0 <= sizeU * count) by nia.
  destruct (Carve_spec debug sizeU alignU count r m) as (-> & H1 & H2 & H3).
  { exists k. split_and!; lia || done. }
  set (at_ := align_up _ _) in *.
  destruct (debug && negb (at_ + sizeU * count <=? size_ r))%bool eqn:Ed.
  { zbool. split; [done|]. lia. }
  match goal with |- context [carve_all reqs ?r1 ?m1] => specialize (IH r1 m1); cbn in IH end.
  specialize (IH ltac:(lia) ltac:(lia)).
  destruct (carve_all reqs _ _) as [[[hs r'] m']|]; [|split; [tauto|lia]].
  destruct IH as (B1 & B2 & B3 & B4 & B5). cbn [blocks_from]. split_and!; try done; try lia.
  - intros -> _. destruct reqs as [|q reqs]; [|by apply B3].
    destruct hs; cbn in B1; [|done]. cbn in Ed. zbool. lia.
  - intros Hi. rewrite B5 by done. by rewrite Hi.
Qed.

(** Offsets do not depend on who initializes, nor on the contents found. *)
Lemma carve_all_same debug reqs size cursor i1 i2 m1 m2 :
  match carve_all (H := RegionStorage_policy debug) reqs (Region size cursor i1) m1,
        carve_all (H := RegionStorage_policy debug) reqs (Region size cursor i2) m2 with
  | Some (hs1, r1, _), Some (hs2, r2, _) => hs1 = hs2 /\ cursor_ r1 = cursor_ r2
  | None, None => True
  | _, _ => False
  end.
Proof.
  revert cursor m1 m2. induction reqs as [|[[sizeU alignU] count] reqs IH]; intros cursor m1 m2; [done|].
  cbn [carve_all MakeArray RegionStorage_policy]. unfold Carve. cbn [cursor_ size_ initialize_].
  destruct (debug && _)%bool; [done|].
  match goal with |- context [carve_all reqs (Region size ?c i1) ?a] =>
    match goal with |- context [carve_all reqs (Region size c i2) ?b] => specialize (IH c a b) end end.
  destruct (carve_all reqs (Region size _ i1) _) as [[[? ?] ?]|];
    destruct (carve_all reqs (Region size _ i2) _) as [[[? ?] ?]|]; try done.
  destruct IH as [-> ?]. done.
Qed.

(** C34: region layout.  From a fresh cursor over a region large enough, any
    sequence of placements succeeds; the blocks are cache-line aligned, aligned
    for their type, handed out in order without overlap, inside the region; a
    creator and an attacher compute the same offsets and the same [used()], and
    the attacher leaves every byte of the region as it was. *)
Theorem region_layout debug reqs size m m' :
  Forall req_ok reqs -> total reqs <= size <= 2 ^ 63 ->
  exists hs hi mc,
    carve_all (H := RegionStorage_policy debug) reqs (RegionStorage_ctor size true) m =
      Some (hs, Region size hi true, mc) /\
    carve_all (H := RegionStorage_policy debug) reqs (RegionStorage_ctor size false) m' =
      Some (hs, Region size hi false, m') /\
    blocks_from 0 reqs hs hi /\ (debug = true -> hi <= size).
Proof.
  intros Hq Hs. pose proof (total_nonneg _ Hq).
  pose proof (carve_all_spec debug reqs (RegionStorage_ctor size true) m Hq) as H1.
  pose proof (carve_all_spec debug reqs (RegionStorage_ctor size false) m' Hq) as H2.
  pose proof (carve_all_same debug reqs size 0 true false m m') as H3.
  unfold RegionStorage_ctor in *. cbn [cursor_ size_ initialize_] in *.
  destruct (carve_all reqs (Region size 0 true) m) as [[[hs [s1 c1 b1]] mc]|]; [|lia].
  destruct (carve_all reqs (Region size 0 false) m') as [[[hs' [s2 c2 b2]] mc']|]; [|done].
  destruct H3 as [-> E], H1 as (B1 & B2 & B3 & B4 & B5), H2 as (D1 & D2 & D3 & D4 & D5); [lia..|].
  cbn in *. subst. exists hs', c2, mc. rewrite D5 by done. split_and!; try done.
  intros Hd. destruct reqs; [destruct hs'; cbn in *; lia|by apply B3].
Qed.

(** ** The ring's bytes *)

Section RingBytes.
Variable N sizeT : nat.
Hypothesis N_pos : (0 < N)%nat.
Hypothesis small : CellBytes sizeT * Z.of_nat N + 8192 <= 2 ^ 63.
Local Abbreviation cells_end := (RoundUpCacheLine (CellBytes sizeT * Z.of_nat N)).

(** The byte address of a placed word, from the ring's base. *)
Definition word_addr (l : rloc) : Z :=
  match l with
  | WriteCount => cells_end
  | Seq n => Z.of_nat n * CellBytes sizeT
  | Index n => Z.of_nat n * CellBytes sizeT + 8
  | Word n i => Z.of_nat n * CellBytes sizeT + 16 + 8 * Z.of_nat i
  end.

Definition placed (l : rloc) : Prop :=
  match l with
  | WriteCount => True
  | Seq n | Index n => (n < N)%nat
  | Word n i => (n < N)%nat /\ (i < kWords sizeT)%nat
  end.

Lemma cells_end_spec :
  cells_end mod 64 = 0 /\
  CellBytes sizeT * Z.of_nat N <= cells_end < CellBytes sizeT * Z.of_nat N + 64.
Proof.
  unfold RoundUpCacheLine. change 64 with (2 ^ 6). unfold CellBytes in *.
  apply align_up_spec; lia.
Qed.

Lemma CellBytes_pos : 16 <= CellBytes sizeT.
Proof. unfold CellBytes. lia. Qed.

(** Inside the cell array a word is a slot of eight bytes. *)
Definition slot (l : rloc) : option (nat * nat) :=
  match l with
  | WriteCount => None
  | Seq n => Some (n, 0%nat)
  | Index n => Some (n, 1%nat)
  | Word n i => Some (n, 2 + i)%nat
  end.

Lemma slot_inj l l' : slot l = slot l' -> l = l'.
Proof. destruct l, l'; cbn; intros; simplify_eq; done || (f_equal; lia). Qed.

Lemma slot_addr l n o :
  placed l -> slot l = Some (n, o) ->
  word_addr l = Z.of_nat n * CellBytes sizeT + 8 * Z.of_nat o /\ (n < N)%nat /\
  8 * Z.of_nat o + 8 <= CellBytes sizeT.
Proof.
  unfold CellBytes. destruct l; cbn [placed slot word_addr]; intros; simplify_eq; unfold CellBytes;
    split_and!; lia.
Qed.

Lemma words_disjoint l l' :
  placed l -> placed l' -> l <> l' ->
  word_addr l + 8 <= word_addr l' \/ word_addr l' + 8 <= word_addr l.
Proof.
  intros Hl Hl' Hne. pose proof cells_end_spec as [_ He].
  assert (forall x, placed x -> x <> WriteCount -> word_addr x + 8 <= cells_end) as Hin.
  { intros x Hx Hc. destruct (slot x) as [[n o]|] eqn:E; [|by destruct x].
    destruct (slot_addr x n o Hx E) as (-> & ? & ?). nia. }
  destruct (slot l) as [[n o]|] eqn:E1; [|destruct l; try done; right; apply Hin; congruence].
  destruct (slot l') as [[n' o']|] eqn:E2; [|destruct l'; try done; left; apply Hin; congruence].
  destruct (slot_addr l n o Hl E1) as (-> & ? & ?). destruct (slot_addr l' n' o' Hl' E2) as (-> & ? & ?).
  destruct (Nat.lt_trichotomy n n') as [|[->|]]; [left; nia| |right; nia].
  assert (o <> o') by (intros ->; apply Hne, slot_inj; congruence). lia.
Qed.

(** The ring's two carves.  On a fresh region of [StorageBytes()] bytes the cells
    land at the base and the cursor header right after them; the carves consume
    exactly [StorageBytes()]; every atomic word of the ring has eight bytes of its
    own inside the region, and the first word of the region is cell 0's sequence. *)
Theorem ring_placement debug init m :
  exists m',
    place_ring (H := RegionStorage_policy debug) N sizeT
      (RegionStorage_ctor (StorageBytes N sizeT) init) m =
      Some ((0, cells_end, init), Region (StorageBytes N sizeT) (StorageBytes N sizeT) init, m') /\
    (init = false -> m' = m) /\
    word_addr (Seq 0) = 0 /\
    (forall l, placed l -> 0 <= word_addr l /\ word_addr l + 8 <= StorageBytes N sizeT /\
                           word_addr l mod 8 = 0) /\
    (forall l l', placed l -> placed l' -> l <> l' ->
       word_addr l + 8 <= word_addr l' \/ word_addr l' + 8 <= word_addr l).
Proof.
  pose proof cells_end_spec as [Hm He]. pose proof CellBytes_pos as Hc.
  eexists. split; [|split_and!].
  - unfold place_ring, MakeSingle. cbn [MakeArray RegionStorage_policy].
    destruct (Carve_spec debug (CellBytes sizeT) 8 (Z.of_nat N)
      (RegionStorage_ctor (StorageBytes N sizeT) init) m) as (-> & _ & _ & _).
    { exists 3. cbn. split_and!; lia || nia. }
    cbn [cursor_ size_ initialize_ RegionStorage_ctor].
    change (align_up (if 8 <? 64 then 64 else 8) 0) with 0. rewrite Z.add_0_l.
    unfold StorageBytes, HeaderBytes in *.
    rewrite (proj2 (Z.leb_le _ _)) by lia. rewrite andb_false_r.
    match goal with |- context [Carve debug 8 8 1 ?r ?m1] =>
      destruct (Carve_spec debug 8 8 1 r m1) as (-> & _ & _ & _);
        [exists 3; cbn; split_and!; lia || nia|] end.
    cbn [cursor_ size_ initialize_].
    change (align_up (if 8 <? 64 then 64 else 8) (CellBytes sizeT * Z.of_nat N)) with cells_end.
    rewrite Z.mul_1_r, Z.leb_refl, andb_false_r. reflexivity.
  - by intros ->.
  - done.
  - intros l Hl. assert (forall n, (n < N)%nat -> (Z.of_nat n + 1) * CellBytes sizeT <= cells_end) as Hn by nia.
    unfold StorageBytes, HeaderBytes. unfold CellBytes in *.
    assert (cells_end mod 8 = 0) as H8.
    { apply Z.mod_divide in Hm; [|lia]. apply Z.mod_divide; [lia|]. etrans; [|exact Hm]. by exists 8. }
    destruct l as [|n|n|n i]; cbn [word_addr placed] in *; unfold CellBytes in *;
      [|specialize (Hn n ltac:(tauto))..]; (split_and!; [nia|nia|]); [done|..];
      apply Z.mod_divide; try lia.
    + exists (Z.of_nat n * (2 + Z.of_nat (kWords sizeT))). lia.
    + exists (Z.of_nat n * (2 + Z.of_nat (kWords sizeT)) + 1). lia.
    + exists (Z.of_nat n * (2 + Z.of_nat (kWords sizeT)) + 2 + Z.of_nat i). lia.
  - apply words_disjoint.
Qed.
End RingBytes.

Lemma region_layout_witness :
  exists hs hi mc,
    carve_all (H := RegionStorage_policy true) [(8, 8, 1); (24, 8, 8); (256, 256, 2)]
      (RegionStorage_ctor 16384 true) (repeat 7 16384) = Some (hs, Region 16384 hi true, mc) /\
    carve_all (H := RegionStorage_policy true) [(8, 8, 1); (24, 8, 8); (256, 256, 2)]
      (RegionStorage_ctor 16384 false) [] = Some (hs, Region 16384 hi false, []) /\
    blocks_from 0 [(8, 8, 1); (24, 8, 8); (256, 256, 2)] hs hi /\ (true = true -> hi <= 16384).
Proof.
  apply region_layout; [|vm_compute; split; discriminate].
  repeat constructor; cbn; try lia; [exists 3|exists 3|exists 8]; lia.
Defined.

Lemma ring_placement_witness :
  exists m',
    place_ring (H := RegionStorage_policy true) 3 20 (RegionStorage_ctor (StorageBytes 3 20) true) [] =
      Some ((0, 128, true), Region 136 136 true, m').
Proof.
  destruct (ring_placement 3 20 ltac:(lia) ltac:(vm_compute; discriminate) true true []) as (m' & H & _).
  exists m'. exact H.
Defined.
