(* ===== verification/Slots.v ===== *)
(** * The latest-value facades (message_slot.hpp, message_buffer.hpp)

    [MessageSlot] is a ring of one cell, [MessageBuffer] a ring of [N], and
    [MutexMessageSlot] a value and a flag under a mutex.  The three promise the
    same thing to a client that stores and loads the latest value: the interface
    [LatestValue], against which the client's theorem is proved. *)

From Stdlib Require Import ZArith Lia.
From stdpp Require Import base list numbers relations.
From S2P Require Import Prelude Memory SeqlockRing SeqlockSeq.

(** ** The facades *)

Module MessageSlot.
Section Slot.
Variable sizeT : nat.
Definition StorageBytes : Z := SeqlockRing.StorageBytes 1 sizeT.
Definition MessageSlot_ctor (initialize : bool) : rprog unit := SeqlockRing_ctor 1 sizeT initialize.
Definition Store (value : bytes) : rprog unit := RStore 1 sizeT value.
Definition Load : rprog (option bytes) := RLoad 1 sizeT.
Definition LoadBounded (max_retries : Z) : rprog LoadResult := RLoadBounded 1 sizeT max_retries.
Definition RepairAfterWriterCrash : rprog unit := RRepairAfterWriterCrash 1.
End Slot.
End MessageSlot.

Module MessageBuffer.
Section Buffer.
Variable N sizeT : nat.
Definition StorageBytes : Z := SeqlockRing.StorageBytes N sizeT.
Definition CellBytes : Z := SeqlockRing.CellBytes sizeT.
Definition capacity : nat := N.
Definition MessageBuffer_ctor (initialize : bool) : rprog unit := SeqlockRing_ctor N sizeT initialize.
Definition Store (value : bytes) : rprog unit := RStore N sizeT value.
Definition LoadLatest : rprog (option bytes) := RLoad N sizeT.
Definition LoadLatestBounded (max_retries : Z) : rprog LoadResult := RLoadBounded N sizeT max_retries.
Definition Snapshot (k : Z) : rprog (list bytes) := RSnapshot N sizeT k.
Definition RepairAfterWriterCrash : rprog unit := RRepairAfterWriterCrash N.
End Buffer.
End MessageBuffer.

(** Both critical sections are atomic under [mutex_]; [T{}] is the value the
    members start from. *)
Module MutexMessageSlot.
Record MutexMessageSlot (T : Type) := Slot {
  value_ : T;
  written_ : bool
}.
Arguments Slot {T} value_ written_.
Arguments value_ {T} m.
Arguments written_ {T} m.

Section Mutex.
Context {T : Type}.
Definition MutexMessageSlot_ctor (default_value : T) : MutexMessageSlot T := Slot default_value false.
Definition Store (value : T) (s : MutexMessageSlot T) : MutexMessageSlot T :=
  let s := Slot value (written_ s) in
  Slot (value_ s) true.
(** The out-parameter is left alone when nothing was written. *)
Definition Load (s : MutexMessageSlot T) (out : T) : bool * T :=
  if negb (written_ s) then (false, out) else (true, value_ s).
End Mutex.
End MutexMessageSlot.

(** ** The interface a client relies on

    [lv_ok n s]: the slot is well formed and [n] more stores are within its
    counters; [lv_store] and [lv_load] are [None] if the call does not return. *)
Class LatestValue (S V : Type) := {
  lv_valid : V -> Prop;
  lv_ok : nat -> S -> Prop;
  lv_store : V -> S -> option S;
  lv_load : S -> option (option V);
  lv_store_ok : forall n s v, lv_ok (Datatypes.S n) s -> lv_valid v ->
    exists s', lv_store v s = Some s' /\ lv_ok n s' /\ lv_load s' = Some (Some v)
}.

Fixpoint store_all {S V} `{LatestValue S V} (l : list V) (s : S) : option S :=
  match l with
  | [] => Some s
  | v :: l => match lv_store v s with Some s => store_all l s | None => None end
  end.

(** *** The ring's instance, any depth *)
Section RingLatest.
Variable N sizeT : nat.
Hypothesis N_pos : 0 < N.

Definition ring_ok (n : nat) (s : rloc -> Z) : Prop :=
  exists a, ring_rep N sizeT a s /\ next_cell a = Intact /\
            (Z.of_nat (started a + n) < 2 ^ 62)%Z.

Definition ring_store (v : bytes) (s : rloc -> Z) : option (rloc -> Z) :=
  match srun 1 (RStore N sizeT v) s with Some (_, s) => Some s | None => None end.
Definition ring_load (s : rloc -> Z) : option (option bytes) :=
  match srun 1 (RLoad N sizeT) s with Some (r, _) => Some r | None => None end.

Lemma ring_store_ok n s v :
  ring_ok (S n) s -> length v = sizeT /\ Forall is_byte v ->
  exists s', ring_store v s = Some s' /\ ring_ok n s' /\ ring_load s' = Some (Some v).
Proof.
  intros (a & Hrep & Hi & Hb) [Hl Hv].
  pose proof (verb_refines N sizeT N_pos a s Hrep ltac:(lia) 0 (VStore v)) as Hs.
  cbn [spec_step legal verb_prog] in Hs.
  destruct Hs as (s' & Hs & Hrep'); [rewrite Hi; by split_and!|].
  rewrite srun_bind in Hs. destruct (srun 1 (RStore N sizeT v) s) as [[[] s1]|] eqn:E; [|done].
  injection Hs as ->. exists s'. unfold ring_store, ring_load. rewrite E. split; [done|].
  assert (started (spec_store v a) = S (started a)) as Est by done. split.
  { exists (spec_store v a). split; [done|]. split; [done|]. rewrite Est. lia. }
  pose proof (verb_refines N sizeT N_pos _ s' Hrep' ltac:(rewrite Est; lia) 0 VLoad) as Hld.
  assert (spec_latest N (spec_store v a) = Some (Some v)) as El.
  { unfold spec_latest. cbn. rewrite last_snoc. by case_decide. }
  cbn [spec_step legal verb_prog] in Hld. rewrite El in Hld.
  destruct (Hld I) as (s2 & Hr & _). rewrite srun_bind in Hr.
  destruct (srun 1 (RLoad N sizeT) s') as [[r s3]|]; [|done]. by injection Hr as ->.
Qed.
End RingLatest.

#[global, refine] Instance MessageSlot_latest (sizeT : nat) : LatestValue (rloc -> Z) bytes := {
  lv_valid := fun v => length v = sizeT /\ Forall is_byte v;
  lv_ok := ring_ok 1 sizeT;
  lv_store := fun v s => match srun 1 (MessageSlot.Store sizeT v) s with Some (_, s) => Some s | None => None end;
  lv_load := fun s => match srun 1 (MessageSlot.Load sizeT) s with Some (r, _) => Some r | None => None end
}.
Proof. intros. by apply (ring_store_ok 1 sizeT); [lia|..]. Defined.

#[global, refine] Instance MessageBuffer_latest (N sizeT : nat) (N_pos : 0 < N)
  : LatestValue (rloc -> Z) bytes := {
  lv_valid := fun v => length v = sizeT /\ Forall is_byte v;
  lv_ok := ring_ok N sizeT;
  lv_store := fun v s => match srun 1 (MessageBuffer.Store N sizeT v) s with Some (_, s) => Some s | None => None end;
  lv_load := fun s => match srun 1 (MessageBuffer.LoadLatest N sizeT) s with Some (r, _) => Some r | None => None end
}.
Proof. intros. by apply (ring_store_ok N sizeT). Defined.

#[global, refine] Instance MutexMessageSlot_latest (T : Type) (d : T)
  : LatestValue (MutexMessageSlot.MutexMessageSlot T) T := {
  lv_valid := fun _ => True;
  lv_ok := fun _ _ => True;
  lv_store := fun v s => Some (MutexMessageSlot.Store v s);
  lv_load := fun s => let '(b, out) := MutexMessageSlot.Load s d in Some (if b then Some out else None)
}.
Proof. intros n s v _ _. by eexists. Defined.

(** A constructed slot is ready for 2^62 stores. *)
Lemma slot_ctor_ok N sizeT n s :
  0 < N -> (Z.of_nat n < 2 ^ 62)%Z ->
  exists s', srun 1 (SeqlockRing_ctor N sizeT true) s = Some (tt, s') /\ ring_ok N sizeT n s'.
Proof.
  intros HN Hn. destruct (ctor_rep N sizeT HN 1 s) as (s' & Hc & Hrep). exists s'.
  split; [done|]. exists empty_ring. split; [done|]. split; [done|]. cbn. lia.
Qed.

(** ** A ring that was stored to

    The stores a loop makes, and what the verbs answer after them. *)

Fixpoint store_seq (N sizeT : nat) (values : list bytes) (slot : rloc -> Z) : option (rloc -> Z) :=
  match values with
  | [] => Some slot
  | v :: l => '(_, slot) ← srun 1 (MessageBuffer.Store N sizeT v) slot; store_seq N sizeT l slot
  end.

(** [l]: every value stored, oldest first. *)
Definition holds (N K : nat) (slot : rloc -> Z) (l : list bytes) : Prop :=
  exists a, ring_rep N K a slot /\ next_cell a = Intact /\ published a = l /\ started a = length l.

Section Ring.
Variables N K : nat.
Hypothesis N_pos : (0 < N)%nat.

Lemma ring_holds_ctor s : exists slot, srun 1 (SeqlockRing_ctor N K true) s = Some (tt, slot) /\ holds N K slot [].
Proof. destruct (ctor_rep N K N_pos 1 s) as (slot & Hc & Hr). exists slot. split; [done|]. by exists empty_ring. Qed.

Lemma holds_store slot l v :
  holds N K slot l -> (Z.of_nat (length l) < 2 ^ 62)%Z -> length v = K /\ Forall is_byte v ->
  exists slot', srun 1 (RStore N K v) slot = Some (tt, slot') /\ holds N K slot' (l ++ [v]).
Proof.
  intros (a & Hr & Hi & Hp & Hs) Hl [Hv1 Hv2].
  pose proof (verb_refines N K N_pos a slot Hr ltac:(lia) 0 (VStore v)) as H. cbn [spec_step legal verb_prog] in H.
  destruct H as (s' & H & Hr'); [rewrite Hi; by split_and!|].
  rewrite srun_bind in H. destruct (srun 1 (RStore N K v) slot) as [[[] s1]|]; [|done]. injection H as ->.
  exists s'. split; [done|]. exists (spec_store v a). split_and!; [done|done|cbn; by rewrite Hp|].
  cbn. rewrite length_app, Hs. cbn. lia.
Qed.

Lemma holds_load slot l :
  holds N K slot l -> (Z.of_nat (length l) < 2 ^ 62)%Z ->
  exists slot', srun 1 (RLoad N K) slot = Some (last l, slot') /\ holds N K slot' l.
Proof.
  intros (a & Hr & Hi & Hp & Hs) Hl.
  pose proof (verb_refines N K N_pos a slot Hr ltac:(lia) 0 VLoad) as H.
  assert (spec_latest N a = Some (last l)) as El.
  { unfold spec_latest. rewrite Hp, Hi. destruct (last l); [by case_decide|done]. }
  cbn [spec_step legal verb_prog] in H. rewrite El in H. destruct (H I) as (s' & H' & Hr').
  rewrite srun_bind in H'. destruct (srun 1 (RLoad N K) slot) as [[r s1]|]; [|done]. injection H' as -> ->.
  exists s'. split; [done|]. by exists a.
Qed.

Lemma holds_snapshot slot l k :
  holds N K slot l -> (Z.of_nat (length l) < 2 ^ 62)%Z -> (0 <= k < 2 ^ 64)%Z ->
  exists slot', srun 1 (RSnapshot N K k) slot = Some (take (Nat.min (Z.to_nat k) N) (reverse l), slot') /\ holds N K slot' l.
Proof.
  intros (a & Hr & Hi & Hp & Hs) Hl Hk.
  pose proof (verb_refines N K N_pos a slot Hr ltac:(lia) 0 (VSnapshot k)) as H.
  cbn [spec_step legal verb_prog] in H. destruct (H Hk) as (s' & H' & Hr').
  rewrite srun_bind in H'. destruct (srun 1 (RSnapshot N K k) slot) as [[r s1]|]; [|done].
  injection H' as -> ->. exists s'. split; [unfold spec_snapshot, spec_depth; by rewrite Hi, Hp|]. by exists a.
Qed.
End Ring.

Lemma store_seq_holds N K values slot l :
  (0 < N)%nat -> holds N K slot l -> (Z.of_nat (length l + length values) < 2 ^ 62)%Z ->
  Forall (fun v => length v = K /\ Forall is_byte v) values ->
  exists slot', store_seq N K values slot = Some slot' /\ holds N K slot' (l ++ values).
Proof.
  intros HN. revert slot l. induction values as [|v values IH]; intros slot l Hs Hl Hv; cbn [store_seq length] in *.
  { exists slot. by rewrite app_nil_r. }
  apply Forall_cons_1 in Hv as [Hv Hvs]. destruct (holds_store N K HN slot l v Hs ltac:(lia) Hv) as (s1 & E & Hs1).
  unfold MessageBuffer.Store. rewrite E. cbn [mbind option_bind].
  destruct (IH s1 (l ++ [v]) Hs1) as (s2 & E2 & Hs2); [rewrite length_app; cbn; lia|done|].
  exists s2. split; [done|]. by rewrite <- app_assoc in Hs2.
Qed.

(** Newest value wins, for every latest-value slot: after any non-empty sequence
    of stores within the slot's counters every store returns and a load returns
    the last value stored. *)
Theorem latest_wins {S V} `{LatestValue S V} (l : list V) (v : V) n (s : S) :
  Forall lv_valid (l ++ [v]) -> length (l ++ [v]) <= n -> lv_ok n s ->
  exists s', store_all (l ++ [v]) s = Some s' /\ lv_load s' = Some (Some v).
Proof.
  revert n s. induction l as [|w l IH]; intros n s Hv Hn Hok; cbn in *;
    (destruct n as [|n]; [lia|]); inversion Hv as [|? ? Hw Hv']; subst;
    destruct (lv_store_ok n s _ Hok Hw) as (s1 & -> & Hok1 & Hl); [by exists s1|].
  apply (IH n); [done|lia|done].
Qed.

Lemma latest_wins_witness :
  (exists s s', srun 1 (MessageSlot.MessageSlot_ctor 9 true) (fun _ => 5%Z) = Some (tt, s) /\
     store_all (H := MessageSlot_latest 9) [rec_a; rec_b] s = Some s' /\
     lv_load (LatestValue := MessageSlot_latest 9) s' = Some (Some rec_b)) /\
  (exists s', store_all (H := MutexMessageSlot_latest nat 0) [3; 4]
                (MutexMessageSlot.MutexMessageSlot_ctor 0) = Some s' /\
     lv_load (LatestValue := MutexMessageSlot_latest nat 0) s' = Some (Some 4)).
Proof.
  split.
  - destruct (slot_ctor_ok 1 9 2 (fun _ => 5%Z)) as (s & Hc & Hok); [lia..|]. exists s.
    destruct (latest_wins (H := MessageSlot_latest 9) [rec_a] rec_b 2 s) as (s' & Hs & Hl);
      [cbn; repeat constructor; done|cbn; lia|exact Hok|]. by exists s'.
  - apply (latest_wins (H := MutexMessageSlot_latest nat 0) [3] 4 2); [by repeat constructor|cbn; lia|done].
Defined.
