(* ===== verification/SpscQueue.v ===== *)
(** * The single-producer single-consumer queue (spsc_queue.hpp)

    [TryPush], [TryPop], [Full] and [Size] as programs over the memory machine:
    atomic indices, plain cells.  Under the weak memory model, with the producer
    and the consumer in any interleaving, no plain cell access races, values
    come out in the order they went in, none twice and none lost; a push is refused
    only after a capacity's worth of accepted values, and never when the producer
    has just seen room. *)

From Stdlib Require Import ZArith Lia.
From stdpp Require Import base list numbers relations.
From S2P Require Import Prelude Memory Cyclic.

(** ** The queue *)

Section Queue.
Context {V : Type} `{EqDecision V}.

(** [struct Control], and the cells. *)
Inductive qloc := Capacity | Head | Tail | QCell (i : nat).

(** What a location holds: a 64-bit index, or a [T]. *)
Inductive qval := Num (z : Z) | Elem (v : V).

#[global] Instance qloc_eq_dec : EqDecision qloc.
Proof. solve_decision. Defined.
#[global] Instance qval_eq_dec : EqDecision qval.
Proof. solve_decision. Defined.

Definition as_num (x : qval) : Z := match x with Num z => z | Elem _ => 0 end.

Definition qprog := prog qloc qval.

(** A 64-bit atomic of the control block. *)
Definition load_num (l : qloc) (o : memory_order) : qprog Z :=
  Load l o (fun x => Ret (as_num x)).

Definition cell_at (pos capacity : Z) : qloc := QCell (Z.to_nat (pos mod capacity)).

Definition SpscQueue_ctor (depth : Z) (initialize : bool) : qprog unit :=
  if initialize then
    (store Capacity (Num (if (depth =? 0)%Z then 1 else depth)) relaxed ;;;
     store Head (Num 0) relaxed ;;;
     store Tail (Num 0) relaxed)%prog
  else Ret tt.

Definition TryPush (value : V) : qprog bool :=
  (let! capacity := load_num Capacity relaxed in
   let! tail := load_num Tail relaxed in
   let! head := load_num Head acquire in                       (* Q1 *)
   if (capacity <=? u64 (tail - head))%Z then Ret false else
   na_store (cell_at tail capacity) (Elem value) ;;;           (* plain write, see Q3 *)
   store Tail (Num (u64 (tail + 1))) release ;;;               (* Q3 *)
   Ret true)%prog.

Definition TryPop : qprog (option V) :=
  (let! capacity := load_num Capacity relaxed in
   let! head := load_num Head relaxed in
   let! tail := load_num Tail acquire in                       (* Q4 *)
   if (head =? tail)%Z then Ret None else
   let! out := na_load (cell_at head capacity) in              (* plain read, see Q1 *)
   store Head (Num (u64 (head + 1))) release ;;;               (* Q2 *)
   Ret match out with Elem v => Some v | Num _ => None end)%prog.

Definition Full : qprog bool :=
  (let! tail := load_num Tail relaxed in
   let! head := load_num Head acquire in
   let! capacity := load_num Capacity relaxed in
   Ret (capacity <=? u64 (tail - head))%Z)%prog.

Definition Size : qprog Z :=
  (let! head := load_num Head relaxed in
   let! tail := load_num Tail relaxed in
   Ret (if (head <=? tail)%Z then tail - head else 0)%Z)%prog.

Definition capacity : qprog Z := load_num Capacity relaxed.

(** ** Clients *)

(** A producer pushes, or pushes only when [Full()] says there is room, or looks at
    [Size()] and pushes whatever it says; a consumer pops [n] times. *)
Inductive push_op := Push (v : V) | PushIfRoom (v : V) | PushSized (v : V).
Inductive push_res := Accepted (v : V) | Refused (v : V) | Skipped (v : V) | RefusedAt (size : Z) (v : V).
Inductive qres := PushResults (l : list push_res) | PopResults (l : list (option V)).

Definition push_result (v : V) (b : bool) : push_res := if b then Accepted v else Refused v.

Definition do_push (op : push_op) : qprog push_res :=
  match op with
  | Push v => let! b := TryPush v in Ret (push_result v b)
  | PushIfRoom v =>
      let! full := Full in
      if full then Ret (Skipped v)
      else let! b := TryPush v in Ret (push_result v b)
  | PushSized v =>
      let! size := Size in
      let! b := TryPush v in Ret (if b then Accepted v else RefusedAt size v)
  end%prog.

Fixpoint producer (ops : list push_op) : qprog (list push_res) :=
  match ops with
  | [] => Ret []
  | op :: ops => let! r := do_push op in let! rs := producer ops in Ret (r :: rs)
  end%prog.

Fixpoint consumer (n : nat) : qprog (list (option V)) :=
  match n with
  | O => Ret []
  | S n => let! r := TryPop in let! rs := consumer n in Ret (r :: rs)
  end%prog.

Definition qtv0 : tview qloc := TV vbot vbot vbot.

(** A constructed queue of capacity [C]: [d] is [T{}]. *)
Definition queue_mem0 (C : Z) (d : V) : memory qloc qval :=
  Mem (fun l => [Msg (match l with
                      | Capacity => Num C | Head | Tail => Num 0 | QCell _ => Elem d
                      end) vbot]) (fun _ _ => 0).

Definition queue_cfg (C : Z) (d : V) (ops : list push_op) (n : nat) : config qloc qval qres :=
  Cfg [((let! l := producer ops in Ret (PushResults l))%prog, qtv0);
       ((let! l := consumer n in Ret (PopResults l))%prog, qtv0)] (queue_mem0 C d).

(** The values a producer's results say went in. *)
Fixpoint accepted (l : list push_res) : list V :=
  match l with
  | [] => []
  | Accepted v :: l => v :: accepted l
  | _ :: l => accepted l
  end.

(** The values a consumer's results say came out. *)
Definition popped (l : list (option V)) : list V := omap id l.

End Queue.
Arguments qval V : clear implicits.
Arguments qprog V : clear implicits.
Arguments push_op V : clear implicits.
Arguments push_res V : clear implicits.
Arguments qres V : clear implicits.

(** ** The invariant *)

Section Weak.
Context {V : Type} `{EqDecision V}.
Variable C : nat.
Hypothesis C_pos : 0 < C.
Variable B : nat.                 (* a bound on the pushes: no index wraps *)
Hypothesis B_small : (Z.of_nat B < 2 ^ 63)%Z.
Hypothesis C_small : (Z.of_nat C < 2 ^ 32)%Z.
Local Abbreviation memory := (memory qloc (qval V)).
Local Abbreviation tview := (tview qloc).
Local Abbreviation count c j := (nstores C c j).
Local Abbreviation ntail m := (pred (length (hist m Tail))).
Local Abbreviation nhead m := (pred (length (hist m Head))).

(** The producer writes the cells and the tail, the consumer the head; the
    capacity is written by nobody. *)
Definition q_owns (tid : nat) (l : qloc) : Prop :=
  match l with
  | Tail | QCell _ => tid = 0
  | Head => tid = 1
  | Capacity => False
  end.

Record queue_inv (m : memory) : Prop := {
  q_cap : exists V0, hist m Capacity = [Msg (Num (Z.of_nat C)) V0];
  (* Q3: a tail publishes every cell written before it *)
  q_tail : forall t msg, hist m Tail !! t = Some msg ->
    mval msg = Num (Z.of_nat t) /\
    forall p, p < t -> S (p / C) <= mview msg (At (QCell (p mod C)));
  (* Q2: a head publishes every cell read before it *)
  q_head : forall h msg, hist m Head !! h = Some msg ->
    mval msg = Num (Z.of_nat h) /\
    forall j, count h j <= mview msg (Rd 1 (QCell j));
  q_order : 0 < length (hist m Head) <= length (hist m Tail) /\
            length (hist m Tail) <= length (hist m Head) + C /\ ntail m <= B;
  q_cells : forall j, S (count (ntail m) j) <= length (hist m (QCell j))
                      <= S (count (nhead m + C) j);
  q_elem : forall j n msg, hist m (QCell j) !! S n = Some msg -> exists v, mval msg = Elem v;
  q_reads : forall j, reads m 0 (QCell j) = 0 /\ reads m 1 (QCell j) <= count (ntail m) j
}.

Local Abbreviation rely := (rely q_owns).
Local Abbreviation wp := (wp 2 q_owns queue_inv).

(** The producer's and the consumer's own knowledge after [t] pushes, [h] pops. *)
Definition prod_at (t : nat) (tv : tview) (m : memory) : Prop :=
  length (hist m Tail) = S t /\ t <= cur tv (At Tail) /\
  forall j, length (hist m (QCell j)) = S (count t j) /\ count t j <= cur tv (At (QCell j)).

Definition cons_at (h : nat) (tv : tview) (m : memory) : Prop :=
  length (hist m Head) = S h /\ h <= cur tv (At Head) /\ h <= cur tv (At Tail) /\
  forall j, reads m 1 (QCell j) = count h j /\ count h j <= cur tv (Rd 1 (QCell j)).

(** The value at a position, once pushed. *)
Definition at_pos (m : memory) (p : nat) : option V :=
  match hist m (QCell (p mod C)) !! S (p / C) with
  | Some (Msg (Elem v) _) => Some v
  | _ => None
  end.

Lemma at_pos_le m m' p v : mem_le m m' -> at_pos m p = Some v -> at_pos m' p = Some v.
Proof.
  unfold at_pos. intros Hm. destruct (hist m _ !! _) as [msg|] eqn:E; [|done].
  by rewrite (mem_le_lookup _ _ _ _ _ Hm E).
Qed.

Lemma prod_rely t tv m m' : rely 0 m m' -> prod_at t tv m -> prod_at t tv m'.
Proof.
  intros (_ & Ho & _) (H1 & H2 & H3). unfold prod_at. rewrite (Ho Tail) by done.
  split_and!; [done|done|]. intros j. rewrite (Ho (QCell j)) by done. apply H3.
Qed.

Lemma cons_rely h tv m m' : rely 1 m m' -> cons_at h tv m -> cons_at h tv m'.
Proof.
  intros (_ & Ho & Hrd) (H1 & H2 & H3 & H4). unfold cons_at. rewrite (Ho Head) by done.
  split_and!; [done..|]. intros j. rewrite Hrd. apply H4.
Qed.

Lemma prod_view t tv tv' m : vle (cur tv) (cur tv') -> prod_at t tv m -> prod_at t tv' m.
Proof.
  intros Hv (H1 & H2 & H3). split_and!; [done|specialize (Hv (At Tail)); lia|].
  intros j. destruct (H3 j). specialize (Hv (At (QCell j))). lia.
Qed.

Lemma cons_view h tv tv' m : vle (cur tv) (cur tv') -> cons_at h tv m -> cons_at h tv' m.
Proof.
  intros Hv (H1 & H2 & H3 & H4). pose proof (Hv (At Head)). pose proof (Hv (At Tail)).
  split_and!; try lia. intros j. destruct (H4 j). specialize (Hv (Rd 1 (QCell j))). lia.
Qed.

(** ** Loads of the control block *)

Lemma wp_load_capacity tid {A} (k : Z -> qprog V A) (Q : A -> tview -> memory -> Prop) tv m :
  (forall tv' m', rely tid m m' -> queue_inv m' -> vle (cur tv) (cur tv') ->
     wp tid (k (Z.of_nat C)) Q tv' m') ->
  wp tid (pbind (load_num Capacity relaxed) k) Q tv m.
Proof.
  intros Hk m1 Hr Hinv ts v tv1 Hrd.
  apply read_msg_spec in Hrd as (msg & Hm & <- & _ & Hc & _).
  destruct (q_cap _ Hinv) as [V0 E]. rewrite E in Hm. destruct ts; [|done]. injection Hm as <-.
  by apply Hk.
Qed.

Lemma wp_load_tail_own {A} t (k : Z -> qprog V A) (Q : A -> tview -> memory -> Prop) tv m :
  prod_at t tv m ->
  (forall tv' m', rely 0 m m' -> queue_inv m' -> vle (cur tv) (cur tv') -> prod_at t tv' m' ->
     wp 0 (k (Z.of_nat t)) Q tv' m') ->
  wp 0 (pbind (load_num Tail relaxed) k) Q tv m.
Proof.
  intros Hp Hk m1 Hr Hinv ts v tv1 Hrd. apply (prod_rely _ _ _ _ Hr) in Hp.
  apply read_msg_spec in Hrd as (msg & Hm & <- & Hts & Hc & _).
  destruct (q_tail _ Hinv _ _ Hm) as [-> _]. pose proof (lookup_lt_Some _ _ _ Hm).
  pose proof Hp as (H1 & H2 & _). assert (ts = t) as -> by lia.
  apply Hk; [done..|]. by eapply prod_view.
Qed.

Lemma wp_load_head_own {A} h (k : Z -> qprog V A) (Q : A -> tview -> memory -> Prop) tv m :
  cons_at h tv m ->
  (forall tv' m', rely 1 m m' -> queue_inv m' -> vle (cur tv) (cur tv') -> cons_at h tv' m' ->
     wp 1 (k (Z.of_nat h)) Q tv' m') ->
  wp 1 (pbind (load_num Head relaxed) k) Q tv m.
Proof.
  intros Hp Hk m1 Hr Hinv ts v tv1 Hrd. apply (cons_rely _ _ _ _ Hr) in Hp.
  apply read_msg_spec in Hrd as (msg & Hm & <- & Hts & Hc & _).
  destruct (q_head _ Hinv _ _ Hm) as [-> _]. pose proof (lookup_lt_Some _ _ _ Hm).
  pose proof Hp as (H1 & H2 & _). assert (ts = h) as -> by lia.
  apply Hk; [done..|]. by eapply cons_view.
Qed.

(** (Q1): the producer sees a head and every read before it. *)
Definition sees_head (h : nat) (tv : tview) : Prop :=
  h <= cur tv (At Head) /\ forall j, count h j <= cur tv (Rd 1 (QCell j)).

Lemma wp_acquire_head {A} t (k : Z -> qprog V A) (Q : A -> tview -> memory -> Prop) tv m :
  prod_at t tv m ->
  (forall h tv' m', rely 0 m m' -> queue_inv m' -> vle (cur tv) (cur tv') -> prod_at t tv' m' ->
     sees_head h tv' -> cur tv (At Head) <= h <= nhead m' -> h <= t -> t <= B ->
     wp 0 (k (Z.of_nat h)) Q tv' m') ->
  wp 0 (pbind (load_num Head acquire) k) Q tv m.
Proof.
  intros Hp Hk m1 Hr Hinv ts v tv1 Hrd. apply (prod_rely _ _ _ _ Hr) in Hp.
  apply read_msg_spec in Hrd as (msg & Hm & <- & Hts & Hc & _ & _ & Hge & _ & _ & Hacq & _).
  specialize (Hacq eq_refl). destruct (q_head _ Hinv _ _ Hm) as [-> Hrd].
  pose proof (lookup_lt_Some _ _ _ Hm). pose proof (q_order _ Hinv). pose proof Hp as (H1 & _).
  apply Hk; [done|done|done|by eapply prod_view| |lia|lia|lia].
  split; [done|]. intros j. specialize (Hrd j). specialize (Hacq (Rd 1 (QCell j))). lia.
Qed.

(** (Q4): the consumer sees a tail and every cell written before it. *)
Lemma wp_acquire_tail {A} h (k : Z -> qprog V A) (Q : A -> tview -> memory -> Prop) tv m :
  cons_at h tv m ->
  (forall t tv' m', rely 1 m m' -> queue_inv m' -> vle (cur tv) (cur tv') -> cons_at h tv' m' ->
     t <= cur tv' (At Tail) -> h <= t <= ntail m' ->
     (forall p, p < t -> S (p / C) <= cur tv' (At (QCell (p mod C)))) ->
     wp 1 (k (Z.of_nat t)) Q tv' m') ->
  wp 1 (pbind (load_num Tail acquire) k) Q tv m.
Proof.
  intros Hp Hk m1 Hr Hinv ts v tv1 Hrd. apply (cons_rely _ _ _ _ Hr) in Hp.
  apply read_msg_spec in Hrd as (msg & Hm & <- & Hts & Hc & _ & _ & Hge & _ & _ & Hacq & _).
  specialize (Hacq eq_refl). destruct (q_tail _ Hinv _ _ Hm) as [-> Hw].
  pose proof (lookup_lt_Some _ _ _ Hm). pose proof Hp as (_ & _ & H3 & _).
  apply Hk; [done|done|done|by eapply cons_view|done|lia|].
  intros p Hp'. specialize (Hw p Hp'). specialize (Hacq (At (QCell (p mod C)))). lia.
Qed.

(** ** Writes *)

Lemma q_lookup_append (m : memory) l l' t msg msg' :
  hist (append m l msg) l' !! t = Some msg' ->
  hist m l' !! t = Some msg' \/ (l' = l /\ t = length (hist m l) /\ msg' = msg).
Proof.
  rewrite hist_append. case_decide; [subst|by left].
  rewrite lookup_snoc_Some. intros [[_ ?]|[-> <-]]; auto.
Qed.

Lemma length_append (m : memory) l l' msg :
  length (hist (append m l msg) l') = length (hist m l') + (if decide (l' = l) then 1 else 0).
Proof. rewrite hist_append. case_decide; [rewrite length_app; done|lia]. Qed.

Lemma length_append_ne (m : memory) l l' msg :
  l' <> l -> length (hist (append m l msg) l') = length (hist m l').
Proof. intros. rewrite length_append, decide_False by done. lia. Qed.

Lemma length_append_eq (m : memory) l msg :
  length (hist (append m l msg) l) = S (length (hist m l)).
Proof. rewrite length_append, decide_True by done. lia. Qed.

Lemma inv_append_cell m t v V0 :
  queue_inv m -> length (hist m (QCell (t mod C))) = S (count t (t mod C)) ->
  ntail m = t -> t < nhead m + C -> queue_inv (append m (QCell (t mod C)) (Msg (Elem v) V0)).
Proof.
  intros Hinv Hl Ht Hh. split.
  - destruct (q_cap _ Hinv) as [V1 E]. exists V1. by rewrite hist_append_ne.
  - intros t' msg [Hm|([=] & _)]%q_lookup_append. by apply (q_tail _ Hinv).
  - intros h msg [Hm|([=] & _)]%q_lookup_append. by apply (q_head _ Hinv).
  - rewrite !length_append_ne by done. apply (q_order _ Hinv).
  - intros j. rewrite (length_append_ne m _ Tail), (length_append_ne m _ Head) by done.
    rewrite length_append. pose proof (q_cells _ Hinv j) as Hj.
    case_decide as E; [injection E as ->|lia]. split; [lia|]. rewrite Hl.
    pose proof (nstores_mono C C_pos (S t) (nhead m + C) (t mod C) ltac:(lia)) as Hmono.
    cbn in Hmono. rewrite decide_True in Hmono by done. lia.
  - intros j n msg [Hm|(_ & _ & ->)]%q_lookup_append; [by eapply q_elem|by exists v].
  - intros j. rewrite length_append_ne by done. apply (q_reads _ Hinv).
Qed.

Lemma inv_append_tail m t V0 :
  queue_inv m -> length (hist m Tail) = S t -> S t <= B -> t < nhead m + C ->
  (forall j, length (hist m (QCell j)) = S (count (S t) j)) ->
  (forall p, p < S t -> S (p / C) <= V0 (At (QCell (p mod C)))) ->
  queue_inv (append m Tail (Msg (Num (Z.of_nat (S t))) V0)).
Proof.
  intros Hinv Hl Hb Hh Hc HV. split.
  - destruct (q_cap _ Hinv) as [V1 E]. exists V1. by rewrite hist_append_ne.
  - intros t' msg [Hm|(_ & -> & ->)]%q_lookup_append; [by apply (q_tail _ Hinv)|]. by rewrite Hl.
  - intros h msg [Hm|([=] & _)]%q_lookup_append. by apply (q_head _ Hinv).
  - rewrite length_append_eq, (length_append_ne m _ Head) by done. pose proof (q_order _ Hinv). lia.
  - intros j. rewrite length_append_eq, !length_append_ne by done.
    pose proof (q_cells _ Hinv j) as Hj. split; [|lia]. by rewrite Hc, Hl.
  - intros j n msg [Hm|([=] & _)]%q_lookup_append. by eapply q_elem.
  - intros j. rewrite length_append_eq. destruct (q_reads _ Hinv j) as [H1 H2]. split; [done|].
    etrans; [exact H2|]. apply nstores_mono; [done|]. cbn. lia.
Qed.

(** The cell the producer is about to reuse: its own writes are in its view, and
    so is every read the consumer has made of it. *)
Lemma cell_free t h tv m :
  queue_inv m -> prod_at t tv m -> sees_head h tv -> h <= t -> t < h + C ->
  sees_last (QCell (t mod C)) tv m = true /\ sees_reads 2 (QCell (t mod C)) tv m = true.
Proof.
  intros Hinv (Ht & _ & Hc) [_ Hr] H1 H2. unfold sees_last, sees_reads. cbn.
  rewrite !andb_true_r, andb_true_iff, !Nat.leb_le.
  destruct (q_reads _ Hinv (t mod C)) as [E1 E2]. rewrite Ht in E2. cbn in E2.
  rewrite (nstores_gap C C_pos t h) in E2 by done.
  destruct (Hc (t mod C)). specialize (Hr (t mod C)). lia.
Qed.

Lemma wp_push_commit t h v tv m (Q : bool -> tview -> memory -> Prop) :
  prod_at t tv m -> sees_head h tv -> h <= nhead m -> h <= t -> t < h + C -> S t <= B ->
  (forall tv' m', vle (cur tv) (cur tv') -> prod_at (S t) tv' m' -> at_pos m' t = Some v ->
     mem_le m m' -> Q true tv' m') ->
  wp 0 (NaStore (QCell (t mod C)) (Elem v)
         (Store Tail (Num (Z.of_nat (S t))) release (Ret true))) Q tv m.
Proof.
  intros Hp Hs Hh H1 H2 Hb HQ m1 Hr Hinv. apply (prod_rely _ _ _ _ Hr) in Hp.
  pose proof (mem_le_length _ _ Head (rely_le _ _ _ _ Hr)) as Hlh.
  destruct (cell_free _ _ _ _ Hinv Hp Hs H1 H2) as [Hs1 Hs2].
  pose proof Hp as (Ht & Htv & Hc). destruct (Hc (t mod C)) as [Hcl _].
  split; [by intros i ->|]. split; [done|]. split; [done|]. cbn zeta. split.
  { apply inv_append_cell; [done|done|by rewrite Ht|lia]. }
  set (tv1 := TV _ _ _). set (m2 := append m1 _ _).
  assert (forall j, length (hist m2 (QCell j)) = S (count (S t) j)) as Hc2.
  { intros j. unfold m2. rewrite length_append. destruct (Hc j) as [-> _]. cbn.
    repeat case_decide; simplify_eq; lia. }
  assert (forall j, count (S t) j <= cur tv1 (At (QCell j))) as Hv2.
  { intros j. cbn. unfold vjoin, vsingle. destruct (Hc j). repeat case_decide; simplify_eq; lia. }
  intros m3 Hr3 Hinv3. split; [by intros i ->|]. cbn zeta.
  assert (length (hist m3 Tail) = S t) as Ht3.
  { rewrite (proj1 (proj2 Hr3) Tail) by done. unfold m2. by rewrite length_append_ne. }
  assert (forall j, hist m3 (QCell j) = hist m2 (QCell j)) as Hc3
    by (intros j; by apply (proj1 (proj2 Hr3))).
  assert (length (hist m1 Head) <= length (hist m3 Head)) as Hlh3.
  { etrans; [|apply mem_le_length, (rely_le _ _ _ _ Hr3)]. unfold m2. rewrite length_append. lia. }
  cbn [fst snd write_msg]. split.
  { apply inv_append_tail; [done|done|done|lia| |].
    - intros j. by rewrite Hc3.
    - intros p Hp'. pose proof (nstores_done C C_pos p (S t) Hp') as Hd. specialize (Hv2 (p mod C)).
      etrans; [exact Hd|]. etrans; [exact Hv2|]. cbn. unfold vjoin. cbn. lia. }
  apply wp_ret. apply HQ.
  - intros x. cbn. unfold vjoin. lia.
  - split_and!.
    + by rewrite length_append_eq, Ht3.
    + cbn. unfold vjoin. rewrite vsingle_eq. lia.
    + intros j. rewrite length_append_ne, Hc3 by done. split; [done|].
      etrans; [apply Hv2|]. cbn. unfold vjoin. cbn. lia.
  - unfold at_pos. rewrite hist_append_ne by done. rewrite Hc3. unfold m2. rewrite hist_append_eq.
    rewrite nstores_mod in Hcl by done. rewrite <- Hcl, lookup_snoc_last. done.
  - etrans; [|apply mem_le_append]. etrans; [|apply (rely_le _ _ _ _ Hr3)].
    etrans; [apply (rely_le _ _ _ _ Hr)|apply mem_le_append].
Qed.

(** The cell of a published, unpopped position: its value is the newest message,
    the consumer's view holds it, and the producer cannot have come back to it. *)
Lemma cell_ready h t tv m :
  queue_inv m -> cons_at h tv m -> h < t -> t <= ntail m ->
  (forall p, p < t -> S (p / C) <= cur tv (At (QCell (p mod C)))) ->
  sees_last (QCell (h mod C)) tv m = true /\
  exists V0 v, last (hist m (QCell (h mod C))) = Some (Msg (Elem v) V0) /\ at_pos m h = Some v.
Proof.
  intros Hinv (Hl & _) Hht Htn Hv. destruct (q_cells _ Hinv (h mod C)) as [Hlo Hhi].
  assert (length (hist m (QCell (h mod C))) = S (S (h / C))) as Hlen.
  { rewrite Hl in Hhi. cbn in Hhi.
    pose proof (nstores_done C C_pos h (ntail m) ltac:(lia)).
    destruct (nstores_self C C_pos (h / C) (h mod C)) as [_ Hs]; [apply Nat.mod_upper_bound; lia|].
    specialize (Hs C ltac:(lia)). pose proof (Nat.div_mod_eq h C).
    replace (h mod C + C * (h / C) + C) with (h + C) in Hs by lia. lia. }
  specialize (Hv h Hht). split; [unfold sees_last; apply Nat.leb_le; lia|].
  destruct (lookup_lt_is_Some_2 (hist m (QCell (h mod C))) (S (h / C)) ltac:(lia)) as [msg Hm].
  destruct (q_elem _ Hinv _ _ _ Hm) as [v Ev]. exists (mview msg), v. unfold at_pos.
  rewrite last_lookup, Hlen. cbn [pred]. rewrite Hm. destruct msg as [x V0]. cbn in Ev. by subst x.
Qed.

Lemma inv_add_read m h :
  queue_inv m -> (forall j, reads m 1 (QCell j) = count h j) -> S h <= ntail m ->
  queue_inv (add_read m 1 (QCell (h mod C))).
Proof.
  intros Hinv Hrd Hh. destruct Hinv. split; try done.
  intros j. destruct (q_reads0 j) as [H1 H2]. cbn. split; [by rewrite decide_False by naive_solver|].
  case_decide as E; [|done]. destruct E as [_ [= ->]]. rewrite Hrd.
  etrans; [|apply (nstores_mono C C_pos (S h)); done]. cbn. rewrite decide_True by done. lia.
Qed.

Lemma inv_append_head m h V0 :
  queue_inv m -> length (hist m Head) = S h -> S h <= ntail m ->
  (forall j, count (S h) j <= V0 (Rd 1 (QCell j))) ->
  queue_inv (append m Head (Msg (Num (Z.of_nat (S h))) V0)).
Proof.
  intros Hinv Hl Hh HV. split.
  - destruct (q_cap _ Hinv) as [V1 E]. exists V1. by rewrite hist_append_ne.
  - intros t msg [Hm|([=] & _)]%q_lookup_append. by apply (q_tail _ Hinv).
  - intros h' msg [Hm|(_ & -> & ->)]%q_lookup_append; [by apply (q_head _ Hinv)|]. by rewrite Hl.
  - rewrite length_append_eq, (length_append_ne m _ Tail) by done. pose proof (q_order _ Hinv). lia.
  - intros j. rewrite length_append_eq, !length_append_ne by done.
    pose proof (q_cells _ Hinv j). rewrite Hl in *. cbn in *. split; [lia|].
    pose proof (nstores_mono C C_pos (h + C) (S h + C) j ltac:(lia)). lia.
  - intros j n msg [Hm|([=] & _)]%q_lookup_append. by eapply q_elem.
  - intros j. rewrite length_append_ne by done. apply (q_reads _ Hinv).
Qed.

Lemma wp_pop_commit h t tv m (k : qval V -> option V) (Q : option V -> tview -> memory -> Prop) :
  cons_at h tv m -> h < t -> t <= ntail m -> t <= cur tv (At Tail) ->
  (forall p, p < t -> S (p / C) <= cur tv (At (QCell (p mod C)))) ->
  (forall v tv' m', vle (cur tv) (cur tv') -> cons_at (S h) tv' m' -> at_pos m' h = Some v ->
     mem_le m m' -> Q (k (Elem v)) tv' m') ->
  wp 1 (NaLoad (QCell (h mod C))
         (fun x => Store Head (Num (Z.of_nat (S h))) release (Ret (k x)))) Q tv m.
Proof.
  intros Hp Hht Htn Htv Hv HQ m1 Hr Hinv. apply (cons_rely _ _ _ _ Hr) in Hp.
  pose proof (mem_le_length _ _ Tail (rely_le _ _ _ _ Hr)) as Hlt.
  destruct (cell_ready h t tv m1) as (Hs & V0 & v & Hlast & Hat); [done..|lia|done|].
  split; [done|]. intros msg Hmsg. rewrite Hlast in Hmsg. injection Hmsg as <-. cbn zeta.
  pose proof Hp as (Hl & Hh & _ & Hrd). split.
  { apply inv_add_read; [done|intros; apply Hrd|lia]. }
  set (tv1 := TV _ _ _). set (m2 := add_read m1 _ _). cbn [mval].
  assert (forall j, reads m2 1 (QCell j) = count (S h) j) as Hr2.
  { intros j. unfold m2. cbn. destruct (Hrd j) as [-> _]. repeat case_decide; naive_solver lia. }
  assert (forall j, count (S h) j <= cur tv1 (Rd 1 (QCell j))) as Hv2.
  { intros j. cbn. unfold vjoin, vsingle. destruct (Hrd j) as [Er ?], (Hrd (h mod C)) as [Er' ?].
    repeat case_decide; simplify_eq; try lia; naive_solver. }
  intros m3 Hr3 Hinv3. split; [by intros i ->|]. cbn zeta.
  assert (length (hist m3 Head) = S h) as Hl3 by (rewrite (proj1 (proj2 Hr3) Head) by done; done).
  assert (length (hist m1 Tail) <= length (hist m3 Tail)) as Hlt3
    by (apply (mem_le_length m2), (rely_le _ _ _ _ Hr3)).
  cbn [fst snd write_msg]. split.
  { apply inv_append_head; [done|done|lia|]. intros j. etrans; [apply Hv2|].
    cbn. unfold vjoin. cbn. lia. }
  apply wp_ret. apply HQ.
  - intros x. cbn. unfold vjoin. lia.
  - split_and!.
    + by rewrite length_append_eq, Hl3.
    + cbn. unfold vjoin. rewrite vsingle_eq. lia.
    + cbn. unfold vjoin. lia.
    + intros j. cbn [reads append]. rewrite (proj2 (proj2 Hr3)). split; [apply Hr2|].
      etrans; [apply Hv2|]. cbn. unfold vjoin. cbn. lia.
  - eapply at_pos_le; [|exact Hat]. etrans; [|apply mem_le_append].
    etrans; [|apply (rely_le _ _ _ _ Hr3)]. apply mem_le_add_read.
  - etrans; [|apply mem_le_append]. etrans; [|apply (rely_le _ _ _ _ Hr3)].
    etrans; [apply (rely_le _ _ _ _ Hr)|apply mem_le_add_read].
Qed.

(** ** The verbs *)

Lemma u64_small z : (0 <= z < 2 ^ 64)%Z -> u64 z = z.
Proof. apply wrap_id. Qed.

Lemma cell_at_nat p : cell_at (Z.of_nat p) (Z.of_nat C) = QCell (p mod C).
Proof. unfold cell_at. rewrite <- Nat2Z.inj_mod. f_equal. lia. Qed.

(** [TryPush]: accepted, or refused by a head at which the queue was full; not
    refused if the producer has already seen a head with room. *)
Lemma wp_TryPush t v tv m :
  prod_at t tv m -> S t <= B ->
  wp 0 (TryPush v) (fun b tv' m' =>
    vle (cur tv) (cur tv') /\ mem_le m m' /\
    (if b then prod_at (S t) tv' m' /\ at_pos m' t = Some v
     else prod_at t tv' m' /\ C <= t /\ cur tv (At Head) + C <= t)) tv m.
Proof.
  intros Hp Hb. unfold TryPush.
  apply wp_load_capacity. intros tv1 m1 Hr1 _ Hc1. apply (prod_rely _ _ _ _ Hr1) in Hp.
  apply (prod_view _ _ _ _ Hc1) in Hp.
  apply (wp_load_tail_own t); [done|]. intros tv2 m2 Hr2 _ Hc2 Hp2.
  apply (wp_acquire_head t); [done|]. intros h tv3 m3 Hr3 Hinv3 Hc3 Hp3 Hs Hh Hht Htb.
  assert (vle (cur tv) (cur tv3)) as Hc by (by do 2 (etrans; [eassumption|])).
  assert (mem_le m m3) as Hm by (etrans; [apply (rely_le _ _ _ _ Hr1)|]; etrans;
    [apply (rely_le _ _ _ _ Hr2)|apply (rely_le _ _ _ _ Hr3)]).
  rewrite (u64_small (Z.of_nat t - Z.of_nat h)) by lia.
  destruct (Z.leb_spec (Z.of_nat C) (Z.of_nat t - Z.of_nat h)).
  - apply wp_ret. split_and!; try done; [lia|].
    specialize (Hc1 (At Head)). specialize (Hc2 (At Head)). lia.
  - rewrite cell_at_nat, u64_small by lia. replace (Z.of_nat t + 1)%Z with (Z.of_nat (S t)) by lia.
    apply (wp_push_commit t h v); [done|done|lia|lia|lia|done|].
    intros tv4 m4 Hc4 Hp4 Ha Hm4. split_and!; [by etrans|by etrans|done|done].
Qed.

(** [Full]: if not, the producer has seen a head with room. *)
Lemma wp_Full t tv m :
  prod_at t tv m ->
  wp 0 Full (fun b tv' m' =>
    vle (cur tv) (cur tv') /\ mem_le m m' /\ prod_at t tv' m' /\
    (b = false -> t < cur tv' (At Head) + C)) tv m.
Proof.
  intros Hp. unfold Full.
  apply (wp_load_tail_own t); [done|]. intros tv2 m2 Hr2 _ Hc2 Hp2.
  apply (wp_acquire_head t); [done|]. intros h tv3 m3 Hr3 Hinv3 Hc3 Hp3 Hs Hh Hht Htb.
  apply wp_load_capacity. intros tv1 m1 Hr1 _ Hc1. apply (prod_rely _ _ _ _ Hr1) in Hp3.
  apply (prod_view _ _ _ _ Hc1) in Hp3. apply wp_ret.
  split; [by do 2 (etrans; [eassumption|])|].
  split; [etrans; [apply (rely_le _ _ _ _ Hr2)|]; etrans;
    [apply (rely_le _ _ _ _ Hr3)|apply (rely_le _ _ _ _ Hr1)]|].
  split; [done|]. rewrite u64_small by lia. intros Hf. zbool.
  destruct Hs as [Hs _]. specialize (Hc1 (At Head)). lia.
Qed.

(** [Size] of the producer: its own tail, and a head it has seen from then on. *)
Lemma wp_load_head_seen {A} t (k : Z -> qprog V A) (Q : A -> tview -> memory -> Prop) tv m :
  prod_at t tv m ->
  (forall h tv' m', rely 0 m m' -> queue_inv m' -> vle (cur tv) (cur tv') -> prod_at t tv' m' -> h <= cur tv' (At Head) ->
     wp 0 (k (Z.of_nat h)) Q tv' m') ->
  wp 0 (pbind (load_num Head relaxed) k) Q tv m.
Proof.
  intros Hp Hk m1 Hr Hinv ts v tv1 Hrd. apply (prod_rely _ _ _ _ Hr) in Hp.
  apply read_msg_spec in Hrd as (msg & Hm & <- & _ & Hc & _ & _ & Hge & _).
  destruct (q_head _ Hinv _ _ Hm) as [-> _]. apply Hk; [done|done|done|by eapply prod_view|done].
Qed.

Lemma wp_Size t tv m :
  prod_at t tv m ->
  wp 0 Size (fun n tv' m' =>
    mem_le m m' /\ prod_at t tv' m' /\
    exists h, h <= cur tv' (At Head) /\ n = if (Z.of_nat h <=? Z.of_nat t)%Z then (Z.of_nat t - Z.of_nat h)%Z else 0%Z) tv m.
Proof.
  intros Hp. unfold Size.
  apply (wp_load_head_seen t); [done|]. intros h tv1 m1 Hr1 _ Hc1 Hp1 Hh.
  apply (wp_load_tail_own t); [done|]. intros tv2 m2 Hr2 _ Hc2 Hp2. apply wp_ret.
  split; [etrans; [apply (rely_le _ _ _ _ Hr1)|apply (rely_le _ _ _ _ Hr2)]|]. split; [done|].
  exists h. split; [|done]. specialize (Hc2 (At Head)). lia.
Qed.

Lemma wp_TryPop h tv m :
  cons_at h tv m ->
  wp 1 TryPop (fun r tv' m' =>
    vle (cur tv) (cur tv') /\ mem_le m m' /\
    match r with
    | Some v => cons_at (S h) tv' m' /\ at_pos m' h = Some v
    | None => cons_at h tv' m'
    end) tv m.
Proof.
  intros Hp. unfold TryPop.
  apply wp_load_capacity. intros tv1 m1 Hr1 _ Hc1. apply (cons_rely _ _ _ _ Hr1) in Hp.
  apply (cons_view _ _ _ _ Hc1) in Hp.
  apply (wp_load_head_own h); [done|]. intros tv2 m2 Hr2 _ Hc2 Hp2.
  apply (wp_acquire_tail h); [done|]. intros t tv3 m3 Hr3 Hinv3 Hc3 Hp3 Ht Hht Hv.
  assert (vle (cur tv) (cur tv3)) as Hc by (by do 2 (etrans; [eassumption|])).
  assert (mem_le m m3) as Hm by (etrans; [apply (rely_le _ _ _ _ Hr1)|]; etrans;
    [apply (rely_le _ _ _ _ Hr2)|apply (rely_le _ _ _ _ Hr3)]).
  pose proof (q_order _ Hinv3). destruct (Z.eqb_spec (Z.of_nat h) (Z.of_nat t)).
  - by apply wp_ret.
  - rewrite cell_at_nat, u64_small by lia. replace (Z.of_nat h + 1)%Z with (Z.of_nat (S h)) by lia.
    apply (wp_pop_commit h t tv3 m3); [done|lia|lia|lia|done|].
    intros v tv4 m4 Hc4 Hp4 Ha Hm4. split_and!; [by etrans|by etrans|done|done].
Qed.

(** ** The clients *)

(** What a producer sees: a plain push is refused only after [C] accepted ones, a
    push guarded by [Full()] is never refused, and one that follows [Size()] only if
    that showed a full queue: it reads a head no older than [Size()] did. *)
Fixpoint pushes_ok (t : nat) (ops : list (push_op V)) (l : list (push_res V)) : Prop :=
  match ops, l with
  | [], [] => True
  | op :: ops, r :: l =>
      match op, r with
      | Push v, Accepted v' | PushIfRoom v, Accepted v' | PushSized v, Accepted v' => v' = v /\ pushes_ok (S t) ops l
      | Push v, Refused v' => v' = v /\ C <= t /\ pushes_ok t ops l
      | PushIfRoom v, Skipped v' => v' = v /\ pushes_ok t ops l
      | PushSized v, RefusedAt n v' => v' = v /\ (Z.of_nat C <= n)%Z /\ pushes_ok t ops l
      | _, _ => False
      end
  | _, _ => False
  end.

Definition prod_post (t : nat) (ops : list (push_op V)) (rs : list (push_res V))
    (tv : tview) (m : memory) : Prop :=
  prod_at (t + length (accepted rs)) tv m /\ pushes_ok t ops rs /\
  forall i v, accepted rs !! i = Some v -> at_pos m (t + i) = Some v.

Definition cons_post (h : nat) (rs : list (option V)) (tv : tview) (m : memory) : Prop :=
  cons_at (h + length (popped rs)) tv m /\
  forall i v, popped rs !! i = Some v -> at_pos m (h + i) = Some v.

Lemma wp_do_push t op tv m :
  prod_at t tv m -> S t <= B ->
  wp 0 (do_push op) (fun r tv' m' => mem_le m m' /\
    match op, r with
    | Push v, Accepted v' | PushIfRoom v, Accepted v' | PushSized v, Accepted v' =>
        v' = v /\ prod_at (S t) tv' m' /\ at_pos m' t = Some v
    | Push v, Refused v' => v' = v /\ C <= t /\ prod_at t tv' m'
    | PushIfRoom v, Skipped v' => v' = v /\ prod_at t tv' m'
    | PushSized v, RefusedAt n v' => v' = v /\ (Z.of_nat C <= n)%Z /\ prod_at t tv' m'
    | _, _ => False
    end) tv m.
Proof.
  intros Hp Hb. destruct op as [v|v|v]; cbn [do_push].
  - apply wp_bind. eapply wp_mono; [|by apply (wp_TryPush t)].
    intros [] tv' m' (_ & Hm & Hr); apply wp_ret; cbn [push_result]; destruct_and?; by split_and!.
  - apply wp_bind. eapply wp_mono; [|by apply (wp_Full t)].
    intros [] tv1 m1 (_ & Hm & Hp1 & Hf); [by apply wp_ret|].
    apply wp_bind. eapply wp_mono; [|by apply (wp_TryPush t)].
    intros [] tv' m' (_ & Hm' & Hr); apply wp_ret; (split; [by etrans|]); [by destruct_and?|].
    specialize (Hf eq_refl). lia.
  - apply wp_bind. eapply wp_mono; [|by apply (wp_Size t)].
    intros n tv1 m1 (Hm & Hp1 & h & Hh & ->).
    apply wp_bind. eapply wp_mono; [|by apply (wp_TryPush t)].
    intros [] tv' m' (_ & Hm' & Hr); apply wp_ret; (split; [by etrans|]); [by destruct_and?|].
    destruct Hr as (Hp' & _ & Hfull). split_and!; [done| |done].
    destruct (Z.leb_spec (Z.of_nat h) (Z.of_nat t)); lia.
Qed.

Lemma wp_producer ops t tv m :
  prod_at t tv m -> t + length ops <= B ->
  wp 0 (producer ops) (fun rs tv' m' => mem_le m m' /\ prod_post t ops rs tv' m') tv m.
Proof.
  revert t tv m. induction ops as [|op ops IH]; intros t tv m Hp Hb; cbn [producer length] in *.
  { apply wp_ret. split; [done|]. split; [cbn; by rewrite Nat.add_0_r|done]. }
  apply wp_bind. eapply wp_mono; [|apply (wp_do_push t); [done|lia]].
  intros r tv1 m1 [Hm Hr]. apply wp_bind.
  assert (exists t', prod_at t' tv1 m1 /\ t' <= S t /\
    forall rs tv2 m2, mem_le m1 m2 -> prod_post t' ops rs tv2 m2 -> prod_post t (op :: ops) (r :: rs) tv2 m2)
    as (t' & Hp' & Ht' & Hpost).
  { destruct op as [v|v|v], r as [v'|v'|v'|n v']; try done; try destruct Hr as (-> & Hr);
      unfold prod_post; cbn [accepted length pushes_ok].
    1,3,5: destruct Hr as [Hp1 Ha]; exists (S t); split; [done|]; split; [lia|];
      intros rs tv2 m2 Hm2 (H1 & H2 & H3); split; [by rewrite Nat.add_succ_r|]; split; [done|];
      intros [|i] w; cbn; [intros [= <-]; rewrite Nat.add_0_r; by eapply at_pos_le|];
      rewrite Nat.add_succ_r; apply H3.
    - exists t. split; [tauto|]. split; [lia|]. intros rs tv2 m2 Hm2 (H1 & H2 & H3). by destruct_and?; split_and!.
    - exists t. split; [tauto|]. split; [lia|]. intros rs tv2 m2 Hm2 (H1 & H2 & H3). by destruct_and?; split_and!.
    - exists t. split; [tauto|]. split; [lia|]. intros rs tv2 m2 Hm2 (H1 & H2 & H3). by destruct_and?; split_and!. }
  eapply wp_mono; [|apply (IH t'); [done|lia]].
  intros rs tv2 m2 [Hm2 Hps]. apply wp_ret. split; [by etrans|]. by apply Hpost.
Qed.

Lemma wp_consumer n h tv m :
  cons_at h tv m ->
  wp 1 (consumer n) (fun rs tv' m' => mem_le m m' /\ length rs = n /\ cons_post h rs tv' m') tv m.
Proof.
  revert h tv m. induction n as [|n IH]; intros h tv m Hp; cbn [consumer].
  { apply wp_ret. split_and!; [done|done|]. split; [cbn; by rewrite Nat.add_0_r|done]. }
  apply wp_bind. eapply wp_mono; [|by apply (wp_TryPop h)].
  intros [v|] tv1 m1 (_ & Hm & Hr); apply wp_bind.
  - destruct Hr as [Hp1 Ha]. eapply wp_mono; [|by apply (IH (S h))].
    intros rs tv2 m2 (Hm2 & Hl & H1 & H2). apply wp_ret. split_and!; [by etrans|cbn; lia|].
    split; [cbn; by rewrite Nat.add_succ_r|]. intros [|i] w; cbn.
    + intros [= <-]. rewrite Nat.add_0_r. by eapply at_pos_le.
    + rewrite Nat.add_succ_r. apply H2.
  - eapply wp_mono; [|by apply (IH h)]. intros rs tv2 m2 (Hm2 & Hl & H1 & H2). apply wp_ret.
    split_and!; [by etrans|cbn; lia|done].
Qed.

Lemma queue_inv0 d : queue_inv (queue_mem0 (Z.of_nat C) d).
Proof.
  assert (forall (l : qloc) t msg, hist (queue_mem0 (Z.of_nat C) d) l !! t = Some msg -> t = 0 /\
    msg = Msg (match l with Capacity => Num (Z.of_nat C) | Head | Tail => Num 0 | QCell _ => Elem d end) vbot) as H0.
  { intros l [|t] msg; cbn; [intros [= <-]; done|done]. }
  split.
  - by exists vbot.
  - intros t msg [-> ->]%H0. split; [done|lia].
  - intros t msg [-> ->]%H0. split; [done|]. cbn. lia.
  - cbn. lia.
  - intros j. cbn. lia.
  - intros j n msg [? _]%H0. done.
  - intros j. cbn. done.
Qed.

Lemma queue_cfg_ok d ops n :
  length ops <= B ->
  cfg_ok 2 q_owns queue_inv
    (fun tid r tv m => match tid, r with
                       | 0, PushResults l => prod_post 0 ops l tv m
                       | 1, PopResults l => length l = n /\ cons_post 0 l tv m
                       | _, _ => False
                       end)
    (queue_cfg (Z.of_nat C) d ops n).
Proof.
  intros Hb. split_and!; [done|apply queue_inv0|].
  intros [|[|tid]] p tv; cbn [threads queue_cfg]; [intros [= <- <-]..|done].
  - apply wp_bind. eapply wp_mono; [|apply (wp_producer _ 0); [|lia]].
    + intros rs tv m [_ H]. by apply wp_ret.
    + split_and!; [done|cbn; lia|]. intros j. cbn. split; [done|lia].
  - apply wp_bind. eapply wp_mono; [|apply (wp_consumer _ 0)].
    + intros rs tv m (_ & H). by apply wp_ret.
    + split_and!; [done|cbn; lia|cbn; lia|]. intros j. cbn. split; [done|lia].
Qed.
End Weak.

Section Theorems.
Context {V : Type} `{EqDecision V}.
Variable C : nat.
Hypothesis C_pos : 0 < C.
Hypothesis C_small : (Z.of_nat C < 2 ^ 32)%Z.
Variable d : V.
Variable ops : list (push_op V).
Variable n : nat.
Hypothesis ops_small : (Z.of_nat (length ops) < 2 ^ 63)%Z.

(** C14: no data race.  In no reachable state is the next plain access of either side
    a race: every earlier conflicting access of the other side is ordered before
    it by the acquire/release pairs on the indices. *)
Theorem spsc_race_free (c' : config qloc (qval V) (qres V)) :
  rtc cstep (queue_cfg (Z.of_nat C) d ops n) c' -> ~ racy c'.
Proof.
  intros Hr. pose proof (queue_cfg_ok C C_pos (length ops) ops_small C_small d ops n (le_n _)) as Hok.
  by destruct (wp_sound _ _ _ _ _ _ Hok Hr) as (_ & Hn & _).
Qed.

(** C2: FIFO.  In any interleaving under the weak memory model the values popped are
    a prefix of the values accepted, in order, none lost, duplicated or torn; at
    most [C] accepted values are not popped; a push is refused only after [C]
    accepted ones, and not if the producer has seen room: one guarded by [Full()] is
    never refused, and one that follows [Size()] is refused only if [Size()] showed
    [C] or more.  (A refusal may rest on a stale head: the consumer may have popped
    values the producer has not seen popped.) *)
Theorem spsc_fifo (c' : config qloc (qval V) (qres V)) ins outs tv0 tv1 :
  rtc cstep (queue_cfg (Z.of_nat C) d ops n) c' ->
  threads c' !! 0 = Some (Ret (PushResults ins), tv0) ->
  threads c' !! 1 = Some (Ret (PopResults outs), tv1) ->
  popped outs `prefix_of` accepted ins /\ length (accepted ins) <= length (popped outs) + C /\
  length outs = n /\ pushes_ok C 0 ops ins.
Proof.
  intros Hr H0 H1. pose proof (queue_cfg_ok C C_pos (length ops) ops_small C_small d ops n (le_n _)) as Hok.
  destruct (wp_sound _ _ _ _ _ _ Hok Hr) as (Hinv & _ & Hres).
  destruct (Hres _ _ _ H0) as (m0 & Hr0 & Hp & Hpo & Hpv).
  destruct (Hres _ _ _ H1) as (m1 & Hr1 & Hn & Hc & Hcv).
  apply (prod_rely C _ _ _ _ Hr0) in Hp as [Ht _]. apply (cons_rely C _ _ _ _ Hr1) in Hc as [Hh _].
  pose proof (q_order _ _ _ Hinv) as (Ho1 & Ho2 & _). cbn in Ht, Hh.
  split_and!; [|lia|done|done].
  exists (drop (length (popped outs)) (accepted ins)). apply list_eq. intros i.
  destruct (decide (i < length (popped outs))) as [Hi|Hi].
  - rewrite lookup_app_l by done. destruct (lookup_lt_is_Some_2 (popped outs) i Hi) as [v Hv].
    destruct (lookup_lt_is_Some_2 (accepted ins) i ltac:(lia)) as [w Hw].
    pose proof (at_pos_le C _ _ _ _ (rely_le _ _ _ _ Hr1) (Hcv _ _ Hv)) as E1.
    pose proof (at_pos_le C _ _ _ _ (rely_le _ _ _ _ Hr0) (Hpv _ _ Hw)) as E2. cbn in E1, E2.
    congruence.
  - rewrite lookup_app_r, lookup_drop by lia. f_equal. lia.
Qed.
End Theorems.

(** ** The bounded queue it refines, one call at a time *)

Section Sequential.
Context {V : Type} `{EqDecision V}.
Local Abbreviation state := (qloc -> qval V).

Inductive queue_call := QPush (v : V) | QPop | QFull | QSize | QCapacity.
Inductive queue_answer := APush (b : bool) | APop (r : option V) | AFull (b : bool) | ANum (z : Z).

(** The abstract queue: its capacity and its content, oldest first. *)
Definition bounded_queue (C : nat) (q : list V) (c : queue_call) : queue_answer * list V :=
  match c with
  | QPush v => if decide (length q < C) then (APush true, q ++ [v]) else (APush false, q)
  | QPop => match q with [] => (APop None, []) | v :: q => (APop (Some v), q) end
  | QFull => (AFull (bool_decide (C <= length q)), q)
  | QSize => (ANum (Z.of_nat (length q)), q)
  | QCapacity => (ANum (Z.of_nat C), q)
  end.

Fixpoint bounded_queue_run (C : nat) (q : list V) (l : list queue_call) : list queue_answer * list V :=
  match l with
  | [] => ([], q)
  | c :: l => let '(a, q) := bounded_queue C q c in
              let '(rest, q) := bounded_queue_run C q l in (a :: rest, q)
  end.

Lemma bounded_queue_run_snoc C q l c :
  bounded_queue_run C q (l ++ [c]) =
  ((bounded_queue_run C q l).1 ++ [(bounded_queue C (bounded_queue_run C q l).2 c).1],
   (bounded_queue C (bounded_queue_run C q l).2 c).2).
Proof.
  revert q. induction l as [|d l IH]; intros q; cbn [app bounded_queue_run].
  { cbn [fst snd]. by destruct (bounded_queue C q c). }
  destruct (bounded_queue C q d) as [x q1]. rewrite IH. by destruct (bounded_queue_run C q1 l).
Qed.

Definition call_prog (c : queue_call) : qprog V queue_answer :=
  match c with
  | QPush v => let! b := TryPush v in Ret (APush b)
  | QPop => let! r := TryPop in Ret (APop r)
  | QFull => let! b := Full in Ret (AFull b)
  | QSize => let! z := Size in Ret (ANum z)
  | QCapacity => let! z := capacity in Ret (ANum z)
  end%prog.

Fixpoint calls_prog (l : list queue_call) : qprog V (list queue_answer) :=
  match l with
  | [] => Ret []
  | c :: l => let! a := call_prog c in let! rest := calls_prog l in Ret (a :: rest)
  end%prog.

Record queue_rep (C bound : nat) (q : list V) (s : state) : Prop := {
  qr_head : exists h, s Head = Num (Z.of_nat h) /\ s Tail = Num (Z.of_nat (h + length q)) /\
    h + length q <= bound /\
    forall i v, q !! i = Some v -> s (QCell ((h + i) mod C)) = Elem v;
  qr_cap : s Capacity = Num (Z.of_nat C);
  qr_len : length q <= C
}.

Section Calls.
Variable C : nat.
Hypothesis C_pos : 0 < C.

Lemma mod_ne h i j : i < j -> j < i + C -> (h + i) mod C <> (h + j) mod C.
Proof.
  intros Hij Hj E. pose proof (Nat.div_mod_eq (h + i) C). pose proof (Nat.div_mod_eq (h + j) C).
  assert ((h + i) / C < (h + j) / C) by nia. nia.
Qed.

Lemma call_refines fuel bound c q (s : state) :
  queue_rep C bound q s -> (Z.of_nat (S bound) < 2 ^ 63)%Z ->
  exists s', srun fuel (call_prog c) s = Some (fst (bounded_queue C q c), s') /\
             queue_rep C (S bound) (snd (bounded_queue C q c)) s'.
Proof.
  intros [(h & Hh & Ht & Hb & Hc) Hcap Hlen] Hs.
  assert (forall z, (0 <= z < 2 ^ 64)%Z -> u64 z = z) as Hu by (intros z Hz; by apply wrap_id).
  assert (u64 (Z.of_nat (h + length q) - Z.of_nat h) = Z.of_nat (length q)) as Eu
    by (rewrite Hu; lia).
  assert (queue_rep C (S bound) q s) as Hsame by (split; [exists h; split_and!; done || lia|done|done]).
  destruct c as [v| | | |]; cbn; rewrite ?Hh, ?Ht, ?Hcap; cbn; rewrite ?Eu.
  - destruct (decide (length q < C)) as [Hr|Hr].
    + rewrite (proj2 (Z.leb_gt _ _)) by lia. cbn. eexists; split; [done|].
      rewrite cell_at_nat by done. rewrite Hu by lia.
      split; [|rewrite !upd_ne by done; exact Hcap|rewrite length_app; cbn; lia].
      exists h. rewrite !(upd_ne _ _ Head), upd_eq by done. split_and!; [done| | |].
      * f_equal. rewrite length_app. cbn. lia.
      * rewrite length_app. cbn. lia.
      * intros i w [[Hl Hi]|[-> <-]]%lookup_snoc_Some.
        { rewrite !upd_ne; [by apply Hc| |done].
          intros [=E]. by apply (mod_ne h i (length q)) in E; [|lia|lia]. }
        { rewrite upd_ne, upd_eq by done. done. }
    + rewrite (proj2 (Z.leb_le _ _)) by lia. by exists s.
  - destruct q as [|v q].
    + rewrite (proj2 (Z.eqb_eq _ _)) by (cbn; lia). by exists s.
    + rewrite (proj2 (Z.eqb_neq _ _)) by (cbn; lia). cbn. rewrite cell_at_nat by done.
      pose proof (Hc 0 v eq_refl) as H0. rewrite Nat.add_0_r in H0. rewrite H0.
      eexists; split; [done|]. cbn in *. rewrite Hu by lia.
      split; [|by rewrite upd_ne|cbn; lia].
      exists (S h). rewrite upd_eq, upd_ne by done. rewrite Ht. split_and!.
      * f_equal. lia.
      * f_equal. lia.
      * lia.
      * intros i w Hi. rewrite upd_ne by done. rewrite <- (Hc (S i) w Hi). do 3 f_equal. lia.
  - exists s. split; [|done]. do 3 f_equal. destruct (Z.leb_spec (Z.of_nat C) (Z.of_nat (length q)));
      symmetry; [apply bool_decide_eq_true|apply bool_decide_eq_false]; lia.
  - exists s. split; [|done]. rewrite (proj2 (Z.leb_le _ _)) by lia. do 3 f_equal. lia.
  - by exists s.
Qed.

Lemma calls_refine fuel l bound q (s : state) :
  queue_rep C bound q s -> (Z.of_nat (bound + length l) < 2 ^ 63)%Z ->
  exists s', srun fuel (calls_prog l) s = Some (fst (bounded_queue_run C q l), s') /\
             queue_rep C (bound + length l) (snd (bounded_queue_run C q l)) s'.
Proof.
  revert bound q s. induction l as [|c l IH]; intros bound q s Hr Hb; cbn [calls_prog length].
  { exists s. split; [done|]. by rewrite Nat.add_0_r. }
  cbn [length] in Hb. destruct (call_refines fuel bound c q s Hr ltac:(lia)) as (s1 & H1 & Hr1).
  cbn [bounded_queue_run]. destruct (bounded_queue C q c) as [a q1]. cbn in H1, Hr1.
  destruct (IH (S bound) q1 s1 Hr1 ltac:(lia)) as (s2 & H2 & Hr2).
  destruct (bounded_queue_run C q1 l) as [rest q2]. cbn in H2, Hr2.
  exists s2. rewrite srun_bind, H1, srun_bind, H2. cbn. by rewrite Nat.add_succ_r.
Qed.
End Calls.

(** C11: the queue refines a bounded FIFO: constructed at any depth (a depth of zero
    makes a queue of one), every script of fewer than 2^62 pushes, pops, [Full], [Size]
    and [capacity] calls answers exactly as a list of at most [depth] values does. *)
Theorem queue_refines fuel (depth : Z) (l : list queue_call) (s : state) :
  (0 <= depth < 2 ^ 32)%Z -> (Z.of_nat (length l) < 2 ^ 62)%Z ->
  let C := if (depth =? 0)%Z then 1 else Z.to_nat depth in
  exists s1 s2,
    srun fuel (SpscQueue_ctor depth true) s = Some (tt, s1) /\
    srun fuel (calls_prog l) s1 = Some (fst (bounded_queue_run C [] l), s2).
Proof.
  intros Hd Hl C. assert (0 < C) as HC by (subst C; case_ifs; zbool; lia).
  set (s1 := upd (upd (upd s Capacity (Num (Z.of_nat C))) Head (Num 0)) Tail (Num 0)).
  assert (queue_rep C 0 [] s1) as Hrep.
  { split; [|done|cbn; lia]. exists 0. by split_and!. }
  destruct (calls_refine C HC fuel l 0 [] s1 Hrep ltac:(lia)) as (s2 & H2 & _).
  assert ((if (depth =? 0)%Z then 1%Z else depth) = Z.of_nat C) as E
    by (subst C; case_ifs; zbool; [done|by rewrite Z2Nat.id by lia]).
  exists s1, s2. split; [cbn; by rewrite E|exact H2].
Qed.
End Sequential.
Arguments queue_call V : clear implicits.
Arguments queue_answer V : clear implicits.

(** ** Concrete runs *)

(** A queue of two: three pushes against two pops; the third push is refused by a
    stale head, the guarded one after it goes in. *)
Definition demo_queue : config qloc (qval nat) (qres nat) :=
  queue_cfg 2 0 [Push 7; Push 8; Push 9; PushSized 9; PushIfRoom 10] 3.

Definition demo_queue_sched : list (nat * nat) :=
  let p := map (pair 0) in let c := map (pair 1) in
  p [0; 0; 0; 0; 0] ++ c [0; 0; 1; 0; 0] ++ p [0; 1; 0; 0; 0] ++ c [0; 1; 1] ++
  p [0; 2; 0] ++ p [0; 2; 0; 2; 0] ++ c [0; 1; 2; 0; 0] ++ p [2; 1; 0] ++ p [0; 2; 2; 0; 0].

Lemma demo_queue_run :
  (run demo_queue demo_queue_sched) ≫= (fun c => Some (thread_result 0 c, thread_result 1 c)) =
  Some (Some (PushResults [Accepted 7; Accepted 8; Refused 9; RefusedAt 2 9; Accepted 10]),
        Some (PopResults [Some 7; None; Some 8])).
Proof. vm_compute. reflexivity. Qed.

Lemma demo_queue_reached :
  exists c' tva tvb, rtc cstep demo_queue c' /\
    threads c' !! 0 = Some (Ret (PushResults [Accepted 7; Accepted 8; Refused 9; RefusedAt 2 9; Accepted 10]), tva) /\
    threads c' !! 1 = Some (Ret (PopResults [Some 7; None; Some 8]), tvb).
Proof.
  generalize demo_queue_run. generalize demo_queue demo_queue_sched. intros c sched.
  destruct (run c sched) as [c'|] eqn:E; [|done]. cbn. unfold thread_result.
  destruct (threads c' !! 0) as [[p0 ta]|] eqn:E0; [|done].
  destruct (threads c' !! 1) as [[p1 tb]|] eqn:E1; [|by destruct p0].
  destruct p0, p1; try done. intros [= -> ->]. exists c', ta, tb.
  split; [exact (run_rtc _ _ _ E)|done].
Qed.

Lemma spsc_race_free_witness :
  exists c' : config qloc (qval nat) (qres nat), rtc cstep demo_queue c' /\ c' <> demo_queue /\ ~ racy c'.
Proof.
  destruct demo_queue_reached as (c' & tva & tvb & Hr & H0 & _). exists c'. split; [exact Hr|].
  split; [intros ->; discriminate H0|].
  apply (spsc_race_free (V := nat) 2 ltac:(lia) ltac:(lia) 0 [Push 7; Push 8; Push 9; PushSized 9; PushIfRoom 10] 3 ltac:(cbn; lia)).
  exact Hr.
Defined.

Lemma spsc_fifo_witness :
  [7; 8] `prefix_of` [7; 8; 10] /\ 3 <= 2 + 2 /\ length [Some 7; None; Some 8] = 3 /\
  pushes_ok 2 0 [Push 7; Push 8; Push 9; PushSized 9; PushIfRoom 10]
    [Accepted 7; Accepted 8; Refused 9; RefusedAt 2 9; Accepted 10].
Proof.
  destruct demo_queue_reached as (c' & tva & tvb & Hr & H0 & H1).
  apply (spsc_fifo (V := nat) 2 ltac:(lia) ltac:(lia) 0 [Push 7; Push 8; Push 9; PushSized 9; PushIfRoom 10] 3 ltac:(cbn; lia)
    c' [Accepted 7; Accepted 8; Refused 9; RefusedAt 2 9; Accepted 10] [Some 7; None; Some 8] tva tvb Hr H0 H1).
Defined.

Lemma queue_refines_witness :
  exists s1 s2,
    srun 1 (SpscQueue_ctor 0 true) (fun _ => Elem true) = Some (tt, s1) /\
    srun 1 (calls_prog [QPop; QPush true; QFull; QPush false; QSize; QPop; QFull; QPop]) s1 =
      Some ([APop None; APush true; AFull true; APush false; ANum 1; APop (Some true); AFull false;
             APop None], s2).
Proof.
  exact (queue_refines 1 0 [QPop; QPush true; QFull; QPush false; QSize; QPop; QFull; QPop]
    (fun _ => Elem true) ltac:(lia) ltac:(cbn; lia)).
Defined.
