(* ===== verification/EventCount.v ===== *)
(** * Parking: the eventcount and its condition-variable variant (event_count.hpp)

    Waiters and notifiers as state machines over the epoch word, one transition
    per shared access, in any interleaving.  The futex is the kernel's: a wait
    parks the caller only if the word still holds the expected value, atomically
    with the comparison, and may end at any time (wake, timeout, signal); a wake
    releases every parked thread. *)

From Stdlib Require Import ZArith Lia.
From stdpp Require Import base list numbers relations.
From S2P Require Import Prelude.

Local Open Scope Z_scope.

(** ** EventCount *)

Module EventCount.

(** Where a waiter is in [WaitUntil]'s loop; [gen] is the epoch it loaded. *)
Inductive waiter :=
| WLoad                      (* about to load the epoch *)
| WCheck (gen : Z)           (* about to call the predicate *)
| WClock (gen : Z)           (* about to read the clock *)
| WLast                      (* deadline passed: about to call the predicate again *)
| WFutex (gen : Z)           (* about to enter the futex wait *)
| WParked                    (* asleep in the kernel *)
| WDone (result : bool).

(** One step of [WaitUntil(deadline_at, predicate)] when the word holds [epoch], the
    predicate would return [p] and the clock [now].  Leaving the park is not a
    step of the waiter. *)
Definition WaitUntil_step (deadline_at now epoch : Z) (p : bool) (w : waiter) : option waiter :=
  match w with
  | WLoad => Some (WCheck epoch)
  | WCheck gen => if p then Some (WDone true) else Some (WClock gen)
  | WClock gen =>
      let remaining := deadline_at - now in
      if remaining <=? 0 then Some WLast else Some (WFutex gen)
  | WLast => Some (WDone p)
  | WFutex gen => if epoch =? gen then Some WParked else Some WLoad      (* EAGAIN *)
  | WParked | WDone _ => None
  end.

(** [NotifyAll()] of a thread that first makes the predicate true. *)
Inductive notifier :=
| NPrepare                   (* about to make the predicate true *)
| NBump                      (* about to increment the epoch *)
| NWake                      (* about to wake *)
| NDone.

(** The relative timeout the futex is given. *)
Definition timespec_of (ns : Z) : Z * Z := (Z.quot ns 1000000000, Z.rem ns 1000000000).

Record system := Sys {
  word : Z;                          (* the 32-bit futex word *)
  flag : bool;                       (* what the predicates return *)
  waiters : list (Z * waiter);       (* with their deadlines *)
  notifiers : list notifier
}.

Definition wake (w : Z * waiter) : Z * waiter :=
  match w with (d, WParked) => (d, WLoad) | w => w end.

Definition NotifyAll_step (n : notifier) (s : system) : option (notifier * system) :=
  match n with
  | NPrepare => Some (NBump, Sys (word s) true (waiters s) (notifiers s))
  | NBump => Some (NWake, Sys (u32 (word s + 1)) (flag s) (waiters s) (notifiers s))
  | NWake => Some (NDone, Sys (word s) (flag s) (map wake (waiters s)) (notifiers s))
  | NDone => None
  end.

Inductive step (s : system) : system -> Prop :=
| step_waiter i d w w' now :
    waiters s !! i = Some (d, w) -> WaitUntil_step d now (word s) (flag s) w = Some w' ->
    step s (Sys (word s) (flag s) (<[i := (d, w')]> (waiters s)) (notifiers s))
| step_unpark i d :                  (* timeout, signal or spurious wake *)
    waiters s !! i = Some (d, WParked) ->
    step s (Sys (word s) (flag s) (<[i := (d, WLoad)]> (waiters s)) (notifiers s))
| step_notifier j n n' s' :
    notifiers s !! j = Some n -> NotifyAll_step n s = Some (n', s') ->
    step s (Sys (word s') (flag s') (waiters s') (<[j := n']> (notifiers s')))
| step_consume :                     (* the work is taken by anyone *)
    step s (Sys (word s) false (waiters s) (notifiers s)).

Definition initial (e0 : Z) (f : bool) (deadlines : list Z) (n : nat) : system :=
  Sys e0 f (map (fun d => (d, WLoad)) deadlines) (repeat NPrepare n).

(** ** No lost wakeup *)

(** How many notifiers have bumped the epoch. *)
Definition bumped (n : notifier) : nat := match n with NWake | NDone => 1 | _ => 0 end.
Definition bumps (l : list notifier) : nat := sum_list_with bumped l.

#[local] Arguments bumps : simpl never.

Lemma bumps_insert l j n n' :
  l !! j = Some n -> (bumps (<[j := n']> l) + bumped n = bumps l + bumped n')%nat.
Proof.
  unfold bumps. revert j. induction l as [|m l IH]; intros [|j]; cbn; [done|done| |].
  - intros [= ->]. lia.
  - intros Hj. specialize (IH _ Hj). unfold insert in *. lia.
Qed.

Lemma bumps_le l : (bumps l <= length l)%nat.
Proof. unfold bumps. induction l as [|n l IH]; cbn; [lia|]. destruct n; cbn; lia. Qed.

Section Invariant.
Variable e0 : Z.

(** Waiter [w] loaded its epoch after [G] bumps. *)
Definition waiter_ok (s : system) (w : waiter) : Prop :=
  match w with
  | WCheck gen => exists G, gen = u32 (e0 + Z.of_nat G) /\ (G <= bumps (notifiers s))%nat
  | WClock gen | WFutex gen =>
      exists G, gen = u32 (e0 + Z.of_nat G) /\ (G <= bumps (notifiers s))%nat /\
        (flag s = true -> (G < bumps (notifiers s))%nat \/ NBump ∈ notifiers s)
  | WParked => flag s = true -> NBump ∈ notifiers s \/ NWake ∈ notifiers s
  | _ => True
  end.

Record inv (s : system) : Prop := {
  inv_word : word s = u32 (e0 + Z.of_nat (bumps (notifiers s)));
  inv_few : Z.of_nat (length (notifiers s)) < 2 ^ 32;
  inv_waiters : Forall (fun dw => waiter_ok s (snd dw)) (waiters s)
}.

(** Fewer than 2^32 bumps apart, equal words mean no bump in between. *)
Lemma word_same (a b : nat) :
  (a <= b)%nat -> Z.of_nat b < 2 ^ 32 ->
  u32 (e0 + Z.of_nat a) = u32 (e0 + Z.of_nat b) -> a = b.
Proof.
  unfold wrap. intros Ha Hb E.
  assert ((Z.of_nat b - Z.of_nat a) mod 2 ^ 32 = 0) as H0.
  { replace (Z.of_nat b - Z.of_nat a) with ((e0 + Z.of_nat b) - (e0 + Z.of_nat a)) by lia.
    rewrite Zminus_mod, E, Z.sub_diag. done. }
  rewrite Z.mod_small in H0 by lia. lia.
Qed.

Lemma waiter_ok_weaken s s' w :
  (flag s' = true -> flag s = true) -> bumps (notifiers s') = bumps (notifiers s) ->
  (NBump ∈ notifiers s -> NBump ∈ notifiers s') -> (NWake ∈ notifiers s -> NWake ∈ notifiers s') ->
  waiter_ok s w -> waiter_ok s' w.
Proof. intros Hf Hb H1 H2. destruct w; cbn; rewrite ?Hb; try done; naive_solver. Qed.

Lemma inv_waiter_step s i d w w' :
  inv s -> waiters s !! i = Some (d, w) -> waiter_ok s w' ->
  inv (Sys (word s) (flag s) (<[i := (d, w')]> (waiters s)) (notifiers s)).
Proof.
  intros [H1 H2 H3] Hi Hw. split; [done|done|]. cbn [waiters].
  apply Forall_insert; [|exact Hw]. exact H3.
Qed.

Lemma WaitUntil_ok s d now w w' :
  inv s -> waiter_ok s w -> WaitUntil_step d now (word s) (flag s) w = Some w' -> waiter_ok s w'.
Proof.
  intros [Hw Hn _] Hok. pose proof (bumps_le (notifiers s)) as Hle. destruct w as [|gen|gen| |gen| |r]; cbn in *.
  - intros [= <-]. cbn. exists (bumps (notifiers s)). by rewrite Hw.
  - destruct (flag s) eqn:Ef; intros [= <-]; [done|]. cbn. destruct Hok as (G & -> & HG).
    exists G. rewrite Ef. done.
  - destruct (_ <=? 0); intros [= <-]; done.
  - by intros [= <-].
  - destruct (Z.eqb_spec (word s) gen) as [E|E]; intros [= <-]; [|done]. cbn. intros Hf.
    destruct Hok as (G & EG & HG & [Hlt|Hb]%(fun H => H Hf)); [|by left].
    exfalso. rewrite Hw, EG in E. symmetry in E. apply word_same in E; lia.
  - done.
  - done.
Qed.

Lemma elem_of_insert_ne {A} (l : list A) j x y z :
  l !! j = Some x -> z <> x -> z ∈ l -> z ∈ <[j := y]> l.
Proof.
  intros Hj Hne [i Hi]%list_elem_of_lookup. apply list_elem_of_lookup. exists i.
  rewrite list_lookup_insert_ne; [done|]. intros <-. congruence.
Qed.

Lemma inv_step s s' : inv s -> step s s' -> inv s'.
Proof.
  intros Hinv Hs. pose proof Hinv as [Hw Hn Hf]. rewrite Forall_lookup in Hf.
  destruct Hs as [i d w w' now Hi Hstep|i d Hi|j n n' s' Hj Hstep|].
  - eapply inv_waiter_step; [done|done|]. eapply WaitUntil_ok; [done|apply (Hf _ _ Hi)|done].
  - by eapply inv_waiter_step.
  - pose proof (bumps_insert _ _ _ n' Hj) as Hb.
    assert (n' ∈ <[j := n']> (notifiers s)) as Hin.
    { apply list_elem_of_lookup. exists j. apply list_lookup_insert_eq. by eapply lookup_lt_Some. }
    destruct n; cbn in Hstep; try done; injection Hstep as <- <-; cbn in Hb;
      (split; cbn [word flag waiters notifiers]; [|by rewrite length_insert|]).
    + rewrite Hw. do 3 f_equal. lia.
    + apply Forall_lookup. intros i [d w] Hi. specialize (Hf _ _ Hi). cbn in *.
      assert (bumps (<[j := NBump]> (notifiers s)) = bumps (notifiers s)) as E by lia.
      destruct w; cbn in *; rewrite ?E; try done; naive_solver.
    + rewrite Hw, wrap_add_l. f_equal. lia.
    + apply Forall_lookup. intros i [d w] Hi. specialize (Hf _ _ Hi). cbn in *.
      assert (bumps (<[j := NWake]> (notifiers s)) = S (bumps (notifiers s))) as E by lia.
      destruct w; cbn in *; rewrite ?E; try done; try (by right).
      * destruct Hf as (G & ? & ?). exists G. split; [done|lia].
      * destruct Hf as (G & ? & ? & _). exists G. split_and!; [done|lia|left; lia].
      * destruct Hf as (G & ? & ? & _). exists G. split_and!; [done|lia|left; lia].
    + rewrite Hw. do 3 f_equal. lia.
    + apply Forall_lookup. intros i [d w] Hi. apply list_lookup_fmap_Some in Hi as ([d0 w0] & Ew & Hi).
      specialize (Hf _ _ Hi). cbn in Hf.
      assert (w = if w0 is WParked then WLoad else w0) as -> by (destruct w0; cbn in Ew; congruence).
      assert (bumps (<[j := NDone]> (notifiers s)) = bumps (notifiers s)) as E by lia.
      destruct w0; cbn in *; rewrite ?E; try done;
        destruct Hf as (G & ? & ? & Hx); exists G; split_and!; try done;
        intros F; (destruct (Hx F); [by left|right; by eapply elem_of_insert_ne]).
  - split; [done|done|]. apply Forall_lookup. intros i [d w] Hi. specialize (Hf _ _ Hi). cbn in *.
    eapply (waiter_ok_weaken s); cbn; done.
Qed.
End Invariant.


Lemma inv_initial e0 f ds n :
  in_width 32 e0 -> Z.of_nat n < 2 ^ 32 -> inv e0 (initial e0 f ds n).
Proof.
  intros He Hn. split; cbn.
  - assert (bumps (repeat NPrepare n) = 0%nat) as ->
      by (unfold bumps; induction n as [|n IH]; [done|cbn; apply IH; lia]).
    rewrite Z.add_0_r. symmetry. by apply wrap_id.
  - by rewrite repeat_length.
  - apply Forall_lookup. intros i dw Hi. apply list_lookup_fmap_Some in Hi as (d & -> & _). done.
Qed.

(** C4: no lost wakeup.  With fewer than 2^32 notifications, any number of waiters,
    notifiers, timeouts, spurious wakes and consumers, in any interleaving: a
    waiter is never asleep while the predicate holds unless some notifier still
    has its wake to deliver. *)
Theorem eventcount_no_lost_wakeup e0 f ds n s i d :
  in_width 32 e0 -> Z.of_nat n < 2 ^ 32 ->
  rtc step (initial e0 f ds n) s ->
  waiters s !! i = Some (d, WParked) -> flag s = true ->
  exists j, notifiers s !! j = Some NBump \/ notifiers s !! j = Some NWake.
Proof.
  intros He Hn Hr Hi Hf. assert (inv e0 s) as [_ _ Hw].
  { pose proof (inv_initial e0 f ds n He Hn) as Hinv. clear Hi Hf.
    induction Hr; eauto using inv_step. }
  rewrite Forall_lookup in Hw. destruct (Hw _ _ Hi Hf) as [[j ?]%list_elem_of_lookup|[j ?]%list_elem_of_lookup];
    eauto.
Qed.

(** *** The bound of a wait *)

(** What a waiter finds at each of its steps: clock, epoch word, predicate. *)
Definition environment := nat -> Z * Z * bool.

(** [WaitUntil] against an environment; the result is paired with the step of the
    predicate call that gave it.  A park ends at the next step. *)
Fixpoint WaitUntil (deadline_at : Z) (env : environment) (fuel k : nat) (w : waiter)
  : option (bool * nat) :=
  match fuel with
  | O => None
  | S fuel =>
      let '(now, epoch, p) := env k in
      match WaitUntil_step deadline_at now epoch p w with
      | Some (WDone r) => Some (r, k)
      | Some w' => WaitUntil deadline_at env fuel (S k) w'
      | None => WaitUntil deadline_at env fuel (S k) WLoad
      end
  end.

(** [WaitFor(max_park, predicate)]: the deadline is taken from the clock now. *)
Definition WaitFor (max_park now : Z) (env : environment) (fuel : nat) : option (bool * nat) :=
  WaitUntil (now + max_park) env fuel 0 WLoad.

Definition expired (deadline_at : Z) (env : environment) (k : nat) : Prop :=
  deadline_at <= fst (fst (env k)).

Lemma WaitUntil_result deadline_at env fuel k w r j :
  (w = WLast -> (1 <= k)%nat /\ expired deadline_at env (pred k)) ->
  (forall b, w <> WDone b) ->
  WaitUntil deadline_at env fuel k w = Some (r, j) ->
  r = snd (env j) /\ (r = false -> expired deadline_at env (pred j)).
Proof.
  revert k w. induction fuel as [|fuel IH]; intros k w Hlast Hnd; cbn [WaitUntil]; [done|].
  destruct (env k) as [[now epoch] p] eqn:Ek. destruct w as [|g|g| |g| |b]; cbn.
  - by apply IH.
  - destruct p; [|by apply IH]. intros [= <- <-]. by rewrite Ek.
  - destruct (Z.leb_spec (deadline_at - now) 0); [|by apply IH].
    apply IH; [|done]. intros _. split; [lia|]. unfold expired. cbn. rewrite Ek. cbn. lia.
  - intros [= <- <-]. rewrite Ek. split; [done|]. intros _. by apply Hlast.
  - destruct (epoch =? g); by apply IH.
  - by apply IH.
  - by destruct (Hnd b).
Qed.

Lemma WaitUntil_more deadline_at env fuel fuel' k w x :
  WaitUntil deadline_at env fuel k w = Some x -> (fuel <= fuel')%nat ->
  WaitUntil deadline_at env fuel' k w = Some x.
Proof.
  revert fuel' k w. induction fuel as [|fuel IH]; intros fuel' k w; [done|].
  destruct fuel' as [|fuel']; [lia|]. cbn. destruct (env k) as [[now epoch] p].
  destruct (WaitUntil_step _ _ _ _ _) as [[]|]; intros; try done; apply IH; done || lia.
Qed.

(** How many more steps a waiter needs once its deadline has passed. *)
Definition steps_left (w : waiter) : nat :=
  match w with
  | WFutex _ => 6 | WParked => 5 | WLoad => 4 | WCheck _ => 3 | WClock _ => 2 | WLast => 1
  | WDone _ => 0
  end%nat.

Lemma WaitUntil_expired deadline_at env n k w :
  (forall j, (k <= j)%nat -> expired deadline_at env j) -> (forall b, w <> WDone b) ->
  (steps_left w <= n)%nat -> is_Some (WaitUntil deadline_at env n k w).
Proof.
  revert k w. induction n as [|n IH]; intros k w He Hnd Hn.
  { destruct w; cbn in Hn; try lia. by destruct (Hnd result). }
  cbn. pose proof (He k (le_n _)) as Hk. unfold expired in Hk.
  destruct (env k) as [[now epoch] p]. cbn in Hk.
  assert (forall w', (steps_left w' <= n)%nat -> (forall b, w' <> WDone b) ->
    is_Some (WaitUntil deadline_at env n (S k) w')) as Hnext
    by (intros; apply IH; [intros; apply He; lia|done|done]).
  destruct w as [|g|g| |g| |b]; cbn in *.
  - apply Hnext; cbn; [lia|done].
  - destruct p; [by eexists|]. apply Hnext; cbn; [lia|done].
  - rewrite (proj2 (Z.leb_le _ _)) by lia. apply Hnext; cbn; [lia|done].
  - by eexists.
  - destruct (epoch =? g); apply Hnext; cbn; (lia || done).
  - apply Hnext; cbn; [lia|done].
  - by destruct (Hnd b).
Qed.

(** Running [k] more steps first does not change what follows. *)
Lemma WaitUntil_eventually deadline_at env t k w :
  (forall j, (t + k <= j)%nat -> expired deadline_at env j) -> (forall b, w <> WDone b) ->
  is_Some (WaitUntil deadline_at env (t + 6) k w).
Proof.
  revert k w. induction t as [|t IH]; intros k w He Hnd.
  { apply WaitUntil_expired; [done|done|]. destruct w; cbn; lia. }
  cbn. destruct (env k) as [[now epoch] p].
  destruct (WaitUntil_step _ _ _ _ _) as [[]|]; try (by eexists);
    apply IH; try done; intros; apply He; lia.
Qed.

(** C35: a wait is bounded.  If the clock has passed the deadline from step [t] on,
    [WaitUntil] returns within [t + 6] steps of its own, whatever the epoch and
    the predicate do in between; its result is what the last predicate call
    returned, and it returns false only once the deadline has passed. *)
Theorem wait_until_bounded deadline_at env t :
  (forall j, (t <= j)%nat -> expired deadline_at env j) ->
  exists r j, WaitUntil deadline_at env (t + 6) 0 WLoad = Some (r, j) /\ r = snd (env j) /\
    (r = false -> expired deadline_at env (pred j)).
Proof.
  intros He. destruct (WaitUntil_eventually deadline_at env t 0 WLoad) as [[r j] Hw];
    [intros; apply He; lia|done|]. exists r, j. split; [done|].
  by apply (WaitUntil_result deadline_at env _ _ _ _ _) in Hw.
Qed.

(** The relative timeout is a valid [timespec] of the remaining time. *)
Lemma timespec_valid ns :
  0 < ns -> let '(sec, nsec) := timespec_of ns in
  0 <= sec /\ 0 <= nsec < 1000000000 /\ sec * 1000000000 + nsec = ns.
Proof.
  intros H. cbn. pose proof (Z.quot_rem' ns 1000000000). pose proof (Z.rem_bound_pos ns 1000000000).
  pose proof (Z.quot_pos ns 1000000000). lia.
Qed.

Lemma eventcount_no_lost_wakeup_witness :
  exists s, rtc step (initial (2 ^ 32 - 1) false [50] 1) s /\ flag s = true /\
            waiters s !! 0%nat = Some (50, WParked) /\
            exists j, notifiers s !! j = Some NBump \/ notifiers s !! j = Some NWake.
Proof.
  set (s1 := Sys (2 ^ 32 - 1) true [(50, WParked)] [NBump]).
  assert (rtc step (initial (2 ^ 32 - 1) false [50] 1) s1) as Hr.
  { eapply rtc_l; [apply (step_waiter _ 0 50 WLoad (WCheck (2 ^ 32 - 1)) 0); reflexivity|].
    eapply rtc_l; [apply (step_waiter _ 0 50 (WCheck (2 ^ 32 - 1)) (WClock (2 ^ 32 - 1)) 0); reflexivity|].
    eapply rtc_l; [apply (step_waiter _ 0 50 (WClock (2 ^ 32 - 1)) (WFutex (2 ^ 32 - 1)) 0); reflexivity|].
    eapply rtc_l; [apply (step_waiter _ 0 50 (WFutex (2 ^ 32 - 1)) WParked 0); reflexivity|].
    eapply rtc_l; [apply (step_notifier _ 0 NPrepare NBump (Sys (2 ^ 32 - 1) true [(50, WParked)] [NPrepare])); reflexivity|]. constructor. }
  exists s1. split; [exact Hr|]. split; [done|]. split; [done|].
  apply (eventcount_no_lost_wakeup (2 ^ 32 - 1) false [50] 1 s1 0 50); try done.
Defined.

Lemma wait_until_bounded_witness :
  exists r j, WaitUntil 10 (fun k => (3 * Z.of_nat k, 0, false)) (4 + 6) 0 WLoad = Some (r, j) /\
    r = snd ((fun k => (3 * Z.of_nat k, 0, false)) j) /\
    (r = false -> expired 10 (fun k => (3 * Z.of_nat k, 0, false)) (pred j)).
Proof.
  apply (wait_until_bounded 10 (fun k => (3 * Z.of_nat k, 0, false)) 4).
  unfold expired; cbn; lia.
Defined.
End EventCount.

(** ** CondvarEventCount *)

Module CondvarEventCount.

(** A waiter in [cv_.wait_for(lock, max_park, predicate)]; [last] is set once the
    timeout has passed, so the next predicate call decides. *)
Inductive cv_waiter :=
| CLock (last : bool)        (* about to take the mutex *)
| CCheck (last : bool)       (* holding it, about to call the predicate *)
| CPark                      (* holding it, about to release it and sleep *)
| CParked
| CDone (result : bool).

Inductive cv_notifier :=
| NPrepare                   (* about to make the predicate true, without the mutex *)
| NLock                      (* about to enter the empty critical section *)
| NUnlock
| NNotify                    (* about to notify_all *)
| NDone.

Record cv_system := Sys {
  mutex : option (nat + nat);        (* held by waiter or notifier *)
  flag : bool;
  waiters : list cv_waiter;
  notifiers : list cv_notifier
}.

Definition WaitFor_step (i : nat) (w : cv_waiter) (s : cv_system) : option (cv_waiter * option (nat + nat)) :=
  match w with
  | CLock last => if mutex s is None then Some (CCheck last, Some (inl i)) else None
  | CCheck last =>
      if flag s then Some (CDone true, None)
      else if last then Some (CDone false, None) else Some (CPark, mutex s)
  | CPark => Some (CParked, None)
  | CParked | CDone _ => None
  end.

Definition cv_wake (w : cv_waiter) : cv_waiter := match w with CParked => CLock false | w => w end.

Definition cv_NotifyAll_step (j : nat) (n : cv_notifier) (s : cv_system) : option (cv_notifier * cv_system) :=
  match n with
  | NPrepare => Some (NLock, Sys (mutex s) true (waiters s) (notifiers s))
  | NLock =>
      if mutex s is None
      then Some (NUnlock, Sys (Some (inr j)) (flag s) (waiters s) (notifiers s)) else None
  | NUnlock => Some (NNotify, Sys None (flag s) (waiters s) (notifiers s))
  | NNotify => Some (NDone, Sys (mutex s) (flag s) (map cv_wake (waiters s)) (notifiers s))
  | NDone => None
  end.

Inductive step (s : cv_system) : cv_system -> Prop :=
| step_waiter i w w' m :
    waiters s !! i = Some w -> WaitFor_step i w s = Some (w', m) ->
    step s (Sys m (flag s) (<[i := w']> (waiters s)) (notifiers s))
| step_unpark i last :               (* timeout or spurious wake *)
    waiters s !! i = Some CParked ->
    step s (Sys (mutex s) (flag s) (<[i := CLock last]> (waiters s)) (notifiers s))
| step_notifier j n n' s' :
    notifiers s !! j = Some n -> cv_NotifyAll_step j n s = Some (n', s') ->
    step s (Sys (mutex s') (flag s') (waiters s') (<[j := n']> (notifiers s')))
| step_consume :
    step s (Sys (mutex s) false (waiters s) (notifiers s)).

Definition cv_initial (f : bool) (nw nn : nat) : cv_system :=
  Sys None f (repeat (CLock false) nw) (repeat NPrepare nn).

(** Who holds the mutex, and what a sleeper can count on. *)
Definition waiter_ok (s : cv_system) (i : nat) (w : cv_waiter) : Prop :=
  match w with
  | CCheck _ => mutex s = Some (inl i)
  | CPark => mutex s = Some (inl i) /\ (flag s = true -> NLock ∈ notifiers s)
  | CParked => flag s = true ->
      NLock ∈ notifiers s \/ NUnlock ∈ notifiers s \/ NNotify ∈ notifiers s
  | _ => True
  end.

Record inv (s : cv_system) : Prop := {
  inv_waiters : forall i w, waiters s !! i = Some w -> waiter_ok s i w;
  inv_unlock : forall j, notifiers s !! j = Some NUnlock -> mutex s = Some (inr j)
}.

Lemma insert_moves {A} (l : list A) j x y z :
  l !! j = Some x -> z ∈ l -> z = x \/ z ∈ <[j := y]> l.
Proof.
  intros Hj [i Hi]%list_elem_of_lookup. destruct (decide (i = j)) as [->|Hne]; [left; congruence|right].
  apply list_elem_of_lookup. exists i. by rewrite list_lookup_insert_ne.
Qed.

Lemma insert_has {A} (l : list A) j x y : l !! j = Some x -> y ∈ <[j := y]> l.
Proof.
  intros Hj. apply list_elem_of_lookup. exists j. apply list_lookup_insert_eq. by eapply lookup_lt_Some.
Qed.

(** The mutex changes hands only between the waiter that steps and nobody. *)
Lemma cv_inv_waiter_step s i w w' m :
  inv s -> waiters s !! i = Some w -> WaitFor_step i w s = Some (w', m) ->
  inv (Sys m (flag s) (<[i := w']> (waiters s)) (notifiers s)).
Proof.
  intros [Hw Hn] Hi Hs. pose proof (Hw _ _ Hi) as Hok.
  assert (forall k, mutex s = Some (inl i) \/ mutex s = None ->
    forall v, waiters s !! k = Some v -> k <> i -> v <> CPark /\ forall b, v <> CCheck b) as Hother.
  { intros k Hm v Hv Hk. specialize (Hw _ _ Hv). destruct v; cbn in Hw; naive_solver. }
  assert (mutex s = Some (inl i) \/ mutex s = None -> forall j, notifiers s !! j <> Some NUnlock) as Hnu
    by (intros Hm j Hj; specialize (Hn _ Hj); naive_solver).
  assert (forall m', (mutex s = m' \/ mutex s = Some (inl i) \/ mutex s = None) ->
    waiter_ok (Sys m' (flag s) (<[i := w']> (waiters s)) (notifiers s)) i w' ->
    inv (Sys m' (flag s) (<[i := w']> (waiters s)) (notifiers s))) as Hbuild.
  { intros m' Hm Hnew. split; cbn.
    - intros k v. destruct (decide (k = i)) as [->|Hk].
      + rewrite list_lookup_insert_eq by (by eapply lookup_lt_Some). by intros [= <-].
      + rewrite list_lookup_insert_ne by done. intros Hv. specialize (Hw _ _ Hv).
        destruct Hm as [<-|Hm]; [done|]. destruct (Hother k Hm v Hv Hk). destruct v; naive_solver.
    - intros j Hj. destruct Hm as [<-|Hm]; [by apply Hn|]. by destruct (Hnu Hm j). }
  destruct w as [last|last| | |r]; cbn in Hs, Hok.
  - destruct (mutex s) eqn:E; [done|]. injection Hs as <- <-. apply Hbuild; [auto|done].
  - destruct (flag s) eqn:Ef; [injection Hs as <- <-; apply Hbuild; auto; done|].
    destruct last; injection Hs as <- <-; apply Hbuild; auto; [done|]. cbn. by split.
  - injection Hs as <- <-. apply Hbuild; [naive_solver|]. cbn. naive_solver.
  - done.
  - done.
Qed.

Lemma cv_inv_notifier_step s j n n' s' :
  inv s -> notifiers s !! j = Some n -> cv_NotifyAll_step j n s = Some (n', s') ->
  inv (Sys (mutex s') (flag s') (waiters s') (<[j := n']> (notifiers s'))).
Proof.
  intros [Hw Hn] Hj Hs. pose proof (insert_has _ _ _ n' Hj) as Hin.
  pose proof (fun z => insert_moves _ _ _ n' z Hj) as Hmv.
  assert (forall k, <[j := n']> (notifiers s) !! k = Some NUnlock ->
    (k = j /\ n' = NUnlock) \/ (k <> j /\ notifiers s !! k = Some NUnlock)) as Hk.
  { intros k. destruct (decide (k = j)) as [->|Hne].
    - rewrite list_lookup_insert_eq by (by eapply lookup_lt_Some). naive_solver.
    - rewrite list_lookup_insert_ne by done. auto. }
  destruct n; cbn in Hs; try done.
  - injection Hs as <- <-. split; cbn; [|naive_solver].
    intros i w Hi. specialize (Hw _ _ Hi). destruct w; cbn in *; try done; naive_solver.
  - destruct (mutex s) eqn:Em; [done|]. injection Hs as <- <-. split; cbn.
    + intros i w Hi. specialize (Hw _ _ Hi). destruct w; cbn in *; try done; [congruence|naive_solver|].
      intros Hf. destruct (Hw Hf) as [H|[H|H]]; destruct (Hmv _ H) as [E|]; try done; auto.
    + intros k [[-> _]|[_ H]]%Hk; [done|]. specialize (Hn _ H). congruence.
  - pose proof (Hn _ Hj) as Hm. injection Hs as <- <-. split; cbn.
    + intros i w Hi. specialize (Hw _ _ Hi). destruct w; cbn in *; try done; [congruence|naive_solver|].
      auto.
    + intros k [[-> ?]|[Hne H]]%Hk; [done|]. specialize (Hn _ H). congruence.
  - injection Hs as <- <-. split; cbn; [|naive_solver].
    intros i w Hi. apply list_lookup_fmap_Some in Hi as (w0 & -> & Hi). specialize (Hw _ _ Hi).
    destruct w0; cbn in *; try done. destruct Hw as [Hm Hf]. split; [done|]. intros F.
    by destruct (Hmv _ (Hf F)).
Qed.

Lemma cv_inv_step s s' : inv s -> step s s' -> inv s'.
Proof.
  intros Hinv Hs. destruct Hs as [i w w' m Hi Hw|i last Hi|j n n' s' Hj Hn|].
  - by eapply cv_inv_waiter_step.
  - destruct Hinv as [H1 H2]. split; cbn; [|done]. intros k v.
    destruct (decide (k = i)) as [->|Hk].
    + rewrite list_lookup_insert_eq by (by eapply lookup_lt_Some). by intros [= <-].
    + rewrite list_lookup_insert_ne by done. apply H1.
  - by eapply cv_inv_notifier_step.
  - destruct Hinv as [H1 H2]. split; cbn; [|done]. intros k v Hk. specialize (H1 _ _ Hk).
    destruct v; cbn in *; naive_solver.
Qed.

(** C25: no lost wakeup in the condition-variable variant, although the predicate is
    made true without the mutex: the notifier's empty critical section cannot
    fall between a waiter's predicate check and its sleep, so a waiter asleep
    while the predicate holds still has a notification coming. *)
Theorem condvar_no_lost_wakeup f nw nn s i :
  rtc step (cv_initial f nw nn) s ->
  waiters s !! i = Some CParked -> flag s = true ->
  exists j, notifiers s !! j = Some NLock \/ notifiers s !! j = Some NUnlock \/
            notifiers s !! j = Some NNotify.
Proof.
  intros Hr Hi Hf. assert (inv s) as [Hw _].
  { assert (inv (cv_initial f nw nn)) as Hinv.
    { split; cbn.
      - intros k w Hk. apply list_elem_of_lookup_2, list_elem_of_In, repeat_spec in Hk. by subst.
      - intros k Hk. apply list_elem_of_lookup_2, list_elem_of_In, repeat_spec in Hk. done. }
    clear Hi Hf. induction Hr; eauto using cv_inv_step. }
  destruct (Hw _ _ Hi Hf) as [[j ?]%list_elem_of_lookup|[[j ?]%list_elem_of_lookup|[j ?]%list_elem_of_lookup]];
    eauto.
Qed.

Lemma condvar_no_lost_wakeup_witness :
  exists s, rtc step (cv_initial false 1 1) s /\ waiters s !! 0%nat = Some CParked /\ flag s = true /\
    exists j, notifiers s !! j = Some NLock \/ notifiers s !! j = Some NUnlock \/
              notifiers s !! j = Some NNotify.
Proof.
  set (s1 := Sys None true [CParked] [NLock]).
  assert (rtc step (cv_initial false 1 1) s1) as Hr.
  { eapply rtc_l; [apply (step_waiter _ 0 (CLock false) (CCheck false) (Some (inl 0%nat))); reflexivity|].
    eapply rtc_l; [apply (step_waiter _ 0 (CCheck false) CPark (Some (inl 0%nat))); reflexivity|].
    eapply rtc_l; [apply (step_notifier _ 0 NPrepare NLock
      (Sys (Some (inl 0%nat)) true [CPark] [NPrepare])); reflexivity|].
    eapply rtc_l; [apply (step_waiter _ 0 CPark CParked None); reflexivity|]. constructor. }
  exists s1. split; [exact Hr|]. split; [done|]. split; [done|].
  by apply (condvar_no_lost_wakeup false 1 1 s1 0).
Defined.
End CondvarEventCount.
