(* ===== verification/Polling.v ===== *)
(** * The portable event count: bounded sleep-polling (event_count.hpp off Linux)

    [WaitUntil] over the fallback [WaitOn]: the wake does nothing and a park is a
    sleep of at most 500 us, so that nothing depends on a notification.  The loop runs
    against a clock and a predicate; an iteration reads both and sleeps at least what
    it asked for. *)

From Stdlib Require Import ZArith Lia.
From stdpp Require Import base list numbers.
From S2P Require Import Prelude.

Local Open Scope Z_scope.

Definition quantum : Z := 500 * 1000.

Definition Wake {S} (s : S) : S := s.

(** How long a park asks to sleep; the expected epoch is not used. *)
Definition WaitOn (expected remaining : Z) : Z := if remaining <? quantum then remaining else quantum.

(** What iteration [k] finds: the epoch, the first answer of the predicate, the
    clock, and the predicate's answer should it be asked again. *)
Record iteration := mkIteration { it_epoch : Z; it_pred : bool; it_now : Z; it_again : bool }.

(** [WaitUntil(deadline_at, predicate)]: the result and the parks asked for, one per
    iteration but the last. *)
Fixpoint WaitUntil (deadline_at : Z) (env : nat -> iteration) (fuel k : nat) : option (bool * list Z) :=
  match fuel with
  | O => None
  | S fuel =>
      let i := env k in
      let gen := it_epoch i in
      if it_pred i then Some (true, []) else
      let remaining := deadline_at - it_now i in
      if remaining <=? 0 then Some (it_again i, []) else
      '(r, parks) ← WaitUntil deadline_at env fuel (S k);
      Some (r, WaitOn gen remaining :: parks)
  end.

(** The clock of an iteration comes after the sleep of the one before. *)
Definition sleeps (deadline_at : Z) (env : nat -> iteration) : Prop :=
  forall k, it_now (env k) + WaitOn (it_epoch (env k)) (deadline_at - it_now (env k)) <= it_now (env (S k)).

Lemma WaitOn_bounds e r : 0 < r -> 0 < WaitOn e r <= quantum /\ WaitOn e r <= r /\ (WaitOn e r < quantum -> WaitOn e r = r).
Proof. unfold WaitOn, quantum. intros Hr. destruct (Z.ltb_spec r (500 * 1000)); lia. Qed.

(** The iterations a wait needs: one per quantum left, the last partial one, and the
    one that sees the deadline. *)
Definition needed (left : Z) : nat := if left <=? 0 then 1 else S (S (Z.to_nat (left / quantum))).

Lemma needed_sleep e r r' : 0 < r -> r' <= r - WaitOn e r -> (S (needed r') <= needed r)%nat.
Proof.
  intros Hr Hle. destruct (WaitOn_bounds e r Hr) as (H1 & H2 & H3). unfold needed.
  rewrite (proj2 (Z.leb_gt r 0)) by lia. destruct (Z.leb_spec r' 0) as [|Hr']; [lia|].
  assert (WaitOn e r = quantum) as E by (destruct (Z.lt_ge_cases (WaitOn e r) quantum) as [Hlt|Hge]; [specialize (H3 Hlt)|]; lia).
  rewrite E in Hle. pose proof (Z.div_le_mono r' (r + (-1) * quantum) quantum ltac:(unfold quantum; lia) ltac:(lia)) as Hd.
  rewrite Z.div_add in Hd by (unfold quantum; lia).
  pose proof (Z.div_pos r' quantum ltac:(lia) ltac:(unfold quantum; lia)). lia.
Qed.

(** It returns: true at the first iteration that finds the predicate true, and
    otherwise, once the deadline has passed, the last answer of the predicate. *)
Lemma WaitUntil_returns deadline_at env n k :
  sleeps deadline_at env -> (needed (deadline_at - it_now (env k)) <= n)%nat ->
  exists r parks, WaitUntil deadline_at env n k = Some (r, parks) /\
    Forall (fun p => 0 < p <= quantum) parks /\
    let j := (k + length parks)%nat in
    (forall i, (k <= i < j)%nat -> it_pred (env i) = false /\ 0 < deadline_at - it_now (env i)) /\
    ((it_pred (env j) = true /\ r = true) \/ (it_pred (env j) = false /\ deadline_at <= it_now (env j) /\ r = it_again (env j))).
Proof.
  intros Hs. revert k. induction n as [|n IH]; intros k Hn; [unfold needed in Hn; destruct (_ <=? 0); lia|]. cbn [WaitUntil].
  destruct (it_pred (env k)) eqn:Ep.
  { exists true, []. cbn. rewrite Nat.add_0_r. split_and!; try done; [lia|by left]. }
  destruct (Z.leb_spec (deadline_at - it_now (env k)) 0) as [Hd|Hd].
  { exists (it_again (env k)), []. cbn. rewrite Nat.add_0_r. split_and!; try done; [lia|]. right. split_and!; try done. lia. }
  pose proof (Hs k) as Hk. pose proof (needed_sleep (it_epoch (env k)) _ (deadline_at - it_now (env (S k))) Hd ltac:(lia)).
  destruct (IH (S k) ltac:(lia)) as (r & parks & E & Hp & Hall & Hend). rewrite E.
  exists r, (WaitOn (it_epoch (env k)) (deadline_at - it_now (env k)) :: parks). split; [done|].
  split; [constructor; [by apply WaitOn_bounds|done]|]. cbn [length]. rewrite <- Nat.add_succ_comm. split; [|done].
  intros i Hi. destruct (decide (i = k)) as [->|]; [done|]. apply Hall. lia.
Qed.

(** The polling wait: whatever the other threads do and without any wake, it returns
    within one iteration per 500 us up to the deadline, and two more, each park asking
    for 500 us at most; false only after the deadline.  If sleeps overshoot by at most
    [slack], and once the clock has shown [t] the next look finds the predicate true,
    the wait ends less than two sleeps after [t]. *)
Theorem polling_wait (deadline_at t slack : Z) (env : nat -> iteration) :
  sleeps deadline_at env ->
  exists r parks, WaitUntil deadline_at env (needed (deadline_at - it_now (env 0%nat))) 0 = Some (r, parks) /\
    Forall (fun p => 0 < p <= quantum) parks /\
    let j := length parks in
    (r = false -> deadline_at <= it_now (env j)) /\
    ((forall k, it_now (env (S k)) <= it_now (env k) + WaitOn (it_epoch (env k)) (deadline_at - it_now (env k)) + slack) ->
     (forall k, t <= it_now (env k) -> it_pred (env (S k)) = true) -> (2 <= j)%nat ->
     it_now (env j) < t + 2 * (quantum + slack)).
Proof.
  intros Hs. destruct (WaitUntil_returns deadline_at env _ 0 Hs (le_n _)) as (r & parks & E & Hp & Hall & Hend).
  exists r, parks. cbn zeta. cbn [Nat.add] in Hall, Hend. set (j := length parks) in *. clearbody j. split_and!; [done|done| |].
  - intros ->. by destruct Hend as [[_ ?]|(_ & ? & _)].
  - intros Hov Ht Hj. destruct j as [|[|j]]; try lia.
    destruct (Hall (S j) ltac:(lia)) as [Hp1 Hd1]. destruct (Hall j ltac:(lia)) as [_ Hd0].
    assert (it_now (env j) < t) as Hlt by (apply Z.nle_gt; intros Hle; by rewrite (Ht j Hle) in Hp1).
    pose proof (Hov j) as H0. pose proof (Hov (S j)) as H1.
    pose proof (WaitOn_bounds (it_epoch (env j)) _ Hd0). pose proof (WaitOn_bounds (it_epoch (env (S j))) _ Hd1). lia.
Qed.

(** A predicate that turns true 1.2 ms into a wait of 10 ms, without any wake. *)
Lemma polling_wait_witness :
  let env := fun k => mkIteration 0 (2 <? Z.of_nat k) (Z.of_nat k * 500000) true in
  WaitUntil 10000000 env 22 0 = Some (true, [quantum; quantum; quantum]) /\
  exists r parks, WaitUntil 10000000 env (needed 10000000) 0 = Some (r, parks).
Proof.
  intros env. split; [vm_compute; reflexivity|].
  destruct (polling_wait 10000000 1200000 0 env) as (r & parks & E & _).
  - intros k. unfold env, WaitOn, quantum. cbn [it_now it_epoch]. case_ifs; zbool; lia.
  - exists r, parks. exact E.
Defined.
