(* ===== verification/Serialization.v ===== *)
(** * Byte order and checksums (serialization/byte_order.hpp, checksum.hpp)

    A buffer is its bytes from the pointer on; reading past its end is [None],
    writing past it too.  The checksums are the source's loops, bit by bit. *)

From Stdlib Require Import ZArith Lia String.
From stdpp Require Import base list numbers relations.
From S2P Require Import Prelude.

Local Open Scope Z_scope.

(** ** Loads *)

Definition load_be16 (p : bytes) : option Z :=
  p0 ← p !! 0%nat; p1 ← p !! 1%nat;
  Some (u16 (Z.lor (Z.shiftl p0 8) p1)).
Definition load_be32 (p : bytes) : option Z :=
  p0 ← p !! 0%nat; p1 ← p !! 1%nat; p2 ← p !! 2%nat; p3 ← p !! 3%nat;
  Some (Z.lor (Z.lor (Z.lor (u32 (Z.shiftl p0 24)) (u32 (Z.shiftl p1 16))) (u32 (Z.shiftl p2 8))) p3).
Definition load_le16 (p : bytes) : option Z :=
  p0 ← p !! 0%nat; p1 ← p !! 1%nat;
  Some (u16 (Z.lor (Z.shiftl p1 8) p0)).
Definition load_le32 (p : bytes) : option Z :=
  p0 ← p !! 0%nat; p1 ← p !! 1%nat; p2 ← p !! 2%nat; p3 ← p !! 3%nat;
  Some (Z.lor (Z.lor (Z.lor (u32 (Z.shiftl p3 24)) (u32 (Z.shiftl p2 16))) (u32 (Z.shiftl p1 8))) p0).

Definition load_be16s (p : bytes) : option Z := v ← load_be16 p; Some (sint 16 v).
Definition load_be32s (p : bytes) : option Z := v ← load_be32 p; Some (sint 32 v).
Definition load_le16s (p : bytes) : option Z := v ← load_le16 p; Some (sint 16 v).
Definition load_le32s (p : bytes) : option Z := v ← load_le32 p; Some (sint 32 v).

(** ** Stores *)

Definition put (i : nat) (v : Z) (p : bytes) : option bytes :=
  if (i <? length p)%nat then Some (<[i := u8 v]> p) else None.

Definition store_be16 (p : bytes) (v : Z) : option bytes :=
  p ← put 0 (Z.shiftr v 8) p; put 1 v p.
Definition store_be32 (p : bytes) (v : Z) : option bytes :=
  p ← put 0 (Z.shiftr v 24) p; p ← put 1 (Z.shiftr v 16) p; p ← put 2 (Z.shiftr v 8) p; put 3 v p.
Definition store_le16 (p : bytes) (v : Z) : option bytes :=
  p ← put 0 v p; put 1 (Z.shiftr v 8) p.
Definition store_le32 (p : bytes) (v : Z) : option bytes :=
  p ← put 0 v p; p ← put 1 (Z.shiftr v 8) p; p ← put 2 (Z.shiftr v 16) p; put 3 (Z.shiftr v 24) p.

(** ** Checksums *)

Fixpoint iterate {A} (n : nat) (f : A -> A) (x : A) : A :=
  match n with O => x | S n => iterate n f (f x) end.

Definition crc8_bit (crc : Z) : Z :=
  if Z.testbit crc 0 then u8 (Z.lxor (Z.shiftr crc 1) 0x8C) else u8 (Z.shiftr crc 1).
Definition crc8_byte (crc d : Z) : Z := iterate 8 crc8_bit (Z.lxor crc d).
Definition crc8_maxim (data : bytes) : Z := foldl crc8_byte 0 data.

Definition crc16_bit (crc : Z) : Z :=
  if negb (Z.land crc 0x8000 =? 0)
  then u16 (Z.lxor (Z.shiftl crc 1) 0x1021) else u16 (Z.shiftl crc 1).
Definition crc16_byte (crc d : Z) : Z := iterate 8 crc16_bit (Z.lxor crc (u16 (Z.shiftl d 8))).
Definition crc16_xmodem (data : bytes) : Z := foldl crc16_byte 0 data.

Definition checksum_inverted_sum (data : bytes) : Z :=
  u8 (Z.lnot (foldl (fun sum d => u8 (sum + d)) 0 data)).

(** ** Byte order *)

(** Shifted bytes occupy disjoint bits. *)
Lemma lor_disjoint a b k :
  0 <= k -> 0 <= b < 2 ^ k -> Z.lor (Z.shiftl a k) b = a * 2 ^ k + b.
Proof.
  intros Hk Hb. rewrite <- Z.shiftl_mul_pow2 by lia.
  rewrite Z.add_nocarry_lxor, Z.lxor_lor; try done; apply Z.bits_inj'; intros i Hi;
    rewrite Z.land_spec, Z.bits_0, Z.shiftl_spec by lia;
    (destruct (Z.ltb_spec i k); [rewrite Z.testbit_neg_r by lia; done|]);
    rewrite <- (Z.mod_small b (2 ^ k)), Z.mod_pow2_bits_high by lia; apply andb_false_r.
Qed.

Lemma shiftr_byte v k : 0 <= k -> u8 (Z.shiftr v k) = (v / 2 ^ k) mod 256.
Proof. intros. unfold wrap. by rewrite Z.shiftr_div_pow2. Qed.

(** The value of bytes, most significant first. *)
Definition be_value (l : bytes) : Z := foldl (fun acc b => acc * 256 + b) 0 l.

Section Loads.
Variables (b0 b1 b2 b3 : Z) (rest : bytes).
Hypothesis H0 : is_byte b0.
Hypothesis H1 : is_byte b1.
Hypothesis H2 : is_byte b2.
Hypothesis H3 : is_byte b3.
Local Abbreviation p := (b0 :: b1 :: b2 :: b3 :: rest).

Lemma u16_pair a b : is_byte a -> is_byte b -> u16 (Z.lor (Z.shiftl a 8) b) = a * 256 + b.
Proof.
  unfold in_width. intros. rewrite lor_disjoint by lia. apply wrap_id. unfold in_width. lia.
Qed.

Lemma u32_quad a b c d :
  is_byte a -> is_byte b -> is_byte c -> is_byte d ->
  Z.lor (Z.lor (Z.lor (u32 (Z.shiftl a 24)) (u32 (Z.shiftl b 16))) (u32 (Z.shiftl c 8))) d =
  ((a * 256 + b) * 256 + c) * 256 + d.
Proof.
  unfold in_width. intros.
  rewrite !wrap_id by (unfold in_width; rewrite Z.shiftl_mul_pow2 by lia; lia).
  replace (Z.shiftl a 24) with (Z.shiftl (Z.shiftl (Z.shiftl a 8) 8) 8) by (rewrite !Z.shiftl_shiftl by lia; done).
  replace (Z.shiftl b 16) with (Z.shiftl (Z.shiftl b 8) 8) by (rewrite Z.shiftl_shiftl by lia; done).
  rewrite <- !Z.shiftl_lor. rewrite !lor_disjoint; lia.
Qed.

Lemma load_be16_value : load_be16 p = Some (b0 * 256 + b1).
Proof. cbn. f_equal. by apply u16_pair. Qed.
Lemma load_le16_value : load_le16 p = Some (b1 * 256 + b0).
Proof. cbn. f_equal. by apply u16_pair. Qed.
Lemma load_be32_value : load_be32 p = Some (((b0 * 256 + b1) * 256 + b2) * 256 + b3).
Proof. cbn. f_equal. by apply u32_quad. Qed.
Lemma load_le32_value : load_le32 p = Some (((b3 * 256 + b2) * 256 + b1) * 256 + b0).
Proof. cbn. f_equal. by apply u32_quad. Qed.
End Loads.

Lemma bytes_of_value v : 0 <= v < 2 ^ 32 ->
  (((v / 2 ^ 24 mod 256) * 256 + v / 2 ^ 16 mod 256) * 256 + v / 2 ^ 8 mod 256) * 256 + v mod 256 = v.
Proof. intros. Z.to_euclidean_division_equations. lia. Qed.

(** Byte-order round trips.  Storing a value and loading it back with the same
    order gives it back for every width, signed values by their two's complement
    reading; the other byte order reads the reversed bytes; bytes past the field
    are not touched; and a buffer too short is refused by loads and stores. *)
Theorem byte_order_roundtrip (p : bytes) (v : Z) :
  (4 <= length p)%nat -> 0 <= v < 2 ^ 32 ->
  (exists q, store_be32 p v = Some q /\ load_be32 q = Some v /\ drop 4 q = drop 4 p /\
             load_le32 (reverse (take 4 q)) = Some v /\ load_be32s q = Some (sint 32 v)) /\
  (exists q, store_le32 p v = Some q /\ load_le32 q = Some v /\ drop 4 q = drop 4 p /\
             load_be32 (reverse (take 4 q)) = Some v /\ load_le32s q = Some (sint 32 v)) /\
  (exists q, store_be16 p v = Some q /\ load_be16 q = Some (u16 v) /\ drop 2 q = drop 2 p /\
             load_be16s q = Some (sint 16 v)) /\
  (exists q, store_le16 p v = Some q /\ load_le16 q = Some (u16 v) /\ drop 2 q = drop 2 p /\
             load_le16s q = Some (sint 16 v)).
Proof.
  intros Hp Hv. destruct p as [|a [|b [|c [|d p]]]]; cbn in Hp; try lia. clear Hp.
  assert (forall z, is_byte (z mod 256)) as Hb by (intros z; apply Z.mod_pos_bound; lia).
  pose proof (bytes_of_value v Hv) as E.
  assert ((v / 2 ^ 8 mod 256) * 256 + v mod 256 = u16 v) as E16
    by (unfold wrap; Z.to_euclidean_division_equations; lia).
  unfold store_be32, store_le32, store_be16, store_le16, load_be32s, load_le32s, load_be16s, load_le16s.
  cbn -[Z.modulo Z.div Z.shiftr load_be32 load_le32 load_be16 load_le16 sint].
  rewrite !shiftr_byte by lia. change (u8 v) with (v mod 256).
  split_and!; (eexists; split; [reflexivity|]).
  1,2: rewrite ?load_be32_value, ?load_le32_value, E by apply Hb; split_and!; try done;
    unfold reverse; cbn -[Z.modulo Z.div load_be32 load_le32];
    rewrite ?load_be32_value, ?load_le32_value by apply Hb; cbn -[Z.modulo Z.div sint]; rewrite ?take_0; cbn -[Z.modulo Z.div sint load_be32 load_le32];
    rewrite ?load_be32_value, ?load_le32_value by apply Hb; by rewrite ?E.
  all: rewrite ?load_be16_value, ?load_le16_value, E16 by apply Hb; split_and!; try done;
    cbn; by rewrite sint_wrap by lia.
Qed.

(** ** Checksums *)

Lemma foldl_snoc {A B} (f : A -> B -> A) a l x : foldl f a (l ++ [x]) = f (foldl f a l) x.
Proof. by rewrite foldl_app. Qed.

(** A property of every value of a width, checked by computation. *)
Fixpoint all_from (n : nat) (z : Z) (P : Z -> bool) : bool :=
  match n with O => true | S n => (P z && all_from n (z + 1) P)%bool end.
Definition all_of_width (w : Z) (P : Z -> bool) : bool := all_from (Z.to_nat (2 ^ w)) 0 P.

Lemma all_from_spec n z P x : all_from n z P = true -> z <= x < z + Z.of_nat n -> P x = true.
Proof.
  revert z. induction n as [|n IH]; intros z H Hx; [lia|]. cbn in H. zbool.
  destruct (Z.eq_dec x z) as [->|]; [done|]. apply (IH (z + 1)); [done|lia].
Qed.

Lemma all_of_width_spec w P z : all_of_width w P = true -> in_width w z -> P z = true.
Proof.
  intros H [H1 H2]. apply (all_from_spec _ 0 P z H). rewrite Z2Nat.id by lia. lia.
Qed.

(** *** CRC-16: one bit is a linear bijection *)

Definition crc16_unbit (c : Z) : Z :=
  if Z.testbit c 0 then Z.lor (Z.shiftr (Z.lxor c 0x1021) 1) 0x8000 else Z.shiftr c 1.

Lemma crc16_bit_inv c : in_width 16 c -> in_width 16 (crc16_bit c) /\ crc16_unbit (crc16_bit c) = c.
Proof.
  intros Hc. split; [unfold crc16_bit; case_ifs; by apply wrap_range|].
  assert (all_of_width 16 (fun c => crc16_unbit (crc16_bit c) =? c) = true) as H by (vm_compute; reflexivity).
  by apply Z.eqb_eq, (all_of_width_spec _ _ _ H).
Qed.

Lemma lxor_width w a b : 0 <= w -> in_width w a -> in_width w b -> in_width w (Z.lxor a b).
Proof.
  intros Hw Ha Hb. rewrite <- (wrap_id w a Ha), <- (wrap_id w b Hb). unfold wrap.
  replace (Z.lxor (a mod 2 ^ w) (b mod 2 ^ w)) with (Z.lxor a b mod 2 ^ w); [by apply wrap_range|].
  apply Z.bits_inj'. intros i Hi. rewrite Z.lxor_spec, !Z.testbit_mod_pow2, Z.lxor_spec by lia.
  by destruct (i <? w), (Z.testbit a i), (Z.testbit b i).
Qed.

Lemma land_high_testbit c : in_width 16 c -> negb (Z.land c 0x8000 =? 0) = Z.testbit c 15.
Proof.
  intros Hc.
  assert (all_of_width 16 (fun c => Bool.eqb (negb (Z.land c 0x8000 =? 0)) (Z.testbit c 15)) = true)
    as H by (vm_compute; reflexivity).
  by apply Bool.eqb_prop, (all_of_width_spec _ _ _ H).
Qed.

Lemma wrap_lxor w a b : 0 <= w -> wrap w (Z.lxor a b) = Z.lxor (wrap w a) (wrap w b).
Proof.
  intros Hw. apply Z.bits_inj'. intros i Hi. rewrite Z.lxor_spec, !wrap_testbit, Z.lxor_spec by lia.
  by destruct (i <? w), (Z.testbit a i), (Z.testbit b i).
Qed.

Lemma lxor_swap a b c d : Z.lxor (Z.lxor a b) (Z.lxor c d) = Z.lxor (Z.lxor a c) (Z.lxor b d).
Proof. by rewrite !Z.lxor_assoc, <- (Z.lxor_assoc b c d), (Z.lxor_comm b c), Z.lxor_assoc. Qed.

Lemma crc16_bit_lxor a b : in_width 16 a -> in_width 16 b ->
  crc16_bit (Z.lxor a b) = Z.lxor (crc16_bit a) (crc16_bit b).
Proof.
  intros Ha Hb. unfold crc16_bit.
  rewrite !land_high_testbit by (try apply lxor_width; done || lia).
  assert (forall c, (if Z.testbit c 15 then u16 (Z.lxor (Z.shiftl c 1) 0x1021) else u16 (Z.shiftl c 1)) =
    Z.lxor (u16 (Z.shiftl c 1)) (if Z.testbit c 15 then 0x1021 else 0)) as E.
  { intros c. destruct (Z.testbit c 15); [by rewrite wrap_lxor by lia|by rewrite Z.lxor_0_r]. }
  rewrite !E, Z.shiftl_lxor, wrap_lxor, Z.lxor_spec by lia. rewrite lxor_swap. f_equal.
  by destruct (Z.testbit a 15), (Z.testbit b 15).
Qed.

Lemma iterate_lxor f n a b :
  (forall c, in_width 16 c -> in_width 16 (f c)) ->
  (forall a b, in_width 16 a -> in_width 16 b -> f (Z.lxor a b) = Z.lxor (f a) (f b)) ->
  in_width 16 a -> in_width 16 b ->
  iterate n f (Z.lxor a b) = Z.lxor (iterate n f a) (iterate n f b).
Proof.
  intros Hw Hf. revert a b. induction n as [|n IH]; intros a b Ha Hb; cbn; [done|].
  rewrite Hf by done. apply IH; by apply Hw.
Qed.

Lemma iterate_width f n c :
  (forall c, in_width 16 c -> in_width 16 (f c)) -> in_width 16 c -> in_width 16 (iterate n f c).
Proof. intros Hw. revert c. induction n as [|n IH]; intros c Hc; cbn; [done|]. apply IH, Hw, Hc. Qed.

Lemma iterate_inj w f g n a b :
  (forall c, in_width w c -> in_width w (f c) /\ g (f c) = c) ->
  in_width w a -> in_width w b -> iterate n f a = iterate n f b -> a = b.
Proof.
  intros Hf. revert a b. induction n as [|n IH]; intros a b Ha Hb; cbn; [done|].
  intros E. apply IH in E; [|by apply Hf..].
  rewrite <- (proj2 (Hf a Ha)), <- (proj2 (Hf b Hb)). by rewrite E.
Qed.

Lemma byte_shift_width d : is_byte d -> in_width 16 (u16 (Z.shiftl d 8)).
Proof. intros. by apply wrap_range. Qed.

Lemma crc16_byte_width c d : in_width 16 c -> is_byte d -> in_width 16 (crc16_byte c d).
Proof.
  intros. apply iterate_width; [intros; by apply crc16_bit_inv|].
  apply lxor_width; [lia|done|by apply byte_shift_width].
Qed.

Lemma crc16_byte_lxor c c' d d' :
  in_width 16 c -> in_width 16 c' -> is_byte d -> is_byte d' ->
  crc16_byte (Z.lxor c c') (Z.lxor d d') = Z.lxor (crc16_byte c d) (crc16_byte c' d').
Proof.
  intros. unfold crc16_byte. rewrite Z.shiftl_lxor, wrap_lxor, lxor_swap by lia.
  apply iterate_lxor; [intros; by apply crc16_bit_inv|intros; by apply crc16_bit_lxor| |];
    (apply lxor_width; [lia|done|by apply byte_shift_width]).
Qed.

Lemma crc16_byte_inj_crc c c' d :
  in_width 16 c -> in_width 16 c' -> is_byte d -> crc16_byte c d = crc16_byte c' d -> c = c'.
Proof.
  intros Hc Hc' Hd E. apply (iterate_inj 16 _ crc16_unbit) in E;
    [|intros; by apply crc16_bit_inv|apply lxor_width; [lia|done|by apply byte_shift_width]..].
  apply (f_equal (fun x => Z.lxor x (u16 (Z.shiftl d 8)))) in E.
  by rewrite !Z.lxor_assoc, Z.lxor_nilpotent, !Z.lxor_0_r in E.
Qed.

Lemma lxor_cancel_r a b d : Z.lxor a d = Z.lxor b d -> a = b.
Proof.
  intros E. apply (f_equal (fun x => Z.lxor x d)) in E.
  by rewrite !Z.lxor_assoc, Z.lxor_nilpotent, !Z.lxor_0_r in E.
Qed.

Section Fold.
Variable w : Z.
Variable step : Z -> Z -> Z.
Hypothesis step_width : forall c d, in_width w c -> is_byte d -> in_width w (step c d).
Hypothesis step_inj : forall c c' d,
  in_width w c -> in_width w c' -> is_byte d -> step c d = step c' d -> c = c'.

Lemma fold_width l c : Forall is_byte l -> in_width w c -> in_width w (foldl step c l).
Proof. intros Hl. revert c. induction Hl; intros c Hc; cbn; auto. Qed.

Lemma fold_inj l c c' : Forall is_byte l -> in_width w c -> in_width w c' ->
  foldl step c l = foldl step c' l -> c = c'.
Proof.
  intros Hl. revert c c'. induction Hl as [|d l Hd Hl IH]; intros c c' Hc Hc'; cbn; [done|].
  intros E. apply IH in E; [|by apply step_width..]. by eapply step_inj.
Qed.
End Fold.

Lemma byte_width d : is_byte d -> in_width 8 d.
Proof. done. Qed.

Lemma crc16_byte_zero c d :
  in_width 16 c -> is_byte d -> crc16_byte c d = 0 -> c = u16 (Z.shiftl d 8).
Proof.
  intros Hc Hd E. assert (iterate 8 crc16_bit 0 = 0) as E0 by (vm_compute; reflexivity).
  unfold crc16_byte in E. rewrite <- E0 in E.
  apply (iterate_inj 16 _ crc16_unbit) in E; [|intros; by apply crc16_bit_inv| |done].
  - by apply Z.lxor_eq.
  - apply lxor_width; [lia|done|by apply byte_shift_width].
Qed.

(** The low byte of the CRC of a single non-zero byte is never zero. *)
Lemma crc16_byte_low x : is_byte x -> crc16_byte 0 x mod 256 = 0 -> x = 0.
Proof.
  intros Hx E.
  assert (all_of_width 8 (fun x => negb (crc16_byte 0 x mod 256 =? 0) || (x =? 0))%bool = true) as H
    by (vm_compute; reflexivity).
  pose proof (all_of_width_spec _ _ _ H Hx) as Hl. cbv beta in Hl. rewrite E in Hl.
  by apply Z.eqb_eq.
Qed.

(** Two changed bytes never leave the register where it was. *)
Lemma crc16_two_bytes c a b a' b' :
  in_width 16 c -> is_byte a -> is_byte b -> is_byte a' -> is_byte b' ->
  crc16_byte (crc16_byte c a) b = crc16_byte (crc16_byte c a') b' -> a = a' /\ b = b'.
Proof.
  intros Hc Ha Hb Ha' Hb' E.
  assert (is_byte (Z.lxor a a')) as Hx by (apply lxor_width; done || lia).
  assert (is_byte (Z.lxor b b')) as Hy by (apply lxor_width; done || lia).
  assert (crc16_byte (crc16_byte 0 (Z.lxor a a')) (Z.lxor b b') = 0) as E0.
  { rewrite <- (Z.lxor_nilpotent c) at 1. rewrite !crc16_byte_lxor by (auto using crc16_byte_width).
    rewrite E. apply Z.lxor_nilpotent. }
  assert (in_width 16 0) as H0 by done.
  apply crc16_byte_zero in E0; [|by apply crc16_byte_width|done].
  assert (Z.lxor a a' = 0) as Ea.
  { apply crc16_byte_low; [done|]. rewrite E0, Z.shiftl_mul_pow2 by lia. unfold wrap.
    Z.to_euclidean_division_equations. lia. }
  split; [by apply Z.lxor_eq|]. apply Z.lxor_eq. rewrite Ea in E0.
  assert (crc16_byte 0 0 = 0) as E1 by (vm_compute; reflexivity). rewrite E1 in E0.
  rewrite Z.shiftl_mul_pow2, wrap_id in E0 by (unfold in_width in *; lia). lia.
Qed.

(** *** CRC-8 *)

Definition crc8_unbit (c : Z) : Z :=
  if Z.testbit c 7 then Z.lor (Z.shiftl (Z.lxor c 0x8C) 1) 1 else Z.shiftl c 1.

Lemma crc8_bit_inv c : in_width 8 c -> in_width 8 (crc8_bit c) /\ crc8_unbit (crc8_bit c) = c.
Proof.
  intros Hc. split; [unfold crc8_bit; case_ifs; by apply wrap_range|].
  assert (all_of_width 8 (fun c => crc8_unbit (crc8_bit c) =? c) = true) as H by (vm_compute; reflexivity).
  by apply Z.eqb_eq, (all_of_width_spec _ _ _ H).
Qed.

Lemma crc8_byte_width c d : in_width 8 c -> is_byte d -> in_width 8 (crc8_byte c d).
Proof.
  intros Hc Hd. unfold crc8_byte.
  assert (in_width 8 (Z.lxor c d)) as Hx by (apply lxor_width; done || lia).
  revert Hx. generalize (Z.lxor c d). generalize 8%nat.
  intros n. induction n as [|n IH]; cbn; [done|]. intros x Hx. apply IH. by apply crc8_bit_inv.
Qed.

Lemma crc8_byte_inj c c' d d' :
  in_width 8 c -> in_width 8 c' -> is_byte d -> is_byte d' ->
  crc8_byte c d = crc8_byte c' d' -> Z.lxor c d = Z.lxor c' d'.
Proof.
  intros. eapply (iterate_inj 8 _ crc8_unbit); [intros; by apply crc8_bit_inv| | |eassumption];
    (apply lxor_width; done || lia).
Qed.

Lemma crc8_byte_inj_crc c c' d :
  in_width 8 c -> in_width 8 c' -> is_byte d -> crc8_byte c d = crc8_byte c' d -> c = c'.
Proof. intros Hc Hc' Hd E. apply crc8_byte_inj in E; [|done..]. by apply lxor_cancel_r in E. Qed.

(** *** The inverted sum *)

Definition sum_step (sum d : Z) : Z := u8 (sum + d).

Lemma sum_width c l : foldl sum_step (u8 c) l = u8 (foldl Z.add c l).
Proof.
  revert c. induction l as [|d l IH]; intros c; cbn; [done|].
  unfold sum_step at 2. by rewrite wrap_add_l, IH.
Qed.

Lemma checksum_value data :
  checksum_inverted_sum data = u8 (- foldl Z.add 0 data - 1).
Proof.
  unfold checksum_inverted_sum. change (fun sum d => u8 (sum + d)) with sum_step.
  rewrite <- (wrap_id 8 0) at 1 by done. rewrite sum_width.
  assert (forall x, Z.lnot x = - x - 1) as -> by (intros x; pose proof (Z.add_lnot_diag x); lia).
  unfold wrap. Z.to_euclidean_division_equations. lia.
Qed.

Lemma foldl_add_shift c l : foldl Z.add c l = c + foldl Z.add 0 l.
Proof.
  revert c. induction l as [|d l IH]; intros c; cbn [foldl]; [lia|]. rewrite (IH (c + d)), (IH (0 + d)). lia.
Qed.

(** C38: error detection.  CRC-16 tells apart any two messages of the same length that
    differ only inside two consecutive bytes (every burst of up to 16 bits in a
    byte-aligned window), CRC-8 and the inverted sum any two that differ in one
    byte. *)
Theorem checksums_detect_bursts (pre post : bytes) (a b a' b' : Z) :
  Forall is_byte pre -> Forall is_byte post ->
  is_byte a -> is_byte b -> is_byte a' -> is_byte b' ->
  (crc16_xmodem (pre ++ [a; b] ++ post) = crc16_xmodem (pre ++ [a'; b'] ++ post) -> a = a' /\ b = b') /\
  (crc8_maxim (pre ++ [a] ++ post) = crc8_maxim (pre ++ [a'] ++ post) -> a = a') /\
  (checksum_inverted_sum (pre ++ [a] ++ post) = checksum_inverted_sum (pre ++ [a'] ++ post) -> a = a').
Proof.
  intros Hpre Hpost Ha Hb Ha' Hb'. split_and!.
  - unfold crc16_xmodem. rewrite !foldl_app. cbn [foldl app].
    assert (in_width 16 (foldl crc16_byte 0 pre)) as Hc
      by (apply (fold_width 16); auto using crc16_byte_width; done).
    intros E. apply (fold_inj 16 _ crc16_byte_width crc16_byte_inj_crc) in E;
      [by eapply crc16_two_bytes|done|by auto using crc16_byte_width..].
  - unfold crc8_maxim. rewrite !foldl_app. cbn [foldl app].
    assert (in_width 8 (foldl crc8_byte 0 pre)) as Hc
      by (apply (fold_width 8); auto using crc8_byte_width; done).
    intros E. apply (fold_inj 8 _ crc8_byte_width crc8_byte_inj_crc) in E;
      [|done|by auto using crc8_byte_width..].
    apply crc8_byte_inj in E; [|done..]. rewrite !(Z.lxor_comm (foldl _ _ _)) in E.
    by apply lxor_cancel_r in E.
  - rewrite !checksum_value, !foldl_app. cbn [foldl]. rewrite !(foldl_add_shift (_ + _)).
    unfold wrap, in_width in *. intros E. Z.to_euclidean_division_equations. lia.
Qed.

(** residues and check values.  A message followed by its checksum leaves the
    zero residue (all ones for the inverted sum), and the published check values
    of the ASCII digits are the code's. *)
Theorem checksum_residues (data : bytes) :
  Forall is_byte data ->
  (let crc := crc16_xmodem data in crc16_xmodem (data ++ [crc / 256; crc mod 256]) = 0) /\
  crc8_maxim (data ++ [crc8_maxim data]) = 0 /\
  checksum_inverted_sum (data ++ [checksum_inverted_sum data]) = 0 /\
  crc8_maxim (bytes_of_string "123456789"%string) = 0xA1 /\
  crc16_xmodem (bytes_of_string "123456789"%string) = 0x31C3.
Proof.
  intros Hd. split_and!; [| | |vm_compute; reflexivity..].
  - cbv zeta. unfold crc16_xmodem. rewrite foldl_app.
    assert (in_width 16 (foldl crc16_byte 0 data)) as Hc
      by (apply (fold_width 16 _ crc16_byte_width); done).
    assert (all_of_width 16 (fun c => foldl crc16_byte c [c / 256; c mod 256] =? 0) = true) as H
      by (vm_compute; reflexivity).
    by apply Z.eqb_eq, (all_of_width_spec _ _ _ H).
  - unfold crc8_maxim. rewrite foldl_snoc. unfold crc8_byte at 1. by rewrite Z.lxor_nilpotent.
  - rewrite checksum_value, foldl_snoc, checksum_value.
    unfold wrap. Z.to_euclidean_division_equations. lia.
Qed.

Lemma byte_order_roundtrip_witness :
  exists q, store_be32 [0; 0; 0; 0; 9] 0xDEADBEEF = Some q /\ load_be32 q = Some 0xDEADBEEF /\
    drop 4 q = [9] /\ load_le32 (reverse (take 4 q)) = Some 0xDEADBEEF /\
    load_be32s q = Some (-559038737).
Proof.
  destruct (byte_order_roundtrip [0; 0; 0; 0; 9] 0xDEADBEEF ltac:(cbn; lia) ltac:(lia)) as (H & _).
  exact H.
Defined.

Lemma checksums_detect_bursts_witness :
  crc16_xmodem ([1; 2] ++ [3; 4] ++ [5]) <> crc16_xmodem ([1; 2] ++ [7; 0] ++ [5]).
Proof.
  assert (Forall is_byte [1; 2]) as H1 by (by repeat constructor).
  assert (Forall is_byte [5]) as H2 by (by repeat constructor).
  assert (is_byte 3 /\ is_byte 4 /\ is_byte 7 /\ is_byte 0) as (H3 & H4 & H7 & H0) by done.
  intros E. apply (checksums_detect_bursts [1; 2] [5] 3 4 7 0 H1 H2 H3 H4 H7 H0) in E as [E _].
  discriminate E.
Defined.

Lemma checksum_residues_witness :
  crc8_maxim ([0x64; 7] ++ [crc8_maxim [0x64; 7]]) = 0.
Proof. apply (checksum_residues [0x64; 7]). by repeat constructor. Defined.
