(* ===== verification/Context.v ===== *)
(** * Trace contexts and spans (telemetry/context.hpp, span.hpp, NextId)

    The thread-local state of the tracing API: the current context and the id
    generator.  Ids come from splitmix64; scopes ([ContextGuard], [Span]) set the
    current context and restore it. *)

From Stdlib Require Import ZArith Lia.
From stdpp Require Import base list numbers relations.
From S2P Require Import Prelude Serialization.

Local Open Scope Z_scope.

(** ** Ids and contexts *)

Record TraceId := Trace { hi : Z; lo : Z }.
Definition TraceId_valid (t : TraceId) : bool := negb (Z.lor (hi t) (lo t) =? 0).
Definition TraceId_eq (a b : TraceId) : bool := ((hi a =? hi b) && (lo a =? lo b))%bool.

Record SpanId := SpanI { value : Z }.
Definition SpanId_valid (s : SpanId) : bool := negb (value s =? 0).
Definition SpanId_eq (a b : SpanId) : bool := value a =? value b.

Record Context := Ctx { trace : TraceId; span : SpanId }.
Definition Context_valid (c : Context) : bool := TraceId_valid (trace c).
Definition no_context : Context := Ctx (Trace 0 0) (SpanI 0).

#[global] Instance TraceId_eq_dec : EqDecision TraceId.
Proof. solve_decision. Defined.
#[global] Instance SpanId_eq_dec : EqDecision SpanId.
Proof. solve_decision. Defined.
#[global] Instance Context_eq_dec : EqDecision Context.
Proof. solve_decision. Defined.

(** Three 64-bit words. *)
Definition ctx_ok (c : Context) : Prop :=
  in_width 64 (hi (trace c)) /\ in_width 64 (lo (trace c)) /\ in_width 64 (value (span c)).

(** ** Envelope carriage *)

Definition kContextWireSize : nat := 24.

Definition Inject (c : Context) : bytes :=
  le_bytes 8 (hi (trace c)) ++ le_bytes 8 (lo (trace c)) ++ le_bytes 8 (value (span c)).

(** [None] is the null pointer. *)
Definition Extract (p : option bytes) : Context :=
  match p with
  | None => no_context
  | Some p =>
      if (length p <? kContextWireSize)%nat then no_context else
      Ctx (Trace (le_word (take 8 p)) (le_word (take 8 (drop 8 p))))
          (SpanI (le_word (take 8 (drop 16 p))))
  end.

(** ** The id generator *)

Definition golden : Z := 0x9E3779B97F4A7C15.

(** splitmix64's output function on the advanced state. *)
Definition splitmix_mix (state : Z) : Z :=
  let z := u64 (Z.lxor state (Z.shiftr state 30) * 0xBF58476D1CE4E5B9) in
  let z := u64 (Z.lxor z (Z.shiftr z 27) * 0x94D049BB133111EB) in
  Z.lxor z (Z.shiftr z 31).

(** The seed made of two 32-bit draws of the random device. *)
Definition seed_of (rd1 rd2 : Z) : Z :=
  let s := Z.lxor (u64 (Z.shiftl rd1 32)) rd2 in if negb (s =? 0) then s else golden.

(** The thread-local state: the current context, the id state ([None] until first
    use), and what the random device gives when it is drawn. *)
Record thread := Thread {
  t_current_context : Context;
  id_state : option Z;
  device : Z * Z
}.

Definition NextId (t : thread) : Z * thread :=
  let state := match id_state t with Some s => s | None => seed_of (fst (device t)) (snd (device t)) end in
  let state := u64 (state + golden) in
  let z := splitmix_mix state in
  (if negb (z =? 0) then z else 1, Thread (t_current_context t) (Some state) (device t)).

(** ** Current context, guard, new traces *)

Definition CurrentContext (t : thread) : Context := t_current_context t.
Definition SetCurrentContext (c : Context) (t : thread) : thread :=
  Thread c (id_state t) (device t).

(** The guard's constructor returns [saved_], its destructor takes it. *)
Definition ContextGuard_ctor (c : Context) (t : thread) : Context * thread :=
  (t_current_context t, SetCurrentContext c t).
Definition ContextGuard_dtor (saved : Context) (t : thread) : thread := SetCurrentContext saved t.

Definition NewTrace (t : thread) : Context * thread :=
  let '(h, t) := NextId t in
  let '(l, t) := NextId t in
  let '(s, t) := NextId t in
  (Ctx (Trace h l) (SpanI s), t).

(** ** Spans *)

Definition kMaxSpanLinks : nat := 4.

(** What the binding's [emit_span] receives; times are left to the clock. *)
Record span_record := SpanRecord {
  r_name : bytes;
  r_ctx : Context;
  r_parent : SpanId;
  r_begin : Z;
  r_end : Z;
  r_links : list Context
}.

Record Span := SpanObj {
  name_ : bytes;
  begin_ : Z;
  saved_ : Context;
  parent_ : SpanId;
  links_ : list Context          (* the first link_count_ entries *)
}.

Definition AddLink (link : Context) (s : Span) : Span :=
  if ((length (links_ s) <? kMaxSpanLinks)%nat && Context_valid link)%bool
  then SpanObj (name_ s) (begin_ s) (saved_ s) (parent_ s) (links_ s ++ [link])
  else s.

(** [Begin()]: the parent it records, and the thread with the child current. *)
Definition Begin (saved : Context) (t : thread) : SpanId * thread :=
  let '(child, t) :=
    if negb (TraceId_valid (trace saved)) then
      let '(h, t) := NextId t in
      let '(l, t) := NextId t in
      (Ctx (Trace h l) (SpanI 0), t)
    else (saved, t) in
  let parent := span child in
  let '(v, t) := NextId t in
  (parent, SetCurrentContext (Ctx (trace child) (SpanI v)) t).

Definition Span_ctor (name : bytes) (now : Z) (t : thread) : Span * thread :=
  let saved := t_current_context t in
  let '(parent, t) := Begin saved t in
  (SpanObj name now saved parent [], t).

(** The [XM_SPAN_LINKED] form. *)
Definition Span_ctor_linked (name : bytes) (link : Context) (now : Z) (t : thread) : Span * thread :=
  let '(s, t) := Span_ctor name now t in (AddLink link s, t).

(** The destructor; [bound] is whether a binding is active. *)
Definition Span_dtor (s : Span) (bound : bool) (now : Z) (t : thread) : option span_record * thread :=
  let ctx := t_current_context t in
  let t := SetCurrentContext (saved_ s) t in
  (if bound then Some (SpanRecord (name_ s) ctx (parent_ s) (begin_ s) now (links_ s)) else None, t).

(** ** Round trip and validation of envelopes *)

Lemma length_Inject c : length (Inject c) = kContextWireSize.
Proof. unfold Inject. by rewrite !length_app, !length_le_bytes. Qed.

Lemma take_drop_app {A} (a b c : list A) n m :
  length a = n -> length b = m -> take m (drop n (a ++ b ++ c)) = b.
Proof. intros <- <-. by rewrite drop_app_length, take_app_length. Qed.

Lemma Extract_Inject_app c rest : ctx_ok c -> Extract (Some (Inject c ++ rest)) = c.
Proof.
  intros (Hh & Hl & Hs). unfold Extract. rewrite length_app, length_Inject.
  rewrite (proj2 (Nat.ltb_ge _ _)) by lia. unfold Inject.
  assert (forall z, in_width 64 z -> le_word (le_bytes 8 z) = z) as Hw
    by (intros z Hz; rewrite le_word_le_bytes; by apply wrap_id).
  rewrite <- !app_assoc. rewrite take_app_length' by (by rewrite length_le_bytes).
  rewrite (take_drop_app _ _ _ 8 8) by apply length_le_bytes.
  rewrite app_assoc, (take_drop_app _ _ rest 16 8)
    by (rewrite ?length_app, !length_le_bytes; done).
  rewrite !Hw by done. by destruct c as [[] []].
Qed.

Lemma Extract_Inject c : ctx_ok c -> Extract (Some (Inject c)) = c.
Proof. intros H. rewrite <- (app_nil_r (Inject c)). by apply Extract_Inject_app. Qed.

(** Envelopes.  A context survives injection and extraction, whatever follows the
    24 bytes; a null pointer or a short buffer extracts to no context, and only a
    context with a zero trace id is "none". *)
Theorem inject_extract (c : Context) (rest p : bytes) :
  ctx_ok c ->
  Extract (Some (Inject c ++ rest)) = c /\
  Extract None = no_context /\
  ((length p < kContextWireSize)%nat -> Extract (Some p) = no_context) /\
  (Context_valid c = false <-> trace c = Trace 0 0).
Proof.
  intros Hc. split_and!.
  - by apply Extract_Inject_app.
  - done.
  - intros Hp. unfold Extract. by rewrite (proj2 (Nat.ltb_lt _ _)).
  - unfold Context_valid, TraceId_valid. rewrite negb_false_iff, Z.eqb_eq, Z.lor_eq_0_iff.
    destruct c as [[h l] s]. cbn. split; [intros [-> ->]; done|by intros [= -> ->]].
Qed.

(** ** splitmix64 is a bijection on 64-bit words *)

Lemma xorshift_inj k x y :
  0 < k -> in_width 64 x -> in_width 64 y ->
  Z.lxor x (Z.shiftr x k) = Z.lxor y (Z.shiftr y k) -> x = y.
Proof.
  intros Hk Hx Hy E.
  assert (forall n i, 0 <= i -> 64 - Z.of_nat n <= i -> Z.testbit x i = Z.testbit y i) as Hbit.
  { induction n as [|n IH]; intros i Hi Hn.
    - rewrite (in_width_testbit 64 x), (in_width_testbit 64 y); [done|done|lia|done|lia].
    - apply (f_equal (fun z => Z.testbit z i)) in E.
      rewrite !Z.lxor_spec, !Z.shiftr_spec in E by lia.
      rewrite (IH (i + k)) in E by lia. by destruct (Z.testbit x i), (Z.testbit y i), (Z.testbit y (i + k)). }
  apply Z.bits_inj'. intros i Hi. apply (Hbit 64%nat); lia.
Qed.

Lemma mul_inv_inj c c' x y :
  u64 (c * c') = 1 -> in_width 64 x -> in_width 64 y -> u64 (x * c) = u64 (y * c) -> x = y.
Proof.
  intros Hc Hx Hy E. rewrite <- (wrap_id 64 x Hx), <- (wrap_id 64 y Hy).
  assert (forall z, u64 z = u64 (u64 (z * c) * c')) as Hz.
  { intros z. unfold wrap in *. rewrite Z.mul_mod_idemp_l by lia.
    rewrite <- Z.mul_assoc, <- Z.mul_mod_idemp_r, Hc by lia. by rewrite Z.mul_1_r. }
  by rewrite (Hz x), (Hz y), E.
Qed.

Lemma xorshift_width k z : 0 <= k -> in_width 64 z -> in_width 64 (Z.lxor z (Z.shiftr z k)).
Proof.
  intros Hk Hz. apply lxor_width; [lia|done|]. split; [apply Z.shiftr_nonneg, Hz|].
  rewrite Z.shiftr_div_pow2 by lia. apply Z.div_lt_upper_bound; [lia|].
  destruct Hz. assert (1 <= 2 ^ k) by (apply (Z.pow_le_mono_r 2 0 k); lia). nia.
Qed.

(** An id is a word and not zero. *)
Lemma NextId_ok t : in_width 64 (fst (NextId t)) /\ fst (NextId t) <> 0.
Proof.
  unfold NextId. cbn [fst]. set (s := match id_state t with Some s => s | None => _ end).
  assert (in_width 64 (splitmix_mix (u64 (s + golden)))) as Hz by (apply xorshift_width; [lia|by apply wrap_range]).
  generalize dependent (splitmix_mix (u64 (s + golden))).
  intros z Hz. destruct (Z.eqb_spec z 0); cbn [negb]; [split; [unfold in_width|]; lia|done].
Qed.

Lemma splitmix_mix_inj x y :
  in_width 64 x -> in_width 64 y -> splitmix_mix x = splitmix_mix y -> x = y.
Proof.
  intros Hx Hy E. unfold splitmix_mix in E.
  apply xorshift_inj in E; [|lia|by apply wrap_range..].
  apply (mul_inv_inj _ 0x319642b2d24d8ec3) in E; [|done|apply xorshift_width; [lia|by apply wrap_range]..].
  apply xorshift_inj in E; [|lia|by apply wrap_range..].
  apply (mul_inv_inj _ 0x96de1b173f119089) in E; [|done|apply xorshift_width; [lia|done]..].
  by apply xorshift_inj in E.
Qed.

Definition seeded (t : thread) : Prop :=
  match id_state t with Some s => in_width 64 s | None => in_width 32 (fst (device t)) /\ in_width 32 (snd (device t)) end.

Definition state_of (t : thread) : Z :=
  match id_state t with Some s => s | None => seed_of (fst (device t)) (snd (device t)) end.

(** The [n]-th id a thread draws. *)
Fixpoint nth_id (n : nat) (t : thread) : Z :=
  match n with O => fst (NextId t) | S n => nth_id n (snd (NextId t)) end.

Lemma NextId_state t : state_of (snd (NextId t)) = u64 (state_of t + golden).
Proof. done. Qed.

Lemma nth_id_value n t :
  nth_id n t = (let z := splitmix_mix (u64 (state_of t + Z.of_nat (S n) * golden)) in
                if negb (z =? 0) then z else 1).
Proof.
  revert t. induction n as [|n IH]; intros t.
  - unfold nth_id, NextId. cbn [fst]. by rewrite Z.mul_1_l.
  - cbn [nth_id]. rewrite IH, NextId_state, wrap_add_l.
    by replace (state_of t + golden + Z.of_nat (S n) * golden)
      with (state_of t + Z.of_nat (S (S n)) * golden) by lia.
Qed.

(** Ids are never zero, and a thread does not repeat one within 2^64 draws, except
    that the value 1 may also stand for the single state mixed to zero. *)
Theorem ids_nonzero_distinct (t : thread) (n m : nat) :
  nth_id n t <> 0 /\
  ((n < m)%nat -> Z.of_nat m < Z.of_nat n + 2 ^ 64 -> nth_id n t = nth_id m t -> nth_id n t = 1).
Proof.
  rewrite !nth_id_value. cbv zeta. split.
  - destruct (Z.eqb_spec (splitmix_mix (u64 (state_of t + Z.of_nat (S n) * golden))) 0); done.
  - intros Hnm Hm. set (a := splitmix_mix _). set (b := splitmix_mix _).
    destruct (Z.eqb_spec a 0) as [Ea|Ea]; [done|]. cbn [negb].
    destruct (Z.eqb_spec b 0) as [Eb|Eb]; [done|]. cbn [negb]. intros E. exfalso.
    apply splitmix_mix_inj in E; [|by apply wrap_range..].
    assert (u64 ((Z.of_nat m - Z.of_nat n) * golden) = u64 (0 * golden)) as E0.
    { replace ((Z.of_nat m - Z.of_nat n) * golden)
        with ((state_of t + Z.of_nat (S m) * golden) - (state_of t + Z.of_nat (S n) * golden)) by lia.
      rewrite <- wrap_sub, <- E, Z.sub_diag. done. }
    apply (mul_inv_inj _ 0xf1de83e19937733d) in E0; [lia|done|unfold in_width; lia|done].
Qed.

(** ** Scopes *)

(** A thread's code as far as contexts go: bare sets, guards and spans with what
    runs inside them, in sequence.  [link] is the linked constructor's argument,
    [links] the [AddLink] calls made while the span is open. *)
Inductive code :=
| Done
| Set_ (c : Context) (k : code)
| Guard (c : Context) (body k : code)
| Open (name : bytes) (link : option Context) (links : list Context) (body k : code).

Section Exec.
Variable bound : bool.            (* a binding is active *)
Variable clock : nat -> Z.        (* the [n]-th [Now()] *)

Definition open_span (name : bytes) (link : option Context) (now : Z) (t : thread) : Span * thread :=
  match link with
  | Some l => Span_ctor_linked name l now t
  | None => Span_ctor name now t
  end.

(** Runs the code: the spans emitted, in order, the thread, the clock reads so far. *)
Fixpoint exec (p : code) (t : thread) (n : nat) : list span_record * thread * nat :=
  match p with
  | Done => ([], t, n)
  | Set_ c k => exec k (SetCurrentContext c t) n
  | Guard c body k =>
      let '(saved, t) := ContextGuard_ctor c t in
      let '(r1, t, n) := exec body t n in
      let t := ContextGuard_dtor saved t in
      let '(r2, t, n) := exec k t n in
      (r1 ++ r2, t, n)
  | Open name link links body k =>
      let '(s, t) := open_span name link (clock n) t in
      let s := foldl (fun s l => AddLink l s) s links in
      let '(r1, t, n) := exec body t (S n) in
      let '(r, t) := Span_dtor s bound (clock n) t in
      let '(r2, t, n) := exec k t (S n) in
      (r1 ++ option_list r ++ r2, t, n)
  end.
End Exec.

(** The context code leaves current: only bare sets of its own level count. *)
Fixpoint final_context (c : Context) (p : code) : Context :=
  match p with
  | Done => c
  | Set_ c' k => final_context c' k
  | Guard _ _ k | Open _ _ _ _ k => final_context c k
  end.

Fixpoint no_bare_set (p : code) : bool :=
  match p with
  | Done => true
  | Set_ _ _ => false
  | Guard _ _ k | Open _ _ _ _ k => no_bare_set k
  end.

(** What the spans of code started under [c] must look like. *)
Fixpoint spans_ok (c : Context) (p : code) (recs : list span_record) : Prop :=
  match p with
  | Done => recs = []
  | Set_ c' k => spans_ok c' k recs
  | Guard c' body k => exists r1 r2, recs = r1 ++ r2 /\ spans_ok c' body r1 /\ spans_ok c k r2
  | Open name link links body k =>
      exists own r1 r2 child, recs = r1 ++ own :: r2 /\
        r_name own = name /\
        Context_valid child = true /\ SpanId_valid (span child) = true /\
        (if Context_valid c then trace child = trace c /\ r_parent own = span c
         else r_parent own = SpanI 0) /\
        (no_bare_set body = true -> r_ctx own = child) /\
        r_links own = take kMaxSpanLinks (filter (fun l => Context_valid l = true)
                                            (option_list link ++ links)) /\
        spans_ok child body r1 /\ spans_ok c k r2
  end.

Lemma NextId_context t : t_current_context (snd (NextId t)) = t_current_context t.
Proof. done. Qed.

Lemma NextId_nonzero t : fst (NextId t) <> 0.
Proof.
  unfold NextId. cbn [fst]. destruct (Z.eqb_spec (splitmix_mix (u64 (match id_state t with
    Some s => s | None => seed_of (fst (device t)) (snd (device t)) end + golden))) 0); done.
Qed.

Lemma TraceId_valid_hi h l : h <> 0 -> TraceId_valid (Trace h l) = true.
Proof.
  intros Hh. unfold TraceId_valid. apply negb_true_iff, Z.eqb_neq.
  rewrite Z.lor_eq_0_iff. cbn. tauto.
Qed.

(** What [Begin] makes current, and the parent it keeps. *)
Lemma Begin_spec c t :
  exists v t', Begin c t = (if Context_valid c then span c else SpanI 0, t') /\ v <> 0 /\
    Context_valid (t_current_context t') = true /\ span (t_current_context t') = SpanI v /\
    (Context_valid c = true -> trace (t_current_context t') = trace c).
Proof.
  unfold Begin, Context_valid. destruct (TraceId_valid (trace c)) eqn:E; cbn [negb].
  - pose proof (NextId_nonzero t) as Hv. destruct (NextId t) as [v t1]. exists v. eexists. split; [done|]. done.
  - pose proof (NextId_nonzero t) as Hh. destruct (NextId t) as [h t1]. cbn in Hh.
    destruct (NextId t1) as [l t2]. pose proof (NextId_nonzero t2) as Hv.
    destruct (NextId t2) as [v t3]. exists v. eexists. split; [done|]. cbn in *.
    split; [done|]. split; [by apply TraceId_valid_hi|done].
Qed.

(** A span's links: the first four valid ones. *)
Lemma links_spec s ls :
  links_ (foldl (fun s l => AddLink l s) s ls) =
    links_ s ++ take (kMaxSpanLinks - length (links_ s)) (filter (fun l => Context_valid l = true) ls).
Proof.
  revert s. induction ls as [|l ls IH]; intros s; cbn [foldl].
  - by rewrite filter_nil, take_nil, app_nil_r.
  - rewrite IH. unfold AddLink. rewrite filter_cons.
    destruct (Context_valid l) eqn:El; [rewrite decide_True by done|rewrite decide_False by done];
      [|by rewrite andb_false_r].
    destruct (Nat.ltb_spec (length (links_ s)) kMaxSpanLinks) as [Hlt|Hge]; cbn [andb links_].
    + rewrite length_app. cbn [length]. rewrite <- app_assoc.
      replace (kMaxSpanLinks - length (links_ s))%nat
        with (S (kMaxSpanLinks - (length (links_ s) + 1))) by lia. done.
    + by replace (kMaxSpanLinks - length (links_ s))%nat with 0%nat by lia.
Qed.

Lemma AddLink_keeps s l :
  name_ (AddLink l s) = name_ s /\ saved_ (AddLink l s) = saved_ s /\ parent_ (AddLink l s) = parent_ s /\
  begin_ (AddLink l s) = begin_ s.
Proof. unfold AddLink. by case_match. Qed.

Lemma AddLinks_keep s ls :
  let s' := foldl (fun s l => AddLink l s) s ls in
  name_ s' = name_ s /\ saved_ s' = saved_ s /\ parent_ s' = parent_ s /\ begin_ s' = begin_ s.
Proof.
  revert s. induction ls as [|l ls IH]; intros s; cbn; [done|].
  destruct (IH (AddLink l s)) as (-> & -> & -> & ->). apply AddLink_keeps.
Qed.

Lemma open_span_spec name link links now t :
  let s := foldl (fun s l => AddLink l s) (fst (open_span name link now t)) links in
  let t' := snd (open_span name link now t) in
  name_ s = name /\ saved_ s = t_current_context t /\ begin_ s = now /\
  parent_ s = (if Context_valid (t_current_context t) then span (t_current_context t) else SpanI 0) /\
  links_ s = take kMaxSpanLinks (filter (fun l => Context_valid l = true) (option_list link ++ links)) /\
  t' = snd (Begin (t_current_context t) t).
Proof.
  cbv zeta. destruct (AddLinks_keep (fst (open_span name link now t)) links) as (-> & -> & -> & ->).
  rewrite links_spec.
  assert (open_span name link now t =
    let '(s, t) := Span_ctor name now t in (foldl (fun s l => AddLink l s) s (option_list link), t)) as ->.
  { destruct link; cbn; [|by destruct (Span_ctor name now t)].
    unfold Span_ctor_linked. by destruct (Span_ctor name now t). }
  unfold Span_ctor. destruct (Begin_spec (t_current_context t) t) as (v & t' & -> & _).
  cbn [fst snd]. destruct (AddLinks_keep (SpanObj name now (t_current_context t)
    (if Context_valid (t_current_context t) then span (t_current_context t) else SpanI 0) [])
    (option_list link)) as (-> & -> & -> & ->). rewrite links_spec. cbn [links_ name_ saved_ parent_ begin_ length].
  split_and!; try done. rewrite app_nil_l, Nat.sub_0_r, filter_app, take_app, length_take.
  do 2 f_equal. lia.
Qed.

(** C17: spans nest.  For any code run under a binding, the spans emitted form the
    tree of the scopes: a span opened under a valid context continues its trace
    and names its span as parent, a span opened under none starts a trace of its
    own with no parent; it carries at most four links, the valid ones first come;
    and after any scope the context is what it was, bare sets of the same level
    apart. *)
Theorem spans_nest clock (p : code) (t : thread) (n : nat) :
  let '(recs, t', _) := exec true clock p t n in
  spans_ok (t_current_context t) p recs /\
  t_current_context t' = final_context (t_current_context t) p.
Proof.
  revert t n. induction p as [|c k IH|c body IHb k IHk|name link links body IHb k IHk]; intros t n; cbn [exec].
  - done.
  - apply (IH (SetCurrentContext c t) n).
  - cbn. specialize (IHb (SetCurrentContext c t) n). destruct (exec true clock body _ n) as [[r1 t1] n1].
    specialize (IHk (SetCurrentContext (t_current_context t) t1) n1).
    unfold ContextGuard_dtor. destruct (exec true clock k _ n1) as [[r2 t2] n2].
    destruct IHb as [Hb _], IHk as [Hk Hf]. split; [by exists r1, r2|done].
  - pose proof (open_span_spec name link links (clock n) t) as Hs. cbv zeta in Hs.
    destruct (open_span name link (clock n) t) as [s0 t0]. cbn [fst snd] in Hs.
    set (s := foldl _ s0 links) in *. destruct Hs as (Hname & Hsaved & _ & Hpar & Hlinks & ->).
    destruct (Begin_spec (t_current_context t) t) as (v & t0 & HB & Hv & Hval & Hspan & Htr).
    rewrite HB. cbn [snd]. specialize (IHb t0 (S n)).
    destruct (exec true clock body t0 (S n)) as [[r1 t1] n1]. destruct IHb as [Hb Hfb].
    unfold Span_dtor. rewrite Hsaved.
    specialize (IHk (SetCurrentContext (t_current_context t) t1) (S n1)).
    destruct (exec true clock k _ (S n1)) as [[r2 t2] n2]. destruct IHk as [Hk Hf].
    split; [|done]. eexists _, r1, r2, (t_current_context t0). split; [reflexivity|].
    cbn [r_name r_ctx r_parent r_links]. split_and!; try done.
    + rewrite Hspan. unfold SpanId_valid. cbn. by apply negb_true_iff, Z.eqb_neq.
    + rewrite Hpar. destruct (Context_valid (t_current_context t)); [by split; [apply Htr|]|done].
    + intros Hnb. rewrite Hfb. clear -Hnb. revert Hnb. generalize (t_current_context t0).
      induction body; cbn; intros; try done; auto.
Qed.

(** Unbound, contexts and ids evolve exactly as when bound, and nothing is
    emitted. *)
Theorem unbound_bookkeeping clock (p : code) (t : thread) (n : nat) :
  let '(recs, t', n') := exec false clock p t n in
  let '(_, t'', n'') := exec true clock p t n in
  recs = [] /\ t' = t'' /\ n' = n''.
Proof.
  revert t n. induction p as [|c k IH|c body IHb k IHk|name link links body IHb k IHk]; intros t n; cbn [exec].
  - done.
  - apply IH.
  - cbn. specialize (IHb (SetCurrentContext c t) n).
    destruct (exec false clock body _ n) as [[r1 t1] n1], (exec true clock body _ n) as [[r1' t1'] n1'].
    destruct IHb as (-> & -> & ->). specialize (IHk (ContextGuard_dtor (t_current_context t) t1') n1').
    destruct (exec false clock k _ n1') as [[r2 t2] n2], (exec true clock k _ n1') as [[r2' t2'] n2'].
    by destruct IHk as (-> & -> & ->).
  - destruct (open_span name link (clock n) t) as [s0 t0]. specialize (IHb t0 (S n)).
    destruct (exec false clock body t0 (S n)) as [[r1 t1] n1], (exec true clock body t0 (S n)) as [[r1' t1'] n1'].
    destruct IHb as (-> & -> & ->). unfold Span_dtor.
    match goal with |- context [exec false clock k ?t2 (S n1')] => specialize (IHk t2 (S n1')) end.
    destruct (exec false clock k _ (S n1')) as [[r2 t2] n2], (exec true clock k _ (S n1')) as [[r2' t2'] n2'].
    by destruct IHk as (-> & -> & ->).
Qed.

Lemma inject_extract_witness :
  Extract (Some (Inject (Ctx (Trace 1 2) (SpanI 3)) ++ [7])) = Ctx (Trace 1 2) (SpanI 3) /\
  Extract (Some [1; 2; 3]) = no_context.
Proof.
  assert (ctx_ok (Ctx (Trace 1 2) (SpanI 3))) as H by (repeat split; cbn; lia).
  destruct (inject_extract _ [7] [1; 2; 3] H) as (H1 & _ & H2 & _). split; [exact H1|].
  apply H2. unfold kContextWireSize. cbn. lia.
Defined.

Lemma ids_nonzero_distinct_witness :
  nth_id 0 (Thread no_context None (1, 2)) <> nth_id 1 (Thread no_context None (1, 2)).
Proof.
  intros E. apply (ids_nonzero_distinct (Thread no_context None (1, 2)) 0 1) in E; [|lia|lia].
  vm_compute in E. discriminate E.
Defined.
