(* ===== verification/Printf.v ===== *)
(** * The part of printf the library uses

    The C library's conversions behind every rendered number: [%lld], [%llu],
    [%llx], [%llX], [%llo], [%s] and the double conversions [%f], [%e], [%g] (upper case
    too), with the flag [0], a width and a precision.  Doubles are 64-bit patterns;
    decimal digits are exact, rounded to nearest, ties to even. *)

From Stdlib Require Import ZArith Lia String.
From stdpp Require Import base list numbers relations.
From S2P Require Import Prelude.

Local Open Scope Z_scope.

(** Character codes. *)
Definition c_space : Z := 32.
Definition c_zero : Z := 48.
Definition c_minus : Z := 45.
Definition c_dot : Z := 46.

(** ** Integers *)

Definition digit_char (upper : bool) (d : Z) : Z :=
  if d <? 10 then c_zero + d else (if upper then 65 else 97) + (d - 10).

(** Digits of [z >= 0] in [base], most significant first; "0" for zero. *)
Fixpoint digits_acc (fuel : nat) (base : Z) (upper : bool) (z : Z) (acc : bytes) : bytes :=
  match fuel with
  | O => acc
  | S fuel =>
      let acc := digit_char upper (z mod base) :: acc in
      if z <? base then acc else digits_acc fuel base upper (z / base) acc
  end.

Definition digits (base : Z) (upper : bool) (z : Z) : bytes :=
  digits_acc (S (Z.to_nat (Z.log2 z))) base upper z [].

(** Flag [0] and width: zeros go after the sign, spaces before it. *)
Definition pad (zero : bool) (width : option nat) (sign body : bytes) : bytes :=
  let n := (default 0 width - (length sign + length body))%nat in
  if zero then sign ++ repeat c_zero n ++ body else repeat c_space n ++ sign ++ body.

Inductive conversion := Clld | Cllu | Cllx | CllX | Cllo.

(** The integer conversions, without a precision. *)
Definition print_int (conv : conversion) (zero : bool) (width : option nat) (z : Z) : bytes :=
  match conv with
  | Clld => pad zero width (if z <? 0 then [c_minus] else []) (digits 10 false (Z.abs z))
  | Cllu => pad zero width [] (digits 10 false z)
  | Cllx => pad zero width [] (digits 16 false z)
  | CllX => pad zero width [] (digits 16 true z)
  | Cllo => pad zero width [] (digits 8 false z)
  end.

(** [%lu] and [%zu]. *)
Definition lu (z : Z) : bytes := print_int Cllu false None z.

(** [%s]: up to the first NUL, cut at the precision, padded on the left. *)
Fixpoint c_str (s : bytes) : bytes :=
  match s with
  | [] => []
  | c :: s => if c =? 0 then [] else c :: c_str s
  end.

Definition print_str (width prec : option nat) (s : bytes) : bytes :=
  let s := c_str s in
  let s := match prec with Some p => take p s | None => s end in
  pad false width [] s.

(** [%0<n>lld] of a number that is not negative. *)
Definition print_padded (n : nat) (z : Z) : bytes := print_int Clld true (Some n) z.

(** ** Doubles *)

Inductive double := Finite (neg : bool) (m e : Z) | Infinite (neg : bool) | NotANumber (neg : bool).

(** The value of a 64-bit pattern: [m * 2^e]. *)
Definition decode_double (bits : Z) : double :=
  let neg := Z.testbit bits 63 in
  let ex := Z.land (Z.shiftr bits 52) 2047 in
  let frac := Z.land bits (2 ^ 52 - 1) in
  if ex =? 2047 then (if frac =? 0 then Infinite neg else NotANumber neg)
  else Finite neg (if ex =? 0 then frac else frac + 2 ^ 52) (Z.max ex 1 - 1075).

(** [num / den] rounded to an integer, ties to even. *)
Definition round_half_even (num den : Z) : Z :=
  let q := num / den in
  let r := num mod den in
  if (den <? 2 * r) || ((2 * r =? den) && Z.odd q) then q + 1 else q.

(** [m * 2^e] as a fraction. *)
Definition fraction (m e : Z) : Z * Z := (m * 2 ^ Z.max e 0, 2 ^ Z.max (- e) 0).

(** Digits of [z], with zeros in front up to [n]. *)
Definition digits_padded (n : nat) (z : Z) : bytes :=
  let d := digits 10 false z in repeat c_zero (n - length d)%nat ++ d.

(** A number [N / 10^p] with [p] decimals. *)
Definition with_decimals (p : nat) (N : Z) : bytes * bytes :=
  (digits 10 false (N / 10 ^ Z.of_nat p), if (p =? 0)%nat then [] else digits_padded p (N mod 10 ^ Z.of_nat p)).

Definition join_decimals (x : bytes * bytes) : bytes :=
  match x.2 with [] => x.1 | d => x.1 ++ [c_dot] ++ d end.

Definition print_fixed (p : nat) (m e : Z) : bytes * bytes :=
  let '(num, den) := fraction m e in
  with_decimals p (round_half_even (num * 10 ^ Z.of_nat p) den).

(** The decimal exponent: the largest [x] with [10^x <= num / den]. *)
Definition reaches (num den x : Z) : bool :=
  if 0 <=? x then 10 ^ x * den <=? num else den <=? num * 10 ^ (- x).

(** Found by bisection: [lo] is reached, [hi] is not; ten halvings of the range
    of the doubles leave neighbours. *)
Fixpoint exponent_between (fuel : nat) (num den lo hi : Z) : Z :=
  match fuel with
  | O => lo
  | S fuel =>
      if hi <=? lo + 1 then lo else
      let mid := (lo + hi) / 2 in
      if reaches num den mid then exponent_between fuel num den mid hi
      else exponent_between fuel num den lo mid
  end.
Definition decimal_exponent (num den : Z) : Z := exponent_between 10 num den (-330) 310.

(** The [p + 1] significant digits and the exponent of [%.pe]. *)
Definition print_exp (p : nat) (m e : Z) : Z * Z :=
  if m =? 0 then (0, 0) else
  let '(num, den) := fraction m e in
  let x := decimal_exponent num den in
  let k := Z.of_nat p - x in
  let n := round_half_even (num * 10 ^ Z.max k 0) (den * 10 ^ Z.max (- k) 0) in
  if n =? 10 ^ (Z.of_nat p + 1) then (10 ^ Z.of_nat p, x + 1) else (n, x).

Definition exponent_text (upper : bool) (x : Z) : bytes :=
  [if upper then 69 else 101; if x <? 0 then c_minus else 43] ++ digits_padded 2 (Z.abs x).

(** Trailing zeros of decimals, for [%g]. *)
Fixpoint strip_zeros_rev (l : bytes) : bytes :=
  match l with c :: l' => if c =? c_zero then strip_zeros_rev l' else l | [] => [] end.
Definition strip_zeros (l : bytes) : bytes := reverse (strip_zeros_rev (reverse l)).

Inductive double_style := Fixed | Exponent | General.

Definition double_body (style : double_style) (upper : bool) (prec : option nat) (m e : Z) : bytes :=
  let p := default 6%nat prec in
  match style with
  | Fixed => join_decimals (print_fixed p m e)
  | Exponent =>
      let '(n, x) := print_exp p m e in join_decimals (with_decimals p n) ++ exponent_text upper x
  | General =>
      let p := if (p =? 0)%nat then 1%nat else p in
      let '(n, x) := print_exp (p - 1) m e in
      if (-4 <=? x) && (x <? Z.of_nat p) then
        let '(i, d) := print_fixed (Z.to_nat (Z.of_nat p - 1 - x)) m e in
        join_decimals (i, strip_zeros d)
      else
        let '(i, d) := with_decimals (p - 1) n in
        join_decimals (i, strip_zeros d) ++ exponent_text upper x
  end.

Definition print_decoded (style : double_style) (upper zero : bool) (width prec : option nat) (x : double) : bytes :=
  let sign (neg : bool) := if neg then [c_minus] else [] in
  match x with
  | Infinite neg => pad false width (sign neg) (bytes_of_string (if upper then "INF" else "inf"))
  | NotANumber neg => pad false width (sign neg) (bytes_of_string (if upper then "NAN" else "nan"))
  | Finite neg m e => pad zero width (sign neg) (double_body style upper prec m e)
  end.

Definition print_double (style : double_style) (upper zero : bool) (width prec : option nat) (bits : Z) : bytes :=
  print_decoded style upper zero width prec (decode_double bits).

(** ** Checks against the C library's output *)

Example print_pi : string_of_bytes (print_double General false false None None 0x400921fb54442d18) = "3.14159"%string.
Proof. vm_compute. reflexivity. Qed.
Example print_pi_fixed : string_of_bytes (print_double Fixed false true (Some 9%nat) (Some 2%nat) 0xc00921fb54442d18) = "-00003.14"%string.
Proof. vm_compute. reflexivity. Qed.
Example print_tenth : string_of_bytes (print_double Fixed false false None (Some 20%nat) 0x3fb999999999999a) = "0.10000000000000000555"%string.
Proof. vm_compute. reflexivity. Qed.
Example print_half_even : string_of_bytes (print_double Fixed false false None (Some 0%nat) 0x4004000000000000) = "2"%string.
Proof. vm_compute. reflexivity. Qed.
Example print_huge : string_of_bytes (print_double General false false None None 0x7fefffffffffffff) = "1.79769e+308"%string.
Proof. vm_compute. reflexivity. Qed.
Example print_tiny : string_of_bytes (print_double Exponent true false None (Some 3%nat) 0x0000000000000001) = "4.941E-324"%string.
Proof. vm_compute. reflexivity. Qed.
Example print_million : string_of_bytes (print_double General false false None None 0x412e848000000000) = "1e+06"%string.
Proof. vm_compute. reflexivity. Qed.
Example print_hex : string_of_bytes (print_int CllX true (Some 6%nat) 48879) = "00BEEF"%string.
Proof. vm_compute. reflexivity. Qed.

(** ** Lengths of the conversions *)

Lemma digits_acc_length fuel base up z acc k :
  2 <= base -> 0 <= z < base ^ Z.of_nat k -> (0 < k)%nat ->
  (length (digits_acc fuel base up z acc) <= k + length acc)%nat.
Proof.
  intros Hb. revert z acc k. induction fuel as [|fuel IH]; intros z acc k Hz Hk; cbn [digits_acc]; [lia|].
  destruct (z <? base) eqn:E; zbool; [cbn; lia|].
  destruct k as [|[|k]]; [lia|cbn in Hz; lia|].
  assert (0 <= z / base < base ^ Z.of_nat (S k)) as Hq.
  { split; [apply Z.div_pos; lia|]. apply Z.div_lt_upper_bound; [lia|].
    rewrite <- Z.pow_succ_r by lia. replace (Z.succ (Z.of_nat (S k))) with (Z.of_nat (S (S k))) by lia. lia. }
  specialize (IH (z / base) (digit_char up (z mod base) :: acc) (S k) Hq ltac:(lia)). cbn in *. lia.
Qed.

Lemma digits_length base up z k :
  2 <= base -> 0 <= z < base ^ Z.of_nat k -> (0 < k)%nat -> (length (digits base up z) <= k)%nat.
Proof. intros. unfold digits. pose proof (digits_acc_length (S (Z.to_nat (Z.log2 z))) base up z [] k); cbn in *; lia. Qed.

Lemma pad_length zero width sign body :
  length (pad zero width sign body) = Nat.max (default 0%nat width) (length sign + length body).
Proof. unfold pad. destruct zero; rewrite !length_app, repeat_length; lia. Qed.

(** A 64-bit integer takes at most 22 characters, or its width. *)
Lemma print_int_length conv zero width z :
  - 2 ^ 63 <= z < 2 ^ 64 -> (conv <> Clld -> 0 <= z) ->
  (length (print_int conv zero width z) <= Nat.max (default 0%nat width) 22)%nat.
Proof.
  intros Hz Hc.
  assert (forall base up y, 8 <= base -> 0 <= y < 2 ^ 64 -> (length (digits base up y) <= 22)%nat) as D.
  { intros base up y Hb Hy. apply digits_length; [lia| |lia]. split; [lia|].
    eapply Z.lt_le_trans; [apply Hy|]. transitivity (8 ^ Z.of_nat 22); [now compute|].
    apply Z.pow_le_mono_l. lia. }
  assert ((length (digits 10 false (Z.abs z)) <= 20)%nat) as D10.
  { apply digits_length; [lia| |lia]. split; [lia|]. change (10 ^ Z.of_nat 20) with 100000000000000000000. lia. }
  destruct conv; cbn [print_int]; rewrite pad_length;
    try (specialize (Hc ltac:(discriminate)); cbn [length];
         match goal with |- context [digits ?b ?u ?y] => pose proof (D b u y ltac:(lia) ltac:(lia)) end; lia).
  destruct (z <? 0); cbn [length]; lia.
Qed.

Lemma round_half_even_le num den k :
  0 < den -> num < k * den -> round_half_even num den <= k.
Proof.
  intros Hd Hn. unfold round_half_even.
  assert (num / den < k) by (apply Z.div_lt_upper_bound; lia). destruct (_ || _); lia.
Qed.

Lemma round_half_even_nonneg num den : 0 < den -> 0 <= num -> 0 <= round_half_even num den.
Proof. intros. unfold round_half_even. pose proof (Z.div_pos num den). destruct (_ || _); lia. Qed.

Lemma digits_padded_length n z :
  0 <= z < 10 ^ Z.of_nat n -> (0 < n)%nat -> length (digits_padded n z) = n.
Proof.
  intros Hz Hn. unfold digits_padded. rewrite length_app, repeat_length.
  pose proof (digits_length 10 false z n ltac:(lia) Hz Hn). lia.
Qed.

(** [N] with [p] decimals: the integer digits, the point, the decimals. *)
Lemma with_decimals_length p N k :
  0 <= N < 10 ^ Z.of_nat (p + k) -> (0 < k)%nat ->
  (length (with_decimals p N).1 <= k)%nat /\ length (with_decimals p N).2 = p.
Proof.
  intros HN Hk. pose proof (Z.pow_pos_nonneg 10 (Z.of_nat p) ltac:(lia) ltac:(lia)) as Hp.
  unfold with_decimals. cbn [fst snd]. split.
  - apply digits_length; [lia| |lia]. split; [apply Z.div_pos; lia|].
    apply Z.div_lt_upper_bound; [lia|]. rewrite <- Z.pow_add_r by lia.
    replace (Z.of_nat p + Z.of_nat k) with (Z.of_nat (p + k)) by lia. lia.
  - destruct (Nat.eqb_spec p 0) as [->|]; [done|]. apply digits_padded_length; [|lia].
    apply Z.mod_pos_bound. lia.
Qed.

Lemma join_decimals_length x : (length (join_decimals x) <= length x.1 + 1 + length x.2)%nat.
Proof. destruct x as [i [|c d]]; unfold join_decimals; cbn [fst snd]; rewrite ?length_app; cbn; lia. Qed.

Lemma strip_zeros_length d : (length (strip_zeros d) <= length d)%nat.
Proof.
  unfold strip_zeros. rewrite length_reverse, <- (length_reverse d).
  induction (reverse d) as [|c l IH]; cbn; [lia|]. destruct (c =? c_zero); cbn; lia.
Qed.

(** ** The decimal exponent of a double *)

Lemma exponent_between_spec fuel num den lo hi :
  lo < hi <= lo + 2 ^ Z.of_nat fuel -> reaches num den lo = true -> reaches num den hi = false ->
  let x := exponent_between fuel num den lo hi in
  lo <= x < hi /\ reaches num den x = true /\ reaches num den (x + 1) = false.
Proof.
  revert lo hi. induction fuel as [|fuel IH]; intros lo hi Hr Hlo Hhi; cbn [exponent_between].
  { cbn in Hr. replace hi with (lo + 1) in Hhi by lia. split_and!; try done; lia. }
  destruct (Z.leb_spec hi (lo + 1)).
  { replace hi with (lo + 1) in Hhi by lia. split_and!; try done; lia. }
  replace (Z.of_nat (S fuel)) with (Z.succ (Z.of_nat fuel)) in Hr by lia.
  rewrite Z.pow_succ_r in Hr by lia.
  pose proof (Z.div_mod (lo + hi) 2 ltac:(lia)). pose proof (Z.mod_pos_bound (lo + hi) 2 ltac:(lia)).
  destruct (reaches num den ((lo + hi) / 2)) eqn:E.
  - destruct (IH ((lo + hi) / 2) hi ltac:(lia) E Hhi) as (? & ? & ?). split_and!; try done; lia.
  - destruct (IH lo ((lo + hi) / 2) ltac:(lia) Hlo E) as (? & ? & ?). split_and!; try done; lia.
Qed.

(** The numbers a double can be: what [decode_double] returns. *)
Definition double_range (m e : Z) : Prop := 0 <= m < 2 ^ 53 /\ -1074 <= e <= 971.

Lemma decode_double_range bits neg m e :
  decode_double bits = Finite neg m e -> double_range m e.
Proof.
  unfold decode_double, double_range.
  assert (0 <= Z.land (Z.shiftr bits 52) 2047 < 2 ^ 11) as Hx.
  { change 2047 with (Z.ones 11). rewrite Z.land_ones by lia. apply Z.mod_pos_bound; lia. }
  assert (0 <= Z.land bits (2 ^ 52 - 1) < 2 ^ 52) as Hf.
  { change (2 ^ 52 - 1) with (Z.ones 52). rewrite Z.land_ones by lia. apply Z.mod_pos_bound; lia. }
  set (ex := Z.land (Z.shiftr bits 52) 2047) in *. set (fr := Z.land bits (2 ^ 52 - 1)) in *.
  clearbody ex fr. change (2 ^ 11) with 2048 in Hx. change (2 ^ 52) with 4503599627370496 in *.
  change (2 ^ 53) with 9007199254740992.
  case_ifs; intros [= <- <- <-]; zbool; lia.
Qed.

Lemma fraction_range m e :
  double_range m e -> m <> 0 ->
  let '(num, den) := fraction m e in
  0 < num < 2 ^ 1024 /\ 0 < den <= 2 ^ 1074 /\ 1 <= num.
Proof.
  intros [Hm He] H0. unfold fraction.
  assert (1 <= 2 ^ Z.max e 0 <= 2 ^ 971) as Hn.
  { split; [change 1 with (2 ^ 0)|]; apply Z.pow_le_mono_r; lia. }
  assert (1 <= 2 ^ Z.max (- e) 0 <= 2 ^ 1074) as Hd.
  { split; [change 1 with (2 ^ 0)|]; apply Z.pow_le_mono_r; lia. }
  replace (2 ^ 1024) with (2 ^ 53 * 2 ^ 971) by (rewrite <- Z.pow_add_r; [f_equal|..]; lia).
  split_and!; nia.
Qed.

Lemma decimal_exponent_spec m e :
  double_range m e -> m <> 0 ->
  let '(num, den) := fraction m e in
  let x := decimal_exponent num den in
  -330 <= x < 310 /\ num * 10 ^ Z.max (- x - 1) 0 < den * 10 ^ Z.max (x + 1) 0.
Proof.
  intros Hr H0. pose proof (fraction_range m e Hr H0) as Hf.
  destruct (fraction m e) as [num den]. destruct Hf as (Hn & Hd & _).
  destruct (exponent_between_spec 10 num den (-330) 310) as (Hx & _ & Hnot).
  - cbn. lia.
  - unfold reaches. cbn [Z.leb Z.compare]. apply Z.leb_le.
    transitivity (2 ^ 1074); [lia|]. transitivity (10 ^ 330); [now vm_compute|].
    change (- -330) with 330. pose proof (Z.pow_pos_nonneg 10 330 ltac:(lia) ltac:(lia)). nia.
  - unfold reaches. cbn [Z.leb Z.compare]. apply Z.leb_gt.
    apply Z.lt_le_trans with (2 ^ 1024); [lia|]. transitivity (10 ^ 310); [now vm_compute|].
    pose proof (Z.pow_pos_nonneg 10 310 ltac:(lia) ltac:(lia)). nia.
  - fold (decimal_exponent num den) in *. set (x := decimal_exponent num den) in *.
    split; [lia|]. unfold reaches in Hnot. destruct (Z.leb_spec 0 (x + 1)); apply Z.leb_gt in Hnot.
    + rewrite (Z.max_l (x + 1)), (Z.max_r (- x - 1)) by lia. rewrite Z.pow_0_r. lia.
    + rewrite (Z.max_r (x + 1)), (Z.max_l (- x - 1)) by lia. rewrite Z.pow_0_r.
      replace (- x - 1) with (- (x + 1)) by lia. lia.
Qed.

(** [num / den < 10^y], without fractions. *)
Definition below (num den y : Z) : Prop := num * 10 ^ Z.max (- y) 0 < den * 10 ^ Z.max y 0.

Lemma below_scale num den y k :
  below num den y -> 0 <= k + y ->
  num * 10 ^ Z.max k 0 < 10 ^ (k + y) * (den * 10 ^ Z.max (- k) 0).
Proof.
  unfold below. intros H Hk.
  assert (forall a, 0 <= a -> 0 < 10 ^ a) as Hpos by (intros; apply Z.pow_pos_nonneg; lia).
  destruct (Z.leb_spec y 0).
  - rewrite (Z.max_r y), (Z.max_l (- y)), Z.pow_0_r in H by lia.
    rewrite (Z.max_l k), (Z.max_r (- k)), Z.pow_0_r by lia.
    replace (10 ^ k) with (10 ^ (- y) * 10 ^ (k + y)) by (rewrite <- Z.pow_add_r by lia; f_equal; lia).
    specialize (Hpos (k + y) Hk). nia.
  - rewrite (Z.max_l y), (Z.max_r (- y)), Z.pow_0_r in H by lia. destruct (Z.leb_spec 0 k).
    + rewrite (Z.max_l k), (Z.max_r (- k)), Z.pow_0_r by lia. rewrite Z.pow_add_r by lia.
      specialize (Hpos k ltac:(lia)). nia.
    + rewrite (Z.max_r k), (Z.max_l (- k)), Z.pow_0_r by lia.
      replace (10 ^ y) with (10 ^ (k + y) * 10 ^ (- k)) in H by (rewrite <- Z.pow_add_r by lia; f_equal; lia). lia.
Qed.

Lemma below_succ num den y : 0 < num -> 0 < den -> below num den y -> below num den (y + 1).
Proof.
  unfold below. intros Hn Hd H. destruct (Z.leb_spec 0 y).
  - rewrite (Z.max_l (y + 1)), (Z.max_r (- (y + 1))) by lia. rewrite (Z.max_l y), (Z.max_r (- y)) in H by lia.
    replace (10 ^ (y + 1)) with (10 ^ y * 10) by (rewrite Z.pow_add_r by lia; lia).
    pose proof (Z.pow_pos_nonneg 10 y ltac:(lia) ltac:(lia)). nia.
  - rewrite (Z.max_r (y + 1)), (Z.max_l (- (y + 1))) by lia. rewrite (Z.max_r y), (Z.max_l (- y)) in H by lia.
    replace (10 ^ (- y)) with (10 ^ (- (y + 1)) * 10) in H by (change 10 with (10 ^ 1) at 2; rewrite <- Z.pow_add_r by lia; f_equal; lia).
    pose proof (Z.pow_pos_nonneg 10 (- (y + 1)) ltac:(lia) ltac:(lia)). nia.
Qed.

(** [%.pe] keeps [p + 1] digits. *)
Lemma print_exp_spec p m e :
  double_range m e ->
  let '(n, x) := print_exp p m e in
  0 <= n < 10 ^ (Z.of_nat p + 1) /\ -330 <= x <= 310 /\
  (m <> 0 -> below (fraction m e).1 (fraction m e).2 (x + 1)).
Proof.
  intros Hr. unfold print_exp.
  assert (0 < 10 ^ Z.of_nat p) as Hpp by (apply Z.pow_pos_nonneg; lia).
  assert (10 ^ (Z.of_nat p + 1) = 10 * 10 ^ Z.of_nat p) as E10 by (rewrite Z.pow_add_r by lia; lia).
  destruct (Z.eqb_spec m 0) as [->|H0]; [split_and!; try done; lia|].
  pose proof (decimal_exponent_spec m e Hr H0) as Hx. pose proof (fraction_range m e Hr H0) as Hf.
  destruct (fraction m e) as [num den]. destruct Hf as (Hn & Hd & _). cbn zeta in Hx.
  set (x := decimal_exponent num den) in *. destruct Hx as [Hx Hlt].
  replace (- x - 1) with (- (x + 1)) in Hlt by lia. change (below num den (x + 1)) in Hlt.
  pose proof (below_scale num den (x + 1) (Z.of_nat p - x) Hlt ltac:(lia)) as Hs.
  replace (Z.of_nat p - x + (x + 1)) with (Z.of_nat p + 1) in Hs by lia.
  set (D := den * _) in *. set (M := num * 10 ^ Z.max (Z.of_nat p - x) 0) in *.
  assert (0 < D) as HD by (apply Z.mul_pos_pos; [lia|apply Z.pow_pos_nonneg; lia]).
  assert (0 <= M) as HM by (apply Z.mul_nonneg_nonneg; [lia|apply Z.pow_nonneg; lia]).
  pose proof (round_half_even_le M D _ HD Hs). pose proof (round_half_even_nonneg M D HD HM).
  destruct (Z.eqb_spec (round_half_even M D) (10 ^ (Z.of_nat p + 1))); cbn [fst snd]; split_and!; try lia.
  - intros _. apply below_succ; [lia|lia|done].
  - done.
Qed.

(** [%g] without a precision is never longer than 25 characters. *)
Lemma double_body_general_length up m e :
  double_range m e -> (length (double_body General up None m e) <= 24)%nat.
Proof.
  intros Hr. unfold double_body. cbn [from_option id Nat.eqb Nat.sub].
  pose proof (print_exp_spec 5 m e Hr) as Hn. destruct (print_exp 5 m e) as [n x].
  destruct Hn as (Hn & Hx & Hb). change (Z.of_nat 5 + 1) with 6 in Hn.
  destruct ((-4 <=? x) && (x <? Z.of_nat 6)) eqn:Ex; [apply andb_true_iff in Ex as [Ex1 Ex2]; zbool|].
  - set (p := Z.to_nat (Z.of_nat 6 - 1 - x)).
    assert (exists N, print_fixed p m e = with_decimals p N /\ 0 <= N <= 10 ^ 6) as (N & EN & HN).
    { unfold print_fixed. destruct (decide (m = 0)) as [->|H0].
      { unfold fraction. rewrite Z.mul_0_l. eexists. split; [done|].
        assert (0 < 2 ^ Z.max (- e) 0) by (apply Z.pow_pos_nonneg; lia).
        cbn [Z.mul]. pose proof (round_half_even_nonneg 0 (2 ^ Z.max (- e) 0)).
        pose proof (round_half_even_le 0 (2 ^ Z.max (- e) 0) 1). lia. }
      specialize (Hb H0). pose proof (fraction_range m e Hr H0) as Hf.
      destruct (fraction m e) as [num den]. cbn [fst snd] in Hb. destruct Hf as (Hnum & Hden & _).
      eexists. split; [done|].
      pose proof (below_scale _ _ _ (Z.of_nat p) Hb ltac:(lia)) as Hs.
      replace (Z.of_nat p + (x + 1)) with 6 in Hs by lia.
      rewrite Z.max_l, Z.max_r, Z.pow_0_r, Z.mul_1_r in Hs by lia.
      split; [|apply round_half_even_le; lia].
      apply round_half_even_nonneg; [lia|]. apply Z.mul_nonneg_nonneg; [lia|]. apply Z.pow_nonneg; lia. }
    rewrite EN. destruct (with_decimals_length p N 7) as [H1 H2].
    { split; [lia|]. eapply Z.le_lt_trans; [apply HN|]. apply Z.pow_lt_mono_r; lia. } { lia. }
    destruct (with_decimals p N) as [i d]. cbn [fst snd] in *.
    pose proof (join_decimals_length (i, strip_zeros d)) as Hj. pose proof (strip_zeros_length d).
    cbn [fst snd] in Hj. lia.
  - destruct (with_decimals_length 5 n 2) as [H1 H2]; [|lia|].
    { split; [lia|]. eapply Z.lt_trans; [apply Hn|]. now vm_compute. }
    destruct (with_decimals 5 n) as [i d]. cbn [fst snd] in *.
    pose proof (join_decimals_length (i, strip_zeros d)) as Hj. pose proof (strip_zeros_length d).
    cbn [fst snd] in Hj. rewrite length_app. unfold exponent_text, digits_padded.
    rewrite !length_app, repeat_length. cbn [length].
    pose proof (digits_length 10 false (Z.abs x) 3 ltac:(lia) ltac:(change (10 ^ Z.of_nat 3) with 1000; lia) ltac:(lia)).
    lia.
Qed.

Lemma print_g_length bits : (length (print_double General false false None None bits) <= 25)%nat.
Proof.
  unfold print_double, print_decoded. destruct (decode_double bits) as [neg m e|neg|neg] eqn:E; rewrite pad_length.
  - pose proof (double_body_general_length false m e (decode_double_range _ _ _ _ E)).
    destruct neg; cbn [length from_option]; lia.
  - now destruct neg; cbn; lia.
  - now destruct neg; cbn; lia.
Qed.

(** ** Reading decimal digits back *)

Definition is_digit (c : Z) : Prop := c_zero <= c <= c_zero + 9.

Definition dec_value (ds : bytes) : Z := fold_left (fun a c => 10 * a + (c - c_zero)) ds 0.

Lemma dec_value_app a b : dec_value (a ++ b) = dec_value a * 10 ^ Z.of_nat (length b) + dec_value b.
Proof.
  assert (forall b x, fold_left (fun a c => 10 * a + (c - c_zero)) b x = x * 10 ^ Z.of_nat (length b) + dec_value b) as H.
  { clear. unfold dec_value. induction b as [|c b IH]; intros x; cbn [fold_left length]; [cbn; lia|].
    rewrite Nat2Z.inj_succ, Z.pow_succ_r by lia. rewrite IH, (IH (10 * 0 + _)). lia. }
  unfold dec_value. rewrite fold_left_app. apply H.
Qed.

(** A decimal integer as it is written: no empty text, no leading zero. *)
Definition decimal_text (ds : bytes) (z : Z) : Prop :=
  Forall is_digit ds /\ dec_value ds = z /\ exists c ds', ds = c :: ds' /\ (c = c_zero -> ds' = []).

Lemma digit_char_10 d : 0 <= d < 10 -> digit_char false d = c_zero + d.
Proof. intros H. unfold digit_char. destruct (Z.ltb_spec d 10); lia. Qed.

Lemma digits_acc_decimal fuel z acc :
  0 <= z < 10 ^ Z.of_nat fuel -> (0 < fuel)%nat ->
  exists ds, digits_acc fuel 10 false z acc = ds ++ acc /\ decimal_text ds z.
Proof.
  revert z acc. induction fuel as [|fuel IH]; intros z acc Hz Hf; [lia|]. cbn [digits_acc].
  pose proof (Z.mod_pos_bound z 10 ltac:(lia)) as Hm. rewrite digit_char_10 by done.
  assert (is_digit (c_zero + z mod 10)) as Hd by (unfold is_digit, c_zero; lia).
  destruct (Z.ltb_spec z 10) as [Hlt|Hge].
  - exists [c_zero + z mod 10]. split; [done|]. split_and!; [by constructor| |by eexists _, _].
    unfold dec_value. cbn [fold_left]. rewrite Z.mod_small; lia.
  - destruct fuel as [|fuel]; [cbn in Hz; lia|].
    assert (0 <= z / 10 < 10 ^ Z.of_nat (S fuel)) as Hq.
    { split; [apply Z.div_pos; lia|]. apply Z.div_lt_upper_bound; [lia|].
      rewrite <- Z.pow_succ_r by lia. rewrite <- Nat2Z.inj_succ. apply Hz. }
    destruct (IH (z / 10) ((c_zero + z mod 10) :: acc) Hq ltac:(lia)) as (ds & E & H1 & H2 & c & ds' & Ec & H3).
    exists (ds ++ [c_zero + z mod 10]). split; [by rewrite E, <- app_assoc|]. split_and!.
    + apply Forall_app; split; [done|by constructor].
    + rewrite dec_value_app, H2. unfold dec_value. cbn [fold_left length]. pose proof (Z.div_mod z 10). lia.
    + exists c, (ds' ++ [c_zero + z mod 10]). split; [by rewrite Ec|]. intros ->. exfalso.
      rewrite (H3 eq_refl) in Ec. rewrite Ec in H2. cbn in H2. pose proof (Z.div_mod z 10). lia.
Qed.

Lemma digits_decimal z : 0 <= z -> decimal_text (digits 10 false z) z.
Proof.
  intros Hz. unfold digits.
  destruct (digits_acc_decimal (S (Z.to_nat (Z.log2 z))) z []) as (ds & E & H); [|lia|].
  - split; [done|]. destruct (decide (z = 0)) as [->|]; [done|].
    rewrite Nat2Z.inj_succ, Z2Nat.id by apply Z.log2_nonneg.
    destruct (Z.log2_spec z ltac:(lia)) as [_ H]. eapply Z.lt_le_trans; [exact H|].
    apply Z.pow_le_mono_l. lia.
  - rewrite E, app_nil_r. done.
Qed.
