(* ===== verification/ArgPack.v ===== *)
(** * Severities, and the deferred-format argument pack

    src/include/xmbase/telemetry/binding.hpp: the enumerations, and the pack
    that carries the copied arguments of an event (up to 8 of them in a
    160-byte buffer).  [PackArgs] is proved to keep exactly the arguments a
    greedy fit keeps, in order, and to stay inside its buffer. *)

From Stdlib Require Import ZArith Lia String.
From stdpp Require Import base list numbers relations.
From S2P Require Import Prelude Printf.

Local Open Scope Z_scope.

(** ** Enumerations *)

Inductive Severity := kTrace | kDebug | kInfo | kWarn | kError | kFatal | kOff.
Inductive HealthState := kOk | kDegraded | kFault | kDisconnected.

#[export] Instance Severity_eq_dec : EqDecision Severity.
Proof. solve_decision. Defined.
#[export] Instance HealthState_eq_dec : EqDecision HealthState.
Proof. solve_decision. Defined.

(** [static_cast<std::uint8_t>(sev)]. *)
Definition severity_u8 (s : Severity) : Z :=
  match s with
  | kTrace => 0 | kDebug => 1 | kInfo => 2 | kWarn => 3 | kError => 4 | kFatal => 5 | kOff => 6
  end.

(** [static_cast<Severity>(n)] for the values the code stores. *)
Definition severity_of (n : Z) : Severity :=
  if n =? 0 then kTrace else if n =? 1 then kDebug else if n =? 2 then kInfo else
  if n =? 3 then kWarn else if n =? 4 then kError else if n =? 5 then kFatal else kOff.

Lemma severity_of_u8 s : severity_of (severity_u8 s) = s.
Proof. now destruct s. Qed.
#[export] Hint Rewrite severity_of_u8 : xm_rew.

(** ** The pack *)

Inductive ArgType := kBool | kI64 | kU64 | kF64 | kStr.

Definition kMaxArgs : Z := 8.
Definition kBufBytes : Z := 160.

Record ArgPack := mkArgPack {
  count : Z;
  types : list ArgType;
  offsets : list Z;
  lens : list Z;
  used : Z;
  buf : bytes
}.

Definition ArgPack_ctor : ArgPack :=
  mkArgPack 0 (repeat kBool 8) (repeat 0 8) (repeat 0 8) 0 (repeat 0 160).

(** [std::memcpy(buf + at, bs, n)]. *)
Definition memcpy_at (at_ : nat) (bs b : bytes) : bytes :=
  take at_ b ++ bs ++ drop (at_ + length bs) b.

(** [PutRaw]: the pack after the call (unchanged when it returns false). *)
Definition PutRaw (p : ArgPack) (t : ArgType) (bs : bytes) (display_len : Z) : ArgPack * bool :=
  let n := Z.of_nat (length bs) in
  if (kMaxArgs <=? count p) || (kBufBytes <? used p + n) then (p, false) else
  (mkArgPack (u8 (count p + 1))
     (<[Z.to_nat (count p) := t]> (types p))
     (<[Z.to_nat (count p) := used p]> (offsets p))
     (<[Z.to_nat (count p) := u8 display_len]> (lens p))
     (u8 (used p + n))
     (memcpy_at (Z.to_nat (used p)) bs (buf p)), true).

(** [PackStr]: a long string is cut to the room left and to 255 bytes. *)
Definition PackStr (p : ArgPack) (v : bytes) : ArgPack :=
  let n := Z.of_nat (length v) in
  let n := if kBufBytes <? used p + n then kBufBytes - used p else n in
  let n := if 255 <? n then 255 else n in
  fst (PutRaw p kStr (take (Z.to_nat n) v) n).

(** The argument types [PackOne] accepts; a float is its binary64 pattern. *)
Inductive arg :=
  | ABool (b : bool)
  | ACharArray (s : bytes)
  | ACString (s : option bytes)
  | ASigned (z : Z)
  | AUnsigned (z : Z)
  | AFloat (bits : Z)
  | AView (s : bytes).

Definition PackOne (p : ArgPack) (v : arg) : ArgPack :=
  match v with
  | ABool b => fst (PutRaw p kBool [if b then 1 else 0] 0)
  | ACharArray s => PackStr p (c_str s)
  | ACString s => PackStr p (match s with None => bytes_of_string "(null)" | Some s => c_str s end)
  | ASigned w => fst (PutRaw p kI64 (le_bytes 8 w) 0)
  | AUnsigned w => fst (PutRaw p kU64 (le_bytes 8 w) 0)
  | AFloat w => fst (PutRaw p kF64 (le_bytes 8 w) 0)
  | AView s => PackStr p s
  end.

Definition PackArgs (args : list arg) : ArgPack := fold_left PackOne args ArgPack_ctor.

(** ** What a consumer reads back *)

Inductive value :=
  | VBool (b : bool)
  | VI64 (z : Z)
  | VU64 (z : Z)
  | VF64 (bits : Z)
  | VStr (s : bytes).

Definition bytes_at (p : ArgPack) (i n : nat) : bytes :=
  take n (drop (Z.to_nat (default 0 (offsets p !! i))) (buf p)).

(** The [memcpy] of the consumers' [switch (p.types[i])]. *)
Definition arg_at (p : ArgPack) (i : nat) : value :=
  match default kBool (types p !! i) with
  | kBool => VBool (negb (le_word (bytes_at p i 1) =? 0))
  | kI64 => VI64 (sint 64 (le_word (bytes_at p i 8)))
  | kU64 => VU64 (le_word (bytes_at p i 8))
  | kF64 => VF64 (le_word (bytes_at p i 8))
  | kStr => VStr (bytes_at p i (Z.to_nat (default 0 (lens p !! i))))
  end.

Definition unpack (p : ArgPack) : list value :=
  map (arg_at p) (seq 0 (Z.to_nat (count p))).

(** ** The specification: a greedy fit *)

Definition value_type (v : value) : ArgType :=
  match v with VBool _ => kBool | VI64 _ => kI64 | VU64 _ => kU64 | VF64 _ => kF64 | VStr _ => kStr end.

Definition encode (v : value) : bytes :=
  match v with
  | VBool b => [if b then 1 else 0]
  | VI64 z | VU64 z | VF64 z => le_bytes 8 z
  | VStr s => s
  end.

(** The value an argument stands for, before any truncation. *)
Definition value_of (a : arg) : value :=
  match a with
  | ABool b => VBool b
  | ACharArray s => VStr (c_str s)
  | ACString None => VStr (bytes_of_string "(null)")
  | ACString (Some s) => VStr (c_str s)
  | ASigned z => VI64 z
  | AUnsigned z => VU64 z
  | AFloat z => VF64 z
  | AView s => VStr s
  end.

(** With [room] bytes left, a string is cut to the room, anything else must fit. *)
Definition fit (room : nat) (v : value) : option value :=
  match v with
  | VStr s => Some (VStr (take room s))
  | _ => if (length (encode v) <=? room)%nat then Some v else None
  end.

Fixpoint kept (slots room : nat) (vs : list value) : list value :=
  match vs with
  | [] => []
  | v :: vs =>
      match slots, fit room v with
      | S slots', Some v' => v' :: kept slots' (room - length (encode v')) vs
      | _, _ => kept slots room vs
      end
  end.

(** The arguments a program can write. *)
Definition value_ok (v : value) : Prop :=
  match v with
  | VBool _ => True
  | VI64 z => - 2 ^ 63 <= z < 2 ^ 63
  | VU64 z | VF64 z => in_width 64 z
  | VStr s => True
  end.

(** ** The pack's invariant *)

(** A pack that holds the values [vs]: they sit one after the other in the
    buffer, each slot says where and of which type. *)
Record holds (p : ArgPack) (vs : list value) : Prop := {
  h_count : count p = Z.of_nat (length vs);
  h_slots : (length vs <= 8)%nat;
  h_types : take (length vs) (types p) = map value_type vs;
  h_offsets : forall i, (i < length vs)%nat ->
    offsets p !! i = Some (Z.of_nat (length (concat (map encode (take i vs)))));
  h_lens : forall i s, vs !! i = Some (VStr s) -> lens p !! i = Some (Z.of_nat (length s));
  h_used : used p = Z.of_nat (length (concat (map encode vs)));
  h_room : (length (concat (map encode vs)) <= 160)%nat;
  h_buf : take (length (concat (map encode vs))) (buf p) = concat (map encode vs);
  h_sizes : length (types p) = 8%nat /\ length (offsets p) = 8%nat /\
            length (lens p) = 8%nat /\ length (buf p) = 160%nat
}.

Abbreviation image vs := (concat (map encode vs)).

Lemma image_snoc vs v : image (vs ++ [v]) = image vs ++ encode v.
Proof. now rewrite map_app, concat_app; cbn; rewrite app_nil_r. Qed.
#[export] Hint Rewrite image_snoc : xm_rew.

Lemma holds_ctor : holds ArgPack_ctor [].
Proof. split; cbn; try done; try lia. Qed.
#[export] Hint Resolve holds_ctor : xm.

Definition display_len (v : value) : Z :=
  match v with VStr s => Z.of_nat (length s) | _ => 0 end.

Lemma take_S_insert {A} (l : list A) n x :
  (n < length l)%nat -> take (S n) (<[n := x]> l) = take n l ++ [x].
Proof.
  intros H. rewrite (take_S_r _ _ x) by (rewrite list_lookup_insert_eq; done).
  now rewrite take_insert_ge by lia.
Qed.

Lemma take_memcpy_at n bs b :
  (n + length bs <= length b)%nat ->
  take (n + length bs) (memcpy_at n bs b) = take n b ++ bs /\ length (memcpy_at n bs b) = length b.
Proof.
  intros H. unfold memcpy_at. rewrite app_assoc. split.
  - apply take_app_length'. rewrite length_app, length_take. lia.
  - rewrite !length_app, length_take, length_drop. lia.
Qed.

(** The one mutation of the pack: a value with room and a free slot is
    appended, and one without changes nothing. *)
Lemma PutRaw_holds p vs v :
  holds p vs -> (length vs < 8)%nat -> (length (image vs) + length (encode v) <= 160)%nat ->
  holds (fst (PutRaw p (value_type v) (encode v) (display_len v))) (vs ++ [v]).
Proof.
  intros [Hc Hs Ht Ho Hl Hu Hr Hb (L1 & L2 & L3 & L4)] Hlt Hfit.
  unfold PutRaw, kMaxArgs, kBufBytes. rewrite Hc, Hu.
  replace (8 <=? Z.of_nat (length vs)) with false by (symmetry; apply Z.leb_gt; lia).
  replace (160 <? _) with false by (symmetry; apply Z.ltb_ge; lia). cbn [orb fst].
  rewrite !Nat2Z.id. unfold wrap.
  destruct (take_memcpy_at (length (image vs)) (encode v) (buf p)) as [Hm1 Hm2]; [lia|].
  split; cbn [count types offsets lens used buf].
  - rewrite Z.mod_small, length_app by lia. cbn. lia.
  - rewrite length_app. cbn. lia.
  - rewrite length_app, Nat.add_comm. cbn [length Nat.add]. rewrite take_S_insert by lia.
    now rewrite Ht, map_app.
  - intros i. rewrite length_app. cbn. intros Hi.
    destruct (decide (i = length vs)) as [->|Hne].
    + rewrite list_lookup_insert_eq by lia. now rewrite take_app_length.
    + rewrite list_lookup_insert_ne, take_app_le by lia. apply Ho. lia.
  - intros i s. destruct (decide (i = length vs)) as [->|Hne].
    + rewrite lookup_snoc_last. intros [= ->]. rewrite list_lookup_insert_eq by lia.
      cbn in *. rewrite Z.mod_small by lia. done.
    + intros Hi. rewrite list_lookup_insert_ne by lia. apply Hl.
      rewrite lookup_app_l in Hi; [done|]. apply lookup_lt_Some in Hi. rewrite length_app in Hi. cbn in Hi. lia.
  - rewrite image_snoc, length_app, Z.mod_small by lia. lia.
  - rewrite image_snoc, length_app. lia.
  - rewrite image_snoc, length_app, Hm1. now rewrite Hb.
  - rewrite !length_insert, Hm2. done.
Qed.

Lemma PutRaw_refused p vs t bs d :
  holds p vs -> (length vs = 8 \/ 160 < length (image vs) + length bs)%nat -> fst (PutRaw p t bs d) = p.
Proof.
  intros [Hc Hs _ _ _ Hu _ _ _] H. unfold PutRaw, kMaxArgs, kBufBytes. rewrite Hc, Hu.
  case_ifs; [done|]. zbool. lia.
Qed.

(** Every argument type goes through the same step. *)
Lemma PackStr_PutRaw p vs s :
  holds p vs ->
  PackStr p s = fst (PutRaw p kStr (take (160 - length (image vs)) s)
                       (Z.of_nat (length (take (160 - length (image vs)) s)))).
Proof.
  intros [_ _ _ _ _ Hu Hr _ _]. unfold PackStr, kBufBytes. rewrite Hu.
  set (m := if 160 <? _ then _ else _).
  assert (m = Z.of_nat (length (take (160 - length (image vs)) s))) as Em
    by (subst m; rewrite length_take; case_ifs; zbool; lia).
  rewrite Em. replace (255 <? _) with false by (symmetry; apply Z.ltb_ge; rewrite length_take; lia).
  rewrite Nat2Z.id. do 2 f_equal. rewrite length_take.
  destruct (decide (length s <= 160 - length (image vs))%nat); [rewrite !take_ge; try done; lia|].
  f_equal; lia.
Qed.

Lemma PackOne_step p vs a :
  holds p vs ->
  match fit (160 - length (image vs)) (value_of a) with
  | Some v => if (length vs <? 8)%nat then holds (PackOne p a) (vs ++ [v]) else PackOne p a = p
  | None => PackOne p a = p
  end.
Proof.
  intros Hp. pose proof (h_slots _ _ Hp) as Hs. pose proof (h_room _ _ Hp) as Hr.
  assert (forall s, if (length vs <? 8)%nat
            then holds (PackStr p s) (vs ++ [VStr (take (160 - length (image vs)) s)])
            else PackStr p s = p) as Hstr.
  { intros s. rewrite (PackStr_PutRaw p vs s Hp).
    pose proof (length_take s (160 - length (image vs))) as Hl.
    set (s' := take _ s) in *. clearbody s'. destruct (Nat.ltb_spec (length vs) 8).
    - apply (PutRaw_holds p vs (VStr _) Hp); [lia|]. cbn [encode]. lia.
    - apply (PutRaw_refused p vs); [done|]. left. lia. }
  assert (forall v, display_len v = 0 ->
            if (length (encode v) <=? 160 - length (image vs))%nat then
              if (length vs <? 8)%nat then holds (fst (PutRaw p (value_type v) (encode v) 0)) (vs ++ [v])
              else fst (PutRaw p (value_type v) (encode v) 0) = p
            else fst (PutRaw p (value_type v) (encode v) 0) = p) as Hput.
  { intros v Hd. rewrite <- Hd. destruct (Nat.leb_spec (length (encode v)) (160 - length (image vs))).
    - destruct (Nat.ltb_spec (length vs) 8).
      + apply PutRaw_holds; [done|lia|lia].
      + apply (PutRaw_refused p vs); [done|lia].
    - apply (PutRaw_refused p vs); [done|lia]. }
  destruct a as [b|s|[s|]|z|z|z|s]; cbn [fit value_of PackOne]; try apply Hstr.
  - specialize (Hput (VBool b) eq_refl). cbn [value_type encode] in *. destruct (_ <=? _)%nat; done.
  - specialize (Hput (VI64 z) eq_refl). cbn [value_type encode] in *. destruct (_ <=? _)%nat; done.
  - specialize (Hput (VU64 z) eq_refl). cbn [value_type encode] in *. destruct (_ <=? _)%nat; done.
  - specialize (Hput (VF64 z) eq_refl). cbn [value_type encode] in *. destruct (_ <=? _)%nat; done.
Qed.

Lemma PackArgs_holds_from args p vs :
  holds p vs ->
  holds (fold_left PackOne args p)
        (vs ++ kept (8 - length vs) (160 - length (image vs)) (map value_of args)).
Proof.
  revert p vs. induction args as [|a args IH]; intros p vs Hp; cbn [fold_left map kept].
  { now rewrite app_nil_r. }
  pose proof (PackOne_step p vs a Hp) as Hs. pose proof (h_slots _ _ Hp) as Hn.
  destruct (fit _ (value_of a)) as [v|] eqn:Ef.
  - destruct (Nat.ltb_spec (length vs) 8) as [Hlt|Hge].
    + destruct (8 - length vs)%nat as [|k] eqn:Ek; [lia|].
      specialize (IH _ _ Hs). rewrite image_snoc, length_app, length_app in IH. cbn [length] in IH.
      replace (8 - (length vs + 1))%nat with k in IH by lia.
      rewrite Nat.sub_add_distr, <- app_assoc in IH. apply IH.
    + rewrite Hs. replace (8 - length vs)%nat with O by lia. specialize (IH _ _ Hp).
      replace (8 - length vs)%nat with O in IH by lia. done.
  - rewrite Hs. destruct (8 - length vs)%nat eqn:Ek; specialize (IH _ _ Hp); rewrite Ek in IH; done.
Qed.

Lemma PackArgs_holds args : holds (PackArgs args) (kept 8 160 (map value_of args)).
Proof. apply (PackArgs_holds_from args ArgPack_ctor []), holds_ctor. Qed.
#[export] Hint Resolve PackArgs_holds : xm.

(** Reading a slot gives the value back. *)
Lemma encode_at p vs i v :
  holds p vs -> vs !! i = Some v -> bytes_at p i (length (encode v)) = encode v.
Proof.
  intros [_ _ _ Ho _ _ Hr Hb _] Hi. unfold bytes_at.
  pose proof (lookup_lt_Some _ _ _ Hi) as Hlt.
  rewrite (Ho i Hlt). cbn [from_option id]. rewrite Nat2Z.id.
  assert (image vs = image (take i vs) ++ encode v ++ image (drop (S i) vs)) as E.
  { rewrite <- (take_drop_middle vs i v Hi) at 1. rewrite map_app, concat_app. done. }
  rewrite <- (take_drop (length (image vs)) (buf p)), Hb, E at 1.
  rewrite <- !app_assoc, drop_app_length, take_app_length. done.
Qed.

Lemma arg_at_holds p vs i v :
  holds p vs -> Forall value_ok vs -> vs !! i = Some v -> arg_at p i = v.
Proof.
  intros Hp Hok Hi. pose proof (encode_at p vs i v Hp Hi) as He.
  pose proof (lookup_lt_Some _ _ _ Hi) as Hlt.
  assert (types p !! i = Some (value_type v)) as Ht.
  { rewrite <- (lookup_take_lt _ (length vs)) by done. rewrite (h_types _ _ Hp), list_lookup_fmap, Hi. done. }
  pose proof (Forall_lookup_1 _ _ _ _ Hok Hi) as Hv.
  unfold arg_at. rewrite Ht. destruct v as [b|z|z|z|s]; cbn [value_type from_option id value_ok] in *.
  - change (length (encode (VBool b))) with 1%nat in He. rewrite He. cbn. now destruct b.
  - change (length (encode (VI64 z))) with 8%nat in He. rewrite He. cbn [encode].
    rewrite le_word_le_bytes. change (8 * Z.of_nat 8) with 64. rewrite sint_wrap, <- (sint_wrap 64 z), sint_of_signed by lia. done.
  - change (length (encode (VU64 z))) with 8%nat in He. rewrite He. cbn [encode].
    rewrite le_word_le_bytes. now rewrite wrap_id.
  - change (length (encode (VF64 z))) with 8%nat in He. rewrite He. cbn [encode].
    rewrite le_word_le_bytes. now rewrite wrap_id.
  - rewrite (h_lens _ _ Hp i s Hi). cbn [from_option id]. rewrite Nat2Z.id. f_equal. apply He.
Qed.

Lemma unpack_holds p vs : holds p vs -> Forall value_ok vs -> unpack p = vs.
Proof.
  intros Hp Hok. unfold unpack. rewrite (h_count _ _ Hp), Nat2Z.id.
  apply list_eq. intros i. rewrite list_lookup_fmap.
  destruct (vs !! i) as [v|] eqn:Hi.
  - rewrite lookup_seq_nat by (eapply lookup_lt_Some; done). cbn. f_equal. eapply arg_at_holds; done.
  - apply lookup_ge_None in Hi. rewrite lookup_seq_ge by done. done.
Qed.

Lemma fit_ok room v v' : value_ok v -> fit room v = Some v' -> value_ok v'.
Proof.
  destruct v; cbn [fit]; intros H E; try (destruct (_ <=? _)%nat; [|done]); injection E as <-; done.
Qed.

Lemma kept_ok slots room vs : Forall value_ok vs -> Forall value_ok (kept slots room vs).
Proof.
  intros H. revert slots room. induction H as [|v vs Hv _ IH]; intros slots room; cbn; [constructor|].
  destruct slots as [|k]; [apply IH|]. destruct (fit room v) eqn:E; [|apply IH].
  constructor; [eapply fit_ok; eauto|apply IH].
Qed.

Lemma kept_all slots room vs :
  (length vs <= slots)%nat -> (length (image vs) <= room)%nat -> kept slots room vs = vs.
Proof.
  revert slots room. induction vs as [|v vs IH]; intros slots room Hs Hr; [done|].
  cbn in *. rewrite length_app in Hr. destruct slots as [|k]; [lia|].
  assert (fit room v = Some v) as ->.
  { destruct v; cbn [fit encode] in *; try (rewrite (proj2 (Nat.leb_le _ _)) by lia; done).
    rewrite take_ge by lia. done. }
  f_equal. apply IH; lia.
Qed.

(** C9: What an event carries is exactly what a greedy fit keeps: the consumer
    that reads the pack back finds, in order, the arguments that fitted (8 slots
    and 160 bytes; a string cut to the room left, anything else kept whole or
    dropped), with every integer, double pattern and string intact; the slots and
    the bytes of every slot lie inside the pack. *)
Theorem pack_roundtrip (args : list arg) :
  Forall (fun a => value_ok (value_of a)) args ->
  unpack (PackArgs args) = kept 8 160 (map value_of args) /\
  ((length args <= 8)%nat -> (length (image (map value_of args)) <= 160)%nat ->
   unpack (PackArgs args) = map value_of args) /\
  0 <= count (PackArgs args) <= kMaxArgs /\
  used (PackArgs args) <= kBufBytes /\
  (forall i v, unpack (PackArgs args) !! i = Some v ->
     exists o, offsets (PackArgs args) !! i = Some o /\
       0 <= o /\ o + Z.of_nat (length (encode v)) <= used (PackArgs args)).
Proof.
  intros Hok. pose proof (PackArgs_holds args) as Hp.
  assert (unpack (PackArgs args) = kept 8 160 (map value_of args)) as E
    by (apply unpack_holds, kept_ok, Forall_map, Hok; done).
  rewrite E. split_and!; try done.
  - intros Hn Hr. apply kept_all; [rewrite length_map|]; done.
  - rewrite (h_count _ _ Hp). lia.
  - rewrite (h_count _ _ Hp). pose proof (h_slots _ _ Hp). unfold kMaxArgs. lia.
  - rewrite (h_used _ _ Hp). pose proof (h_room _ _ Hp). unfold kBufBytes. lia.
  - intros i v Hi. pose proof (lookup_lt_Some _ _ _ Hi) as Hlt.
    rewrite (h_offsets _ _ Hp i Hlt). eexists; split; [done|]. split; [lia|].
    rewrite (h_used _ _ Hp). set (vs := kept _ _ _) in *.
    rewrite <- (take_drop_middle vs i v Hi) at 2. rewrite map_app, concat_app, length_app. cbn. rewrite length_app. lia.
Qed.

(** The five kinds of argument, and a string cut by the bytes left. *)
Lemma pack_roundtrip_witness :
  unpack (PackArgs [ASigned (-7); AView (repeat 65 200); AUnsigned 5; ABool true]) =
    [VI64 (-7); VStr (repeat 65 152)] /\
  used (PackArgs [ASigned (-7); AView (repeat 65 200); AUnsigned 5; ABool true]) <= kBufBytes.
Proof.
  destruct (pack_roundtrip [ASigned (-7); AView (repeat 65 200); AUnsigned 5; ABool true]) as (E & _ & _ & Hu & _).
  { repeat constructor; cbn; unfold in_width; lia. }
  split; [rewrite E; reflexivity|exact Hu].
Defined.

(** Once an argument is dropped, the ones after it that still fit move up a
    slot, so a placeholder shows the value of a later argument: of
    [(152-byte string, 1, true)] the integer is dropped and the second slot
    holds the boolean. *)
Theorem dropped_argument_shifts :
  unpack (PackArgs [AView (repeat 65 153); ASigned 1; ABool true]) = [VStr (repeat 65 153); VBool true] /\
  count (PackArgs [AView (repeat 65 153); ASigned 1; ABool true]) = 2.
Proof. split; vm_compute; reflexivity. Qed.
