(* ===== verification/Format.v ===== *)
(** * Placeholder formats: what both formatters mean

    The two formatters of the library (the unbound one in
    src/src/telemetry_unbound.cpp and the console one in
    src/src/telemetry_console_binding.cpp) scan a format once and append to a
    bounded buffer.  This file has their shared reading of a format as pieces
    ([pieces]), the text those pieces stand for ([fill]), the bounded append and
    the argument texts, with the lemmas both refinement proofs use. *)

From Stdlib Require Import ZArith Lia String.
From stdpp Require Import base list numbers relations.
From S2P Require Import Prelude Printf ArgPack.

Local Open Scope Z_scope.

Definition lbrace : Z := 123.
Definition rbrace : Z := 125.

(** [for (i < n && len < cap - 1) out[len++] = s[i]]: [limit] is [cap - 1]. *)
Fixpoint AppendRaw (limit : nat) (out s : bytes) : bytes :=
  match s with
  | [] => out
  | c :: s => if (length out <? limit)%nat then AppendRaw limit (out ++ [c]) s else out
  end.

(** The scan of a placeholder up to its closing brace: the text passed over and what
    follows the brace; [None] when the format ends first. *)
Fixpoint to_close (s : bytes) : option (bytes * bytes) :=
  match s with
  | [] => None
  | c :: s =>
      if c =? rbrace then Some ([], s) else
      match to_close s with Some (b, r) => Some (c :: b, r) | None => None end
  end.

(** ** The specification *)

Inductive piece := Lit (c : Z) | Hole (body : bytes).

(** [hole] holds the text of the placeholder being read.  An unterminated
    placeholder drops the tail. *)
Fixpoint pieces (hole : option bytes) (fmt : bytes) : list piece :=
  match fmt with
  | [] => []
  | c :: rest =>
      match hole with
      | Some body =>
          if c =? rbrace then Hole body :: pieces None rest else pieces (Some (body ++ [c])) rest
      | None =>
          match rest with
          | c' :: rest' =>
              if ((c =? lbrace) && (c' =? lbrace)) || ((c =? rbrace) && (c' =? rbrace))
              then Lit c :: pieces None rest'
              else if c =? lbrace then pieces (Some []) rest
              else Lit c :: pieces None rest
          | [] => if c =? lbrace then [] else [Lit c]
          end
      end
  end.

Definition missing : bytes := bytes_of_string "{?}".
Arguments missing : simpl never.

(** Each placeholder takes the next value; a placeholder past the last one
    shows [missing]. *)
Fixpoint fill (show : value -> bytes -> bytes) (ps : list piece) (vs : list value) : bytes :=
  match ps with
  | [] => []
  | Lit c :: ps => c :: fill show ps vs
  | Hole body :: ps =>
      match vs with
      | v :: vs => show v body ++ fill show ps vs
      | [] => missing ++ fill show ps []
      end
  end.

(** The default text of a value. *)
Definition bool_text (b : bool) : bytes := bytes_of_string (if b then "true" else "false").
Definition default_text (v : value) : bytes :=
  match v with
  | VBool b => bool_text b
  | VI64 z => print_int Clld false None z
  | VU64 z => print_int Cllu false None z
  | VF64 bits => print_double General false false None None bits
  | VStr s => s
  end.

(** ** Bounded appending *)

Lemma AppendRaw_spec limit out s :
  (length out <= limit)%nat -> AppendRaw limit out s = take limit (out ++ s).
Proof.
  revert out. induction s as [|c s IH]; intros out Hl; cbn [AppendRaw].
  - rewrite app_nil_r, take_ge by done. done.
  - destruct (Nat.ltb_spec (length out) limit).
    + rewrite IH by (rewrite length_app; cbn; lia). now rewrite <- app_assoc.
    + rewrite take_app_le, take_ge by lia. done.
Qed.

(** What is appended to a prefix that was cut is a prefix of the whole. *)
Lemma take_app_take {A} (n : nat) (a b : list A) : take n (take n a ++ b) = take n (a ++ b).
Proof.
  rewrite !take_app, take_take, length_take, Nat.min_id. f_equal. f_equal. lia.
Qed.

Lemma take_full {A} (n : nat) (a b : list A) : (n <= length a)%nat -> take n (a ++ b) = take n a.
Proof. apply take_app_le. Qed.

(** ** Reading a format *)

Lemma to_close_length s b r : to_close s = Some (b, r) -> (length r < length s)%nat.
Proof.
  revert b r. induction s as [|c s IH]; cbn; intros b r H; [done|].
  destruct (c =? rbrace); [injection H as <- <-; lia|].
  destruct (to_close s) as [[b' r']|]; [|done]. injection H as <- <-. specialize (IH b' r' eq_refl). lia.
Qed.

Lemma pieces_hole body s :
  pieces (Some body) s =
  match to_close s with Some (b, r) => Hole (body ++ b) :: pieces None r | None => [] end.
Proof.
  revert body. induction s as [|c s IH]; intros body; [done|]. cbn [pieces to_close].
  destruct (c =? rbrace); [now rewrite app_nil_r|]. rewrite IH.
  destruct (to_close s) as [[b r]|]; [|done]. now rewrite <- app_assoc.
Qed.

(** The three ways a scan goes on, as the loops' guards decide them. *)
Lemma pieces_cons c rest :
  pieces None (c :: rest) =
  if (c =? lbrace) && (default 0 (head rest) =? lbrace) then Lit c :: pieces None (tail rest)
  else if (c =? rbrace) && (default 0 (head rest) =? rbrace) then Lit c :: pieces None (tail rest)
  else if c =? lbrace then
    match to_close rest with Some (b, r) => Hole b :: pieces None r | None => [] end
  else Lit c :: pieces None rest.
Proof.
  destruct rest as [|c' rest]; cbn [head tail from_option id].
  - cbn [pieces to_close]. unfold lbrace, rbrace. change (0 =? 123) with false. change (0 =? 125) with false.
    rewrite !andb_false_r. done.
  - cbn [pieces]. destruct ((c =? lbrace) && (c' =? lbrace)); cbn [orb]; [done|].
    destruct ((c =? rbrace) && (c' =? rbrace)); [done|].
    destruct (c =? lbrace); [|done]. apply (pieces_hole [] (c' :: rest)).
Qed.

(** ** Escapes *)

Fixpoint escape (s : bytes) : bytes :=
  match s with
  | [] => []
  | c :: s => (if (c =? lbrace) || (c =? rbrace) then [c; c] else [c]) ++ escape s
  end.

Lemma pieces_lit c s : c <> lbrace -> c <> rbrace -> pieces None (c :: s) = Lit c :: pieces None s.
Proof.
  intros H1 H2. rewrite pieces_cons.
  now rewrite (proj2 (Z.eqb_neq c lbrace) H1), (proj2 (Z.eqb_neq c rbrace) H2).
Qed.

Lemma pieces_escaped s rest : pieces None (escape s ++ rest) = map Lit s ++ pieces None rest.
Proof.
  induction s as [|c s IH]; [done|]. cbn [escape map]. destruct ((c =? lbrace) || (c =? rbrace)) eqn:E.
  - cbn [app]. rewrite pieces_cons. cbn [head tail from_option id].
    destruct (c =? lbrace); cbn [andb orb] in *; [now rewrite IH|]. rewrite E. cbn. now rewrite IH.
  - apply orb_false_iff in E as [E1 E2]. zbool. cbn [app]. rewrite pieces_lit by done. now rewrite IH.
Qed.

Lemma pieces_hole_plain body rest :
  ~ In rbrace body -> default 0 (head (body ++ [rbrace])) <> lbrace ->
  pieces None (lbrace :: body ++ rbrace :: rest) = Hole body :: pieces None rest.
Proof.
  intros Hb Hh. rewrite pieces_cons.
  replace (default 0 (head (body ++ rbrace :: rest))) with (default 0 (head (body ++ [rbrace]))) by (now destruct body).
  rewrite (proj2 (Z.eqb_neq _ lbrace) Hh). cbn [Z.eqb andb]. change (lbrace =? rbrace) with false.
  change (lbrace =? lbrace) with true. cbn [andb].
  assert (to_close (body ++ rbrace :: rest) = Some (body, rest)) as ->; [|done].
  clear Hh. induction body as [|c body IH]; cbn [app to_close].
  - now rewrite Z.eqb_refl.
  - rewrite (proj2 (Z.eqb_neq c rbrace)); [|intros ->; apply Hb; now left].
    rewrite IH; [done|]. intros Hi. apply Hb. now right.
Qed.

Lemma fill_lits show s ps vs : fill show (map Lit s ++ ps) vs = s ++ fill show ps vs.
Proof. induction s as [|c s IH]; cbn; [done|]. now rewrite IH. Qed.

(** The two renderings agree where they show the same texts. *)
Lemma fill_ext show show' ps vs :
  (forall v b, In (Hole b) ps -> In v vs -> show v b = show' v b) -> fill show ps vs = fill show' ps vs.
Proof.
  revert vs. induction ps as [|[c|b] ps IH]; intros vs H; cbn; [done|..].
  - f_equal. apply IH. intros. apply H; [now right|done].
  - destruct vs as [|v vs].
    + f_equal. apply IH. intros ? ? _ [].
    + rewrite (H v b) by (now left). f_equal. apply IH. intros. apply H; now right.
Qed.

(** The text that a buffer of [cap] bytes holds before its terminating NUL, which
    a buffer of size zero cannot hold. *)
Definition in_buffer (cap : nat) (text : bytes) : option bytes :=
  match cap with O => None | S limit => Some (take limit text) end.
