(* ===== verification/Unbound.v ===== *)
(** * The unbound fallback's formatter and lines

    src/src/telemetry_unbound.cpp: [AppendArg], [FormatInto] and the lines
    written to stderr while no binding is active.  A read past the rendered
    characters of [tmp] is the error [None]; [FormatInto] is proved never to make
    one and to print the first [cap - 1] bytes of what the format means. *)

From Stdlib Require Import ZArith Lia String.
From stdpp Require Import base list numbers relations.
From S2P Require Import Prelude Printf ArgPack Format.

Local Open Scope Z_scope.

Definition SeverityName (s : Severity) : bytes :=
  bytes_of_string
    match s with
    | kTrace => "TRACE" | kDebug => "DEBUG" | kInfo => "INFO" | kWarn => "WARN"
    | kError => "ERROR" | kFatal => "FATAL" | kOff => "?"
    end.

Definition HealthName (s : HealthState) : bytes :=
  bytes_of_string
    match s with
    | kOk => "OK" | kDegraded => "DEGRADED" | kFault => "FAULT" | kDisconnected => "DISCONNECTED"
    end.

(** [snprintf(tmp, size, ...)]: the characters kept and their NUL, and the
    length of the whole text, which is what the call returns. *)
Definition snprintf_into (size : nat) (text : bytes) : bytes * nat :=
  (take (size - 1) text ++ [0], length text).

(** [for (k < n && len < cap - 1) out[len++] = tmp[k]]. *)
Fixpoint copy_tmp (n k : nat) (tmp : bytes) (limit : nat) (out : bytes) : option bytes :=
  match n with
  | O => Some out
  | S n =>
      if (length out <? limit)%nat then
        match tmp !! k with
        | None => None
        | Some c => copy_tmp n (S k) tmp limit (out ++ [c])
        end
      else Some out
  end.

(** [AppendArg(out, cap, len, p, i)]; [limit] is [cap - 1]. *)
Definition AppendArg (limit : nat) (out : bytes) (p : ArgPack) (i : nat) : option bytes :=
  match arg_at p i with
  | VStr s => Some (AppendRaw limit out s)
  | v =>
      let '(tmp, n) :=
        snprintf_into 64
          match v with
          | VBool b => print_str None None (bool_text b)
          | VI64 z => print_int Clld false None z
          | VU64 z => print_int Cllu false None z
          | VF64 bits => print_double General false false None None bits
          | VStr _ => []
          end in
      copy_tmp n 0 tmp limit out
  end.

(** The loop of [FormatInto]; [c[1]] is the terminating NUL after the last
    character.  [None] also stands for running out of fuel. *)
Fixpoint FormatInto_loop (fuel limit : nat) (args : ArgPack) (fmt : bytes) (next : nat) (out : bytes)
  : option bytes :=
  match fuel with
  | O => None
  | S fuel =>
      match fmt with
      | [] => Some out
      | c :: rest =>
          if negb (length out <? limit)%nat then Some out else
          let c1 := default 0 (head rest) in
          if (c =? lbrace) && (c1 =? lbrace) then
            FormatInto_loop fuel limit args (tail rest) next (out ++ [lbrace])
          else if (c =? rbrace) && (c1 =? rbrace) then
            FormatInto_loop fuel limit args (tail rest) next (out ++ [rbrace])
          else if c =? lbrace then
            match to_close rest with
            | None => Some out
            | Some (_, rest) =>
                if Z.of_nat next <? count args then
                  match AppendArg limit out args next with
                  | None => None
                  | Some out => FormatInto_loop fuel limit args rest (S next) out
                  end
                else FormatInto_loop fuel limit args rest next (AppendRaw limit out missing)
            end
          else FormatInto_loop fuel limit args rest next (out ++ [c])
      end
  end.

(** The text in [out] before its terminating NUL.  With a [cap] of zero, [cap - 1]
    wraps around and the NUL at the latest is written outside [out]: undefined. *)
Definition FormatInto (cap : nat) (fmt : bytes) (args : ArgPack) : option bytes :=
  match cap with O => None | S limit => FormatInto_loop (S (length fmt)) limit args fmt 0 [] end.

Definition str (s : string) : bytes := bytes_of_string s.
Arguments str : simpl never.

(** [source != nullptr && source[0] != '\0']. *)
Definition named (source : option bytes) : bool :=
  match source with Some (c :: _) => negb (c =? 0) | _ => false end.

(** The bytes an event writes to stderr. *)
Definition UnboundEmitEvent (source : option bytes) (sev : Severity) (fmt : bytes) (args : ArgPack)
  : option bytes :=
  match FormatInto 512 fmt args with
  | None => None
  | Some msg =>
      Some (if named source then
              str "[xmtelemetry:" ++ SeverityName sev ++ str "] [" ++ print_str None None (default [] source)
                ++ str "] " ++ print_str None None msg ++ [10]
            else str "[xmtelemetry:" ++ SeverityName sev ++ str "] " ++ print_str None None msg ++ [10])
  end.

Definition UnboundEmitEventDyn (source : option bytes) (sev : Severity) (msg : bytes) : bytes :=
  let len := Z.of_nat (length msg) in
  let n := Z.to_nat (if 480 <? len then 480 else len) in
  if named source then
    str "[xmtelemetry:" ++ SeverityName sev ++ str "] [" ++ print_str None None (default [] source)
      ++ str "] " ++ print_str None (Some n) msg ++ [10]
  else str "[xmtelemetry:" ++ SeverityName sev ++ str "] " ++ print_str None (Some n) msg ++ [10].

Definition UnboundReportHealth (subsystem : option bytes) (state : HealthState) (detail_msg : option bytes) : bytes :=
  str "[xmtelemetry:HEALTH] " ++ print_str None None (default (str "?") subsystem) ++ str " -> "
    ++ HealthName state ++ (if named detail_msg then str ": " else [])
    ++ print_str None None (default [] detail_msg) ++ [10].

(** ** The refinement *)

Lemma copy_tmp_spec n k tmp limit out :
  (k + n <= length tmp)%nat -> (length out <= limit)%nat ->
  copy_tmp n k tmp limit out = Some (take limit (out ++ take n (drop k tmp))).
Proof.
  revert k out. induction n as [|n IH]; intros k out Hk Hl; cbn [copy_tmp].
  - cbn [take]. now rewrite app_nil_r, take_ge.
  - destruct (lookup_lt_is_Some_2 tmp k ltac:(lia)) as [c Hc]. rewrite Hc.
    rewrite (drop_S _ _ _ Hc). cbn [take]. destruct (Nat.ltb_spec (length out) limit).
    + rewrite IH by (rewrite ?length_app; cbn; lia). now rewrite <- app_assoc.
    + rewrite take_app_le, take_ge by lia. done.
Qed.

Lemma copy_snprintf size text limit out :
  (length text < size)%nat -> (length out <= limit)%nat ->
  (let '(tmp, n) := snprintf_into size text in copy_tmp n 0 tmp limit out) = Some (take limit (out ++ text)).
Proof.
  intros Ht Ho. unfold snprintf_into. rewrite copy_tmp_spec.
  - rewrite drop_0, (take_ge text) by lia. now rewrite take_app_length.
  - rewrite length_app, length_take. cbn. lia.
  - done.
Qed.

(** Every conversion fits [tmp]. *)
Lemma AppendArg_spec limit out p i v :
  arg_at p i = v -> value_ok v -> (length out <= limit)%nat ->
  AppendArg limit out p i = Some (take limit (out ++ default_text v)).
Proof.
  intros Hv Hok Hl. unfold AppendArg. rewrite Hv. destruct v as [b|z|z|bits|s]; cbn [value_ok default_text] in *.
  - rewrite copy_snprintf; [now destruct b| |done]. destruct b; vm_compute; lia.
  - pose proof (print_int_length Clld false None z ltac:(lia) ltac:(done)) as Hn. cbn [from_option] in Hn.
    rewrite copy_snprintf; [done|lia|done].
  - pose proof (print_int_length Cllu false None z ltac:(destruct Hok; lia) ltac:(destruct Hok; lia)) as Hn.
    cbn [from_option] in Hn. rewrite copy_snprintf; [done|lia|done].
  - pose proof (print_g_length bits). rewrite copy_snprintf; [done|lia|done].
  - now rewrite AppendRaw_spec.
Qed.

Definition default_show (v : value) (_ : bytes) : bytes := default_text v.

Lemma take_reached {A} limit (out rest : list A) :
  (length out <= limit)%nat -> (length out <? limit)%nat = false -> out = take limit (out ++ rest).
Proof. intros H E. zbool. rewrite take_app_le, take_ge by lia. done. Qed.

Lemma FormatInto_loop_spec fuel limit args vs fmt next out :
  holds args vs -> Forall value_ok vs -> (length fmt < fuel)%nat -> (length out <= limit)%nat ->
  FormatInto_loop fuel limit args fmt next out =
  Some (take limit (out ++ fill default_show (pieces None fmt) (drop next vs))).
Proof.
  intros Hp Hok. revert fmt next out. induction fuel as [|fuel IH]; intros fmt next out Hf Hl; [lia|].
  destruct fmt as [|c rest]; cbn [FormatInto_loop length] in *.
  { cbn. now rewrite app_nil_r, take_ge. }
  destruct (length out <? limit)%nat eqn:El; cbn [negb]; [|f_equal; now apply take_reached].
  assert (forall x, length (out ++ [x]) <= limit)%nat as Hx by (intros; rewrite length_app; cbn; zbool; lia).
  assert (length (tail rest) <= length rest)%nat as Ht by (destruct rest; cbn; lia).
  rewrite pieces_cons. destruct ((c =? lbrace) && _) eqn:E1.
  { rewrite IH by (try apply Hx; lia). apply andb_true_iff in E1 as [E1 _]. zbool. subst c. cbn [fill].
    now rewrite <- app_assoc. }
  destruct ((c =? rbrace) && _) eqn:E2.
  { rewrite IH by (try apply Hx; lia). apply andb_true_iff in E2 as [E2 _]. zbool. subst c. cbn [fill].
    now rewrite <- app_assoc. }
  destruct (c =? lbrace).
  - destruct (to_close rest) as [[b r]|] eqn:Ec; [|cbn; now rewrite app_nil_r, take_ge].
    pose proof (to_close_length _ _ _ Ec). cbn [fill]. rewrite (h_count _ _ Hp).
    destruct (Z.ltb_spec (Z.of_nat next) (Z.of_nat (length vs))) as [Hn|Hn].
    + destruct (lookup_lt_is_Some_2 vs next ltac:(lia)) as [v Hv].
      rewrite (AppendArg_spec limit out args next v); [|by eapply arg_at_holds|by eapply Forall_lookup_1|done].
      rewrite IH by (rewrite ?length_take; lia). rewrite take_app_take, (drop_S _ _ _ Hv), <- app_assoc. done.
    + rewrite drop_ge by lia. rewrite AppendRaw_spec by done.
      rewrite IH by (rewrite ?length_take; lia). rewrite take_app_take, drop_ge, <- app_assoc by lia. done.
  - rewrite IH by (try apply Hx; lia). cbn [fill]. now rewrite <- app_assoc.
Qed.

Lemma FormatInto_spec cap fmt args vs :
  holds args vs -> Forall value_ok vs ->
  FormatInto cap fmt args = in_buffer cap (fill default_show (pieces None fmt) vs).
Proof.
  intros Hp Hok. unfold FormatInto. destruct cap as [|limit]; [done|].
  rewrite (FormatInto_loop_spec _ _ _ vs); [now rewrite drop_0|done|done|lia|cbn; lia].
Qed.

Lemma kept_args_ok args :
  Forall (fun a => value_ok (value_of a)) args -> Forall value_ok (kept 8 160 (map value_of args)).
Proof. intros H. apply kept_ok, Forall_map, H. Qed.

(** C24: The unbound formatter: on every format and every packed arguments it
    reads no byte outside [tmp] and the pack, terminates, never writes past
    [out[cap - 1]] (a [cap] of zero, which no call has, is undefined), and leaves exactly the first [cap - 1] bytes of what the
    format means: literals, doubled braces as one, each placeholder replaced by
    the default text of the next argument kept, whatever its body says, and
    ["{?}"] past the last one. *)
Theorem unbound_format (cap : nat) (fmt : bytes) (args : list arg) :
  Forall (fun a => value_ok (value_of a)) args ->
  let text := fill default_show (pieces None fmt) (kept 8 160 (map value_of args)) in
  FormatInto cap fmt (PackArgs args) = in_buffer cap text /\
  (forall s, cap = S (length s) -> FormatInto cap (escape s) (PackArgs args) = Some s).
Proof.
  intros Hok text. split.
  - apply FormatInto_spec; [apply PackArgs_holds|apply kept_args_ok, Hok].
  - intros s ->. rewrite (FormatInto_spec _ _ _ (kept 8 160 (map value_of args)));
      [|apply PackArgs_holds|apply kept_args_ok, Hok].
    rewrite <- (app_nil_r (escape s)), pieces_escaped, fill_lits. cbn [pieces fill in_buffer].
    rewrite app_nil_r, take_ge by lia. done.
Qed.

Lemma unbound_format_witness :
  option_map string_of_bytes
    (FormatInto 512 (str "{{v}} {:.3} of {} at {} {x") (PackArgs [AFloat 0x3ff8000000000000; ASigned (-3)])) =
  Some "{v} 1.5 of -3 at {?} "%string.
Proof.
  destruct (unbound_format 512 (str "{{v}} {:.3} of {} at {} {x") [AFloat 0x3ff8000000000000; ASigned (-3)]) as [E _].
  { repeat constructor; cbn; unfold in_width; lia. }
  rewrite E. vm_compute. reflexivity.
Defined.

Lemma print_str_take n s : (length (print_str None None (take n s)) <= n)%nat.
Proof.
  unfold print_str. rewrite pad_length. cbn [from_option length].
  assert (forall l, length (c_str l) <= length l)%nat as H.
  { induction l as [|c l IH]; cbn; [lia|]. destruct (c =? 0); cbn; lia. }
  specialize (H (take n s)). rewrite length_take in H. lia.
Qed.

(** An event without a binding is one line, whatever its format and
    arguments: the severity, the source when it has a name, at most 511 bytes of
    the formatted message up to its first NUL, and a newline. *)
Theorem unbound_event_line (source : option bytes) (sev : Severity) (fmt : bytes) (args : list arg) :
  Forall (fun a => value_ok (value_of a)) args ->
  exists msg,
    msg = c_str (take 511 (fill default_show (pieces None fmt) (kept 8 160 (map value_of args)))) /\
    (length msg <= 511)%nat /\
    UnboundEmitEvent source sev fmt (PackArgs args) =
    Some (str "[xmtelemetry:" ++ SeverityName sev ++ str "] " ++
          (if named source then str "[" ++ c_str (default [] source) ++ str "] " else []) ++ msg ++ [10]).
Proof.
  intros Hok. eexists. split; [done|]. split; [apply print_str_take|].
  unfold UnboundEmitEvent.
  rewrite (FormatInto_spec _ _ _ _ (PackArgs_holds args) (kept_args_ok args Hok)).
  change (in_buffer 512 ?x) with (Some (take 511 x)). unfold print_str, pad. cbn [from_option repeat Nat.sub app].
  destruct (named source); cbn [app]; [|done].
  now rewrite <- !app_assoc.
Qed.

Lemma unbound_event_line_witness :
  option_map string_of_bytes (UnboundEmitEvent (Some (str "imu")) kWarn (str "t={}") (PackArgs [AUnsigned 42])) =
  Some (string_of_bytes (str "[xmtelemetry:WARN] [imu] t=42" ++ [10])).
Proof.
  destruct (unbound_event_line (Some (str "imu")) kWarn (str "t={}") [AUnsigned 42]) as (msg & Em & _ & E).
  { repeat constructor; cbn; unfold in_width; lia. }
  rewrite E, Em. vm_compute. reflexivity.
Defined.
