(* ===== verification/ConsoleFormat.v ===== *)
(** * The console binding's formatter

    src/src/telemetry_console_binding.cpp: the specification parser, the
    rendering of one argument through a printf directive built at run time, and
    the loop over the format.  [ParseSpec] is proved to accept exactly the
    documented grammar, and [FormatMessage] to print the first [cap - 1] bytes
    of what the format means. *)

From Stdlib Require Import ZArith Lia String.
From stdpp Require Import base list numbers relations.
From S2P Require Import Prelude Printf ArgPack Format.

Local Open Scope Z_scope.

(** ** Specifications *)

Record FmtSpec := mkFmtSpec {
  ok : bool;        (* parsed within the subset *)
  zero : bool;      (* '0' flag *)
  width : Z;        (* -1 = unset *)
  prec : Z;         (* -1 = unset *)
  type : Z          (* 0 = default per argument type *)
}.

Definition FmtSpec_default : FmtSpec := mkFmtSpec false false (-1) (-1) 0.

Definition kMaxWidth : Z := 96.
Definition kMaxPrec : Z := 64.

Definition is_digit (c : Z) : bool := (c_zero <=? c) && (c <=? 57).

(** [while (s < end && is digit) { w = w * 10 + digit; clamp }]. *)
Fixpoint parse_digits (clamp acc : Z) (s : bytes) : Z * bytes :=
  match s with
  | [] => (acc, [])
  | c :: rest =>
      if is_digit c then
        let w := acc * 10 + (c - c_zero) in
        parse_digits clamp (if clamp <? w then clamp else w) rest
      else (acc, s)
  end.

(** [strchr] of the type letters; it also finds the terminating NUL. *)
Definition type_letters : bytes := bytes_of_string "fFeEgGdxXos".
Definition is_type (c : Z) : bool := existsb (Z.eqb c) (type_letters ++ [0]).

(** [ParseSpec(s, end)] of the text between the colon and the brace. *)
Definition ParseSpec (s : bytes) : FmtSpec :=
  let '(zero, s) :=
    match s with c :: rest => if c =? c_zero then (true, rest) else (false, s) | [] => (false, s) end in
  let '(width, s) :=
    match s with
    | c :: _ => if is_digit c then parse_digits kMaxWidth 0 s else (-1, s)
    | [] => (-1, s)
    end in
  let finish prec s :=
    match s with
    | [] => mkFmtSpec true zero width prec 0
    | c :: rest =>
        if is_type c then mkFmtSpec (match rest with [] => true | _ => false end) zero width prec c
        else mkFmtSpec false zero width prec 0
    end in
  match s with
  | c :: rest =>
      if c =? c_dot then
        match rest with
        | d :: _ =>
            if is_digit d then let '(p, rest) := parse_digits kMaxPrec 0 rest in finish p rest
            else mkFmtSpec false zero width (-1) 0
        | [] => mkFmtSpec false zero width (-1) 0
        end
      else finish (-1) s
  | [] => finish (-1) s
  end.

(** ** The printf directive *)

(** The variadic argument: a 64-bit integer pattern, a double, a C string. *)
Inductive va_arg := VaInt (z : Z) | VaDouble (bits : Z) | VaStr (s : bytes).

(** [pf]: "%[0][width][.prec]" and the conversion; [-1] prints nothing. *)
Definition build_pf (spec : FmtSpec) (conv : bytes) : bytes :=
  [37] ++ (if zero spec then [c_zero] else [])
  ++ (if 0 <=? width spec then digits 10 false (width spec) else [])
  ++ (if 0 <=? prec spec then [c_dot] ++ digits 10 false (prec spec) else [])
  ++ conv.

(** How [vsnprintf] reads a directive: the flag [0], digits, a precision. *)
Fixpoint number_prefix (acc : option nat) (s : bytes) : option nat * bytes :=
  match s with
  | [] => (acc, [])
  | c :: rest =>
      if is_digit c then number_prefix (Some (default 0%nat acc * 10 + Z.to_nat (c - c_zero))%nat) rest
      else (acc, s)
  end.
Definition read_directive (pf : bytes) : bool * option nat * option nat * bytes :=
  let s := tail pf in
  let '(z, s) := match s with c :: rest => if c =? c_zero then (true, rest) else (false, s) | [] => (false, s) end in
  let '(w, s) := number_prefix None s in
  match s with
  | c :: rest =>
      if c =? c_dot then let '(p, s) := number_prefix (Some 0%nat) rest in (z, w, p, s) else (z, w, None, s)
  | [] => (z, w, None, s)
  end.

(** The conversion letters. *)
Definition int_conversion (c : Z) : option conversion :=
  if c =? 100 then Some Clld else if c =? 117 then Some Cllu else if c =? 120 then Some Cllx
  else if c =? 88 then Some CllX else if c =? 111 then Some Cllo else None.
Definition int_arg (conv : conversion) (v : Z) : Z :=
  match conv with Clld => sint 64 v | _ => u64 v end.
Definition double_conversion (c : Z) : option (double_style * bool) :=
  if c =? 102 then Some (Fixed, false) else if c =? 70 then Some (Fixed, true)
  else if c =? 101 then Some (Exponent, false) else if c =? 69 then Some (Exponent, true)
  else if c =? 103 then Some (General, false) else if c =? 71 then Some (General, true) else None.

(** The text of [vsnprintf]; [None] for a directive and an argument that do not
    go together. *)
Definition vprintf (pf : bytes) (arg : va_arg) : option bytes :=
  let '(z, w, p, conv) := read_directive pf in
  match conv, arg, p with
  | [l1; l2; c], VaInt v, None =>
      match int_conversion c with
      | Some conv =>
          if (l1 =? 108) && (l2 =? 108) then Some (print_int conv z w (int_arg conv v)) else None
      | None => None
      end
  | [c], VaStr s, _ => if (c =? 115) && negb z then Some (print_str w p s) else None
  | [c], VaDouble bits, _ =>
      match double_conversion c with
      | Some (style, upper) => Some (print_double style upper z w p bits)
      | None => None
      end
  | _, _, _ => None
  end.

(** [RenderNumeric]: [tmp] has 192 bytes. *)
Definition RenderNumeric (limit : nat) (out : bytes) (spec : FmtSpec) (conv : bytes) (arg : va_arg) : option bytes :=
  match vprintf (build_pf spec conv) arg with
  | None => None
  | Some text =>
      let n := length text in
      Some (if (0 <? n)%nat then
              AppendRaw limit out (take (if (n <? 192)%nat then n else 191) (take 191 text))
            else out)
  end.

Definition ll (c : Z) : bytes := [108; 108; c].

Definition set_prec (spec : FmtSpec) (p : Z) : FmtSpec :=
  mkFmtSpec (ok spec) (zero spec) (width spec) p (type spec).

(** [spec.type == 'd'] and the like. *)
Abbreviation ch_d := 100. Abbreviation ch_x := 120. Abbreviation ch_X := 88.
Abbreviation ch_o := 111. Abbreviation ch_s := 115.

Definition is_radix (t : Z) : bool := (t =? ch_x) || (t =? ch_X) || (t =? ch_o).
Definition is_floating (t : Z) : bool :=
  (t =? 102) || (t =? 70) || (t =? 101) || (t =? 69) || (t =? 103) || (t =? 71) || (t =? 0).

(** The padding loop of a left-aligned string. *)
Fixpoint pad_right (n limit : nat) (out : bytes) : bytes :=
  match n with
  | O => out
  | S n => if (length out <? limit)%nat then pad_right n limit (out ++ [c_space]) else out
  end.

Definition RenderArg (limit : nat) (out : bytes) (p : ArgPack) (i : nat) (spec : FmtSpec) : option bytes :=
  let none := FmtSpec_default in
  match arg_at p i with
  | VBool v =>
      if ok spec && (prec spec <? 0) && ((type spec =? ch_d) || is_radix (type spec)) then
        RenderNumeric limit out spec (ll (type spec)) (VaInt (if v then 1 else 0))
      else if ok spec && ((type spec =? ch_s) || (type spec =? 0)) && negb (zero spec) then
        RenderNumeric limit out (set_prec spec (-1)) [ch_s] (VaStr (bool_text v))
      else Some (AppendRaw limit out (bool_text v))
  | VI64 v =>
      if ok spec && (prec spec <? 0) && negb (type spec =? 0) then
        if type spec =? ch_d then RenderNumeric limit out spec (ll ch_d) (VaInt v)
        else if is_radix (type spec) then RenderNumeric limit out spec (ll (type spec)) (VaInt v)
        else RenderNumeric limit out none (ll ch_d) (VaInt v)
      else if ok spec && (prec spec <? 0) && (type spec =? 0) then
        RenderNumeric limit out spec (ll ch_d) (VaInt v)
      else RenderNumeric limit out none (ll ch_d) (VaInt v)
  | VU64 v =>
      if ok spec && (prec spec <? 0) && ((type spec =? 0) || (type spec =? ch_d)) then
        RenderNumeric limit out spec (ll 117) (VaInt v)
      else if ok spec && (prec spec <? 0) && is_radix (type spec) then
        RenderNumeric limit out spec (ll (type spec)) (VaInt v)
      else RenderNumeric limit out none (ll 117) (VaInt v)
  | VF64 v =>
      let t := if ok spec then type spec else 0 in
      if ok spec && is_floating t then
        RenderNumeric limit out spec [if t =? 0 then 103 else t] (VaDouble v)
      else RenderNumeric limit out none [103] (VaDouble v)
  | VStr s =>
      let n := length s in
      if ok spec && ((type spec =? ch_s) || (type spec =? 0)) && negb (zero spec) then
        let n := if (0 <=? prec spec) && (prec spec <? Z.of_nat n) then Z.to_nat (prec spec) else n in
        if Z.of_nat n <? width spec then
          Some (pad_right (Z.to_nat (width spec - Z.of_nat n)) limit (AppendRaw limit out (take n s)))
        else Some (AppendRaw limit out (take n s))
      else Some (AppendRaw limit out (take n s))
  end.

(** The specification of a placeholder's body. *)
Definition spec_of_body (body : bytes) : FmtSpec :=
  match body with
  | [] => mkFmtSpec true false (-1) (-1) 0
  | c :: rest => if c =? 58 then ParseSpec rest else FmtSpec_default
  end.

(** The loop of [FormatMessage]; [c[1]] is the terminating NUL after the last
    character, the fuel the length of the format. *)
Fixpoint FormatMessage_loop (fuel limit : nat) (args : ArgPack) (fmt : bytes) (next : nat) (out : bytes)
  : option bytes :=
  match fuel with
  | O => None
  | S fuel =>
      match fmt with
      | [] => Some out
      | c :: rest =>
          if negb (length out <? limit)%nat then Some out else
          let c1 := default 0 (head rest) in
          if (c =? lbrace) && (c1 =? lbrace) then
            FormatMessage_loop fuel limit args (tail rest) next (out ++ [lbrace])
          else if (c =? rbrace) && (c1 =? rbrace) then
            FormatMessage_loop fuel limit args (tail rest) next (out ++ [rbrace])
          else if c =? lbrace then
            match to_close rest with
            | None => Some out
            | Some (body, rest) =>
                let spec := spec_of_body body in
                if Z.of_nat next <? count args then
                  match RenderArg limit out args next spec with
                  | None => None
                  | Some out => FormatMessage_loop fuel limit args rest (S next) out
                  end
                else FormatMessage_loop fuel limit args rest next (AppendRaw limit out missing)
            end
          else FormatMessage_loop fuel limit args rest next (out ++ [c])
      end
  end.

(** With a [cap] of zero, [cap - 1] wraps around and the terminating NUL at the
    latest is written outside [out]: undefined. *)
Definition FormatMessage (cap : nat) (fmt : bytes) (args : ArgPack) : option bytes :=
  match cap with O => None | S limit => FormatMessage_loop (S (length fmt)) limit args fmt 0 [] end.

Arguments ll : simpl never.
Arguments type_letters : simpl never.

Example format_message_1 :
  option_map string_of_bytes
    (FormatMessage 512 (bytes_of_string "{:08.3f}|{:>5}|{:5}|{:x}|{{}}|{:.2s}|{:6d}|{}")
       (PackArgs [AFloat 0xc00921fb54442d18; ASigned 42; AView (bytes_of_string "ab"); AUnsigned 255;
                  AView (bytes_of_string "hello"); ABool true])) = Some "-003.142|42|ab   |ff|{}|he|     1|{?}"%string.
Proof. vm_compute. reflexivity. Qed.

(** ** The specification of a rendering *)

Definition unset (z : Z) : option nat := if 0 <=? z then Some (Z.to_nat z) else None.

Definition radix_conv (t : Z) : conversion :=
  if t =? ch_x then Cllx else if t =? ch_X then CllX else Cllo.

(** The conversion of a double; the default is [%g]. *)
Definition style_of (t : Z) : double_style * bool :=
  default (General, false) (double_conversion t).

(** A value under a specification: numbers through printf, at most 191
    characters of a double; text cut by the precision and padded on the right;
    booleans as text or as 0 and 1; the default text whenever the
    specification does not apply. *)
Definition console_text (spec : FmtSpec) (v : value) : bytes :=
  let z := zero spec in
  let w := unset (width spec) in
  let plain := ok spec && (prec spec <? 0) in
  match v with
  | VBool b =>
      if plain && (type spec =? ch_d) then print_int Clld z w (if b then 1 else 0)
      else if plain && is_radix (type spec) then print_int (radix_conv (type spec)) z w (if b then 1 else 0)
      else if ok spec && ((type spec =? ch_s) || (type spec =? 0)) && negb z then
        print_str w None (bool_text b)
      else default_text v
  | VI64 n =>
      if plain && ((type spec =? 0) || (type spec =? ch_d)) then print_int Clld z w n
      else if plain && is_radix (type spec) then print_int (radix_conv (type spec)) z w (u64 n)
      else default_text v
  | VU64 n =>
      if plain && ((type spec =? 0) || (type spec =? ch_d)) then print_int Cllu z w n
      else if plain && is_radix (type spec) then print_int (radix_conv (type spec)) z w n
      else default_text v
  | VF64 bits =>
      if ok spec && is_floating (type spec) then
        let '(style, upper) := style_of (type spec) in
        take 191 (print_double style upper z w (unset (prec spec)) bits)
      else default_text v
  | VStr s =>
      if ok spec && ((type spec =? ch_s) || (type spec =? 0)) && negb z then
        let s := match unset (prec spec) with Some p => take p s | None => s end in
        s ++ repeat c_space (default 0%nat w - length s)
      else s
  end.

Definition console_show (v : value) (body : bytes) : bytes := console_text (spec_of_body body) v.

(** What [ParseSpec] can return. *)
Record bounded (spec : FmtSpec) : Prop := {
  b_width : -1 <= width spec <= kMaxWidth;
  b_prec : -1 <= prec spec <= kMaxPrec;
  b_zero : zero spec = false -> width spec <> 0
}.

Lemma parse_digits_range clamp acc s : 0 <= acc <= clamp -> 0 <= (parse_digits clamp acc s).1 <= clamp.
Proof.
  revert acc. induction s as [|c s IH]; intros acc H; cbn [parse_digits fst]; [done|].
  destruct (is_digit c) eqn:E; [|done]. apply IH. unfold is_digit, c_zero in *.
  apply andb_true_iff in E as [E1 E2]. zbool. case_ifs; zbool; lia.
Qed.

(** A number that starts with a digit that is not [0] is positive. *)
Lemma parse_digits_mono clamp acc s : 0 < acc <= clamp -> 0 < (parse_digits clamp acc s).1.
Proof.
  revert acc. induction s as [|c s IH]; intros acc H; cbn [parse_digits fst]; [lia|].
  destruct (is_digit c) eqn:E; [|cbn; lia]. apply IH. unfold is_digit, c_zero in *.
  apply andb_true_iff in E as [E1 E2]. zbool. case_ifs; zbool; lia.
Qed.

Lemma bounded_default : bounded FmtSpec_default.
Proof. split; cbn; unfold kMaxWidth, kMaxPrec; lia. Qed.
#[export] Hint Resolve bounded_default : xm.

Lemma ParseSpec_bounded s : bounded (ParseSpec s).
Proof.
  unfold ParseSpec.
  set (zs := match s with c :: rest => if c =? c_zero then (true, rest) else (false, s) | [] => (false, s) end).
  assert (zs.1 = false -> forall c r, zs.2 = c :: r -> c <> c_zero) as Hz.
  { subst zs. destruct s as [|c r]; cbn; [done|]. destruct (Z.eqb_spec c c_zero); cbn; [done|]. now intros _ ? ? [= <- _]. }
  destruct zs as [z s1]; cbn [fst snd] in Hz.
  set (ws := match s1 with c :: _ => if is_digit c then _ else _ | [] => _ end).
  assert (-1 <= ws.1 <= kMaxWidth /\ (z = false -> ws.1 <> 0)) as [Hw Hwz].
  { subst ws. destruct s1 as [|c r]; [cbn; unfold kMaxWidth; lia|].
    destruct (is_digit c) eqn:E; [|cbn; unfold kMaxWidth; lia]. split.
    - pose proof (parse_digits_range kMaxWidth 0 (c :: r)). unfold kMaxWidth in *. lia.
    - intros ->. specialize (Hz eq_refl c r eq_refl). cbn [parse_digits]. rewrite E.
      unfold is_digit, c_zero in *. apply andb_true_iff in E as [E1 E2]. zbool.
      match goal with |- (parse_digits ?k ?a r).1 <> 0 => pose proof (parse_digits_mono k a r) as Hm end.
      unfold kMaxWidth in *. case_ifs; zbool; lia. }
  destruct ws as [w s2]; cbn [fst] in Hw, Hwz.
  assert (forall b p t, -1 <= p <= kMaxPrec -> bounded (mkFmtSpec b z w p t)) as Hb by (intros; now split).
  destruct s2 as [|c r]; [apply Hb; unfold kMaxPrec; lia|].
  destruct (c =? c_dot).
  - destruct r as [|d r]; [apply Hb; unfold kMaxPrec; lia|].
    destruct (is_digit d); [|apply Hb; unfold kMaxPrec; lia].
    pose proof (parse_digits_range kMaxPrec 0 (d :: r) ltac:(unfold kMaxPrec; lia)) as Hp.
    destruct (parse_digits kMaxPrec 0 (d :: r)) as [p [|t r']]; cbn [fst] in Hp; [apply Hb; lia|].
    destruct (is_type t); apply Hb; lia.
  - destruct (is_type c); apply Hb; unfold kMaxPrec; lia.
Qed.

Lemma spec_of_body_bounded body : bounded (spec_of_body body).
Proof.
  destruct body as [|c rest]; [split; cbn; unfold kMaxWidth, kMaxPrec; lia|].
  cbn [spec_of_body]. destruct (c =? 58); [apply ParseSpec_bounded|apply bounded_default].
Qed.
#[export] Hint Resolve ParseSpec_bounded spec_of_body_bounded : xm.

(** ** The directive is read back as written *)

Lemma number_prefix_digits k rest :
  (k <= 96)%nat -> number_prefix None (digits 10 false (Z.of_nat k) ++ rest) = number_prefix (Some k) rest.
Proof. intros H. do 97 (destruct k as [|k]; [reflexivity|]). lia. Qed.

Lemma number_prefix_digits' k rest :
  (k <= 96)%nat -> number_prefix (Some 0%nat) (digits 10 false (Z.of_nat k) ++ rest) = number_prefix (Some k) rest.
Proof. intros H. do 97 (destruct k as [|k]; [reflexivity|]). lia. Qed.

Lemma digits_head_nonzero k : (0 < k <= 96)%nat -> exists c r, digits 10 false (Z.of_nat k) = c :: r /\ (c =? c_zero) = false.
Proof. intros H. do 97 (destruct k as [|k]; [first [lia|do 2 eexists; split; reflexivity]|]). lia. Qed.

(** A conversion starts with a letter. *)
Definition letter_first (conv : bytes) : Prop :=
  match conv with c :: _ => is_digit c = false /\ (c =? c_dot) = false /\ (c =? c_zero) = false | [] => False end.

Lemma read_prec_part p conv :
  -1 <= p <= 64 -> letter_first conv ->
  forall (z : bool) (w : option nat),
  match (if 0 <=? p then [c_dot] ++ digits 10 false p else []) ++ conv with
  | c :: rest =>
      if c =? c_dot then let '(q, s) := number_prefix (Some 0%nat) rest in (z, w, q, s) else (z, w, None, c :: rest)
  | [] => (z, w, None, [])
  end = (z, w, unset p, conv).
Proof.
  intros Hp Hc z w. destruct conv as [|c conv]; [done|]. destruct Hc as (H1 & H2 & H3). unfold unset.
  destruct (Z.leb_spec 0 p).
  - cbn [app]. rewrite Z.eqb_refl. rewrite <- (Z2Nat.id p) at 1 by lia.
    rewrite number_prefix_digits' by lia. cbn [number_prefix]. now rewrite H1.
  - cbn [app]. now rewrite H2.
Qed.

Lemma read_build_pf spec conv :
  bounded spec -> letter_first conv ->
  read_directive (build_pf spec conv) = (zero spec, unset (width spec), unset (prec spec), conv).
Proof.
  intros [Hw Hp Hz] Hc. unfold kMaxWidth, kMaxPrec in *.
  pose proof (read_prec_part (prec spec) conv Hp Hc (zero spec) (unset (width spec))) as Hpp.
  unfold read_directive, build_pf. cbn [tail app].
  set (tl := (if 0 <=? prec spec then _ else _) ++ conv) in *.
  assert (exists c r, tl = c :: r /\ is_digit c = false /\ (c =? c_zero) = false) as (c & r & Et & Hd & Hcz).
  { subst tl. destruct (0 <=? prec spec); cbn [app]; [do 2 eexists; split; [done|]; now vm_compute|].
    destruct conv as [|c conv]; [done|]. do 2 eexists. split; [done|]. split; apply Hc. }
  assert (forall acc, number_prefix acc tl = (acc, tl)) as Hn by (intros; rewrite Et; cbn [number_prefix]; now rewrite Hd).
  unfold unset in *. destruct (Z.leb_spec 0 (width spec)) as [H0|H0].
  - set (k := Z.to_nat (width spec)) in *. replace (width spec) with (Z.of_nat k) by lia.
    destruct (zero spec); cbn [app].
    + change (c_zero =? c_zero) with true. cbn iota.
      rewrite number_prefix_digits, Hn by lia. destruct tl; apply Hpp.
    + specialize (Hz eq_refl). destruct (digits_head_nonzero k ltac:(lia)) as (d & r' & Ed & Hdz).
      pose proof (number_prefix_digits k tl ltac:(lia)) as Hnd. rewrite Ed in *. cbn [app] in *. rewrite Hdz, Hnd, Hn.
      destruct tl; apply Hpp.
  - destruct (zero spec); cbn [app].
    + change (c_zero =? c_zero) with true. cbn iota. rewrite Hn. destruct tl; apply Hpp.
    + rewrite Et in *. rewrite Hcz, Hn. apply Hpp.
Qed.

(** ** Rendering one argument *)

Lemma RenderNumeric_text limit out spec conv arg text :
  vprintf (build_pf spec conv) arg = Some text -> (length out <= limit)%nat ->
  RenderNumeric limit out spec conv arg = Some (take limit (out ++ take 191 text)).
Proof.
  intros Ht Hl. unfold RenderNumeric. rewrite Ht. f_equal.
  destruct (Nat.ltb_spec 0 (length text)).
  - rewrite AppendRaw_spec by done. f_equal. f_equal. rewrite take_take.
    destruct (Nat.ltb_spec (length text) 192); [rewrite !take_ge by lia; done|f_equal; lia].
  - destruct text; [|cbn [length] in *; lia]. rewrite take_nil, app_nil_r, take_ge by done. done.
Qed.

Lemma unset_width spec : bounded spec -> (default 0%nat (unset (width spec)) <= 96)%nat.
Proof. intros [Hw _ _]. unfold unset, kMaxWidth in *. destruct (0 <=? width spec); cbn; lia. Qed.

Lemma unset_prec_neg spec : (prec spec <? 0) = true -> unset (prec spec) = None.
Proof. intros H. zbool. unfold unset. destruct (Z.leb_spec 0 (prec spec)); [lia|done]. Qed.

(** An integer directive of a bounded specification without a precision. *)
Lemma RenderNumeric_int limit out spec c conv v :
  int_conversion c = Some conv -> bounded spec -> unset (prec spec) = None -> (length out <= limit)%nat ->
  RenderNumeric limit out spec (ll c) (VaInt v) =
  Some (take limit (out ++ print_int conv (zero spec) (unset (width spec)) (int_arg conv v))).
Proof.
  intros Hc Hb Hp Hl.
  erewrite RenderNumeric_text; [|unfold vprintf; rewrite read_build_pf, Hp by (try done; cbv; done); unfold ll; now rewrite Hc|done].
  rewrite (take_ge (print_int _ _ _ _) 191); [done|].
  assert (- 2 ^ 63 <= int_arg conv v < 2 ^ 64 /\ (conv <> Clld -> 0 <= int_arg conv v)) as [H1 H2].
  { pose proof (sint_range 64 v ltac:(lia)) as Hs. pose proof (wrap_range 64 v ltac:(lia)) as [? ?].
    change (64 - 1) with 63 in Hs.
    unfold int_arg. set (sv := sint 64 v) in *. set (uv := u64 v) in *. clearbody sv uv.
    destruct conv; (split; [lia|intros Hn; first [now destruct Hn|lia]]). }
  pose proof (print_int_length conv (zero spec) (unset (width spec)) _ H1 H2).
  pose proof (unset_width spec Hb). lia.
Qed.

Lemma RenderNumeric_double limit out spec c style upper bits :
  double_conversion c = Some (style, upper) -> bounded spec -> (length out <= limit)%nat ->
  RenderNumeric limit out spec [c] (VaDouble bits) =
  Some (take limit (out ++ take 191 (print_double style upper (zero spec) (unset (width spec)) (unset (prec spec)) bits))).
Proof.
  intros Hc Hb Hl. apply RenderNumeric_text; [|done]. unfold vprintf.
  rewrite read_build_pf; [now rewrite Hc|done|].
  unfold double_conversion in Hc. unfold letter_first, is_digit, c_zero, c_dot.
  repeat match type of Hc with (if ?x =? ?y then _ else _) = _ => destruct (Z.eqb_spec x y); [subst; now vm_compute|] end. done.
Qed.

Lemma RenderNumeric_bool limit out spec b :
  bounded spec -> zero spec = false -> (length out <= limit)%nat ->
  RenderNumeric limit out (set_prec spec (-1)) [ch_s] (VaStr (bool_text b)) =
  Some (take limit (out ++ print_str (unset (width spec)) None (bool_text b))).
Proof.
  intros Hb Hz Hl.
  assert (bounded (set_prec spec (-1))) as Hb' by (destruct Hb; split; cbn; unfold kMaxPrec; try lia; done).
  erewrite RenderNumeric_text; [|unfold vprintf; rewrite read_build_pf by (try done; cbv; done); cbn [set_prec zero width prec]; rewrite Hz; done|done].
  change (unset (-1)) with (@None nat). rewrite (take_ge (print_str _ _ _) 191); [done|]. unfold print_str. cbn iota zeta. rewrite pad_length.
  pose proof (unset_width spec Hb) as Hw.
  assert (length (c_str (bool_text b)) <= 5)%nat as Hs by (destruct b; vm_compute; lia).
  set (s := c_str (bool_text b)) in *. clearbody s. change (length (@nil Z)) with O. lia.
Qed.

(** Default rendering, whatever the specification said. *)
Lemma RenderNumeric_default_int limit out c conv v :
  int_conversion c = Some conv -> (length out <= limit)%nat ->
  RenderNumeric limit out FmtSpec_default (ll c) (VaInt v) =
  Some (take limit (out ++ print_int conv false None (int_arg conv v))).
Proof. intros. now apply (RenderNumeric_int limit out FmtSpec_default); auto with xm. Qed.

Lemma take_print_g bits :
  take 191 (print_double General false false None None bits) = print_double General false false None None bits.
Proof. apply take_ge. pose proof (print_g_length bits). lia. Qed.

Lemma pad_right_spec n limit out :
  (length out <= limit)%nat -> pad_right n limit out = take limit (out ++ repeat c_space n).
Proof.
  revert out. induction n as [|n IH]; intros out Hl; cbn [pad_right repeat].
  - now rewrite app_nil_r, take_ge.
  - destruct (Nat.ltb_spec (length out) limit).
    + rewrite IH by (rewrite length_app; cbn; lia). now rewrite <- app_assoc.
    + rewrite take_app_le, take_ge by lia. done.
Qed.

Lemma is_radix_conv t : is_radix t = true -> int_conversion t = Some (radix_conv t) /\ radix_conv t <> Clld /\
  (t =? 0) = false /\ (t =? ch_d) = false.
Proof.
  unfold is_radix, int_conversion, radix_conv. intros H.
  destruct (Z.eqb_spec t ch_x) as [E|_]; [subst t; done|]. destruct (Z.eqb_spec t ch_X) as [E|_]; [subst t; done|].
  destruct (Z.eqb_spec t ch_o) as [E|_]; [subst t; done|done].
Qed.

Lemma is_floating_conv t : is_floating t = true -> double_conversion (if t =? 0 then 103 else t) = Some (style_of t).
Proof.
  unfold is_floating, style_of. intros H. destruct (Z.eqb_spec t 0) as [E|_]; [subst t; done|].
  unfold double_conversion in *. repeat match goal with |- context [t =? ?y] => destruct (Z.eqb_spec t y); [done|] end.
  rewrite !orb_false_l in H. now zbool.
Qed.

Lemma int_arg_u conv z : conv <> Clld -> int_arg conv z = u64 z.
Proof. now destruct conv. Qed.

Lemma sint_id v : - 2 ^ 63 <= v < 2 ^ 63 -> sint 64 v = v.
Proof. intros H. rewrite <- (sint_wrap 64 v) by lia. now apply sint_of_signed. Qed.

(** Rendering one argument, by its type: every directive built is well formed,
    and what it prints is the specified text. *)
Section RenderArg.
Variables (limit : nat) (out : bytes) (p : ArgPack) (i : nat) (spec : FmtSpec).
Hypothesis Hb : bounded spec.
Hypothesis Hl : (length out <= limit)%nat.

Lemma RenderArg_bool (b : bool) :
  arg_at p i = VBool b -> value_ok (VBool b) ->
  RenderArg limit out p i spec = Some (take limit (out ++ console_text spec (VBool b))).
Proof.
  intros Hv Hok. unfold RenderArg. rewrite Hv. cbn [value_ok console_text default_text] in *.
  destruct (ok spec && (prec spec <? 0)) eqn:Ep; cbn [andb].
  - apply andb_true_iff in Ep as [Eo Ep]. pose proof (unset_prec_neg _ Ep) as Hu. rewrite Eo. cbn [andb].
    destruct (type spec =? ch_d) eqn:Ed; cbn [orb].
    { zbool. rewrite Ed. rewrite (RenderNumeric_int _ _ _ _ Clld) by done. now destruct b. }
    destruct (is_radix (type spec)) eqn:Er.
    { destruct (is_radix_conv _ Er) as (Hc & Hn & _). rewrite (RenderNumeric_int _ _ _ _ _ _ Hc) by done.
      rewrite int_arg_u by done. now destruct b. }
    destruct (_ && negb (zero spec)) eqn:Ez; [|now rewrite AppendRaw_spec].
    apply andb_true_iff in Ez as [_ Ez]. zbool. now apply RenderNumeric_bool.
  - destruct (ok spec && _ && negb (zero spec)) eqn:Ez; [|now rewrite AppendRaw_spec].
    apply andb_true_iff in Ez as [_ Ez]. zbool. now apply RenderNumeric_bool.
Qed.

Lemma RenderArg_i64 (z : Z) :
  arg_at p i = VI64 z -> value_ok (VI64 z) ->
  RenderArg limit out p i spec = Some (take limit (out ++ console_text spec (VI64 z))).
Proof.
  intros Hv Hok. unfold RenderArg. rewrite Hv. cbn [value_ok console_text default_text] in *.
  assert (RenderNumeric limit out FmtSpec_default (ll ch_d) (VaInt z) = Some (take limit (out ++ print_int Clld false None z))) as Hdef.
  { rewrite (RenderNumeric_default_int _ _ _ Clld) by done. cbn [int_arg]. now rewrite sint_id. }
  destruct (ok spec && (prec spec <? 0)) eqn:Ep; cbn [andb]; [|done].
  apply andb_true_iff in Ep as [Eo Ep]. pose proof (unset_prec_neg _ Ep) as Hu.
  destruct (type spec =? 0) eqn:E0; cbn [negb orb].
  { rewrite (RenderNumeric_int _ _ _ _ Clld) by done. cbn [int_arg]. now rewrite sint_id. }
  destruct (type spec =? ch_d) eqn:Ed; cbn [orb].
  { rewrite (RenderNumeric_int _ _ _ _ Clld) by done. cbn [int_arg]. now rewrite sint_id. }
  destruct (is_radix (type spec)) eqn:Er; [|done].
  destruct (is_radix_conv _ Er) as (Hc & Hn & _). rewrite (RenderNumeric_int _ _ _ _ _ _ Hc) by done.
  now rewrite int_arg_u by done.
Qed.

Lemma RenderArg_u64 (z : Z) :
  arg_at p i = VU64 z -> value_ok (VU64 z) ->
  RenderArg limit out p i spec = Some (take limit (out ++ console_text spec (VU64 z))).
Proof.
  intros Hv Hok. unfold RenderArg. rewrite Hv. cbn [value_ok console_text default_text] in *.
  assert (forall conv, conv <> Clld -> int_arg conv z = z) as Hz by (intros; rewrite int_arg_u by done; now apply wrap_id).
  assert (RenderNumeric limit out FmtSpec_default (ll 117) (VaInt z) = Some (take limit (out ++ print_int Cllu false None z))) as Hdef.
  { rewrite (RenderNumeric_default_int _ _ _ Cllu) by done. now rewrite Hz. }
  destruct (ok spec && (prec spec <? 0)) eqn:Ep; cbn [andb]; [|done].
  apply andb_true_iff in Ep as [Eo Ep]. pose proof (unset_prec_neg _ Ep) as Hu.
  destruct ((type spec =? 0) || (type spec =? ch_d)) eqn:E0.
  { rewrite (RenderNumeric_int _ _ _ _ Cllu) by done. now rewrite Hz. }
  destruct (is_radix (type spec)) eqn:Er; [|done].
  destruct (is_radix_conv _ Er) as (Hc & Hn & _). rewrite (RenderNumeric_int _ _ _ _ _ _ Hc) by done.
  now rewrite Hz.
Qed.

Lemma RenderArg_f64 (bits : Z) :
  arg_at p i = VF64 bits -> value_ok (VF64 bits) ->
  RenderArg limit out p i spec = Some (take limit (out ++ console_text spec (VF64 bits))).
Proof.
  intros Hv Hok. unfold RenderArg. rewrite Hv. cbn [value_ok console_text default_text] in *.
  destruct (ok spec); cbn [andb].
  - destruct (is_floating (type spec)) eqn:Ef.
    + pose proof (is_floating_conv _ Ef) as Hc. destruct (style_of (type spec)) as [st up].
      now rewrite (RenderNumeric_double _ _ _ _ st up) by done.
    + rewrite (RenderNumeric_double _ _ _ _ General false) by auto with xm. cbn [FmtSpec_default zero width prec unset Z.leb Z.compare].
      now rewrite take_print_g.
  - rewrite (RenderNumeric_double _ _ _ _ General false) by auto with xm. cbn [FmtSpec_default zero width prec unset Z.leb Z.compare].
    now rewrite take_print_g.
Qed.

Lemma RenderArg_str (s : bytes) :
  arg_at p i = VStr s -> value_ok (VStr s) ->
  RenderArg limit out p i spec = Some (take limit (out ++ console_text spec (VStr s))).
Proof.
  intros Hv Hok. unfold RenderArg. rewrite Hv. cbn [value_ok console_text default_text] in *.
  destruct (ok spec && _ && negb (zero spec)); [|now rewrite AppendRaw_spec, (take_ge s)].
  set (n := if (0 <=? prec spec) && _ then _ else _).
  assert (take n s = match unset (prec spec) with Some p => take p s | None => s end) as Es.
  { subst n. unfold unset. destruct (0 <=? prec spec) eqn:E0; cbn [andb]; [|now rewrite take_ge].
    destruct (prec spec <? Z.of_nat (length s)) eqn:E1; [done|]. zbool. rewrite !take_ge; [done|lia|lia]. }
  rewrite <- Es. assert (length (take n s) = n) as Hn.
  { rewrite length_take. subst n. case_ifs; zbool; lia. }
  rewrite Hn, AppendRaw_spec by done. unfold unset.
  destruct (Z.of_nat n <? width spec) eqn:Ew; zbool; (destruct (0 <=? width spec) eqn:Ew0; zbool; cbn [from_option id]; [|try lia]).
  - rewrite pad_right_spec by (rewrite length_take; lia). rewrite take_app_take, <- app_assoc.
    do 5 f_equal. lia.
  - replace (Z.to_nat (width spec) - n)%nat with O by lia. cbn [repeat]. now rewrite app_nil_r.
  - cbn [Nat.sub repeat]. now rewrite app_nil_r.
Qed.

Lemma RenderArg_spec v :
  arg_at p i = v -> value_ok v -> RenderArg limit out p i spec = Some (take limit (out ++ console_text spec v)).
Proof. destruct v; [apply RenderArg_bool|apply RenderArg_i64|apply RenderArg_u64|apply RenderArg_f64|apply RenderArg_str]. Qed.
End RenderArg.

Lemma FormatMessage_loop_spec fuel limit args vs fmt next out :
  holds args vs -> Forall value_ok vs -> (length fmt < fuel)%nat -> (length out <= limit)%nat ->
  FormatMessage_loop fuel limit args fmt next out =
  Some (take limit (out ++ fill console_show (pieces None fmt) (drop next vs))).
Proof.
  intros Hp Hok. revert fmt next out. induction fuel as [|fuel IH]; intros fmt next out Hf Hl; [lia|].
  destruct fmt as [|c rest]; cbn [FormatMessage_loop length] in *.
  { cbn. now rewrite app_nil_r, take_ge. }
  destruct (length out <? limit)%nat eqn:El; cbn [negb].
  2: { zbool. rewrite take_app_le, take_ge by lia. done. }
  assert (forall x, length (out ++ [x]) <= limit)%nat as Hx by (intros; rewrite length_app; cbn; zbool; lia).
  assert (length (tail rest) <= length rest)%nat as Ht by (destruct rest; cbn; lia).
  rewrite pieces_cons. destruct ((c =? lbrace) && _) eqn:E1.
  { rewrite IH by (try apply Hx; lia). apply andb_true_iff in E1 as [E1 _]. zbool. subst c. cbn [fill].
    now rewrite <- app_assoc. }
  destruct ((c =? rbrace) && _) eqn:E2.
  { rewrite IH by (try apply Hx; lia). apply andb_true_iff in E2 as [E2 _]. zbool. subst c. cbn [fill].
    now rewrite <- app_assoc. }
  destruct (c =? lbrace).
  - destruct (to_close rest) as [[b r]|] eqn:Ec; [|cbn; now rewrite app_nil_r, take_ge].
    pose proof (to_close_length _ _ _ Ec). cbn [fill]. cbn zeta. rewrite (h_count _ _ Hp).
    destruct (Z.ltb_spec (Z.of_nat next) (Z.of_nat (length vs))) as [Hn|Hn].
    + destruct (lookup_lt_is_Some_2 vs next ltac:(lia)) as [v Hv].
      rewrite (fun Hb Hl => RenderArg_spec limit out args next (spec_of_body b) Hb Hl v);
        [|apply spec_of_body_bounded|done|by eapply arg_at_holds|by eapply Forall_lookup_1].
      rewrite IH by (rewrite ?length_take; lia). rewrite take_app_take, (drop_S _ _ _ Hv), <- app_assoc. done.
    + rewrite drop_ge by lia. rewrite AppendRaw_spec by done.
      rewrite IH by (rewrite ?length_take; lia). rewrite take_app_take, drop_ge, <- app_assoc by lia. done.
  - rewrite IH by (try apply Hx; lia). cbn [fill]. now rewrite <- app_assoc.
Qed.

Lemma FormatMessage_spec cap fmt args vs :
  holds args vs -> Forall value_ok vs ->
  FormatMessage cap fmt args = in_buffer cap (fill console_show (pieces None fmt) vs).
Proof.
  intros Hp Hok. unfold FormatMessage. destruct cap as [|limit]; [done|].
  rewrite (FormatMessage_loop_spec _ _ _ vs); [now rewrite drop_0|done|done|lia|cbn; lia].
Qed.

(** ** The grammar of specifications *)

Definition digit (c : Z) : Prop := is_digit c = true.

(** "[0][width][.prec][type]" from its parts. *)
Definition spec_text (z : bool) (w : bytes) (p : option bytes) (t : option Z) : bytes :=
  (if z then [c_zero] else []) ++ w ++ match p with Some d => c_dot :: d | None => [] end
  ++ match t with Some c => [c] | None => [] end.

Record parts_ok (z : bool) (w : bytes) (p : option bytes) (t : option Z) : Prop := {
  p_width : Forall digit w;
  p_zero : z = false -> head w <> Some c_zero;
  p_prec : forall d, p = Some d -> Forall digit d /\ d <> [];
  p_type : forall c, t = Some c -> In c type_letters
}.

Definition number (ds : bytes) : Z := fold_left (fun a c => a * 10 + (c - c_zero)) ds 0.

(** Decimal numbers clamped at the limits, [-1] for an absent part. *)
Definition meaning (z : bool) (w : bytes) (p : option bytes) (t : option Z) : FmtSpec :=
  mkFmtSpec true z (match w with [] => -1 | _ => Z.min kMaxWidth (number w) end)
    (match p with Some d => Z.min kMaxPrec (number d) | None => -1 end) (default 0 t).

(** The digits a scan consumes and what is left. *)
Fixpoint span_digits (s : bytes) : bytes * bytes :=
  match s with
  | [] => ([], [])
  | c :: r => if is_digit c then let '(d, r) := span_digits r in (c :: d, r) else ([], s)
  end.

Lemma digit_range c : digit c -> 0 <= c - c_zero <= 9.
Proof. unfold digit, is_digit, c_zero. intros H. apply andb_true_iff in H as [H1 H2]. zbool. lia. Qed.

Lemma parse_digits_span clamp a s :
  0 <= clamp -> 0 <= a ->
  parse_digits clamp (Z.min clamp a) s =
  (Z.min clamp (fold_left (fun a c => a * 10 + (c - c_zero)) (span_digits s).1 a), (span_digits s).2).
Proof.
  intros Hc. revert a. induction s as [|c s IH]; intros a Ha; cbn [parse_digits span_digits]; [done|].
  destruct (is_digit c) eqn:E; [|done]. destruct (span_digits s) as [d r]; cbn [fst snd] in *.
  pose proof (digit_range c E). cbn [fold_left]. rewrite <- IH by lia. f_equal. case_ifs; zbool; lia.
Qed.

Lemma parse_digits_0 clamp s :
  0 <= clamp -> parse_digits clamp 0 s = (Z.min clamp (number (span_digits s).1), (span_digits s).2).
Proof.
  intros Hc. unfold number. rewrite <- (parse_digits_span clamp 0 s Hc ltac:(lia)). f_equal. lia.
Qed.

Definition no_digit_first (r : bytes) : Prop := match r with c :: _ => is_digit c = false | [] => True end.

Lemma span_digits_app ds r : Forall digit ds -> no_digit_first r -> span_digits (ds ++ r) = (ds, r).
Proof.
  intros H Hr. induction H as [|c ds Hc _ IH]; cbn [app span_digits].
  - destruct r as [|c r]; [done|]. cbn in *. now rewrite Hr.
  - now rewrite Hc, IH.
Qed.

Lemma span_digits_split s :
  s = (span_digits s).1 ++ (span_digits s).2 /\ Forall digit (span_digits s).1 /\ no_digit_first (span_digits s).2.
Proof.
  induction s as [|c s (E & Hd & Hn)]; cbn [span_digits]; [done|].
  destruct (is_digit c) eqn:Ec; [|cbn; split_and!; [done|constructor|done]].
  destruct (span_digits s) as [d r]; cbn [fst snd] in *. split_and!; [cbn; now f_equal|by constructor|done].
Qed.

Lemma type_letter c : In c type_letters -> is_type c = true /\ is_digit c = false /\ (c =? c_dot) = false /\ (c =? c_zero) = false.
Proof.
  intros H. assert (forallb (fun c => is_type c && negb (is_digit c) && negb (c =? c_dot) && negb (c =? c_zero)) type_letters = true) as A
    by (vm_compute; reflexivity).
  rewrite forallb_forall in A. specialize (A c H). rewrite !andb_true_iff, !negb_true_iff in A. naive_solver.
Qed.

(** The parser after the flag and the width. *)
Definition spec_tail (z : bool) (w : Z) (s : bytes) : FmtSpec :=
  let finish prec s :=
    match s with
    | [] => mkFmtSpec true z w prec 0
    | c :: rest =>
        if is_type c then mkFmtSpec (match rest with [] => true | _ => false end) z w prec c
        else mkFmtSpec false z w prec 0
    end in
  match s with
  | c :: rest =>
      if c =? c_dot then
        match rest with
        | d :: _ =>
            if is_digit d then let '(p, rest) := parse_digits kMaxPrec 0 rest in finish p rest
            else mkFmtSpec false z w (-1) 0
        | [] => mkFmtSpec false z w (-1) 0
        end
      else finish (-1) s
  | [] => finish (-1) s
  end.

Definition spec_width (z : bool) (s : bytes) : FmtSpec :=
  spec_tail z (match (span_digits s).1 with [] => -1 | d => Z.min kMaxWidth (number d) end) (span_digits s).2.

Lemma ParseSpec_stages s :
  ParseSpec s = match s with
                | c :: r => if c =? c_zero then spec_width true r else spec_width false s
                | [] => spec_width false []
                end.
Proof.
  assert (forall z s1,
    (let '(w, s) := match s1 with c :: _ => if is_digit c then parse_digits kMaxWidth 0 s1 else (-1, s1) | [] => (-1, s1) end in
     spec_tail z w s) = spec_width z s1) as Hw.
  { intros z s1. unfold spec_width. destruct s1 as [|c r]; [done|].
    destruct (is_digit c) eqn:E; [rewrite parse_digits_0 by done|]; cbn [span_digits]; rewrite E; [|reflexivity].
    destruct (span_digits r). reflexivity. }
  unfold ParseSpec. destruct s as [|c r]; [apply (Hw false [])|].
  destruct (c =? c_zero); [apply (Hw true r)|apply (Hw false (c :: r))].
Qed.

Lemma spec_tail_text z w p t :
  (forall d, p = Some d -> Forall digit d /\ d <> []) -> (forall c, t = Some c -> In c type_letters) ->
  spec_tail z w (match p with Some d => c_dot :: d | None => [] end ++ match t with Some c => [c] | None => [] end) =
  mkFmtSpec true z w (match p with Some d => Z.min kMaxPrec (number d) | None => -1 end) (default 0 t).
Proof.
  intros Hp Ht. unfold spec_tail. destruct p as [d|]; cbn [app].
  - destruct (Hp d eq_refl) as [Hd Hn]. rewrite Z.eqb_refl.
    rewrite parse_digits_0, span_digits_app; [|done|destruct t as [c|]; [now apply type_letter, Ht|done]|done].
    cbn [fst snd]. destruct d as [|x d]; [done|]. cbn [app]. apply Forall_cons in Hd as [Hx _]. rewrite Hx.
    destruct t as [c|]; [|done]. destruct (type_letter c (Ht c eq_refl)) as (E & _). now rewrite E.
  - destruct t as [c|]; [|done]. cbn [app].
    destruct (type_letter c (Ht c eq_refl)) as (E & _ & Ed & _). now rewrite E, Ed.
Qed.

(** What the stages after the zero accept is in the grammar. *)
Lemma spec_width_grammar z s1 :
  ~ In 0 s1 -> ok (spec_width z s1) = true -> (z = false -> head s1 <> Some c_zero) ->
  exists w p t, parts_ok z w p t /\ (if z then [c_zero] else []) ++ s1 = spec_text z w p t.
Proof.
  intros Hs Hok Hz. unfold spec_width in Hok.
  destruct (span_digits_split s1) as (Es & Hd & Hn). set (w := (span_digits s1).1) in *.
  set (r := (span_digits s1).2) in *. set (wv := match w with [] => _ | _ => _ end) in Hok. clearbody wv.
  assert (z = false -> head w <> Some c_zero) as Hzw.
  { intros Ez Eh. apply Hz; [done|]. rewrite Es. destruct w; [done|]. exact Eh. }
  assert (~ In 0 r) as Hr0 by (intros Hi; apply Hs; rewrite Es; apply in_or_app; now right).
  assert (forall c, is_type c = true -> c <> 0 -> In c type_letters) as Hty.
  { intros c Hc Hc0. unfold is_type in Hc. rewrite existsb_app in Hc. apply orb_true_iff in Hc as [Hc|Hc].
    - apply existsb_exists in Hc as (x & Hx & Ex). zbool. now subst x.
    - cbn in Hc. rewrite orb_false_r in Hc. zbool. done. }
  rewrite Es. clear Es Hn Hz Hs. clearbody w r. unfold spec_tail in Hok. destruct r as [|c r].
  { exists w, None, None. split; [now split|]. done. }
  destruct (Z.eqb_spec c c_dot) as [->|Hcd].
  - destruct r as [|x r]; [done|]. destruct (is_digit x) eqn:Ex; [|done].
    rewrite parse_digits_0 in Hok by done.
    destruct (span_digits_split (x :: r)) as (Es & Hdp & _).
    assert ((span_digits (x :: r)).1 <> []) as Hne by (cbn [span_digits]; rewrite Ex; now destruct (span_digits r)).
    set (d := (span_digits (x :: r)).1) in *. set (r2 := (span_digits (x :: r)).2) in *.
    rewrite Es in *. clearbody d r2. destruct r2 as [|c r2].
    + exists w, (Some d), None. split; [split; try done; now intros ? [= <-]|]. unfold spec_text. now rewrite !app_nil_r.
    + destruct (is_type c) eqn:Ec; [|done]. destruct r2; [|done].
      exists w, (Some d), (Some c). split; [split; try done; [now intros ? [= <-]|]|done].
      intros ? [= <-]. apply Hty; [done|]. intros ->. apply Hr0. right. apply in_or_app. right. now left.
  - destruct (is_type c) eqn:Ec; [|done]. destruct r; [|done].
    exists w, None, (Some c). split; [split; try done|done].
    intros ? [= <-]. apply Hty; [done|]. intros ->. apply Hr0. now left.
Qed.

(** C22: The specification parser accepts exactly the documented grammar
    "[0][width][.prec][type]" with a type in fFeEgGdxXos, and reads the width
    and the precision as decimal numbers clamped at 96 and 64: every text of the
    grammar parses to what it says, and every text that is accepted is in the
    grammar. *)
Theorem spec_grammar :
  (forall z w p t, parts_ok z w p t -> ParseSpec (spec_text z w p t) = meaning z w p t) /\
  (forall s, ~ In 0 s -> ok (ParseSpec s) = true ->
     exists z w p t, parts_ok z w p t /\ s = spec_text z w p t).
Proof.
  split.
  - intros z w p t [Hw Hz Hp Ht].
    set (tl := match p with Some d => c_dot :: d | None => [] end ++ match t with Some c => [c] | None => [] end).
    assert (no_digit_first tl /\ forall c r, tl = c :: r -> (c =? c_zero) = false) as [Hn Htz].
    { subst tl. destruct p as [d|]; [split; [done|now intros ? ? [= <- _]]|]. destruct t as [c|]; [|done].
      destruct (type_letter c (Ht c eq_refl)) as (_ & E & _ & E'). split; [done|now intros ? ? [= <- _]]. }
    assert (spec_width z (w ++ tl) = meaning z w p t) as E.
    { unfold spec_width. rewrite span_digits_app by done. cbn [fst snd]. subst tl. rewrite spec_tail_text by done. now destruct w. }
    unfold spec_text. fold tl. rewrite ParseSpec_stages. destruct z; cbn [app]; [now rewrite Z.eqb_refl|].
    destruct w as [|c w]; cbn [app] in *.
    + destruct tl as [|c r]; [done|]. now rewrite (Htz c r eq_refl).
    + replace (c =? c_zero) with false; [done|]. symmetry. apply Z.eqb_neq. intros ->. now apply Hz.
  - intros s Hs Hok. rewrite ParseSpec_stages in Hok.
    destruct s as [|c r]; [destruct (spec_width_grammar false [] Hs Hok) as (w & p & t & H); [done|]; now exists false, w, p, t|].
    destruct (Z.eqb_spec c c_zero) as [->|Hc].
    + destruct (spec_width_grammar true r) as (w & p & t & H); [|done|done|now exists true, w, p, t].
      intros Hi. apply Hs. now right.
    + destruct (spec_width_grammar false (c :: r) Hs Hok) as (w & p & t & H); [now intros _ [= ->]|]. now exists false, w, p, t.
Qed.

(** ** The two formatters *)

(** A placeholder that asks for nothing the subset knows. *)
Definition plain_hole (pc : piece) : bool :=
  match pc with
  | Lit _ => true
  | Hole [] => true
  | Hole body => negb (ok (spec_of_body body))
  end.

Lemma console_text_plain b v : plain_hole (Hole b) = true -> console_show v b = default_text v.
Proof.
  intros H. unfold console_show.
  assert (ok (spec_of_body b) = false \/ spec_of_body b = mkFmtSpec true false (-1) (-1) 0) as [Ho| ->].
  { destruct b as [|c b]; [now right|]. left. cbn [plain_hole] in H. now apply negb_true_iff in H. }
  - unfold console_text. rewrite Ho. cbn [andb]. now destruct v.
  - destruct v as [b'|z|z|bits|s]; cbn; try done.
    + now destruct b'.
    + apply take_print_g.
    + now rewrite app_nil_r.
Qed.

(** C10: The console formatter: on every format and every packed arguments each
    printf directive it builds is well formed, no byte is read outside [tmp] or
    the pack, the loop terminates, and [out] is exactly the first [cap - 1] bytes
    of what the format means (a [cap] of zero, which no call has, is undefined); a
    placeholder outside the subset (or empty) shows
    the argument's default text, it never drops it; and escaped text is printed
    as it is. *)
Theorem console_format (cap : nat) (fmt : bytes) (args : list arg) :
  Forall (fun a => value_ok (value_of a)) args ->
  let vs := kept 8 160 (map value_of args) in
  FormatMessage cap fmt (PackArgs args) = in_buffer cap (fill console_show (pieces None fmt) vs) /\
  (forallb plain_hole (pieces None fmt) = true ->
   FormatMessage cap fmt (PackArgs args) = in_buffer cap (fill (fun v _ => default_text v) (pieces None fmt) vs)) /\
  (forall s, cap = S (length s) -> FormatMessage cap (escape s) (PackArgs args) = Some s).
Proof.
  intros Hok vs. pose proof (PackArgs_holds args) as Hp.
  assert (Forall value_ok vs) as Hvs by (apply kept_ok, Forall_map, Hok).
  assert (forall c f, FormatMessage c f (PackArgs args) = in_buffer c (fill console_show (pieces None f) vs)) as E
    by (intros; now apply FormatMessage_spec).
  split_and!; [apply E|..].
  - intros Hpl. rewrite E. f_equal. apply fill_ext. intros v b Hb _.
    apply console_text_plain. rewrite forallb_forall in Hpl. now apply Hpl.
  - intros s ->. rewrite E, <- (app_nil_r (escape s)), pieces_escaped, fill_lits. cbn [pieces fill in_buffer].
    rewrite app_nil_r, take_ge by lia. done.
Qed.

Lemma console_format_witness :
  option_map string_of_bytes
    (FormatMessage 512 (bytes_of_string "{:08.3f} {:>5} {:x}") (PackArgs [AFloat 0xc00921fb54442d18; ASigned 42; AUnsigned 255])) =
  Some "-003.142 42 ff"%string.
Proof.
  destruct (console_format 512 (bytes_of_string "{:08.3f} {:>5} {:x}") [AFloat 0xc00921fb54442d18; ASigned 42; AUnsigned 255]) as (E & _).
  { repeat constructor; cbn; unfold in_width; lia. }
  rewrite E. vm_compute. reflexivity.
Defined.

Lemma spec_grammar_witness :
  ParseSpec (spec_text true (bytes_of_string "512") (Some (bytes_of_string "3")) (Some 102)) = mkFmtSpec true true 96 3 102.
Proof.
  destruct spec_grammar as [H _]. rewrite H; [reflexivity|].
  split; [repeat constructor|discriminate|intros d [= <-]; split; [repeat constructor|discriminate]|].
  intros c [= <-]. left. reflexivity.
Defined.
