(* ===== verification/Console.v ===== *)
(** * The console binding: level, sources, lines

    src/src/telemetry_console_binding.cpp: the runtime level and its seeding from
    the environment, the source registry, the assembly of a line, the write loop,
    and the entry points of the binding.  The text is ConsoleFormat's. *)

From Stdlib Require Import ZArith Lia String.
From stdpp Require Import base list numbers relations.
From S2P Require Import Prelude Printf ArgPack Format ConsoleFormat.

Local Open Scope Z_scope.

Definition str (s : string) : bytes := bytes_of_string s.
Arguments str : simpl never.

(** The calls of the platform, as read at one emission: whether stderr is a
    terminal, the target of /proc/self/exe, the wall clock in nanoseconds. *)
Record platform := mkPlatform {
  is_tty : bool;
  exe_link : option bytes;
  now_ns : Z
}.

(** ** Runtime level *)

(** [strtol(value, &end, 10)]: blanks, a sign, digits; [None] when there are no
    digits.  The result is not clamped to the range of [long]: any value outside
    0..6 is treated alike. *)
Definition is_space (c : Z) : bool := ((9 <=? c) && (c <=? 13)) || (c =? c_space).
Fixpoint skip_spaces (s : bytes) : bytes :=
  match s with c :: r => if is_space c then skip_spaces r else s | [] => [] end.
Fixpoint decimal (acc : Z) (s : bytes) : Z :=
  match s with c :: r => if is_digit c then decimal (acc * 10 + (c - c_zero)) r else acc | [] => acc end.
Definition strtol (s : bytes) : option Z :=
  let s := skip_spaces s in
  let '(neg, s) :=
    match s with
    | c :: r => if c =? c_minus then (true, r) else if c =? 43 then (false, r) else (false, s)
    | [] => (false, [])
    end in
  match s with
  | c :: _ => if is_digit c then Some (if neg then - decimal 0 s else decimal 0 s) else None
  | [] => None
  end.

Definition LevelFromEnv (env : option bytes) (fallback : Severity) : Severity :=
  match env with
  | None | Some [] => fallback
  | Some value =>
      match strtol value with
      | None => fallback
      | Some level => if (level <? 0) || (6 <? level) then fallback else severity_of level
      end
  end.

(** ** State of the binding *)

Record console := mkConsole {
  g_level : Z;
  sources : list bytes;      (* index = id - 1 *)
  stderr : bytes             (* everything written so far *)
}.

Definition ShouldLogImpl (st : console) (sev : Severity) : bool :=
  negb (bool_decide (sev = kOff)) && (g_level st <=? severity_u8 sev).
Definition SetLevelImpl (min_sev : Severity) (st : console) : console :=
  mkConsole (severity_u8 min_sev) (sources st) (stderr st).
Definition GetLevelImpl (st : console) : Severity := severity_of (g_level st).

(** ** Source registry *)

Fixpoint find_source (i : nat) (names : list bytes) (name : bytes) : option nat :=
  match names with
  | [] => None
  | n :: names => if decide (n = name) then Some i else find_source (S i) names name
  end.

(** The whole call is under the registry's mutex. *)
Definition InternSourceImpl (name : bytes) (st : console) : Z * console :=
  match find_source 0 (sources st) name with
  | Some i => (u32 (Z.of_nat i + 1), st)
  | None =>
      let names := sources st ++ [name] in
      (u32 (Z.of_nat (length names)), mkConsole (g_level st) names (stderr st))
  end.

(** [None] for the anonymous or an unknown source. *)
Definition LookupSource (st : console) (id : Z) : option bytes :=
  if id =? 0 then None
  else if Z.of_nat (length (sources st)) <? id then None
  else sources st !! Z.to_nat (id - 1).

(** ** Line assembly *)

Definition SeverityTag (s : Severity) : bytes :=
  str match s with
      | kTrace => "trace" | kDebug => "debug" | kInfo => "info" | kWarn => "warning"
      | kError => "error" | kFatal => "critical" | kOff => "?"
      end.

Definition esc (s : string) : bytes := 27 :: str s.
Definition ColorFor (tty : bool) (s : Severity) : bytes :=
  if negb tty then [] else
  match s with
  | kTrace => esc "[37m" | kDebug => esc "[36m" | kInfo => esc "[32m" | kWarn => esc "[33m"
  | kError => esc "[31m" | kFatal => esc "[1;31m" | kOff => []
  end.
Definition ColorReset (tty : bool) : bytes := if tty then esc "[0m" else [].

(** [strrchr(path, '/')]: what follows the last slash. *)
Fixpoint base_name (path : bytes) : option bytes :=
  match path with
  | [] => None
  | c :: rest =>
      match base_name rest with
      | Some b => Some b
      | None => if c =? 47 then Some rest else None
      end
  end.

(** At most 1023 bytes of the link are read; the name keeps 63. *)
Definition ProcessName (link : option bytes) : bytes :=
  match link with
  | Some (c :: l) =>
      let path := take 1023 (c :: l) in
      print_str None (Some 63%nat) (default path (base_name path))
  | _ => str "xmbase"
  end.

(** The text of the line's [snprintf]. *)
Definition line_text (pl : platform) (src : option bytes) (sev : Severity) (msg : bytes) : bytes :=
  let secs := Z.quot (now_ns pl) 1000000000 in
  let frac := Z.rem (now_ns pl) 1000000000 in
  ColorFor (is_tty pl) sev ++ [91] ++ SeverityTag sev ++ str "] [" ++
  print_int Clld false None secs ++ [c_dot] ++ print_padded 9 frac ++ str "] [" ++
  print_str None None (ProcessName (exe_link pl)) ++ str "]: " ++
  (match src with
   | Some (c :: s) =>
       let len := sint 32 (Z.of_nat (length (c :: s))) in
       [91] ++ print_str None (if len <? 0 then None else Some (Z.to_nat len)) (c :: s) ++ str "] "
   | _ => []
   end) ++
  print_str None None msg ++ ColorReset (is_tty pl) ++ [10].

(** [line] and [len] as they reach [WriteLine]: a line that does not fit the
    768 bytes keeps 767 of them, the last one a newline. *)
Definition line_of (text : bytes) : bytes :=
  let n := length text in
  if (768 <=? n)%nat then <[766%nat := 10]> (take 767 text) else text.

(** ** The write loop *)

Inductive write_result := Wrote (n : nat) | Interrupted | WriteFailed.

(** [WriteLine(data, len)] against the answers of write(2), one per call;
    [None] when it would still be looping.  The bytes written are returned with
    the answers not consumed. *)
Fixpoint WriteLine (answers : list write_result) (data : bytes) (off : nat) : option (bytes * list write_result) :=
  if negb (off <? length data)%nat then Some ([], answers) else
  match answers with
  | [] => None
  | Interrupted :: answers => WriteLine answers data off
  | WriteFailed :: answers => Some ([], answers)
  | Wrote n :: answers =>
      match WriteLine answers data (off + n) with
      | None => None
      | Some (w, rest) => Some (take n (drop off data) ++ w, rest)
      end
  end.

Definition write_stderr (answers : list write_result) (line : bytes) (st : console) : option console :=
  match WriteLine answers line 0 with
  | None => None
  | Some (w, _) => Some (mkConsole (g_level st) (sources st) (stderr st ++ w))
  end.

Definition EmitLine (pl : platform) (answers : list write_result) (source_id : Z) (sev : Severity) (msg : bytes)
    (st : console) : option console :=
  write_stderr answers (line_of (line_text pl (LookupSource st source_id) sev msg)) st.

(** ** Entry points *)

Definition EmitEventImpl (pl : platform) (answers : list write_result) (source_id : Z) (sev : Severity)
    (fmt : option bytes) (args : ArgPack) (st : console) : option console :=
  if negb (ShouldLogImpl st sev) then Some st else
  match FormatMessage 512 (default [] fmt) args with
  | None => None
  | Some msg => EmitLine pl answers source_id sev msg st
  end.

(** The copy into [buf]: at most 511 of the [len] bytes. *)
Definition DynMessage (msg : bytes) : bytes :=
  let len := if (512 <=? length msg)%nat then 511%nat else length msg in
  take len msg.

(** [msg] is the [len] bytes at the pointer. *)
Definition EmitEventDynImpl (pl : platform) (answers : list write_result) (source_id : Z) (sev : Severity)
    (msg : option bytes) (st : console) : option console :=
  match msg with
  | Some msg =>
      if negb (ShouldLogImpl st sev) then Some st else
      EmitLine pl answers source_id sev (DynMessage msg) st
  | None => Some st
  end.

Definition EmitSpanImpl (st : console) : console := st.
Definition EmitSignalImpl (st : console) : console := st.
Definition SetResourceImpl (st : console) : console := st.

Definition HealthName (s : HealthState) : bytes :=
  str match s with
      | kOk => "OK" | kDegraded => "DEGRADED" | kFault => "FAULT" | kDisconnected => "DISCONNECTED"
      end.

Definition health_severity (state : HealthState) : Severity :=
  match state with kOk => kInfo | kDegraded => kWarn | _ => kError end.

(** The text of the transition's [snprintf], cut at the buffer. *)
Definition HealthMessage (subsystem : option bytes) (state : HealthState) (detail_msg : option bytes) : bytes :=
  let with_detail := match detail_msg with Some (c :: _) => negb (c =? 0) | _ => false end in
  let text := str "[health] " ++ print_str None None (default (str "?") subsystem) ++ str " -> " ++
              HealthName state ++ (if with_detail then str ": " else []) ++
              (if with_detail then print_str None None (default [] detail_msg) else []) in
  take 511 text.

Definition ReportHealthImpl (pl : platform) (answers : list write_result) (subsystem : option bytes)
    (state : HealthState) (detail_msg : option bytes) (st : console) : option console :=
  let sev := health_severity state in
  if negb (ShouldLogImpl st sev) then Some st else
  EmitLine pl answers 0 sev (HealthMessage subsystem state detail_msg) st.

(** The state the first use of the binding leaves: the level is seeded once. *)
Definition DefaultConsoleBinding (env : option bytes) : console :=
  SetLevelImpl (LevelFromEnv env kInfo) (mkConsole (severity_u8 kInfo) [] []).

(** ** Decimal text *)

Lemma digit_char_digit up d : 0 <= d < 10 -> is_digit (digit_char up d) = true /\ digit_char up d - c_zero = d.
Proof.
  intros H. unfold digit_char, is_digit, c_zero. replace (d <? 10) with true by (symmetry; apply Z.ltb_lt; lia).
  split; [|lia]. apply andb_true_iff. split; apply Z.leb_le; lia.
Qed.

Lemma decimal_digits_acc fuel up z acc :
  0 <= z < 2 ^ Z.of_nat fuel -> (0 < fuel)%nat ->
  decimal 0 (digits_acc fuel 10 up z acc) = decimal z acc.
Proof.
  revert z acc. induction fuel as [|fuel IH]; intros z acc Hz Hf; [lia|]. cbn [digits_acc].
  assert (forall a d, 0 <= d < 10 -> decimal a (digit_char up d :: acc) = decimal (a * 10 + d) acc) as Hd.
  { intros a d H. destruct (digit_char_digit up d H) as [H1 H2]. cbn [decimal]. now rewrite H1, H2. }
  destruct (Z.ltb_spec z 10); [rewrite Hd by (rewrite Z.mod_small; lia); rewrite Z.mod_small by lia; f_equal|].
  replace (Z.of_nat (S fuel)) with (Z.succ (Z.of_nat fuel)) in Hz by lia. rewrite Z.pow_succ_r in Hz by lia.
  pose proof (Z.div_mod z 10 ltac:(lia)). pose proof (Z.mod_pos_bound z 10 ltac:(lia)).
  destruct fuel as [|fuel]; [cbn in Hz; lia|].
  rewrite IH; [|split; [apply Z.div_pos|apply Z.div_lt_upper_bound]; lia|lia].
  rewrite Hd by lia. f_equal. lia.
Qed.

Lemma decimal_stop acc rest : no_digit_first rest -> decimal acc rest = acc.
Proof. destruct rest as [|c r]; cbn; [done|]. now intros ->. Qed.

Lemma digits_acc_app fuel base up z acc rest :
  digits_acc fuel base up z (acc ++ rest) = digits_acc fuel base up z acc ++ rest.
Proof.
  revert z acc. induction fuel as [|fuel IH]; intros z acc; cbn [digits_acc]; [done|].
  destruct (z <? base); [done|]. apply (IH (z / base) (_ :: acc)).
Qed.

Lemma digits_acc_first fuel up z acc :
  0 <= z -> (0 < fuel)%nat -> exists c r, digits_acc fuel 10 up z acc = c :: r /\ is_digit c = true.
Proof.
  revert z acc. induction fuel as [|fuel IH]; intros z acc Hz Hf; [lia|]. cbn [digits_acc].
  pose proof (Z.mod_pos_bound z 10 ltac:(lia)).
  destruct (z <? 10); [do 2 eexists; split; [done|]; now apply digit_char_digit|].
  destruct fuel as [|fuel]; [do 2 eexists; split; [done|]; now apply digit_char_digit|].
  apply IH; [apply Z.div_pos|]; lia.
Qed.

Lemma decimal_digits z rest :
  0 <= z -> no_digit_first rest ->
  decimal 0 (digits 10 false z ++ rest) = z /\
  exists c r, digits 10 false z = c :: r /\ is_digit c = true.
Proof.
  intros Hz Hr. unfold digits. split; [|apply digits_acc_first; lia].
  rewrite <- (digits_acc_app _ _ _ _ [] rest). cbn [app]. rewrite decimal_digits_acc; [now apply decimal_stop| |lia].
  split; [done|]. replace (Z.of_nat _) with (Z.log2 z + 1) by (pose proof (Z.log2_nonneg z); lia).
  destruct (Z.eqb_spec z 0) as [->|]; [now compute|]. apply Z.log2_lt_pow2; lia.
Qed.

Lemma is_digit_not_space c : is_digit c = true -> is_space c = false /\ (c =? c_minus) = false /\ (c =? 43) = false.
Proof.
  unfold is_digit, is_space, c_zero, c_space, c_minus. intros H. apply andb_true_iff in H as [H1 H2]. zbool.
  split_and!; [|apply Z.eqb_neq; lia..]. apply orb_false_iff. split; [|apply Z.eqb_neq; lia].
  apply andb_false_iff. right. apply Z.leb_gt. lia.
Qed.

Lemma print_lld z : print_int Clld false None z = (if z <? 0 then [c_minus] else []) ++ digits 10 false (Z.abs z).
Proof. reflexivity. Qed.

(** The environment's level: a text that starts, after blanks, with a decimal
    integer means that integer; 0 to 6 seed that severity, any other integer and
    any other text keep the fallback; the level is then what [GetLogLevel]
    reports, and setting it is read back. *)
Theorem level_from_env (blanks rest : bytes) (z : Z) (fallback : Severity) :
  Forall (fun c => is_space c = true) blanks -> no_digit_first rest ->
  LevelFromEnv (Some (blanks ++ print_int Clld false None z ++ rest)) fallback =
    (if (0 <=? z) && (z <=? 6) then severity_of z else fallback) /\
  (forall env, GetLevelImpl (DefaultConsoleBinding env) = LevelFromEnv env kInfo) /\
  (forall s st, GetLevelImpl (SetLevelImpl s st) = s).
Proof.
  intros Hb Hr. split; [|split; intros; apply severity_of_u8].
  assert (skip_spaces (blanks ++ print_int Clld false None z ++ rest) = print_int Clld false None z ++ rest
          /\ strtol (print_int Clld false None z ++ rest) = Some z) as [Es Et].
  { destruct (decimal_digits (Z.abs z) rest ltac:(lia) Hr) as (Hd & c & r & Ec & Hc).
    destruct (is_digit_not_space c Hc) as (H1 & H2 & H3).
    rewrite print_lld. destruct (Z.ltb_spec z 0) as [Hz|Hz]; cbn [app]; rewrite Ec in *; cbn [app] in *.
    - split.
      + induction Hb as [|b bs Hb _ IH]; cbn [app skip_spaces]; [done|]. now rewrite Hb.
      + unfold strtol. cbn [skip_spaces]. change (is_space c_minus) with false. cbn iota.
        change (c_minus =? c_minus) with true. cbn iota. rewrite Hc, Hd. f_equal. lia.
    - split.
      + induction Hb as [|b bs Hb _ IH]; cbn [app skip_spaces]; [now rewrite H1|]. now rewrite Hb.
      + unfold strtol. cbn [skip_spaces]. rewrite H1, H2, H3. cbn iota. rewrite Hc, Hd. f_equal. lia. }
  assert (strtol (blanks ++ print_int Clld false None z ++ rest) = Some z) as Hst.
  { rewrite <- Et. unfold strtol at 1. rewrite Es. unfold strtol.
    assert (skip_spaces (print_int Clld false None z ++ rest) = print_int Clld false None z ++ rest) as ->; [|done].
    rewrite <- Es at 2. rewrite <- Es at 1. clear. generalize (blanks ++ print_int Clld false None z ++ rest). intros l.
    induction l as [|c l IH]; cbn [skip_spaces]; [done|]. destruct (is_space c) eqn:E; [done|]. cbn [skip_spaces]. now rewrite E. }
  unfold LevelFromEnv. destruct (blanks ++ print_int Clld false None z ++ rest) as [|c l] eqn:El.
  { exfalso. apply app_nil in El as [_ El]. apply app_nil in El as [El _].
    apply (f_equal length) in El. unfold print_int in El. rewrite pad_length in El.
    destruct (decimal_digits (Z.abs z) [] ltac:(lia) I) as (_ & c & r & Ec & _). rewrite Ec in El. cbn in El. lia. }
  rewrite Hst. destruct (Z.leb_spec 0 z), (Z.leb_spec z 6), (Z.ltb_spec z 0), (Z.ltb_spec 6 z); cbn; done || lia.
Qed.

Lemma level_from_env_witness :
  LevelFromEnv (Some (str " " ++ print_int Clld false None 4 ++ str "!")) kInfo = kError /\
  LevelFromEnv (Some ([] ++ print_int Clld false None (-1) ++ [])) kInfo = kInfo.
Proof.
  destruct (level_from_env (str " ") (str "!") 4 kInfo) as [E1 _]; [repeat constructor|done|].
  destruct (level_from_env [] [] (-1) kInfo) as [E2 _]; [constructor|done|].
  rewrite E1, E2. split; reflexivity.
Defined.

(** ** Sources *)

Lemma find_source_spec i names name :
  match find_source i names name with
  | Some k => exists j, k = (i + j)%nat /\ names !! j = Some name
  | None => ~ In name names
  end.
Proof.
  revert i. induction names as [|n names IH]; intros i; cbn [find_source]; [intros []|].
  destruct (decide (n = name)) as [->|Hn]; [exists 0%nat; split; [lia|done]|].
  specialize (IH (S i)). destruct (find_source (S i) names name) as [k|].
  - destruct IH as (j & -> & Hj). exists (S j). split; [lia|done].
  - intros [->|Hi]; done.
Qed.

(** Ids in use. *)
Definition source_id_ok (st : console) (id : Z) : Prop := 1 <= id <= Z.of_nat (length (sources st)).

Lemma LookupSource_index st i name :
  sources st !! i = Some name -> LookupSource st (Z.of_nat i + 1) = Some name.
Proof.
  intros H. pose proof (lookup_lt_Some _ _ _ H). unfold LookupSource.
  replace (Z.of_nat i + 1 =? 0) with false by (symmetry; apply Z.eqb_neq; lia).
  replace (_ <? _) with false by (symmetry; apply Z.ltb_ge; lia).
  replace (Z.to_nat _) with i by lia. done.
Qed.

Lemma LookupSource_Some st id name :
  0 <= id -> LookupSource st id = Some name -> exists i, id = Z.of_nat i + 1 /\ sources st !! i = Some name.
Proof.
  unfold LookupSource. intros H0. destruct (Z.eqb_spec id 0); [done|]. destruct (_ <? id); [done|].
  intros H. exists (Z.to_nat (id - 1)). split; [lia|done].
Qed.

(** What a client that registers a source relies on. *)
Lemma InternSource_cases st name :
  NoDup (sources st) -> Z.of_nat (length (sources st)) + 1 < 2 ^ 32 ->
  exists i, sources (snd (InternSourceImpl name st)) !! i = Some name /\
    fst (InternSourceImpl name st) = Z.of_nat i + 1 /\
    NoDup (sources (snd (InternSourceImpl name st))) /\
    Z.of_nat (length (sources (snd (InternSourceImpl name st)))) < 2 ^ 32 /\
    g_level (snd (InternSourceImpl name st)) = g_level st /\
    stderr (snd (InternSourceImpl name st)) = stderr st /\
    exists l, sources (snd (InternSourceImpl name st)) = sources st ++ l.
Proof.
  intros Hnd Hlen. unfold InternSourceImpl. pose proof (find_source_spec 0 (sources st) name) as Hf.
  destruct (find_source 0 (sources st) name) as [k|]; cbn [fst snd].
  - destruct Hf as (j & -> & Hj). exists j. pose proof (lookup_lt_Some _ _ _ Hj). cbn [Nat.add].
    rewrite wrap_id by (unfold in_width; lia). split_and!; try done; [lia|]. exists []. now rewrite app_nil_r.
  - cbn [sources g_level stderr]. exists (length (sources st)). rewrite length_app. cbn [length].
    rewrite wrap_id by (unfold in_width; lia). split_and!; try done; [apply lookup_snoc_last|lia| |lia|now exists [name]].
    apply NoDup_app. split; [done|]. split; [|apply NoDup_singleton].
    intros x Hx ->%list_elem_of_singleton. apply Hf. now apply list_elem_of_In.
Qed.

Lemma InternSource_present st name i :
  NoDup (sources st) -> Z.of_nat (length (sources st)) < 2 ^ 32 -> sources st !! i = Some name ->
  InternSourceImpl name st = (Z.of_nat i + 1, st).
Proof.
  intros Hnd Hlen Hi. pose proof (lookup_lt_Some _ _ _ Hi). unfold InternSourceImpl.
  pose proof (find_source_spec 0 (sources st) name) as Hf.
  destruct (find_source 0 (sources st) name) as [k|]; [|destruct Hf; apply list_elem_of_In, list_elem_of_lookup; eauto].
  destruct Hf as (j & -> & Hj). rewrite (NoDup_lookup _ _ _ _ Hnd Hj Hi).
  rewrite wrap_id by (unfold in_width; lia). done.
Qed.

Lemma registry_facts st name :
  NoDup (sources st) -> Z.of_nat (length (sources st)) + 1 < 2 ^ 32 ->
  let '(id, st') := InternSourceImpl name st in
  LookupSource st' id = Some name /\ g_level st' = g_level st /\ stderr st' = stderr st.
Proof.
  intros Hnd Hlen. destruct (InternSource_cases st name Hnd Hlen) as (i & Hi & E & _ & _ & El & Es & _).
  destruct (InternSourceImpl name st) as [id st']; cbn [fst snd] in *. subst id.
  split_and!; [now apply LookupSource_index|done|done].
Qed.

(** The source registry.  Interning gives every name one id, never 0, that
    resolves to that name from then on; a name that is already registered keeps
    its id and changes nothing; two names never share an id; and ids handed out
    before keep resolving to what they did. *)
Theorem registry_roundtrip (st : console) (name : bytes) :
  NoDup (sources st) -> Z.of_nat (length (sources st)) + 1 < 2 ^ 32 ->
  let '(id, st') := InternSourceImpl name st in
  source_id_ok st' id /\ LookupSource st' id = Some name /\
  InternSourceImpl name st' = (id, st') /\
  NoDup (sources st') /\ g_level st' = g_level st /\ stderr st' = stderr st /\
  (forall id0 name0, 0 <= id0 -> LookupSource st id0 = Some name0 -> LookupSource st' id0 = Some name0) /\
  (forall id0, 0 <= id0 -> LookupSource st' id0 = Some name -> id0 = id).
Proof.
  intros Hnd Hlen. destruct (InternSource_cases st name Hnd Hlen) as (i & Hi & E & Hnd' & Hlen' & El & Es & l & Happ).
  destruct (InternSourceImpl name st) as [id st']; cbn [fst snd] in *. subst id.
  pose proof (lookup_lt_Some _ _ _ Hi). split_and!; try done.
  - unfold source_id_ok. lia.
  - now apply LookupSource_index.
  - now apply InternSource_present.
  - intros id0 name0 H0 Hl. destruct (LookupSource_Some _ _ _ H0 Hl) as (j & -> & Hj).
    apply LookupSource_index. rewrite Happ, lookup_app_l; [done|]. now apply lookup_lt_Some in Hj.
  - intros id0 H0 Hl. destruct (LookupSource_Some _ _ _ H0 Hl) as (j & -> & Hj).
    now rewrite (NoDup_lookup _ _ _ _ Hnd' Hj Hi).
Qed.

Lemma registry_roundtrip_witness :
  let '(id, st') := InternSourceImpl (str "imu") (mkConsole 2 [str "arm"] []) in
  id = 2 /\ LookupSource st' id = Some (str "imu") /\ InternSourceImpl (str "imu") st' = (id, st').
Proof.
  pose proof (registry_roundtrip (mkConsole 2 [str "arm"] []) (str "imu")) as H.
  specialize (H ltac:(repeat constructor; vm_compute; intros Hx; inversion Hx) ltac:(cbn; lia)).
  destruct (InternSourceImpl (str "imu") _) as [id st'] eqn:E. split.
  - vm_compute in E. now injection E as <- _.
  - destruct H as (_ & H1 & H2 & _). now split.
Defined.

(** ** Lines *)

Lemma line_of_spec body :
  line_of (body ++ [10]) = take 766 body ++ [10] /\ (length (line_of (body ++ [10%Z])) <= 767)%nat.
Proof.
  assert (line_of (body ++ [10]) = take 766 body ++ [10]) as E.
  { unfold line_of. rewrite length_app. cbn [length]. destruct (Nat.leb_spec 768 (length body + 1)).
    - rewrite take_app_le by lia. rewrite (take_S_r body 766 (default 0 (body !! 766%nat))).
      + rewrite insert_app_r_alt by (rewrite length_take; lia). rewrite length_take.
        replace (766 - _)%nat with O by lia. done.
      + destruct (lookup_lt_is_Some_2 body 766 ltac:(lia)) as [x Hx]. now rewrite Hx.
    - now rewrite take_ge by lia. }
  split; [done|]. rewrite E, length_app, length_take. cbn [length]. lia.
Qed.

(** The text of a line without its newline. *)
Definition line_body (pl : platform) (src : option bytes) (sev : Severity) (msg : bytes) : bytes :=
  ColorFor (is_tty pl) sev ++ [91] ++ SeverityTag sev ++ str "] [" ++
  print_int Clld false None (Z.quot (now_ns pl) 1000000000) ++ [c_dot] ++
  print_padded 9 (Z.rem (now_ns pl) 1000000000) ++ str "] [" ++
  print_str None None (ProcessName (exe_link pl)) ++ str "]: " ++
  (match src with
   | Some (c :: s) =>
       let len := sint 32 (Z.of_nat (length (c :: s))) in
       [91] ++ print_str None (if len <? 0 then None else Some (Z.to_nat len)) (c :: s) ++ str "] "
   | _ => []
   end) ++
  print_str None None msg ++ ColorReset (is_tty pl).

Lemma line_text_body pl src sev msg : line_text pl src sev msg = line_body pl src sev msg ++ [10].
Proof.
  unfold line_text, line_body. rewrite <- !app_assoc. cbn [app].
  destruct src as [[|c s]|]; rewrite <- ?app_assoc; cbn [app]; rewrite <- ?app_assoc; done.
Qed.

(** ** The write loop *)

(** The calls that wrote something, and how much. *)
Fixpoint progress (answers : list write_result) : nat :=
  match answers with
  | [] => 0
  | Wrote n :: answers => n + progress answers
  | _ :: answers => progress answers
  end.

Lemma WriteLine_prefix answers data off w rest :
  (off <= length data)%nat -> WriteLine answers data off = Some (w, rest) ->
  exists k, w = take k (drop off data) /\ (w = drop off data \/ In WriteFailed answers).
Proof.
  revert off w. induction answers as [|a answers IH]; intros off w Ho; cbn [WriteLine];
    destruct (Nat.ltb_spec off (length data)); cbn [negb].
  - done.
  - intros [= <- _]. exists 0%nat. rewrite drop_ge by lia. split; [done|now left].
  - destruct a as [n| |].
    + destruct (WriteLine answers data (off + n)) as [[w' r']|] eqn:E; [|done]. intros [= <- <-].
      destruct (le_lt_dec (off + n) (length data)) as [Hle|Hgt].
      * destruct (IH (off + n)%nat w' Hle E) as (k & Hk & Hor).
        exists (n + k)%nat. rewrite <- drop_drop in Hk, Hor. split.
        { rewrite <- (take_drop n (drop off data)) at 2. rewrite take_app, length_take, length_drop.
          rewrite Nat.min_l by lia. rewrite take_take, Nat.min_r by lia.
          replace (n + k - n)%nat with k by lia. now rewrite <- Hk. }
        destruct Hor as [Hor|Hf]; [left|right; now right]. rewrite Hor. apply take_drop.
      * assert (w' = []) as ->.
        { destruct answers; cbn [WriteLine] in E; rewrite (proj2 (Nat.ltb_ge _ _)) in E by lia; cbn in E; now injection E as <-. }
        exists n. rewrite app_nil_r. split; [done|]. left. apply take_ge. rewrite length_drop. lia.
    + intros E. destruct (IH off w Ho E) as (k & Hk & Hor). exists k. split; [done|].
      destruct Hor; [now left|right; now right].
    + intros [= <- <-]. exists 0%nat. split; [done|]. right. now left.
  - intros [= <- _]. exists 0%nat. rewrite drop_ge by lia. split; [done|now left].
Qed.

Lemma WriteLine_terminates answers data off :
  (length data <= off + progress answers)%nat -> exists w rest, WriteLine answers data off = Some (w, rest).
Proof.
  revert off. induction answers as [|a answers IH]; intros off Hp; cbn [WriteLine progress] in *;
    destruct (Nat.ltb_spec off (length data)); cbn [negb]; eauto; [lia|].
  destruct a as [n| |]; eauto.
  destruct (IH (off + n)%nat ltac:(lia)) as (w & r & ->). eauto.
Qed.

(** The write loop: whatever write(2) answers (short writes, interruptions,
    a failure), what reached stderr is a prefix of the line, and the whole line
    unless a call failed; and the loop ends once the calls have accepted as many
    bytes as the line has. *)
Theorem write_loop (answers : list write_result) (data : bytes) :
  (forall w rest, WriteLine answers data 0 = Some (w, rest) ->
     exists k, w = take k data /\ (w = data \/ In WriteFailed answers)) /\
  ((length data <= progress answers)%nat -> ~ In WriteFailed answers ->
   exists rest, WriteLine answers data 0 = Some (data, rest)).
Proof.
  split.
  - intros w rest H. destruct (WriteLine_prefix _ _ 0 _ _ (Nat.le_0_l _) H) as (k & Hk & Hor).
    rewrite drop_0 in Hk, Hor. eauto.
  - intros Hp Hf. destruct (WriteLine_terminates answers data 0 ltac:(lia)) as (w & rest & E).
    exists rest. destruct (WriteLine_prefix _ _ 0 _ _ (Nat.le_0_l _) E) as (k & _ & [Hw|Hw]); [|done].
    now rewrite E, Hw, drop_0.
Qed.

Lemma write_loop_witness :
  exists rest, WriteLine [Wrote 2; Interrupted; Wrote 0; Wrote 3; Interrupted] (str "line!") 0 = Some (str "line!", rest).
Proof.
  destruct (write_loop [Wrote 2; Interrupted; Wrote 0; Wrote 3; Interrupted] (str "line!")) as [_ H].
  apply H; [vm_compute; lia|]. vm_compute. intuition discriminate.
Defined.

(** ** Events *)

Definition working (answers : list write_result) : Prop :=
  ~ In WriteFailed answers /\ (767 <= progress answers)%nat.

Lemma write_stderr_line answers body st :
  working answers ->
  write_stderr answers (line_of (body ++ [10])) st =
  Some (mkConsole (g_level st) (sources st) (stderr st ++ take 766 body ++ [10])).
Proof.
  intros [Hf Hp]. destruct (line_of_spec body) as [E Hl]. rewrite E in *. unfold write_stderr.
  destruct (WriteLine_terminates answers (take 766 body ++ [10]) 0 ltac:(lia)) as (w & rest & Ew).
  destruct (WriteLine_prefix _ _ 0 _ _ (Nat.le_0_l _) Ew) as (k & _ & [Hw|Hw]); [|done].
  now rewrite Ew, Hw, drop_0.
Qed.

Lemma EmitLine_spec pl answers id sev msg st :
  working answers ->
  EmitLine pl answers id sev msg st =
  Some (mkConsole (g_level st) (sources st)
          (stderr st ++ take 766 (line_body pl (LookupSource st id) sev msg) ++ [10])).
Proof. intros H. unfold EmitLine. rewrite line_text_body. now apply write_stderr_line. Qed.

Lemma EmitEventImpl_spec pl answers id sev fmt args st :
  Forall (fun a => value_ok (value_of a)) args -> working answers ->
  EmitEventImpl pl answers id sev (Some fmt) (PackArgs args) st =
  Some (if ShouldLogImpl st sev then
          mkConsole (g_level st) (sources st)
            (stderr st ++ take 766 (line_body pl (LookupSource st id) sev
               (take 511 (fill console_show (pieces None fmt) (kept 8 160 (map value_of args))))) ++ [10])
        else st).
Proof.
  intros Hok Hw. unfold EmitEventImpl. destruct (ShouldLogImpl st sev); cbn [negb]; [|done].
  change (default [] (Some fmt)) with fmt.
  rewrite (FormatMessage_spec _ _ _ _ (PackArgs_holds args) (kept_ok 8 160 _ (proj2 (Forall_map _ _ _) Hok))).
  now apply EmitLine_spec.
Qed.

(** An event at the console: suppressed below the runtime level (and always
    at [kOff]) with no effect at all; otherwise exactly one write of one complete
    line, newline-terminated and of at most 767 bytes, with the severity, the
    time, the process, the interned source and the formatted message, and no
    other state changed. *)
Theorem console_event (pl : platform) (answers : list write_result) (id : Z) (sev : Severity)
    (fmt : bytes) (args : list arg) (st : console) :
  Forall (fun a => value_ok (value_of a)) args -> working answers ->
  let msg := take 511 (fill console_show (pieces None fmt) (kept 8 160 (map value_of args))) in
  let line := take 766 (line_body pl (LookupSource st id) sev msg) ++ [10] in
  EmitEventImpl pl answers id sev (Some fmt) (PackArgs args) st =
    Some (if ShouldLogImpl st sev then mkConsole (g_level st) (sources st) (stderr st ++ line) else st) /\
  (length line <= 767)%nat /\
  (ShouldLogImpl st sev = true <-> sev <> kOff /\ g_level st <= severity_u8 sev) /\
  (ShouldLogImpl (SetLevelImpl kOff st) sev = false).
Proof.
  intros Hok Hw msg line. split_and!.
  - now apply EmitEventImpl_spec.
  - subst line. rewrite length_app, length_take. cbn [length]. lia.
  - unfold ShouldLogImpl. rewrite andb_true_iff, negb_true_iff, bool_decide_eq_false, Z.leb_le. done.
  - unfold ShouldLogImpl. cbn. now destruct sev.
Qed.

Definition demo_platform : platform := mkPlatform false (Some (str "/usr/bin/robot")) 1700000000000000042.

Lemma console_event_witness :
  EmitEventImpl demo_platform [Wrote 767] 1 kWarn (Some (str "t={:04d}")) (PackArgs [ASigned 7]) (mkConsole 2 [str "imu"] []) =
  Some (mkConsole 2 [str "imu"] (str "[warning] [1700000000.000000042] [robot]: [imu] t=0007" ++ [10])).
Proof.
  destruct (console_event demo_platform [Wrote 767] 1 kWarn (str "t={:04d}") [ASigned 7] (mkConsole 2 [str "imu"] [])) as [E _].
  - repeat constructor; cbn; lia.
  - split; [intros [H|[]]; discriminate|cbn; lia].
  - rewrite E. vm_compute. reflexivity.
Defined.

(** What the health line says. *)
Lemma HealthMessage_spec subsystem state detail_msg :
  HealthMessage (Some subsystem) state (Some detail_msg) =
  take 511 (str "[health] " ++ c_str subsystem ++ str " -> " ++ HealthName state ++
    (match c_str detail_msg with [] => [] | d => str ": " ++ d end)).
Proof.
  unfold HealthMessage. change (print_str None None (default _ (Some subsystem))) with (c_str subsystem).
  do 5 f_equal. destruct detail_msg as [|c d]; [done|].
  change (print_str None None (default [] (Some (c :: d)))) with (c_str (c :: d)).
  cbn [c_str]. destruct (c =? 0); done.
Qed.

Lemma DynMessage_spec msg : DynMessage msg = take 511 msg.
Proof.
  unfold DynMessage. destruct (Nat.leb_spec 512 (length msg)); [done|]. rewrite !take_ge by lia. done.
Qed.

(** A health transition at the console: one line of the mapped severity when
    the level admits it, nothing otherwise; and pre-formatted text is cut at 511
    bytes, a null message writes nothing. *)
Theorem console_other_entries (pl : platform) (answers : list write_result) (st : console)
    (subsystem : bytes) (state : HealthState) (detail_msg : bytes) (id : Z) (sev : Severity) (msg : option bytes) :
  working answers ->
  ReportHealthImpl pl answers (Some subsystem) state (Some detail_msg) st =
    Some (if ShouldLogImpl st (health_severity state) then
            mkConsole (g_level st) (sources st)
              (stderr st ++ take 766 (line_body pl None (health_severity state)
                 (take 511 (str "[health] " ++ c_str subsystem ++ str " -> " ++ HealthName state ++
                    (match c_str detail_msg with [] => [] | d => str ": " ++ d end)))) ++ [10])
          else st) /\
  EmitEventDynImpl pl answers id sev msg st =
    Some (match msg with
          | Some m =>
              if ShouldLogImpl st sev then
                mkConsole (g_level st) (sources st)
                  (stderr st ++ take 766 (line_body pl (LookupSource st id) sev (take 511 m)) ++ [10])
              else st
          | None => st
          end).
Proof.
  intros Hw. split.
  - unfold ReportHealthImpl. destruct (ShouldLogImpl st (health_severity state)); cbn [negb]; [|done].
    rewrite EmitLine_spec by done. change (LookupSource st 0) with (@None bytes). by rewrite HealthMessage_spec.
  - unfold EmitEventDynImpl. destruct msg as [m|]; [|done]. destruct (ShouldLogImpl st sev); cbn [negb]; [|done].
    rewrite EmitLine_spec by done. by rewrite DynMessage_spec.
Qed.

Lemma console_other_entries_witness :
  ReportHealthImpl demo_platform [Wrote 767] (Some (str "arm")) kFault (Some (str "stall")) (mkConsole 2 [] []) =
  Some (mkConsole 2 [] (str "[error] [1700000000.000000042] [robot]: [health] arm -> FAULT: stall" ++ [10])).
Proof.
  destruct (console_other_entries demo_platform [Wrote 767] (mkConsole 2 [] []) (str "arm") kFault (str "stall") 0 kInfo None) as [E _].
  - split; [intros [H|[]]; discriminate|cbn; lia].
  - rewrite E. vm_compute. reflexivity.
Defined.
