(* ===== verification/Dispatch.v ===== *)
(** * The telemetry front door: dispatch through the binding table

    src/include/xmbase/telemetry/binding.hpp (the table), event.hpp, handles.hpp
    and health.hpp: every call asks for the active binding and either calls its
    entry or takes the unbound fallback.  A table is a record of functions on the
    backend's state; what the front door relies on is the class [LevelLaws].  The
    console binding is an instance, and the theorems are proved for every binding
    that has the laws. *)

From Stdlib Require Import ZArith Lia String.
From stdpp Require Import base list numbers relations.
From S2P Require Import Prelude Context Printf ArgPack Format Unbound ConsoleFormat Console.

Local Open Scope Z_scope.

Definition kBindingAbiVersion : Z := 3.

(** A metric or signal slot: the shared no-op one, or one of the binding's. *)
Inductive slot := NoopSlot | BackendSlot (n : Z).

(** The table.  The three entries that callers test for null are options; an
    emission returns [None] when the backend would not return. *)
Record Binding (S : Type) := mkBinding {
  abi_version : Z;
  get_counter : bytes -> S -> slot * S;
  get_gauge : bytes -> S -> slot * S;
  get_histogram : bytes -> S -> slot * S;
  get_signal : bytes -> Z -> Z -> bytes -> S -> slot * S;
  intern_source : bytes -> S -> Z * S;
  should_log : option (S -> Severity -> bool);
  set_level : option (Severity -> S -> S);
  get_level : option (S -> Severity);
  emit_event : Z -> Severity -> option bytes -> ArgPack -> Context -> Z -> S -> option S;
  emit_event_dyn : Z -> Severity -> option bytes -> Context -> Z -> S -> option S;
  emit_span : span_record -> S -> S;
  emit_signal : slot -> bytes -> Z -> S -> S;
  report_health : option bytes -> HealthState -> option bytes -> Context -> Z -> S -> option S;
  set_resource : bytes -> bytes -> S -> S
}.

(** The console's metrics: one slot of each kind, whatever the name. *)
Definition g_console_counter : slot := BackendSlot 0.
Definition g_console_gauge : slot := BackendSlot 1.
Definition g_console_histogram : slot := BackendSlot 2.
Definition g_console_signal : slot := BackendSlot 3.

Definition GetCounterImpl (_ : bytes) (st : console) : slot * console := (g_console_counter, st).
Definition GetGaugeImpl (_ : bytes) (st : console) : slot * console := (g_console_gauge, st).
Definition GetHistogramImpl (_ : bytes) (st : console) : slot * console := (g_console_histogram, st).
Definition GetSignalImpl (_ : bytes) (_ _ : Z) (_ : bytes) (st : console) : slot * console := (g_console_signal, st).

(** The console binding's table; [io ts] is what the platform and write(2)
    answer during the emission stamped [ts]. *)
Definition console_binding (io : Z -> platform * list write_result) : Binding console :=
  mkBinding console kBindingAbiVersion
    GetCounterImpl GetGaugeImpl GetHistogramImpl GetSignalImpl
    InternSourceImpl (Some ShouldLogImpl) (Some SetLevelImpl) (Some GetLevelImpl)
    (fun id sev fmt args _ ts => EmitEventImpl (fst (io ts)) (snd (io ts)) id sev fmt args)
    (fun id sev msg _ ts => EmitEventDynImpl (fst (io ts)) (snd (io ts)) id sev msg)
    (fun _ => EmitSpanImpl) (fun _ _ _ => EmitSignalImpl)
    (fun sub state detail _ ts => ReportHealthImpl (fst (io ts)) (snd (io ts)) sub state detail)
    (fun _ _ => SetResourceImpl).

Section Front.
Context {S : Type}.
Notation binding := (option (Binding S)).

(** What the front door acts on: the backend's state and the bytes the unbound
    fallback wrote to stderr. *)
Record world := mkWorld { backend : S; fallback : bytes }.

Definition with_backend (w : world) (s : S) : world := mkWorld s (fallback w).
Definition write_fallback (w : world) (line : bytes) : world := mkWorld (backend w) (fallback w ++ line).
Definition lift (w : world) (s : option S) : option world :=
  match s with Some s => Some (with_backend w s) | None => None end.

(** ** event.hpp *)

Record EventSource := mkEventSource { id_ : Z; source_name_ : bytes }.

Definition GetEventSource (b : binding) (name : bytes) (w : world) : EventSource * world :=
  match b with
  | Some b => let '(id, s) := intern_source _ b name (backend w) in (mkEventSource id name, with_backend w s)
  | None => (mkEventSource 0 name, w)
  end.

Definition warn_or_above (sev : Severity) : bool := severity_u8 kWarn <=? severity_u8 sev.

(** [b->should_log == nullptr || b->should_log(sev)]. *)
Definition gate (b : Binding S) (w : world) (sev : Severity) : bool :=
  match should_log _ b with None => true | Some f => f (backend w) sev end.

Definition ShouldLog (b : binding) (w : world) (sev : Severity) : bool :=
  match b with
  | Some b => gate b w sev
  | None => warn_or_above sev
  end.

Definition EmitEvent (b : binding) (source_id : Z) (source_name : option bytes) (sev : Severity)
    (fmt : bytes) (args : list arg) (ctx : Context) (now : Z) (w : world) : option world :=
  match b with
  | Some b =>
      if negb (gate b w sev) then Some w else
      let pack := PackArgs args in
      lift w (emit_event _ b source_id sev (Some fmt) pack ctx now (backend w))
  | None =>
      if warn_or_above sev then
        let pack := PackArgs args in
        option_map (write_fallback w) (UnboundEmitEvent source_name sev fmt pack)
      else Some w
  end.

Definition EmitEventDyn (b : binding) (source_id : Z) (source_name : option bytes) (sev : Severity)
    (msg : bytes) (ctx : Context) (now : Z) (w : world) : option world :=
  match b with
  | Some b =>
      if negb (gate b w sev) then Some w else
      lift w (emit_event_dyn _ b source_id sev (Some msg) ctx now (backend w))
  | None =>
      if warn_or_above sev then Some (write_fallback w (UnboundEmitEventDyn source_name sev msg))
      else Some w
  end.

Definition SetResource (b : binding) (key v : bytes) (w : world) : world :=
  match b with Some b => with_backend w (set_resource _ b key v (backend w)) | None => w end.

Definition SetLogLevel (b : binding) (min_sev : Severity) (w : world) : world :=
  match b with
  | Some b => match set_level _ b with Some f => with_backend w (f min_sev (backend w)) | None => w end
  | None => w
  end.

Definition GetLogLevel (b : binding) (w : world) : Severity :=
  match b with
  | Some b => match get_level _ b with Some f => f (backend w) | None => kWarn end
  | None => kWarn
  end.

(** The macros, at the compile-time floor [XM_TELEMETRY_LEVEL]: a call site
    below the floor is compiled out; the stream form tests the run-time gate
    before building its message. *)
Definition compiled_in (floor : Z) (sev : Severity) : bool := floor <=? severity_u8 sev.

Definition XM_LOG (floor : Z) (b : binding) (src : option EventSource) (sev : Severity)
    (fmt : bytes) (args : list arg) (ctx : Context) (now : Z) (w : world) : option world :=
  if compiled_in floor sev then
    match src with
    | Some src => EmitEvent b (id_ src) (Some (source_name_ src)) sev fmt args ctx now w
    | None => EmitEvent b 0 (Some []) sev fmt args ctx now w
    end
  else Some w.

Definition XM_STREAM (floor : Z) (b : binding) (src : option EventSource) (sev : Severity)
    (msg : bytes) (ctx : Context) (now : Z) (w : world) : option world :=
  if compiled_in floor sev then
    if ShouldLog b w sev then
      match src with
      | Some src => EmitEventDyn b (id_ src) (Some (source_name_ src)) sev msg ctx now w
      | None => EmitEventDyn b 0 (Some []) sev msg ctx now w
      end
    else Some w
  else Some w.

(** ** handles.hpp *)

Definition GetCounter (b : binding) (name : bytes) (w : world) : slot * world :=
  match b with
  | Some b => let '(sl, s) := get_counter _ b name (backend w) in (sl, with_backend w s)
  | None => (NoopSlot, w)
  end.
Definition GetGauge (b : binding) (name : bytes) (w : world) : slot * world :=
  match b with
  | Some b => let '(sl, s) := get_gauge _ b name (backend w) in (sl, with_backend w s)
  | None => (NoopSlot, w)
  end.
Definition GetHistogram (b : binding) (name : bytes) (w : world) : slot * world :=
  match b with
  | Some b => let '(sl, s) := get_histogram _ b name (backend w) in (sl, with_backend w s)
  | None => (NoopSlot, w)
  end.

Definition kMaxSignalPayload : Z := 192.

(** [sizeof(T)], [alignof(T)] and the name of the payload type. *)
Definition GetChannel (b : binding) (name : bytes) (size align : Z) (type_name : bytes) (w : world) : slot * world :=
  match b with
  | Some b => let '(sl, s) := get_signal _ b name size align type_name (backend w) in (sl, with_backend w s)
  | None => (NoopSlot, w)
  end.
Definition Publish (b : binding) (sl : slot) (sample : bytes) (t : Z) (w : world) : world :=
  match b with Some b => with_backend w (emit_signal _ b sl sample t (backend w)) | None => w end.

(** ** health.hpp *)

Definition ReportHealth (b : binding) (subsystem : option bytes) (state : HealthState) (detail : option bytes)
    (ctx : Context) (now : Z) (w : world) : option world :=
  match b with
  | Some b => lift w (report_health _ b subsystem state detail ctx now (backend w))
  | None =>
      if bool_decide (state <> kOk) then Some (write_fallback w (UnboundReportHealth subsystem state detail))
      else Some w
  end.

End Front.
Arguments world : clear implicits.
Arguments mkWorld {S} backend fallback.

(** ** What the front door relies on *)

(** A binding with a level: in a well-formed state its gate admits exactly the
    severities from the level up ([kOff] never), and the level set is the level
    read.  Emission keeps the state well formed and the level as it is. *)
Class LevelLaws {S : Type} (b : Binding S) := {
  state_ok : S -> Prop;
  level : S -> Severity;
  gate_level : forall s sev, state_ok s ->
    (match should_log _ b with None => true | Some f => f s sev end) =
    negb (bool_decide (sev = kOff)) && (severity_u8 (level s) <=? severity_u8 sev);
  get_is_level : forall s, state_ok s ->
    (match get_level _ b with Some f => f s | None => kWarn end) = level s;
  set_is_level : forall s l, state_ok s ->
    let s' := match set_level _ b with Some f => f l s | None => s end in
    state_ok s' /\ level s' = l;
  emit_keeps_level : forall s s' id sev fmt args ctx ts, state_ok s ->
    emit_event _ b id sev fmt args ctx ts s = Some s' -> state_ok s' /\ level s' = level s
}.

(** The console's level is always one of the enumerators. *)
Definition level_ok (st : console) : Prop := g_level st = severity_u8 (severity_of (g_level st)).

Lemma EmitLine_keeps pl answers id sev msg st st' :
  EmitLine pl answers id sev msg st = Some st' -> g_level st' = g_level st /\ sources st' = sources st.
Proof.
  unfold EmitLine, write_stderr. destruct (WriteLine _ _ _) as [[w r]|]; [|done]. now intros [= <-].
Qed.

#[export, refine] Instance console_laws io : LevelLaws (console_binding io) := {
  state_ok := level_ok;
  level := GetLevelImpl
}.
Proof.
  - intros s sev Hs. cbn [console_binding should_log]. unfold ShouldLogImpl, GetLevelImpl. now rewrite <- Hs.
  - done.
  - intros s l _. cbn. unfold level_ok, GetLevelImpl. cbn. now rewrite severity_of_u8.
  - intros s s' id sev fmt args ctx ts Hs. cbn [console_binding emit_event]. unfold EmitEventImpl.
    destruct (negb _); [now intros [= <-]|]. destruct (FormatMessage _ _ _); [|done].
    intros H. destruct (EmitLine_keeps _ _ _ _ _ _ _ H) as [E _]. unfold level_ok, GetLevelImpl. now rewrite E.
Defined.

(** ** The front door *)

Section Theorems.
Context {S : Type}.
Implicit Types (b : option (Binding S)) (w : world S).

(** Levels through the front door, for every binding with the level laws: the
    level set is the level reported, exactly the severities from it up are
    admitted ([kOff] never is), and an event emitted afterwards leaves the level
    as it was.  Unbound, setting does nothing, the level reported is Warn and the
    gate is Warn and above. *)
Theorem level_routing (bd : Binding S) `{!LevelLaws bd} (l sev : Severity) (w w' : world S)
    id name fmt args ctx now :
  state_ok (backend w) ->
  let w1 := SetLogLevel (Some bd) l w in
  GetLogLevel (Some bd) w1 = l /\
  (ShouldLog (Some bd) w1 sev = true <-> sev <> kOff /\ severity_u8 l <= severity_u8 sev) /\
  (ShouldLog (Some bd) w1 sev = false -> EmitEvent (Some bd) id name sev fmt args ctx now w1 = Some w1) /\
  (EmitEvent (Some bd) id name sev fmt args ctx now w1 = Some w' -> GetLogLevel (Some bd) w' = l) /\
  SetLogLevel None l w = w /\ GetLogLevel None w = kWarn /\
  (ShouldLog None w sev = true <-> severity_u8 kWarn <= severity_u8 sev).
Proof.
  intros Hs w1. destruct (set_is_level (backend w) l Hs) as [Hs1 Hl].
  assert (backend w1 = match set_level _ bd with Some f => f l (backend w) | None => backend w end) as Eb.
  { subst w1. cbn. now destruct (set_level _ bd). }
  rewrite <- Eb in Hs1, Hl. clearbody w1. split_and!; try done.
  - cbn. now rewrite get_is_level.
  - cbn [ShouldLog]. unfold gate. rewrite gate_level, Hl by done.
    rewrite andb_true_iff, negb_true_iff, bool_decide_eq_false, Z.leb_le. done.
  - cbn [ShouldLog EmitEvent]. now intros ->.
  - cbn [EmitEvent GetLogLevel]. destruct (gate bd w1 sev); cbn [negb].
    + unfold lift. destruct (emit_event _ _ _ _ _ _ _ _ _) as [s'|] eqn:E; [|done]. intros [= <-].
      destruct (emit_keeps_level _ _ _ _ _ _ _ _ Hs1 E) as [Hs' Hl']. cbn. now rewrite get_is_level, Hl'.
    + intros [= <-]. now rewrite get_is_level.
  - unfold ShouldLog, warn_or_above. apply Z.leb_le.
Qed.

(** The macros: below the compile-time floor nothing happens at all; a stream
    form does exactly what the direct dynamic event does, its own test of the
    gate only saves building the message; an admitted or suppressed event never
    touches the unbound fallback while a binding is active, nor the backend
    while none is. *)
Theorem macro_gates (floor : Z) (b : option (Binding S)) (src : option EventSource) (sev : Severity)
    (fmt msg : bytes) (args : list arg) ctx now (w : world S) :
  let '(id, name) := match src with Some s => (id_ s, source_name_ s) | None => (0, []) end in
  XM_STREAM floor b src sev msg ctx now w =
    (if compiled_in floor sev then EmitEventDyn b id (Some name) sev msg ctx now w else Some w) /\
  (severity_u8 sev < floor -> XM_LOG floor b src sev fmt args ctx now w = Some w) /\
  (forall w', XM_LOG floor b src sev fmt args ctx now w = Some w' ->
     match b with Some _ => fallback w' = fallback w | None => backend w' = backend w end).
Proof.
  assert (forall id name, (if ShouldLog b w sev then EmitEventDyn b id (Some name) sev msg ctx now w else Some w) =
            EmitEventDyn b id (Some name) sev msg ctx now w) as Hg.
  { intros id name. destruct b as [bd|]; cbn [ShouldLog EmitEventDyn]; [destruct (gate bd w sev)|destruct (warn_or_above sev)]; done. }
  assert (forall id name w', EmitEvent b id (Some name) sev fmt args ctx now w = Some w' ->
            match b with Some _ => fallback w' = fallback w | None => backend w' = backend w end) as He.
  { intros id name w'. destruct b as [bd|]; cbn [EmitEvent].
    - destruct (negb _); [now intros [= <-]|]. unfold lift. destruct (emit_event _ _ _ _ _ _ _ _ _); [|done]. now intros [= <-].
    - destruct (warn_or_above sev); [|now intros [= <-]]. destruct (UnboundEmitEvent _ _ _ _); [|done]. now intros [= <-]. }
  unfold XM_STREAM, XM_LOG. destruct src as [s|]; (split_and!;
    [destruct (compiled_in floor sev); [apply Hg|done]
    |intros Hf; unfold compiled_in; now rewrite (proj2 (Z.leb_gt _ _) Hf)
    |intros w'; destruct (compiled_in floor sev); [apply He|intros [= <-]; now destruct b]]).
Qed.

(** Unbound, every handle is the shared no-op slot, every registration and
    publication leaves all state alone, and a source keeps its name with id 0;
    health reports reach stderr unless the state is Ok. *)
Theorem unbound_is_inert (w : world S) (name ty v : bytes) (size align t : Z) (sl : slot)
    (sub detail : option bytes) (state : HealthState) ctx :
  GetCounter None name w = (NoopSlot, w) /\ GetGauge None name w = (NoopSlot, w) /\
  GetHistogram None name w = (NoopSlot, w) /\ GetChannel None name size align ty w = (NoopSlot, w) /\
  Publish None sl v t w = w /\ SetResource None name v w = w /\
  GetEventSource None name w = (mkEventSource 0 name, w) /\
  exists w', ReportHealth None sub state detail ctx t w = Some w' /\ backend w' = backend w /\
    (fallback w' = fallback w <-> state = kOk).
Proof.
  split_and!; try done. unfold ReportHealth. destruct (decide (state = kOk)) as [->|Hn].
  - exists w. now split_and!.
  - rewrite bool_decide_true by done. eexists. split_and!; [done|done|]. split; [|done].
    cbn. intros H. exfalso. apply (f_equal length) in H. rewrite length_app in H.
    unfold UnboundReportHealth in H. rewrite !length_app in H. cbn [length] in H. lia.
Qed.
End Theorems.

Lemma level_routing_witness :
  let w := mkWorld (mkConsole 2 [] []) [] in
  ShouldLog (Some (console_binding (fun _ => (demo_platform, [Wrote 767]))))
    (SetLogLevel (Some (console_binding (fun _ => (demo_platform, [Wrote 767])))) kError w) kError = true.
Proof.
  intros w.
  destruct (level_routing (console_binding (fun _ => (demo_platform, [Wrote 767]))) kError kError w w 0 None [] [] no_context 0)
    as (_ & H & _); [reflexivity|].
  apply H. split; [discriminate|reflexivity].
Defined.

Lemma macro_gates_witness :
  XM_LOG 3 None None kInfo (Unbound.str "x") [] no_context 0 (mkWorld tt []) = Some (mkWorld tt []).
Proof.
  destruct (macro_gates 3 (@None (Binding unit)) None kInfo (Unbound.str "x") [] [] no_context 0 (mkWorld tt [])) as (_ & H & _).
  apply H. reflexivity.
Defined.

(** ** Events at the console *)

Definition wrote (st : console) (text : bytes) : console := mkConsole (g_level st) (sources st) (stderr st ++ text).

Lemma wrote_app st t1 t2 : wrote (wrote st t1) t2 = wrote st (t1 ++ t2).
Proof. unfold wrote. cbn. by rewrite app_assoc. Qed.

Lemma wrote_nil st : wrote st [] = st.
Proof. unfold wrote. rewrite app_nil_r. by destruct st. Qed.

Lemma level_wrote st t sev : ShouldLogImpl (wrote st t) sev = ShouldLogImpl st sev.
Proof. reflexivity. Qed.

(** The line of a message, and what a format and its arguments say. *)
Definition event_line (pl : platform) (name : option bytes) (sev : Severity) (msg : bytes) : bytes :=
  take 766 (line_body pl name sev msg) ++ [10].

Definition event_says (fmt : bytes) (args : list arg) : bytes :=
  take 511 (fill console_show (pieces None fmt) (kept 8 160 (map value_of args))).

Lemma compiled_in_0 sev : compiled_in 0 sev = true.
Proof. by destruct sev. Qed.

(** The macros at the console: an event of a site that is compiled in writes its line
    when the level admits it; nothing else happens. *)
Lemma XM_LOG_console floor io src sev fmt args ctx now st other :
  working (snd (io now)) -> Forall (fun x => value_ok (value_of x)) args ->
  XM_LOG floor (Some (console_binding io)) src sev fmt args ctx now (mkWorld st other) =
  Some (mkWorld (wrote st (if compiled_in floor sev && ShouldLogImpl st sev
    then event_line (fst (io now)) (LookupSource st (match src with Some s => id_ s | None => 0 end)) sev (event_says fmt args) else [])) other).
Proof.
  intros Hw Hok. unfold XM_LOG. destruct (compiled_in floor sev); cbn [andb]; [|by rewrite wrote_nil].
  assert (forall id name, EmitEvent (Some (console_binding io)) id name sev fmt args ctx now (mkWorld st other) =
    Some (mkWorld (wrote st (if ShouldLogImpl st sev then event_line (fst (io now)) (LookupSource st id) sev (event_says fmt args) else [])) other)) as H;
    [|destruct src; apply H].
  intros id name. unfold EmitEvent, gate. cbn [console_binding should_log emit_event backend].
  destruct (ShouldLogImpl st sev) eqn:El; cbn [negb]; [|by rewrite wrote_nil].
  rewrite EmitEventImpl_spec by done. by rewrite El.
Qed.

Lemma XM_STREAM_console floor io src sev msg ctx now st other :
  working (snd (io now)) ->
  XM_STREAM floor (Some (console_binding io)) src sev msg ctx now (mkWorld st other) =
  Some (mkWorld (wrote st (if compiled_in floor sev && ShouldLogImpl st sev
    then event_line (fst (io now)) (LookupSource st (match src with Some s => id_ s | None => 0 end)) sev (take 511 msg) else [])) other).
Proof.
  intros Hw. unfold XM_STREAM. destruct (compiled_in floor sev); cbn [andb]; [|by rewrite wrote_nil].
  cbn [ShouldLog]. unfold gate. cbn [console_binding should_log backend].
  destruct (ShouldLogImpl st sev) eqn:El; [|by rewrite wrote_nil].
  assert (forall id name, EmitEventDyn (Some (console_binding io)) id name sev msg ctx now (mkWorld st other) =
    Some (mkWorld (wrote st (event_line (fst (io now)) (LookupSource st id) sev (take 511 msg))) other)) as H; [|destruct src; apply H].
  intros id name. unfold EmitEventDyn, gate. cbn [console_binding should_log emit_event_dyn backend]. rewrite El. cbn [negb].
  unfold EmitEventDynImpl. rewrite El. cbn [negb]. by rewrite DynMessage_spec, EmitLine_spec.
Qed.

(** One event of a program, and what follows it. *)
Lemma log_then {B} floor io sev fmt args ctx now st other (k : world console -> option B) :
  working (snd (io now)) -> Forall (fun x => value_ok (value_of x)) args ->
  (XM_LOG floor (Some (console_binding io)) None sev fmt args ctx now (mkWorld st other) ≫= k) =
  k (mkWorld (wrote st (if compiled_in floor sev && ShouldLogImpl st sev
                        then event_line (fst (io now)) None sev (event_says fmt args) else [])) other).
Proof. intros Hw Hok. by rewrite XM_LOG_console. Qed.

Lemma stream_then {B} floor io sev msg ctx now st other (k : world console -> option B) :
  working (snd (io now)) ->
  (XM_STREAM floor (Some (console_binding io)) None sev msg ctx now (mkWorld st other) ≫= k) =
  k (mkWorld (wrote st (if compiled_in floor sev && ShouldLogImpl st sev
                        then event_line (fst (io now)) None sev (take 511 msg) else [])) other).
Proof. intros Hw. by rewrite XM_STREAM_console. Qed.

(** Registration appends a new name and leaves a known one where it is. *)
Lemma InternSource_names st name :
  sources (snd (InternSourceImpl name st)) = sources st ++ (if decide (name ∈ sources st) then [] else [name]).
Proof.
  unfold InternSourceImpl. pose proof (find_source_spec 0 (sources st) name) as Hf.
  destruct (find_source 0 (sources st) name) as [k|]; cbn [snd sources].
  - destruct Hf as (j & -> & Hj). rewrite decide_True by (by eapply list_elem_of_lookup_2). by rewrite app_nil_r.
  - rewrite decide_False; [done|]. intros Hin. by apply Hf, list_elem_of_In.
Qed.

(** C8: The whole path of an event to the console: a source registered by name,
    an event at a severity the level admits, its arguments packed, formatted,
    assembled and written: stderr grows by exactly one line that carries the
    source's name and the text the format and the arguments mean; below the
    level it does not grow.  Nothing else changes: not the level, not the fallback
    output, and of the registered names only the new one is added, at the end. *)
Theorem event_to_console io (st : console) (name : bytes) (sev : Severity) (fmt : bytes) (args : list arg) ctx now other :
  NoDup (sources st) -> Z.of_nat (length (sources st)) + 1 < 2 ^ 32 ->
  Forall (fun a => value_ok (value_of a)) args -> working (snd (io now)) ->
  let bd := Some (console_binding io) in
  let '(src, w1) := GetEventSource bd name (mkWorld st other) in
  let msg := take 511 (fill console_show (pieces None fmt) (kept 8 160 (map value_of args))) in
  let line := take 766 (line_body (fst (io now)) (Some name) sev msg) ++ [10] in
  exists w2, XM_LOG 0 bd (Some src) sev fmt args ctx now w1 = Some w2 /\ fallback w2 = other /\
    stderr (backend w2) = stderr st ++ (if ShouldLogImpl st sev then line else []) /\
    g_level (backend w2) = g_level st /\
    sources (backend w2) = sources st ++ (if decide (name ∈ sources st) then [] else [name]).
Proof.
  intros Hnd Hlen Hok Hw bd. subst bd. cbn [GetEventSource console_binding intern_source backend].
  pose proof (registry_facts st name Hnd Hlen) as Hr. rewrite <- InternSource_names.
  destruct (InternSourceImpl name st) as [i st1]. destruct Hr as (Hl & El & Es). cbn [snd].
  set (msg := take 511 _). unfold XM_LOG.
  replace (compiled_in 0 sev) with true by (now destruct sev). cbn [id_ source_name_].
  unfold EmitEvent, gate. cbn [console_binding should_log emit_event with_backend backend].
  assert (ShouldLogImpl st1 sev = ShouldLogImpl st sev) as Eg by (unfold ShouldLogImpl; now rewrite El).
  rewrite Eg. destruct (ShouldLogImpl st sev) eqn:Esl; cbn [negb].
  - rewrite EmitEventImpl_spec by done. rewrite Eg. cbn [lift with_backend fallback backend stderr].
    eexists. split_and!; [done|done| |done|done]. cbn. rewrite Es, Hl. done.
  - eexists. split_and!; [done|done| |done|done]. cbn. now rewrite Es, app_nil_r.
Qed.

Lemma event_to_console_witness :
  exists w2, XM_LOG 0 (Some (console_binding (fun _ => (demo_platform, [Wrote 767])))) (Some (mkEventSource 1 (str "arm")))
      kWarn (str "q={:.2f}") [AFloat 0x3ff8000000000000] no_context 5
      (mkWorld (mkConsole 2 [str "arm"] []) []) = Some w2 /\
    stderr (backend w2) = str "[warning] [1700000000.000000042] [robot]: [arm] q=1.50" ++ [10] /\
    sources (backend w2) = [str "arm"].
Proof.
  destruct (event_to_console (fun _ => (demo_platform, [Wrote 767])) (mkConsole 2 [str "arm"] []) (str "arm") kWarn
              (str "q={:.2f}") [AFloat 0x3ff8000000000000] no_context 5 []) as (w2 & E & _ & H & _ & Hs).
  - repeat constructor; vm_compute; intros Hx; inversion Hx.
  - cbn; lia.
  - repeat constructor; cbn; unfold in_width; lia.
  - split; [intros [H|[]]; discriminate|cbn; lia].
  - exists w2. split; [exact E|]. rewrite H, Hs. split; vm_compute; reflexivity.
Defined.
