(* ===== verification/ConsoleThreads.v ===== *)
(** * Threads logging through the console binding

    src/src/telemetry_console_binding.cpp with any number of threads: the level is
    one relaxed atomic, the source registry is under its mutex, and a line is
    handed to write(2) in a loop.  A thread is a list of calls of the front door; a
    step is one access to what the threads share: a load or store of the level,
    taking or giving back the mutex, one comparison of the registry's scan, one
    call of write(2).  A relaxed load of the level may return any value ever stored
    (coherence, which forbids some of them, is not used).  The registry is a single
    copy because the mutex orders its accesses: that no thread touches it without
    the mutex is part of the well-formedness proved here. *)

From Stdlib Require Import ZArith Lia String.
From stdpp Require Import base list numbers relations.
From S2P Require Import Prelude Context Printf ArgPack Format Unbound ConsoleFormat Console Dispatch.

Local Open Scope Z_scope.

(** ** Calls *)

(** A source is the index of one the thread has obtained; [None] is the macro
    without a source. *)
Inductive call :=
| Get (name : bytes)                                                     (* GetEventSource *)
| SetLevel (l : Severity)                                                (* SetLogLevel *)
| Log (src : option nat) (sev : Severity) (fmt : bytes) (args : list arg)  (* XM_LOG *)
| LogText (src : option nat) (sev : Severity) (msg : bytes)              (* XM_LOG_STREAM *)
| Health (subsystem : option bytes) (state : HealthState) (detail : option bytes).  (* ReportHealth *)

(** How a call ended: the id obtained, the level set, suppressed, a line that
    write(2) accepted, or what it accepted before it failed. *)
Inductive outcome := Source (id : Z) | LevelSet | Suppressed | Line (l : bytes) | Cut (w : bytes).

Definition call_severity (c : call) : Severity :=
  match c with
  | Log _ sev _ _ | LogText _ sev _ => sev
  | Health _ state _ => health_severity state
  | _ => kOff
  end.

(** How often the level is loaded on the way to the line: by the stream macro, by
    the front door, and by the binding itself. *)
Definition gates (c : call) : nat :=
  match c with Log _ _ _ _ => 2 | LogText _ _ _ => 3 | _ => 1 end.

(** The message handed to [EmitLine]. *)
Definition message (c : call) : option bytes :=
  match c with
  | Log _ _ fmt args => FormatMessage 512 fmt (PackArgs args)
  | LogText _ _ msg => Some (DynMessage msg)
  | Health sub state detail => Some (HealthMessage sub state detail)
  | _ => None
  end.

(** ** State *)

(** [stored] is the modification order of the level, [binding] holds its newest
    value. *)
Record shared := mkShared { binding : console; stored : list Z; mtx : option nat }.

(** Where a thread stands in the call at the head of its list. *)
Inductive pc :=
| Start
| Scan (i : nat)                                   (* InternSource: the loop, mutex held *)
| Release (id : Z)                                 (* InternSource: about to unlock *)
| Gate (n : nat)                                   (* n loads of the level have admitted the event *)
| Format
| Lookup (pl : platform) (msg : bytes)             (* EmitLine: clock read *)
| Find (pl : platform) (msg : bytes)               (* LookupSource: mutex held *)
| Found (pl : platform) (msg : bytes) (src : option bytes)
| Writing (line : bytes) (off : nat).

Record thread := mkThread { past : list (call * outcome); todo : list call; at_ : pc }.

Definition obtained (past : list (call * outcome)) : list Z :=
  omap (fun x => match snd x with Source id => Some id | _ => None end) past.

Definition source_id (c : call) (past : list (call * outcome)) : Z :=
  match c with
  | Log (Some k) _ _ _ | LogText (Some k) _ _ => default 0 (obtained past !! k)
  | _ => 0
  end.

(** ** One step *)

(** What the platform, write(2) and the memory answer at a step: [stale] picks the
    store of the level that a load reads. *)
Record env := mkEnv { plat : platform; written : write_result; stale : nat }.

Definition goto (th : thread) (p : pc) : thread := mkThread (past th) (todo th) p.
Definition finish (th : thread) (o : outcome) : thread :=
  match todo th with
  | c :: l => mkThread (past th ++ [(c, o)]) l Start
  | [] => th
  end.
Definition with_binding (s : shared) (st : console) : shared := mkShared st (stored s) (mtx s).

Definition acquire (t : nat) (s : shared) : option shared :=
  match mtx s with None => Some (mkShared (binding s) (stored s) (Some t)) | Some _ => None end.
Definition release (s : shared) : shared := mkShared (binding s) (stored s) None.

(** The store of [SetLevelImpl]. *)
Definition store_level (l : Severity) (s : shared) : shared :=
  mkShared (SetLevelImpl l (binding s)) (stored s ++ [severity_u8 l]) (mtx s).

(** The binding as a relaxed load of the level sees it. *)
Definition seen (ch : nat) (s : shared) : console :=
  mkConsole (default (g_level (binding s)) (stored s !! ch)) (sources (binding s)) (stderr (binding s)).

(** A load of the level, [n] loads having admitted the event before. *)
Definition gate_step (ch : nat) (c : call) (n : nat) (s : shared) (th : thread) : thread :=
  if ShouldLogImpl (seen ch s) (call_severity c)
  then goto th (if (S n <? gates c)%nat then Gate (S n) else Format)
  else finish th Suppressed.

(** The loop of [InternSourceImpl] at index [i]. *)
Definition scan_step (name : bytes) (i : nat) (s : shared) (th : thread) : shared * thread :=
  let st := binding s in
  match sources st !! i with
  | Some n => (s, goto th (if decide (n = name) then Release (u32 (Z.of_nat i + 1)) else Scan (S i)))
  | None =>
      let names := sources st ++ [name] in
      (with_binding s (mkConsole (g_level st) names (stderr st)), goto th (Release (u32 (Z.of_nat (length names)))))
  end.

(** One call of write(2). *)
Definition write_step (r : write_result) (line : bytes) (off : nat) (s : shared) (th : thread) : shared * thread :=
  match r with
  | Interrupted => (s, th)
  | WriteFailed => (s, finish th (Cut (take off line)))
  | Wrote n =>
      let w := take n (drop off line) in
      let st := binding s in
      (with_binding s (mkConsole (g_level st) (sources st) (stderr st ++ w)),
       if (off + length w <? length line)%nat then goto th (Writing line (off + length w)) else finish th (Line line))
  end.

Definition step (e : env) (t : nat) (s : shared) (th : thread) : option (shared * thread) :=
  match todo th with
  | [] => None
  | c :: _ =>
      match at_ th with
      | Start =>
          match c with
          | Get _ => match acquire t s with Some s => Some (s, goto th (Scan 0)) | None => None end
          | SetLevel l => Some (store_level l s, finish th LevelSet)
          | _ => Some (s, gate_step (stale e) c 0 s th)
          end
      | Scan i => match c with Get name => Some (scan_step name i s th) | _ => None end
      | Release id => Some (release s, finish th (Source id))
      | Gate n => Some (s, gate_step (stale e) c n s th)
      | Format => match message c with Some msg => Some (s, goto th (Lookup (plat e) msg)) | None => None end
      | Lookup pl msg =>
          if source_id c (past th) =? 0
          then Some (s, goto th (Writing (line_of (line_text pl None (call_severity c) msg)) 0))
          else match acquire t s with Some s => Some (s, goto th (Find pl msg)) | None => None end
      | Find pl msg => Some (s, goto th (Found pl msg (LookupSource (binding s) (source_id c (past th)))))
      | Found pl msg src =>
          Some (release s, goto th (Writing (line_of (line_text pl src (call_severity c) msg)) 0))
      | Writing line off => Some (write_step (written e) line off s th)
      end
  end.

(** ** Runs *)

Definition config : Type := shared * list thread.

(** A step of any thread, the environment's answer being one of [ok]. *)
Inductive tstep (ok : env -> Prop) : config -> config -> Prop :=
| tstep_one s ts t th e s' th' :
    ts !! t = Some th -> ok e -> step e t s th = Some (s', th') -> tstep ok (s, ts) (s', <[t := th']> ts).

Definition any_answer (e : env) : Prop := True.

(** write(2) takes a line whole or not at all (a line is at most 767 bytes). *)
Definition whole_lines (e : env) : Prop := match written e with Wrote n => (767 <= n)%nat | _ => True end.

(** And does not ask to be called again. *)
Definition prompt (e : env) : Prop := match written e with Wrote n => (767 <= n)%nat | Interrupted => False | WriteFailed => True end.

Definition start (st : console) (progs : list (list call)) : config :=
  (mkShared st [g_level st] None, map (fun p => mkThread [] p Start) progs).

Definition finished (th : thread) : bool := match todo th with [] => true | _ => false end.

(** ** What a call means *)

Definition is_event (c : call) : bool := match c with Get _ | SetLevel _ => false | _ => true end.

Definition call_ok (c : call) : Prop :=
  match c with Log _ _ _ args => Forall (fun a => value_ok (value_of a)) args | _ => True end.

Definition says (c : call) : bytes :=
  match c with
  | Log _ _ fmt args => take 511 (fill console_show (pieces None fmt) (kept 8 160 (map value_of args)))
  | LogText _ _ msg => take 511 msg
  | Health sub state detail => HealthMessage sub state detail
  | _ => []
  end.

Definition admits (lv : Z) (sev : Severity) : bool := negb (bool_decide (sev = kOff)) && (lv <=? severity_u8 sev).

(** The line of an event under a registry: the name its source has there. *)
Definition call_line (pl : platform) (st : console) (id : Z) (c : call) : bytes :=
  take 766 (line_body pl (LookupSource st id) (call_severity c) (says c)) ++ [10].

Lemma message_says c : is_event c = true -> call_ok c -> message c = Some (says c).
Proof.
  destruct c as [| |src sev fmt args|src sev msg|sub state d]; cbn [is_event call_ok message says]; try done; intros _ Hok.
  - apply (FormatMessage_spec 512 fmt _ _ (PackArgs_holds args)).
    apply kept_ok, Forall_map, Hok.
  - by rewrite DynMessage_spec.
Qed.

Lemma says_length c : (length (says c) <= 511)%nat.
Proof. destruct c; cbn [says]; try (cbn; lia); unfold HealthMessage; rewrite length_take; lia. Qed.

Lemma call_line_of pl st id c :
  line_of (line_text pl (LookupSource st id) (call_severity c) (says c)) = call_line pl st id c.
Proof. rewrite line_text_body. apply line_of_spec. Qed.

Lemma call_line_length pl st id c : (0 < length (call_line pl st id c) <= 767)%nat.
Proof. unfold call_line. rewrite length_app, length_take. cbn [length]. lia. Qed.

Section Invariant.
(** The values the level can take. *)
Variable Lv : Z -> Prop.

Definition admitted (c : call) : Prop := exists lv, Lv lv /\ admits lv (call_severity c) = true.
Definition rejected (c : call) : Prop := exists lv, Lv lv /\ admits lv (call_severity c) = false.

Definition resolves (st : console) (id : Z) (name : bytes) : Prop := 1 <= id /\ LookupSource st id = Some name.

(** A call of a history ended as it should. *)
Definition outcome_ok (st : console) (past : list (call * outcome)) (c : call) (o : outcome) : Prop :=
  match o with
  | Source id => exists name, c = Get name /\ resolves st id name
  | LevelSet => exists l, c = SetLevel l
  | Suppressed => is_event c = true /\ rejected c
  | Line l => is_event c = true /\ admitted c /\ exists pl, l = call_line pl st (source_id c past) c
  | Cut w => is_event c = true /\ admitted c /\ exists pl k, w = take k (call_line pl st (source_id c past) c)
  end.

Inductive history_ok (st : console) : list (call * outcome) -> Prop :=
| history_nil : history_ok st []
| history_snoc h c o : history_ok st h -> outcome_ok st h c o -> history_ok st (h ++ [(c, o)]).

Definition critical (p : pc) : bool :=
  match p with Scan _ | Release _ | Find _ _ | Found _ _ _ => true | _ => false end.

Definition at_event (c : call) : Prop := is_event c = true /\ admitted c.

(** What a thread carries at each point. *)
Definition pc_ok (st : console) (h : list (call * outcome)) (p : pc) (l : list call) : Prop :=
  match l with
  | [] => p = Start
  | c :: _ =>
      match p with
      | Start => True
      | Scan i => exists name, c = Get name /\ (i <= length (sources st))%nat /\
                    forall j, (j < i)%nat -> sources st !! j <> Some name
      | Release id => exists name, c = Get name /\ resolves st id name
      | Gate n => at_event c /\ (0 < n < gates c)%nat
      | Format => at_event c
      | Lookup _ msg => at_event c /\ msg = says c
      | Find _ msg => at_event c /\ msg = says c
      | Found _ msg src => at_event c /\ msg = says c /\ src = LookupSource st (source_id c h)
      | Writing line off => at_event c /\ (off < length line)%nat /\ exists pl, line = call_line pl st (source_id c h) c
      end
  end.

Definition todo_ok (c : call) : Prop := call_ok c /\ match c with SetLevel l => Lv (severity_u8 l) | _ => True end.

Definition thread_ok (s : shared) (t : nat) (th : thread) : Prop :=
  history_ok (binding s) (past th) /\ pc_ok (binding s) (past th) (at_ th) (todo th) /\
  Forall todo_ok (todo th) /\ (mtx s = Some t <-> critical (at_ th) = true).

Definition is_get (c : call) : nat := match c with Get _ => 1 | _ => 0 end.

(** The registrations a thread may still make. *)
Definition pending (th : thread) : nat :=
  sum_list_with is_get (todo th) - match at_ th with Release _ => 1 | _ => 0 end.

Definition shared_ok (s : shared) : Prop :=
  NoDup (sources (binding s)) /\ Lv (g_level (binding s)) /\ Forall Lv (stored s).

Lemma seen_ok ch s : shared_ok s -> Lv (g_level (seen ch s)).
Proof.
  intros (_ & Hl & Hf). cbn [seen g_level]. destruct (stored s !! ch) eqn:E; [|done]. cbn. by eapply Forall_lookup_1.
Qed.

(** ** Registries only grow *)

Definition grows (st st' : console) : Prop := exists l, sources st' = sources st ++ l.

Lemma grows_refl st st' : sources st' = sources st -> grows st st'.
Proof. intros H. exists []. by rewrite app_nil_r. Qed.

Lemma resolves_grows st st' id name : grows st st' -> resolves st id name -> resolves st' id name.
Proof.
  intros [l Hl] [H1 H2]. split; [done|]. destruct (LookupSource_Some st id name ltac:(lia) H2) as (i & -> & Hi).
  apply LookupSource_index. rewrite Hl. by apply lookup_app_l_Some.
Qed.

Lemma obtained_resolves st h id : history_ok st h -> id ∈ obtained h -> exists name, resolves st id name.
Proof.
  induction 1 as [|h c o Hh IH Ho]; [by intros ?%not_elem_of_nil|].
  unfold obtained. rewrite omap_app. intros [Hin|Hin]%elem_of_app; [by apply IH|].
  destruct o; cbn in Hin; try by apply not_elem_of_nil in Hin.
  apply list_elem_of_singleton in Hin as ->. destruct Ho as (name & _ & Hr). by exists name.
Qed.

Lemma source_id_resolves st h c :
  history_ok st h -> source_id c h = 0 \/ exists name, resolves st (source_id c h) name.
Proof.
  intros Hh. unfold source_id. destruct c as [| |[k|]| [k|]|]; try by left.
  all: destruct (obtained h !! k) as [id|] eqn:E; [right|by left].
  all: apply (obtained_resolves _ h); [done|]; by apply list_elem_of_lookup_2 with k.
Qed.

Lemma call_line_grows st st' h c pl :
  history_ok st h -> grows st st' -> call_line pl st' (source_id c h) c = call_line pl st (source_id c h) c.
Proof.
  intros Hh Hg. unfold call_line. assert (LookupSource st' (source_id c h) = LookupSource st (source_id c h)) as ->; [|done].
  destruct (source_id_resolves st h c Hh) as [->|(name & Hr)]; [done|].
  rewrite (proj2 Hr). apply (resolves_grows _ _ _ _ Hg Hr).
Qed.

Lemma outcome_grows st st' h c o : history_ok st h -> grows st st' -> outcome_ok st h c o -> outcome_ok st' h c o.
Proof.
  intros Hh Hg. destruct o; cbn [outcome_ok].
  - intros (name & ? & ?). exists name. eauto using resolves_grows.
  - done.
  - done.
  - intros (? & ? & pl & ->). split_and!; [done..|]. exists pl. by rewrite (call_line_grows st st').
  - intros (? & ? & pl & k & ->). split_and!; [done..|]. exists pl, k. by rewrite (call_line_grows st st').
Qed.

Lemma history_grows st st' h : grows st st' -> history_ok st h -> history_ok st' h.
Proof. intros Hg. induction 1; constructor; eauto using outcome_grows. Qed.

(** ** What a history says *)

Definition lines (past : list (call * outcome)) : list bytes :=
  omap (fun x => match snd x with Line l => Some l | _ => None end) past.

Lemma history_elem st h c o : history_ok st h -> (c, o) ∈ h -> exists h', outcome_ok st h' c o.
Proof.
  induction 1 as [|h c' o' Hh IH Ho]; [by intros ?%not_elem_of_nil|].
  intros [Hin|Hin]%elem_of_app; [by apply IH|]. apply list_elem_of_singleton in Hin as [= -> ->]. by exists h.
Qed.

Lemma history_lines st h l : history_ok st h -> l ∈ lines h -> exists body, l = body ++ [10] /\ (length body <= 766)%nat.
Proof.
  intros Hh ((c & o) & Hin & Ho)%list_elem_of_omap. destruct o; try done. injection Ho as ->.
  destruct (history_elem _ _ _ _ Hh Hin) as (h' & _ & _ & pl & ->). unfold call_line. eexists. split; [done|].
  rewrite length_take. apply Nat.le_min_l.
Qed.

(** An event whose fate the level decides whatever its value. *)
Definition decided (x : call * outcome) : Prop :=
  is_event (fst x) = true ->
  ((forall lv, Lv lv -> admits lv (call_severity (fst x)) = false) -> snd x = Suppressed) /\
  ((forall lv, Lv lv -> admits lv (call_severity (fst x)) = true) -> exists w, snd x = Line w \/ snd x = Cut w).

Lemma history_decided st h : history_ok st h -> Forall decided h.
Proof.
  intros Hh. apply Forall_forall. intros [c o] Hin Hc. cbn [fst snd] in *.
  destruct (history_elem _ _ _ _ Hh Hin) as (h' & Ho). split; intros Hall.
  - destruct o; cbn in Ho; try done.
    + by destruct Ho as (name & -> & _).
    + by destruct Ho as (lv & ->).
    + destruct Ho as (_ & (lv & Hlv & Ha) & _). by rewrite Hall in Ha.
    + destruct Ho as (_ & (lv & Hlv & Ha) & _). by rewrite Hall in Ha.
  - destruct o; cbn in Ho; try by eauto.
    + by destruct Ho as (name & -> & _).
    + by destruct Ho as (lv & ->).
    + destruct Ho as (_ & lv & Hlv & Ha). by rewrite Hall in Ha.
Qed.

(** A bound on the number of sources. *)
Variable B : nat.
Hypothesis B_width : Z.of_nat B < 2 ^ 32.

Definition config_ok (c : config) : Prop :=
  shared_ok (fst c) /\ (length (sources (binding (fst c))) + sum_list_with pending (snd c) <= B)%nat /\
  (forall u, mtx (fst c) = Some u -> (u < length (snd c))%nat) /\
  (forall t th, snd c !! t = Some th -> thread_ok (fst c) t th).

(** ** One step keeps everything *)

(** What a step of [t] may do to what the others see. *)
Definition evolves (t : nat) (s s' : shared) : Prop :=
  grows (binding s) (binding s') /\
  (mtx s = Some t \/ sources (binding s') = sources (binding s)) /\
  (forall u, u <> t -> mtx s' = Some u <-> mtx s = Some u).

Lemma evolves_same t s s' :
  sources (binding s') = sources (binding s) -> mtx s' = mtx s -> evolves t s s'.
Proof. intros H Hm. split_and!; [by apply grows_refl|by right|by rewrite Hm]. Qed.

Lemma evolves_release t s : mtx s = Some t -> evolves t s (release s).
Proof.
  intros H. split_and!; [by apply grows_refl|by right|]. intros u Hu. cbn [release mtx]. rewrite H.
  split; [done|]. intros [= ->]. done.
Qed.

Lemma evolves_acquire t s s' : acquire t s = Some s' -> evolves t s s' /\ binding s' = binding s /\ mtx s' = Some t /\ stored s' = stored s.
Proof.
  unfold acquire. destruct (mtx s) eqn:E; [done|]. intros [= <-]. split_and!; [|done..].
  split_and!; [by apply grows_refl|by right|]. intros u Hu. cbn [mtx]. rewrite E. split; [intros [= ->]; done|done].
Qed.

(** A thread that does not hold the mutex keeps what it knows. *)
Lemma thread_ok_other t u s s' th : u <> t -> evolves t s s' -> thread_ok s u th -> thread_ok s' u th.
Proof.
  intros Hu (Hg & Hs & Hm) (Hh & Hp & Ht & Hc). split_and!; [by apply (history_grows (binding s))| |done|by rewrite Hm].
  assert (critical (at_ th) = true -> sources (binding s') = sources (binding s)) as Hsrc.
  { intros Hcr. destruct Hs as [Hs|Hs]; [|done]. apply Hc in Hcr. rewrite Hs in Hcr. by injection Hcr. }
  unfold pc_ok in *. destruct (todo th) as [|c l]; [done|].
  destruct (at_ th) as [|i|id|n| |pl msg|pl msg|pl msg src|line off]; try done.
  - rewrite Hsrc by done. done.
  - destruct Hp as (name & ? & ?). exists name. eauto using resolves_grows.
  - destruct Hp as (? & ? & ->). split_and!; [done..|]. unfold LookupSource. by rewrite Hsrc.
  - destruct Hp as (? & ? & pl & ->). split_and!; [done..|]. exists pl. by rewrite (call_line_grows (binding s) (binding s')).
Qed.

(** The end of a call. *)
Lemma finish_ok s t th c l o :
  history_ok (binding s) (past th) -> todo th = c :: l -> Forall todo_ok (todo th) -> mtx s <> Some t ->
  outcome_ok (binding s) (past th) c o -> thread_ok s t (finish th o).
Proof.
  intros Hh El Ht Hm Ho. unfold finish. rewrite El in *. apply Forall_cons_1 in Ht as [_ Ht].
  split_and!; cbn [past todo at_]; [by constructor| |done|by split]. destruct l; done.
Qed.

Lemma finish_pending th c l o :
  todo th = c :: l -> pending (finish th o) = sum_list_with is_get l.
Proof. intros El. unfold finish. rewrite El. unfold pending. cbn. lia. Qed.

Lemma is_event_get c : is_event c = true -> is_get c = 0%nat.
Proof. by destruct c. Qed.

(** What a step has to establish. *)
Definition step_goal (t : nat) (s : shared) (th : thread) (s' : shared) (th' : thread) : Prop :=
  shared_ok s' /\ thread_ok s' t th' /\ evolves t s s' /\
  (length (sources (binding s')) + pending th' <= length (sources (binding s)) + pending th)%nat.

Lemma evolves_refl t s : evolves t s s.
Proof. by apply evolves_same. Qed.

(** A step that stays inside an event and leaves the registry. *)
Lemma event_goto t s s' th c l p :
  shared_ok s -> binding s' = binding s -> stored s' = stored s -> evolves t s s' ->
  thread_ok s t th -> todo th = c :: l -> is_event c = true ->
  pc_ok (binding s) (past th) p (c :: l) -> (mtx s' = Some t <-> critical p = true) ->
  step_goal t s th s' (goto th p).
Proof.
  intros Hs Eb Est He (Hh & Hp0 & Ht & _) El Hc Hp Hm. rewrite El in Hp0.
  assert (forall q id, pc_ok (binding s) (past th) q (c :: l) -> q <> Release id) as Hr.
  { intros q id Hq ->. cbn in Hq. destruct Hq as (name & -> & _). done. }
  split_and!; [by unfold shared_ok; rewrite Eb, Est| |done|].
  - split_and!; cbn [goto past todo at_]; rewrite ?Eb, ?El; try done. by rewrite <- El.
  - rewrite Eb. unfold pending. cbn [goto todo at_].
    destruct p; destruct (at_ th); first [lia | by destruct (Hr _ _ Hp eq_refl) | by destruct (Hr _ _ Hp0 eq_refl)].
Qed.

(** A step that ends a call. *)
Lemma step_finish t s s' th c l o :
  shared_ok s' -> sources (binding s') = sources (binding s) -> mtx s' = mtx s ->
  thread_ok s t th -> todo th = c :: l -> critical (at_ th) = false ->
  outcome_ok (binding s') (past th) c o -> step_goal t s th s' (finish th o).
Proof.
  intros Hs Hst Hms (Hh & _ & Ht & Hm) El Hcr Ho.
  split_and!; [done| |by apply evolves_same|].
  - apply (finish_ok _ _ _ c l); try done; [by apply (history_grows (binding s)), Hh; apply grows_refl|].
    rewrite Hms, Hm, Hcr. done.
  - rewrite (finish_pending _ c l) by done. unfold pending. rewrite El, Hst. cbn.
    destruct (at_ th); try done; lia.
Qed.

Lemma step_gate t s th c l n ch :
  shared_ok s -> thread_ok s t th -> todo th = c :: l -> is_event c = true -> (n < gates c)%nat -> critical (at_ th) = false ->
  step_goal t s th s (gate_step ch c n s th).
Proof.
  intros Hs Hth El Hc Hn Hcr. unfold gate_step.
  change (ShouldLogImpl (seen ch s) (call_severity c)) with (admits (g_level (seen ch s)) (call_severity c)).
  pose proof (seen_ok ch s Hs) as Hseen.
  destruct (Hth) as (_ & _ & _ & Hm). assert (mtx s <> Some t) as Hmt by (rewrite Hm, Hcr; done).
  destruct (admits (g_level (seen ch s)) (call_severity c)) eqn:Ea.
  - assert (at_event c) as Hev by (split; [done|]; by exists (g_level (seen ch s))).
    destruct (Nat.ltb_spec (S n) (gates c)); apply (event_goto t s s th c l); try done; try apply evolves_refl; try (by split).
    cbn. split; [done|lia].
  - apply (step_finish _ _ _ _ c l); try done. split; [done|]. by exists (g_level (seen ch s)).
Qed.

Lemma step_scan t s th name i l :
  shared_ok s -> (length (sources (binding s)) + pending th <= B)%nat -> thread_ok s t th ->
  todo th = Get name :: l -> at_ th = Scan i ->
  step_goal t s th (fst (scan_step name i s th)) (snd (scan_step name i s th)).
Proof.
  intros Hs Hb (Hh & Hp & Ht & Hm) El Ea. rewrite El, Ea in Hp. destruct Hp as (nm & [= <-] & Hi & Hnot).
  rewrite Ea in Hm. assert (mtx s = Some t) as Hmt by (by apply Hm).
  assert (pending th = S (sum_list_with is_get l)) as Ep by (unfold pending; rewrite El, Ea; cbn; lia).
  unfold scan_step. destruct (sources (binding s) !! i) as [n|] eqn:E; cbn [fst snd].
  - pose proof (lookup_lt_Some _ _ _ E) as Hlt. split_and!; [done| |apply evolves_refl|].
    + split_and!; [done| |done|]; cbn [goto at_ past todo]; [|by destruct (decide _)].
      rewrite El. destruct (decide (n = name)) as [->|Hn].
      * exists name. split; [done|]. rewrite wrap_id by (unfold in_width; lia). split; [lia|by apply LookupSource_index].
      * exists name. split_and!; [done|lia|]. intros j Hj. destruct (decide (j = i)) as [->|]; [rewrite E; congruence|]. apply Hnot. lia.
    + unfold pending at 1. cbn [goto at_ todo]. rewrite Ep, El. destruct (decide _); cbn; lia.
  - assert (i = length (sources (binding s))) as -> by (apply lookup_ge_None in E; lia).
    assert (NoDup (sources (binding s) ++ [name])) as Hnd.
    { apply NoDup_app. split; [apply Hs|]. split; [|apply NoDup_singleton].
      intros x (j & Hj)%list_elem_of_lookup ->%list_elem_of_singleton. by apply (Hnot j); [eapply lookup_lt_Some|]. }
    split_and!; [by split; [|apply Hs]| | |].
    + split_and!; cbn [goto at_ past todo with_binding binding mtx]; [|rewrite El|done|done].
      * apply (history_grows (binding s)); [by exists [name]|done].
      * exists name. split; [done|]. rewrite length_app. cbn [length]. rewrite wrap_id by (unfold in_width; lia).
        split; [lia|]. rewrite Nat2Z.inj_add. apply LookupSource_index, lookup_snoc_last.
    + split_and!; [by exists [name]|by left|done].
    + unfold pending at 1. cbn [goto at_ todo with_binding binding sources]. rewrite Ep, El, length_app. cbn. lia.
Qed.

Lemma step_release t s th id l c :
  shared_ok s -> thread_ok s t th -> todo th = c :: l -> at_ th = Release id ->
  step_goal t s th (release s) (finish th (Source id)).
Proof.
  intros Hs (Hh & Hp & Ht & Hm) El Ea. rewrite El, Ea in Hp. destruct Hp as (name & -> & Hr).
  rewrite Ea in Hm. split_and!; [done| |by apply evolves_release, Hm|].
  - apply (finish_ok _ _ _ (Get name) l); try done. by exists name.
  - rewrite (finish_pending _ (Get name) l) by done. unfold pending. rewrite El, Ea. cbn. lia.
Qed.

Lemma step_write t s th c l r line off :
  shared_ok s -> thread_ok s t th -> todo th = c :: l -> at_ th = Writing line off ->
  step_goal t s th (fst (write_step r line off s th)) (snd (write_step r line off s th)).
Proof.
  intros Hs Hth El Ea. destruct (Hth) as (Hh & Hp & Ht & Hm). rewrite El, Ea in Hp.
  destruct Hp as ((Hc & Had) & Hoff & pl & Hline). rewrite Ea in Hm.
  unfold write_step. destruct r as [n| |]; cbn [fst snd].
  - set (st := mkConsole _ _ _). destruct (Nat.ltb_spec (off + length (take n (drop off line))) (length line)).
    + split_and!; [done| |by apply evolves_same|].
      * split_and!; cbn [goto at_ past todo]; [by apply (history_grows (binding s)), Hh; apply grows_refl| |done|done].
        rewrite El. split_and!; [by split|done|]. exists pl.
        rewrite Hline. symmetry. apply call_line_grows; [done|]. by apply grows_refl.
      * unfold pending. cbn [goto at_ todo]. rewrite El, Ea. done.
    + apply (step_finish _ _ _ _ c l); try done; [by rewrite Ea|]. split_and!; [done|done|]. exists pl.
      rewrite Hline. symmetry. apply call_line_grows; [done|]. by apply grows_refl.
  - split_and!; [done|done|apply evolves_refl|done].
  - apply (step_finish _ _ _ _ c l); try done; [by rewrite Ea|].
    split_and!; [done|done|]. exists pl, off. by rewrite Hline.
Qed.

Lemma step_event e t s th s' th' c l :
  shared_ok s -> thread_ok s t th -> todo th = c :: l -> is_event c = true ->
  step e t s th = Some (s', th') -> step_goal t s th s' th'.
Proof.
  intros Hs Hth El Hc. destruct (Hth) as (Hh & Hp & Ht & Hm). rewrite El in Hp.
  assert (call_ok c) as Hok by (rewrite El in Ht; apply Forall_cons_1 in Ht as [[? _] _]; done).
  assert (at_ th = Start -> step_goal t s th s (gate_step (stale e) c 0 s th)) as Hstart.
  { intros Ea. apply (step_gate t s th c l 0%nat); try done; [by destruct c; cbn; lia|by rewrite Ea]. }
  unfold step. rewrite El. destruct (at_ th) as [|i|id|n| |pl msg|pl msg|pl msg src|line off] eqn:Ea.
  - destruct c; try done; intros [= <- <-]; by apply Hstart.
  - destruct Hp as (name & -> & _). done.
  - destruct Hp as (name & -> & _). done.
  - destruct Hp as [Hev Hn]. intros [= <- <-].
    apply (step_gate t s th c l); try done; [lia|by rewrite Ea].
  - rewrite message_says by done. intros [= <- <-].
    apply (event_goto t s s th c l); try done. apply evolves_refl.
  - destruct Hp as [Hev ->].
    destruct (Z.eqb_spec (source_id c (past th)) 0) as [E0|E0].
    + intros [= <- <-].
      assert (line_of (line_text pl None (call_severity c) (says c)) = call_line pl (binding s) (source_id c (past th)) c) as E
        by (rewrite <- call_line_of, E0; done).
      rewrite E. apply (event_goto t s s th c l); try done; [apply evolves_refl|]. split_and!; [done|apply call_line_length|by exists pl].
    + destruct (acquire t s) as [s1|] eqn:Eac; [|done]. intros [= <- <-].
      apply evolves_acquire in Eac as (He & Eb & Emt & Est). apply (event_goto t s s1 th c l); try done.
  - destruct Hp as [Hev ->]. intros [= <- <-].
    apply (event_goto t s s th c l); try done. apply evolves_refl.
  - destruct Hp as (Hev & -> & ->). rewrite call_line_of. intros [= <- <-].
    apply (event_goto t s (release s) th c l); try done; [by apply evolves_release, Hm|].
    split_and!; [done|apply call_line_length|by exists pl].
  - intros [= H]. pose proof (step_write t s th c l (written e) line off Hs Hth El Ea) as Hw. by rewrite H in Hw.
Qed.

Lemma step_ok e t s th s' th' :
  shared_ok s -> (length (sources (binding s)) + pending th <= B)%nat -> thread_ok s t th ->
  step e t s th = Some (s', th') -> step_goal t s th s' th'.
Proof.
  intros Hs Hb Hth Hst. destruct (todo th) as [|c l] eqn:El; [by unfold step in Hst; rewrite El in Hst|].
  destruct (is_event c) eqn:Hc; [by apply (step_event e t s th s' th' c l)|].
  destruct (Hth) as (Hh & Hp & Ht & Hm). rewrite El in Hp. unfold step in Hst. rewrite El in Hst.
  destruct (at_ th) as [|i|id|n| |pl msg|pl msg|pl msg src|line off] eqn:Ea;
    try (destruct Hp as [[Hp _] _] || destruct Hp as [Hp _]; congruence).
  - destruct c as [name|lv| | |]; try done.
    + destruct (acquire t s) as [s1|] eqn:Eac; [|done]. injection Hst as <- <-.
      apply evolves_acquire in Eac as (He & Eb & Emt & Est). split_and!; [by unfold shared_ok; rewrite Eb, Est| |done|].
      * split_and!; cbn [goto past todo at_]; rewrite ?Eb, ?El; [done| |by rewrite <- El|by rewrite Emt].
        exists name. split_and!; [done|lia|]. intros j Hj. lia.
      * rewrite Eb. unfold pending. cbn [goto at_ todo]. rewrite Ea. done.
    + injection Hst as <- <-. assert (Lv (severity_u8 lv)) as Hlv by (rewrite El in Ht; apply Forall_cons_1 in Ht as [[_ ?] _]; done).
      apply (step_finish _ _ _ _ (SetLevel lv) l); try done; [|by rewrite Ea|by exists lv].
      destruct Hs as (? & ? & ?). split_and!; [done|done|]. apply Forall_app_2; [done|by apply Forall_singleton].
  - destruct Hp as (name & -> & Hi). injection Hst as Hst.
    replace s' with (fst (scan_step name i s th)) by (by rewrite Hst).
    replace th' with (snd (scan_step name i s th)) by (by rewrite Hst). by apply (step_scan t s th name i l).
  - destruct Hp as (name & -> & Hr). injection Hst as <- <-. by apply (step_release t s th id l (Get name)).
Qed.

(** ** Configurations *)

Lemma sum_list_with_ge {A} (f : A -> nat) (l : list A) i x : l !! i = Some x -> (f x <= sum_list_with f l)%nat.
Proof. revert i. induction l as [|y l IH]; intros [|i] Hi; cbn in *; [done|done|injection Hi as ->; lia|apply IH in Hi; lia]. Qed.

Lemma config_ok_step ok c c' : config_ok c -> tstep ok c c' -> config_ok c'.
Proof.
  intros (Hs & Hb & Hu & Hts) Hst. destruct Hst as [s ts t th e s' th' Ht _ Hst]. cbn [fst snd] in *.
  pose proof (sum_list_with_ge pending ts t th Ht) as Hge.
  destruct (step_ok e t s th s' th' Hs ltac:(lia) (Hts t th Ht) Hst) as (Hs' & Hth' & He & Hp).
  pose proof (sum_list_with_insert pending ts t th th' Ht) as Hsum.
  split_and!; cbn [fst snd]; [done|lia| |].
  - intros u Hm. rewrite length_insert. destruct (decide (u = t)) as [->|Hn]; [by eapply lookup_lt_Some|].
    apply Hu. by apply (proj2 (proj2 He) u Hn).
  - intros u thu Hl. destruct (decide (u = t)) as [->|Hn].
    + rewrite list_lookup_insert_eq in Hl by (by eapply lookup_lt_Some). injection Hl as <-. done.
    + rewrite list_lookup_insert_ne in Hl by done. by apply (thread_ok_other t u s), Hts.
Qed.

Lemma config_ok_steps ok c c' : config_ok c -> rtc (tstep ok) c c' -> config_ok c'.
Proof. intros H Hr. induction Hr; eauto using config_ok_step. Qed.

Lemma grows_trans st1 st2 st3 : grows st1 st2 -> grows st2 st3 -> grows st1 st3.
Proof. intros [l1 H1] [l2 H2]. exists (l1 ++ l2). by rewrite H2, H1, app_assoc. Qed.

Lemma config_grows ok c c' : config_ok c -> rtc (tstep ok) c c' -> grows (binding (fst c)) (binding (fst c')).
Proof.
  intros Hc Hr. induction Hr as [|c1 c2 c3 H12 _ IH]; [by apply grows_refl|].
  apply (grows_trans _ (binding (fst c2))); [|by apply IH; eapply config_ok_step].
  destruct Hc as (Hs & Hb & _ & Hok). destruct H12 as [s ts t th e s' th' Ht _ Hst]. cbn [fst snd] in *.
  pose proof (sum_list_with_ge pending ts t th Ht).
  by destruct (step_ok e t s th s' th' Hs ltac:(lia) (Hok t th Ht) Hst) as (_ & _ & [Hg _] & _).
Qed.

(** A thread whose turn it can be has a step, whatever the platform answers. *)
Lemma step_possible e t s th :
  thread_ok s t th -> finished th = false -> mtx s = None \/ mtx s = Some t -> exists r, step e t s th = Some r.
Proof.
  intros (Hh & Hp & Ht & Hm) Hf Hmx. unfold finished in Hf. unfold step. destruct (todo th) as [|c l]; [done|].
  assert (critical (at_ th) = false -> exists s', acquire t s = Some s') as Hacq.
  { intros Hc. unfold acquire. destruct Hmx as [->|Hmt]; [by eexists|]. apply Hm in Hmt. congruence. }
  apply Forall_cons_1 in Ht as [[Hok _] _].
  destruct (at_ th) as [|i|id|n| |pl msg|pl msg|pl msg src|line off].
  - destruct c; try by eexists. destruct (Hacq eq_refl) as [s' ->]. by eexists.
  - destruct Hp as (name & -> & _). by eexists.
  - by eexists.
  - by eexists.
  - destruct Hp as [Hc _]. rewrite (message_says c Hc Hok). by eexists.
  - destruct (Hacq eq_refl) as [s' ->]. destruct (_ =? 0); by eexists.
  - by eexists.
  - by eexists.
  - by eexists.
Qed.

Lemma no_deadlock c :
  config_ok c -> Forall (fun th => finished th = true) (snd c) \/ forall e, exists c', tstep (fun e' => e' = e) c c'.
Proof.
  destruct c as [s ts]. intros (_ & _ & Hu & Hts). cbn [fst snd] in *.
  assert (forall e t th, ts !! t = Some th -> finished th = false -> mtx s = None \/ mtx s = Some t ->
            exists c', tstep (fun e' => e' = e) (s, ts) c') as Hgo.
  { intros e t th Ht Hf Hm. destruct (step_possible e t s th (Hts t th Ht) Hf Hm) as [[s' th'] Hst].
    exists (s', <[t := th']> ts). by apply (tstep_one _ s ts t th e). }
  destruct (decide (Forall (fun th => finished th = true) ts)) as [Hall|Hn]; [by left|right; intros e].
  destruct (mtx s) as [u|] eqn:Em.
  - destruct (lookup_lt_is_Some_2 ts u (Hu u eq_refl)) as [th Hth].
    apply (Hgo e u th Hth); [|by right]. destruct (Hts u th Hth) as (_ & Hp & _ & Hm).
    apply Hm in Em. unfold finished, pc_ok in *. destruct (todo th); [by rewrite Hp in Em|done].
  - apply not_Forall_Exists, Exists_exists in Hn; [|intros x; apply _]. destruct Hn as (th & (t & Ht)%list_elem_of_lookup & Hf).
    apply (Hgo e t th Ht); [by apply not_true_iff_false|by left].
Qed.

(** ** Runs end *)

Definition cost (c : call) : nat :=
  match c with Get _ => B + 3 | SetLevel _ => 1 | c => gates c + 5 end.

(** How many more steps a call and a thread can take. *)
Definition pc_left (c : call) (p : pc) : nat :=
  match p with
  | Start => cost c | Scan i => B - i + 2 | Release _ => 1 | Gate n => gates c - n + 5
  | Format => 5 | Lookup _ _ => 4 | Find _ _ => 3 | Found _ _ _ => 2 | Writing _ _ => 1
  end.
Definition left_ (th : thread) : nat :=
  match todo th with [] => 0 | c :: l => pc_left c (at_ th) + sum_list_with cost l end.

Lemma left_finish th c l o : todo th = c :: l -> left_ (finish th o) = sum_list_with cost l.
Proof. intros El. unfold finish. rewrite El. unfold left_. cbn [todo at_]. by destruct l. Qed.

Lemma left_gate th c l n s ch :
  todo th = c :: l -> (n < gates c)%nat -> (left_ (gate_step ch c n s th) < gates c - n + 5 + sum_list_with cost l)%nat.
Proof.
  intros El Hn. unfold gate_step. destruct (ShouldLogImpl _ _).
  - unfold left_. cbn [goto todo at_]. rewrite El. destruct (Nat.ltb_spec (S n) (gates c)); cbn [pc_left]; lia.
  - rewrite (left_finish th c l) by done. lia.
Qed.

Lemma left_write t s th c l r line off :
  thread_ok s t th -> todo th = c :: l -> at_ th = Writing line off ->
  match r with Wrote n => (767 <= n)%nat | Interrupted => False | WriteFailed => True end ->
  left_ (snd (write_step r line off s th)) = sum_list_with cost l.
Proof.
  intros (_ & Hp & _) El Ea Hr. rewrite El, Ea in Hp. destruct Hp as (_ & _ & pl & Hl).
  pose proof (call_line_length pl (binding s) (source_id c (past th)) c) as Hlen. rewrite <- Hl in Hlen.
  unfold write_step. destruct r as [n| |]; cbn [snd]; [|done|by apply (left_finish _ c)].
  rewrite length_take, length_drop. destruct (Nat.ltb_spec (off + Nat.min n (length line - off)) (length line)); [lia|].
  by apply (left_finish _ c).
Qed.

Lemma step_left e t s th s' th' :
  thread_ok s t th -> (length (sources (binding s)) <= B)%nat -> prompt e -> step e t s th = Some (s', th') ->
  (left_ th' < left_ th)%nat.
Proof.
  intros Hth Hb He Hst. destruct (Hth) as (_ & Hp & _). unfold step in Hst.
  destruct (todo th) as [|c l] eqn:El; [done|].
  assert (left_ th = pc_left c (at_ th) + sum_list_with cost l)%nat as -> by (unfold left_; by rewrite El).
  assert (forall q, left_ (goto th q) = pc_left c q + sum_list_with cost l)%nat as Hgoto
    by (intros; unfold left_; cbn [goto todo at_]; by rewrite El).
  assert (forall o, left_ (finish th o) = sum_list_with cost l) as Hfin by (intros; by apply (left_finish _ c)).
  assert (0 < gates c)%nat as Hg by (destruct c; cbn; lia).
  destruct (at_ th) as [|i|id|n| |pl msg|pl msg|pl msg src|line off] eqn:Ea.
  - pose proof (left_gate th c l 0 s (stale e) El Hg) as Hlg.
    destruct c; try (injection Hst as <- <-; cbn [pc_left cost]; lia).
    + destruct (acquire t s); [|done]. injection Hst as <- <-. rewrite Hgoto. cbn. lia.
    + injection Hst as <- <-. rewrite Hfin. cbn. lia.
  - destruct Hp as (name & -> & Hi & _). injection Hst as Hst. replace th' with (snd (scan_step name i s th)) by (by rewrite Hst).
    unfold scan_step. destruct (sources (binding s) !! i) eqn:E; cbn [snd]; rewrite Hgoto; cbn [pc_left]; [|lia].
    apply lookup_lt_Some in E. destruct (decide _); cbn; lia.
  - injection Hst as <- <-. rewrite Hfin. cbn. lia.
  - destruct Hp as [_ Hn]. injection Hst as <- <-. cbn [pc_left]. apply left_gate; [done|lia].
  - destruct (message c) as [msg|]; [|done]. injection Hst as <- <-. rewrite Hgoto. cbn. lia.
  - destruct (_ =? 0); [|destruct (acquire t s); [|done]]; injection Hst as <- <-; rewrite Hgoto; cbn; lia.
  - injection Hst as <- <-. rewrite Hgoto. cbn. lia.
  - injection Hst as <- <-. rewrite Hgoto. cbn. lia.
  - injection Hst as Hst. replace th' with (snd (write_step (written e) line off s th)) by (by rewrite Hst).
    rewrite (left_write t s th c l) by done. cbn. lia.
Qed.

Lemma runs_bounded n c c' :
  config_ok c -> nsteps (tstep prompt) n c c' -> (n + sum_list_with left_ (snd c') <= sum_list_with left_ (snd c))%nat.
Proof.
  intros Hc Hn. induction Hn as [|n c1 c2 c3 H12 _ IH]; [lia|].
  specialize (IH (config_ok_step _ _ _ Hc H12)). destruct H12 as [s ts t th e s' th' Ht He Hst]. cbn [snd] in *.
  destruct Hc as (_ & Hb & _ & Hts). cbn [fst snd] in *.
  pose proof (step_left e t s th s' th' (Hts t th Ht) ltac:(lia) He Hst).
  pose proof (sum_list_with_insert left_ ts t th th' Ht). lia.
Qed.

(** ** What reaches stderr *)

(** With whole writes, no thread is in the middle of a line. *)
Definition whole_thread (th : thread) : Prop :=
  Forall (fun x => forall w, snd x = Cut w -> w = []) (past th) /\
  (forall line off, at_ th = Writing line off -> off = 0%nat).

Lemma finish_past th c l o : todo th = c :: l -> past (finish th o) = past th ++ [(c, o)].
Proof. intros El. unfold finish. by rewrite El. Qed.

Lemma whole_goto th p : whole_thread th -> (forall line off, p = Writing line off -> off = 0%nat) -> whole_thread (goto th p).
Proof. intros [H1 H2] Hp. by split. Qed.

Lemma whole_finish th c l o : whole_thread th -> todo th = c :: l -> (forall w, o = Cut w -> w = []) -> whole_thread (finish th o).
Proof.
  intros [H1 H2] El Ho. split; [|unfold finish; by rewrite El].
  rewrite (finish_past th c l) by done. apply Forall_app_2; [done|]. by apply Forall_singleton.
Qed.

(** What a step adds to stderr: nothing, or the line it ends. *)
Definition adds (s s' : shared) (th th' : thread) (l : list bytes) : Prop :=
  stderr (binding s') = stderr (binding s) ++ concat l /\ lines (past th') = lines (past th) ++ l.

Lemma adds_goto s s' th p : stderr (binding s') = stderr (binding s) -> adds s s' th (goto th p) [].
Proof. intros H. split; cbn [concat goto past]; by rewrite app_nil_r. Qed.

Lemma adds_finish s s' th c l o :
  stderr (binding s') = stderr (binding s) -> todo th = c :: l -> (forall w, o <> Line w) -> adds s s' th (finish th o) [].
Proof.
  intros H El Ho. split; cbn [concat]; rewrite app_nil_r; [done|].
  rewrite (finish_past th c l) by done. unfold lines. rewrite omap_app. cbn.
  destruct o; try (by rewrite app_nil_r). by edestruct Ho.
Qed.

Lemma acquire_binding t s s' : acquire t s = Some s' -> binding s' = binding s.
Proof. unfold acquire. destruct (mtx s); [done|]. by intros [= <-]. Qed.

Lemma gate_adds s th c l n ch :
  todo th = c :: l -> whole_thread th -> whole_thread (gate_step ch c n s th) /\ adds s s th (gate_step ch c n s th) [].
Proof.
  intros El Hw. unfold gate_step. destruct (ShouldLogImpl _ _).
  - split; [|by apply adds_goto]. apply whole_goto; [done|]. by destruct (_ <? _)%nat.
  - split; [by apply (whole_finish th c l)|by apply (adds_finish _ _ _ c l)].
Qed.

Lemma write_adds t s th c l r line :
  thread_ok s t th -> todo th = c :: l -> at_ th = Writing line 0 -> whole_thread th ->
  match r with Wrote n => (767 <= n)%nat | _ => True end ->
  let r' := write_step r line 0 s th in
  whole_thread (snd r') /\ exists k, (k = [] \/ k = [line]) /\ adds s (fst r') th (snd r') k.
Proof.
  intros (_ & Hp & _) El Ea Hw Hr. rewrite El, Ea in Hp. destruct Hp as (_ & _ & pl & Hl).
  pose proof (call_line_length pl (binding s) (source_id c (past th)) c) as Hlen. rewrite <- Hl in Hlen.
  unfold write_step. destruct r as [n| |]; cbn [fst snd].
  - rewrite drop_0, take_ge by lia. cbn [Nat.add]. rewrite Nat.ltb_irrefl.
    split; [by apply (whole_finish th c l)|]. exists [line]. split; [by right|]. split; cbn [concat].
    + cbn. by rewrite app_nil_r.
    + rewrite (finish_past th c l) by done. unfold lines. by rewrite omap_app.
  - split; [done|]. exists []. split; [by left|]. split; cbn [concat]; by rewrite app_nil_r.
  - split; [apply (whole_finish th c l); try done; by intros w [= <-]|]. exists []. split; [by left|]. by apply (adds_finish _ _ _ c l).
Qed.

Lemma step_adds e t s th s' th' :
  thread_ok s t th -> whole_lines e -> whole_thread th -> step e t s th = Some (s', th') ->
  whole_thread th' /\ exists l, (length l <= 1)%nat /\ adds s s' th th' l.
Proof.
  intros Hth He Hw Hst. destruct (Hth) as (_ & Hp & _). unfold step in Hst. destruct (todo th) as [|c l] eqn:El; [done|].
  assert (forall q s1, binding s1 = binding s -> (forall line off, q = Writing line off -> off = 0%nat) ->
            whole_thread (goto th q) /\ exists k, (length k <= 1)%nat /\ adds s s1 th (goto th q) k) as Hgoto.
  { intros q s1 Hb Hq. split; [by apply whole_goto|]. exists []. split; [cbn; lia|]. apply adds_goto. by rewrite Hb. }
  assert (forall n ch, whole_thread (gate_step ch c n s th) /\ exists k, (length k <= 1)%nat /\ adds s s th (gate_step ch c n s th) k) as Hgate.
  { intros n ch. destruct (gate_adds s th c l n ch El Hw). split; [done|]. exists []. split; [cbn; lia|done]. }
  destruct (at_ th) as [|i|id|n| |pl msg|pl msg|pl msg src|line off] eqn:Ea.
  - destruct c; try (injection Hst as <- <-; apply Hgate).
    + destruct (acquire t s) eqn:E; [|done]. injection Hst as <- <-. apply Hgoto; [by eapply acquire_binding|done].
    + injection Hst as <- <-. split; [by eapply whole_finish|]. exists []. split; [cbn; lia|]. by eapply adds_finish.
  - destruct Hp as (name & -> & _). injection Hst as Hst. unfold scan_step in Hst.
    destruct (sources (binding s) !! i); injection Hst as <- <-.
    + apply Hgoto; [done|]. by destruct (decide _).
    + split; [by apply whole_goto|]. exists []. split; [cbn; lia|]. by apply adds_goto.
  - injection Hst as <- <-. split; [by eapply whole_finish|]. exists []. split; [cbn; lia|]. by eapply adds_finish.
  - injection Hst as <- <-. apply Hgate.
  - destruct (message c); [|done]. injection Hst as <- <-. by apply Hgoto.
  - destruct (_ =? 0); [|destruct (acquire t s) eqn:E; [|done]]; injection Hst as <- <-; apply Hgoto; try done.
    + by intros line off [= _ <-].
    + by eapply acquire_binding.
  - injection Hst as <- <-. by apply Hgoto.
  - injection Hst as <- <-. apply Hgoto; [done|]. by intros line off [= _ <-].
  - injection Hst as Hst. pose proof (proj2 Hw line off Ea) as ->.
    destruct (write_adds t s th c l (written e) line Hth El Ea Hw He) as [H1 (k & Hk & H2)]. rewrite Hst in *.
    split; [done|]. exists k. split; [by destruct Hk as [-> | ->]; cbn; lia|done].
Qed.

(** The lines of every thread, in the order they reached stderr. *)
Definition stderr_is (base : bytes) (c : config) (ls : list (nat * bytes)) : Prop :=
  stderr (binding (fst c)) = base ++ concat (map snd ls) /\
  Forall (fun x => (fst x < length (snd c))%nat) ls /\
  (forall t th, snd c !! t = Some th -> whole_thread th /\ select t ls = lines (past th)).

Lemma stderr_step base c c' ls :
  config_ok c -> stderr_is base c ls -> tstep whole_lines c c' -> exists ls', stderr_is base c' ls'.
Proof.
  intros Hc (Hs & Hf & Ht) Hst. destruct Hst as [s ts t th e s' th' Hl He Hst].
  destruct Hc as (_ & _ & _ & Hts). cbn [fst snd] in *. destruct (Ht t th Hl) as [Hw Hsel].
  pose proof (lookup_lt_Some _ _ _ Hl) as Hlt.
  destruct (step_adds e t s th s' th' (Hts t th Hl) He Hw Hst) as (Hw' & l & Hlen & Hout & Hlines).
  exists (ls ++ map (pair t) l). split_and!; cbn [fst snd].
  - rewrite Hout, Hs, map_app, map_map, concat_app. cbn [snd]. by rewrite map_id, app_assoc.
  - rewrite length_insert. apply Forall_app_2; [done|]. apply Forall_map, Forall_true. done.
  - intros u thu Hu. destruct (decide (u = t)) as [->|Hn].
    + rewrite list_lookup_insert_eq in Hu by done. injection Hu as <-. split; [done|]. rewrite Hlines, <- Hsel.
      destruct l as [|x [|y l]]; cbn [map length] in *; [by rewrite !app_nil_r| |lia].
      rewrite select_snoc. by case_decide.
    + rewrite list_lookup_insert_ne in Hu by done. destruct (Ht u thu Hu) as [? <-]. split; [done|].
      destruct l as [|x [|y l]]; cbn [map length] in *; [by rewrite app_nil_r| |lia].
      rewrite select_snoc. by case_decide.
Qed.

Lemma stderr_steps base c c' ls :
  config_ok c -> stderr_is base c ls -> rtc (tstep whole_lines) c c' -> exists ls', stderr_is base c' ls'.
Proof.
  intros Hc Hls Hr. revert ls Hc Hls. induction Hr as [|c1 c2 c3 H12 _ IH]; intros ls Hc Hls; [by exists ls|].
  destruct (stderr_step base c1 c2 ls Hc Hls H12) as [ls' Hls']. by eapply IH, Hls'; eapply config_ok_step.
Qed.

End Invariant.

(** ** Programs *)

Lemma step_shape e t s th s' th' :
  step e t s th = Some (s', th') -> th' = th \/ (exists p, th' = goto th p) \/ exists o, th' = finish th o.
Proof.
  unfold step. destruct (todo th) as [|c l]; [done|].
  assert (forall n ch, gate_step ch c n s th = th \/ (exists p, gate_step ch c n s th = goto th p) \/ exists o, gate_step ch c n s th = finish th o) as Hg.
  { intros n ch. unfold gate_step. destruct (ShouldLogImpl _ _); eauto. }
  destruct (at_ th) as [|i|id|n| |pl msg|pl msg|pl msg src|line off].
  - destruct c; try (intros [= <- <-]; by eauto). destruct (acquire t s); [|done]. intros [= <- <-]. eauto.
  - destruct c; try done. unfold scan_step. destruct (_ !! _); intros [= <- <-]; eauto.
  - intros [= <- <-]. eauto.
  - intros [= <- <-]. eauto.
  - destruct (message c); [|done]. intros [= <- <-]. eauto.
  - destruct (_ =? 0); [|destruct (acquire t s); [|done]]; intros [= <- <-]; eauto.
  - intros [= <- <-]. eauto.
  - intros [= <- <-]. eauto.
  - unfold write_step. destruct (written e); intros [= <- <-]; eauto. case_match; eauto.
Qed.

(** The calls of a thread, those made and those to come. *)
Definition program (th : thread) : list call := map fst (past th) ++ todo th.

Lemma step_program e t s th s' th' : step e t s th = Some (s', th') -> program th' = program th.
Proof.
  intros H. destruct (step_shape _ _ _ _ _ _ H) as [->|[[p ->]|[o ->]]]; [done..|].
  unfold finish, program. destruct (todo th) as [|c l] eqn:El; [by rewrite El|]. cbn [past todo].
  by rewrite map_app, <- app_assoc.
Qed.

Lemma steps_program ok c c' : rtc (tstep ok) c c' -> map program (snd c') = map program (snd c).
Proof.
  induction 1 as [|c1 c2 c3 H12 _ IH]; [done|]. rewrite IH. destruct H12 as [s ts t th e s' th' Ht _ Hst]. cbn [snd].
  rewrite list_fmap_insert, (step_program _ _ _ _ _ _ Hst). apply list_insert_id.
  rewrite list_lookup_fmap, Ht. done.
Qed.

(** ** The first configuration *)

Definition possible_level (st : console) (progs : list (list call)) (lv : Z) : Prop :=
  lv = g_level st \/ exists prog l, prog ∈ progs /\ SetLevel l ∈ prog /\ lv = severity_u8 l.

(** The names there can ever be. *)
Definition all_sources (st : console) (progs : list (list call)) : nat :=
  length (sources st) + sum_list_with (sum_list_with is_get) progs.

Definition runnable (st : console) (progs : list (list call)) : Prop :=
  NoDup (sources st) /\ Z.of_nat (all_sources st progs) < 2 ^ 32 /\ Forall (Forall call_ok) progs.

Lemma start_ok st progs :
  runnable st progs -> config_ok (possible_level st progs) (all_sources st progs) (start st progs).
Proof.
  intros (Hnd & Hw & Hok). split_and!; cbn [start fst snd binding mtx]; [split_and!; [done|by left|by repeat constructor; left]| |done|].
  - apply Nat.eq_le_incl. unfold all_sources. f_equal. clear. induction progs as [|p progs IH]; [done|].
    cbn. rewrite IH. unfold pending. cbn [todo at_]. lia.
  - intros t th Ht. apply list_lookup_fmap_Some in Ht as (prog & -> & Hp).
    split_and!; cbn [past todo at_ mtx]; [constructor|by destruct prog| |done].
    apply Forall_forall. intros c Hc. split.
    + rewrite Forall_forall in Hok. specialize (Hok prog (list_elem_of_lookup_2 _ _ _ Hp)).
      rewrite Forall_forall in Hok. by apply Hok.
    + destruct c; try done. right. exists prog, l. split_and!; [by apply list_elem_of_lookup_2 in Hp|done|done].
Qed.

Lemma start_stderr st progs : stderr_is (stderr st) (start st progs) [].
Proof.
  split_and!; cbn [start fst snd binding]; [by rewrite app_nil_r|constructor|].
  intros t th (prog & -> & _)%list_lookup_fmap_Some. split; [|done]. by split.
Qed.

Lemma start_program st progs : map program (snd (start st progs)) = progs.
Proof. cbn [start snd]. rewrite map_map. induction progs as [|p l IH]; [done|]. cbn [map]. by rewrite IH. Qed.

(** ** Runs to the end *)

Lemma tstep_weaken (ok ok' : env -> Prop) c c' : (forall e, ok e -> ok' e) -> tstep ok c c' -> tstep ok' c c'.
Proof. intros H Hs. destruct Hs as [s ts t th e s' th' Ht He Hs]. by apply (tstep_one _ s ts t th e); [|apply H|]. Qed.

Lemma tsteps_weaken (ok ok' : env -> Prop) c c' : (forall e, ok e -> ok' e) -> rtc (tstep ok) c c' -> rtc (tstep ok') c c'.
Proof. intros H Hr. induction Hr; [constructor|]. eapply rtc_l; [by eapply tstep_weaken|done]. Qed.

(** With the same prompt answer at every step, the threads finish. *)
Lemma run_to_end Lv B e c :
  Z.of_nat B < 2 ^ 32 -> prompt e -> config_ok Lv B c ->
  exists c', rtc (tstep (fun e' => e' = e)) c c' /\ Forall (fun th => finished th = true) (snd c').
Proof.
  intros HB He Hc. remember (sum_list_with (left_ B) (snd c)) as m eqn:Em. revert c Hc Em.
  induction (lt_wf m) as [m _ IH]. intros c Hc ->.
  destruct (no_deadlock _ _ _ Hc) as [Hf|Hgo]; [by exists c|]. destruct (Hgo e) as [c1 H1].
  assert (tstep prompt c c1) as H1' by (eapply tstep_weaken; [|exact H1]; by intros ? ->).
  pose proof (runs_bounded _ B HB 1 _ _ Hc ltac:(by eapply nsteps_once)) as Hlt.
  destruct (IH _ ltac:(exact Hlt) c1 (config_ok_step _ _ HB _ _ _ Hc H1') eq_refl) as (c' & Hr & Hf).
  exists c'. split; [by eapply rtc_l|done].
Qed.

(** Where write(2) never fails, no line is cut. *)
Definition uncut (th : thread) : Prop := Forall (fun x => forall w, snd x <> Cut w) (past th).

Lemma step_uncut e t s th s' th' : written e <> WriteFailed -> uncut th -> step e t s th = Some (s', th') -> uncut th'.
Proof.
  intros Hw Hu H. destruct (step_shape _ _ _ _ _ _ H) as [->|[[p ->]|[o ->]]]; [done..|].
  unfold finish, uncut. destruct (todo th) as [|c l] eqn:El; [done|]. cbn [past].
  apply Forall_app_2; [done|]. apply Forall_singleton. cbn [snd]. intros w ->.
  unfold step in H. rewrite El in H. destruct (at_ th); try done.
  all: revert H; unfold gate_step, scan_step, write_step, goto, finish; rewrite ?El; repeat case_match; try done;
    intros Heq; simplify_eq; simplify_list_eq; try done.
  match goal with E : th = _ |- _ => apply (f_equal (fun x => length (past x))) in E; cbn [past] in E; rewrite length_app in E; cbn in E end. lia.
Qed.

(** ** Theorems *)

(** C6: Threads never tear each other's lines: when write(2) takes a line whole or
    not at all, whatever the interleaving of any number of threads that register
    sources, change the level, log text or report health, stderr grows by complete
    lines, each thread's own lines in the order of its program; each line is
    newline-terminated, at most 767 bytes, carries the event's severity, the name
    its source was registered under and the formatted message; and an event is
    suppressed, or its line handed to write(2), according to a level that was set. *)
Theorem threads_write_whole_lines (st : console) (progs : list (list call)) (s : shared) (ts : list thread) :
  runnable st progs -> rtc (tstep whole_lines) (start st progs) (s, ts) ->
  exists ls : list (nat * bytes),
    stderr (binding s) = stderr st ++ concat (map snd ls) /\
    Forall (fun x => exists body, snd x = body ++ [10] /\ (length body <= 766)%nat) ls /\
    map program ts = progs /\
    forall t th, ts !! t = Some th ->
      select t ls = lines (past th) /\
      history_ok (possible_level st progs) (binding s) (past th) /\
      Forall (decided (possible_level st progs)) (past th) /\
      Forall (fun x => forall w, snd x = Cut w -> w = []) (past th).
Proof.
  intros Hr Hst. pose proof (start_ok st progs Hr) as H0. pose proof (proj1 (proj2 Hr)) as HB.
  destruct (stderr_steps _ _ HB _ _ _ _ H0 (start_stderr st progs) Hst) as (ls & Hout & Hf & Ht).
  pose proof (config_ok_steps _ _ HB _ _ _ H0 Hst) as (_ & _ & _ & Hok). cbn [fst snd] in *.
  exists ls. split_and!; [done| | |].
  - apply Forall_forall. intros [t l] Hin. rewrite Forall_forall in Hf.
    destruct (lookup_lt_is_Some_2 ts t (Hf _ Hin)) as [th Hth]. destruct (Ht t th Hth) as [_ Hsel].
    eapply history_lines; [apply (Hok t th Hth)|]. rewrite <- Hsel.
    apply list_elem_of_omap. exists (t, l). split; [done|]. by rewrite decide_True.
  - rewrite <- (start_program st progs). by apply (steps_program _ _ _ Hst).
  - intros t th Hth. destruct (Ht t th Hth) as [[Hcut _] Hsel]. destruct (Hok t th Hth) as (Hh & _).
    split_and!; try done. eapply history_decided, Hh.
Qed.

(** C13: Threads agree on sources: whatever the interleaving and whatever write(2)
    answers, the id a registration returned is not 0 and resolves to its name, then
    and ever after; two registrations, by the same thread or by different ones,
    return the same id exactly when they are for the same name. *)
Theorem threads_agree_on_sources (st : console) (progs : list (list call)) (s : shared) (ts : list thread) :
  runnable st progs -> rtc (tstep any_answer) (start st progs) (s, ts) ->
  (forall t th name id, ts !! t = Some th -> (Get name, Source id) ∈ past th ->
     1 <= id /\ forall s' ts', rtc (tstep any_answer) (s, ts) (s', ts') -> LookupSource (binding s') id = Some name) /\
  (forall t1 th1 name1 id1 t2 th2 name2 id2,
     ts !! t1 = Some th1 -> (Get name1, Source id1) ∈ past th1 ->
     ts !! t2 = Some th2 -> (Get name2, Source id2) ∈ past th2 -> (id1 = id2 <-> name1 = name2)).
Proof.
  intros Hr Hst. pose proof (proj1 (proj2 Hr)) as HB.
  pose proof (config_ok_steps _ _ HB _ _ _ (start_ok st progs Hr) Hst) as Hc.
  assert (forall t th name id, ts !! t = Some th -> (Get name, Source id) ∈ past th -> resolves (binding s) id name) as Hres.
  { intros t th name id Ht Hin. destruct Hc as (_ & _ & _ & Hok).
    destruct (history_elem _ _ _ _ _ (proj1 (Hok t th Ht)) Hin) as (h & nm & [= <-] & H). done. }
  split.
  - intros t th name id Ht Hin. split; [by apply (Hres t th name id)|]. intros s' ts' Hst'.
    apply (resolves_grows (binding s)); [|by apply (Hres t th)]. apply (config_grows _ _ HB _ _ _ Hc Hst').
  - intros t1 th1 name1 id1 t2 th2 name2 id2 H1 I1 H2 I2.
    destruct (Hres _ _ _ _ H1 I1) as [Hp1 Hl1], (Hres _ _ _ _ H2 I2) as [Hp2 Hl2].
    split; [intros ->; congruence|]. intros ->. destruct Hc as [[Hnd _] _]. cbn [fst] in Hnd.
    destruct (LookupSource_Some _ id1 _ ltac:(lia) Hl1) as (i & -> & Hi).
    destruct (LookupSource_Some _ id2 _ ltac:(lia) Hl2) as (j & -> & Hj).
    by rewrite (NoDup_lookup _ _ _ _ Hnd Hi Hj).
Qed.

(** C15: Logging threads finish: from wherever any interleaving has led, some thread
    can move whatever the platform answers (the mutex never deadlocks) until all
    have made all their calls; and when write(2) takes lines whole and is not
    interrupted, every run is at most as long as what is left to do, and some run
    ends with every thread finished. *)
Theorem threads_finish (st : console) (progs : list (list call)) (c : config) :
  runnable st progs -> rtc (tstep any_answer) (start st progs) c ->
  let todo := sum_list_with (left_ (all_sources st progs)) (snd c) in
  (Forall (fun th => finished th = true) (snd c) \/ forall e, exists c', tstep (fun e' => e' = e) c c') /\
  (forall n c', nsteps (tstep prompt) n c c' -> (n <= todo)%nat) /\
  (forall pl : platform, exists c', rtc (tstep prompt) c c' /\ Forall (fun th => finished th = true) (snd c')).
Proof.
  intros Hr Hst. pose proof (proj1 (proj2 Hr)) as HB. set (B := all_sources st progs) in *.
  pose proof (config_ok_steps _ B HB _ _ _ (start_ok st progs Hr) Hst) as Hc. cbn zeta. clear Hst Hr.
  split_and!; [by eapply no_deadlock| |].
  - intros n c' Hn. pose proof (runs_bounded _ B HB _ _ _ Hc Hn). lia.
  - intros pl. destruct (run_to_end _ B (mkEnv pl WriteFailed 0) c HB I Hc) as (c' & Hr & Hf). exists c'. split; [|exact Hf].
    eapply tsteps_weaken; [|exact Hr]. by intros ? ->.
Qed.

(** The level is one of the enumerators. *)
Definition is_level (lv : Z) : Prop := exists sev, lv = severity_u8 sev.

(** What a thread carries fits the code's buffers. *)
Definition in_flight_ok (p : pc) : Prop :=
  match p with
  | Lookup _ msg | Find _ msg | Found _ msg _ => (length msg <= 511)%nat
  | Writing line off => (off < length line <= 767)%nat
  | _ => True
  end.

(** C16: Well-formedness is a type of the running system: level an enumerator,
    sources distinct and fewer than 2^32, histories true, every thread inside its
    call with the data that point needs, the mutex held exactly by the thread
    inside a critical section.  Every step of every thread, whatever the platform
    answers, keeps it; a well-formed configuration is finished or has a step; in it
    no two threads are inside critical sections, and messages and lines in flight
    fit their buffers. *)
Theorem threads_well_typed (B : nat) (c : config) :
  Z.of_nat B < 2 ^ 32 -> config_ok is_level B c ->
  (forall c', tstep any_answer c c' -> config_ok is_level B c') /\
  (Forall (fun th => finished th = true) (snd c) \/ exists c', tstep any_answer c c') /\
  (forall t u th thu, snd c !! t = Some th -> snd c !! u = Some thu ->
     critical (at_ th) = true -> critical (at_ thu) = true -> t = u) /\
  Forall (fun th => in_flight_ok (at_ th)) (snd c).
Proof.
  intros HB Hc. split_and!.
  - intros c' Hst. by apply (config_ok_step _ _ HB any_answer c).
  - destruct (no_deadlock _ _ _ Hc) as [Hf|Hgo]; [by left|right].
    destruct (Hgo (mkEnv demo_platform Interrupted 0)) as [c' H]. exists c'.
    destruct H as [s ts t th e s' th' Ht -> Hs]. by apply (tstep_one _ s ts t th (mkEnv demo_platform Interrupted 0)).
  - destruct Hc as (_ & _ & _ & Hok). intros t u th thu Ht Hu Hct Hcu.
    destruct (Hok t th Ht) as (_ & _ & _ & Hm1), (Hok u thu Hu) as (_ & _ & _ & Hm2).
    apply Hm1 in Hct. apply Hm2 in Hcu. congruence.
  - destruct Hc as (_ & _ & _ & Hok). apply Forall_forall. intros th (t & Ht)%list_elem_of_lookup.
    destruct (Hok t th Ht) as (_ & Hp & _). unfold pc_ok, in_flight_ok in *.
    destruct (todo th) as [|d l]; [by rewrite Hp|]. destruct (at_ th); try done.
    + destruct Hp as [_ ->]. apply says_length.
    + destruct Hp as [_ ->]. apply says_length.
    + destruct Hp as (_ & -> & _). apply says_length.
    + destruct Hp as (_ & Hoff & pl & ->). split; [done|apply call_line_length].
Qed.

(** ** Schedules *)

(** A schedule names, at each step, the thread and what the platform answers. *)
Fixpoint run (sched : list (nat * env)) (c : config) : option config :=
  match sched with
  | [] => Some c
  | (t, e) :: sched =>
      match snd c !! t with
      | None => None
      | Some th =>
          match step e t (fst c) th with
          | None => None
          | Some (s, th) => run sched (s, <[t := th]> (snd c))
          end
      end
  end.

Lemma run_steps ok sched c c' : Forall (fun x => ok (snd x)) sched -> run sched c = Some c' -> rtc (tstep ok) c c'.
Proof.
  intros Hok. revert c. induction Hok as [|[t e] sched He _ IH]; intros c; cbn [run]; [by intros [= ->]|].
  destruct c as [s ts]. cbn [fst snd]. destruct (ts !! t) as [th|] eqn:Ht; [|done].
  destruct (step e t s th) as [[s' th']|] eqn:E; [|done]. intros Hr.
  apply (rtc_l _ _ (s', <[t := th']> ts)); [by eapply tstep_one|by apply IH].
Qed.

(** Two threads register the same name and log, in alternation. *)
Definition two_loggers : list (list call) :=
  [[Get (str "arm"); Log (Some 0%nat) kWarn (str "a={}") [ASigned 1]];
   [Get (str "arm"); LogText (Some 0%nat) kError (str "b"); LogText None kDebug (str "no")]].

Definition all_written (sched : list nat) : list (nat * env) := map (fun t => (t, mkEnv demo_platform (Wrote 767) 0)) sched.

Definition alternation : list (nat * env) :=
  all_written ([0; 0; 0; 1]%nat ++ concat (repeat [0; 1]%nat 7) ++ [1; 1; 1; 1]%nat).

Definition threads_demo : config := default (start (mkConsole 2 [] []) []) (run alternation (start (mkConsole 2 [] []) two_loggers)).

Lemma two_loggers_output :
  run alternation (start (mkConsole 2 [] []) two_loggers) = Some threads_demo /\
  stderr (binding (fst threads_demo)) =
    str "[warning] [1700000000.000000042] [robot]: [arm] a=1" ++ [10] ++
    str "[error] [1700000000.000000042] [robot]: [arm] b" ++ [10].
Proof. split; vm_compute; reflexivity. Qed.

Lemma two_loggers_runnable : runnable (mkConsole 2 [] []) two_loggers.
Proof.
  split_and!; [constructor|vm_compute; done|]. repeat constructor; cbn; lia.
Qed.

Lemma two_loggers_run (ok : env -> Prop) :
  Forall (fun x => ok (snd x)) alternation -> rtc (tstep ok) (start (mkConsole 2 [] []) two_loggers) threads_demo.
Proof. intros H. apply (run_steps ok alternation); [done|apply two_loggers_output]. Qed.

Lemma threads_write_whole_lines_witness :
  exists ls : list (nat * bytes), concat (map snd ls) =
      str "[warning] [1700000000.000000042] [robot]: [arm] a=1" ++ [10] ++
      str "[error] [1700000000.000000042] [robot]: [arm] b" ++ [10] /\
    Forall (fun x => exists body, snd x = body ++ [10] /\ (length body <= 766)%nat) ls.
Proof.
  destruct (threads_write_whole_lines (mkConsole 2 [] []) two_loggers (fst threads_demo) (snd threads_demo))
    as (ls & E & Hl & _).
  - apply two_loggers_runnable.
  - rewrite <- surjective_pairing. apply two_loggers_run. repeat constructor; cbn; lia.
  - exists ls. split; [|exact Hl]. rewrite (proj2 two_loggers_output) in E. cbn [stderr app] in E. by rewrite <- E.
Defined.

Lemma threads_agree_on_sources_witness :
  1 <= 1 /\ LookupSource (binding (fst threads_demo)) 1 = Some (str "arm").
Proof.
  destruct (threads_agree_on_sources (mkConsole 2 [] []) two_loggers (fst threads_demo) (snd threads_demo)) as [H _].
  - apply two_loggers_runnable.
  - rewrite <- surjective_pairing. apply two_loggers_run. by repeat constructor.
  - destruct (H 1%nat (default (mkThread [] [] Start) (snd threads_demo !! 1%nat)) (str "arm") 1) as [H1 H2].
    + vm_compute. reflexivity.
    + apply list_elem_of_lookup. exists 0%nat. vm_compute. reflexivity.
    + split; [exact H1|]. eapply H2, rtc_refl.
Defined.

Lemma threads_finish_witness :
  exists c', rtc (tstep prompt) (start (mkConsole 2 [] []) two_loggers) c' /\ Forall (fun th => finished th = true) (snd c').
Proof.
  destruct (threads_finish (mkConsole 2 [] []) two_loggers (start (mkConsole 2 [] []) two_loggers)) as (_ & _ & H).
  - apply two_loggers_runnable.
  - apply rtc_refl.
  - apply (H demo_platform).
Defined.

Lemma threads_well_typed_witness :
  exists c', tstep any_answer (start (mkConsole 2 [] []) [[SetLevel kWarn]]) c'.
Proof.
  destruct (threads_well_typed 0 (start (mkConsole 2 [] []) [[SetLevel kWarn]])) as (_ & [H|H] & _).
  - done.
  - split_and!; cbn [start fst snd binding mtx].
    + assert (is_level 2) by (by exists kInfo). split_and!; [constructor|done|by repeat constructor].
    + cbn. lia.
    + done.
    + intros [|t] th H; [|done]. injection H as <-. split_and!; [constructor|done| |done].
      repeat constructor. by exists kWarn.
  - exfalso. cbn in H. by apply Forall_cons_1 in H as [? _].
  - exact H.
Defined.

(** The hypothesis on write(2) matters: with short writes two lines mix. *)
Definition short_writes : list (nat * env) :=
  map (fun t => (t, mkEnv demo_platform (Wrote 40) 0)) [0; 0; 0; 0; 1; 1; 1; 1; 0; 1; 0; 1]%nat.

Example short_writes_mix :
  option_map (fun c => stderr (binding (fst c)))
    (run short_writes (start (mkConsole 2 [] []) [[Log None kWarn (str "one") []]; [Log None kWarn (str "two") []]])) =
  Some (str "[warning] [1700000000.000000042] [robot][warning] [1700000000.000000042] [robot]: one" ++ [10] ++ str ": two" ++ [10]).
Proof. vm_compute. reflexivity. Qed.
