(* ===== verification/Metrics.v ===== *)
(** * Metric slots (telemetry/binding.hpp)

    The counter, the gauge and the histogram: relaxed atomics updated by
    compare-and-swap loops.  A cell is its modification order; a relaxed load may
    return any value of it, a compare-and-swap acts on the newest and may fail
    spuriously.  Doubles are the Standard Library's [spec_float] at binary64
    (NaN payloads are not told apart).  Any number of threads update a slot, one
    call each; a thread that calls again is another thread of the model, with
    fewer constraints on the interleaving. *)

From Stdlib Require Import ZArith Lia Floats.SpecFloat.
From stdpp Require Import base list numbers relations.
From S2P Require Import Prelude.

Local Open Scope Z_scope.

(** ** Binary64 *)

Abbreviation double := spec_float.
#[export] Instance double_eq_dec : EqDecision double.
Proof. solve_decision. Defined.

Definition dadd : double -> double -> double := SFadd 53 1024.
Definition dlt : double -> double -> bool := SFltb.
Definition dle : double -> double -> bool := SFleb.
Definition dvalid (v : double) : bool := valid_binary 53 1024 v.
Definition pow2_double (i : Z) : double := S754_finite false (2 ^ 52) (i - 52).

(** [std::ilogb]: [INT_MAX] for infinities, [FP_ILOGB0] and [FP_ILOGBNAN] are
    [INT_MIN] on the supported hosts. *)
Definition ilogb (v : double) : Z :=
  match v with
  | S754_finite _ m e => Z.pos (digits2_pos m) - 1 + e
  | S754_infinity _ => 2 ^ 31 - 1
  | S754_zero _ | S754_nan => - 2 ^ 31
  end.

(** ** Buckets *)

Definition kHistogramBuckets : Z := 24.

(** [None] is the signed overflow of [e + 1]. *)
Definition HistogramBucketOf (v : double) : option Z :=
  if negb (dle (pow2_double 0) v) then Some 0 else
  let e := ilogb v in
  if e =? 2 ^ 31 - 1 then None else
  Some (if 23 <=? e + 1 then 23 else e + 1).

Definition HistogramBucketUpperBound (i : Z) : double :=
  if 23 <=? i then S754_infinity false else pow2_double i.

(** ** Atomic cells *)

Definition cell := list double.

(** What a load may return. *)
Definition cell_read (ch : nat) (c : cell) : option double := c !! ch.

(** [compare_exchange_weak(expected, desired)]: the value read, whether it
    succeeded, and the cell. *)
Definition cell_cas (ch : nat) (spurious : bool) (expected desired : double) (c : cell)
  : option (double * bool * cell) :=
  match c !! ch with
  | None => None
  | Some y =>
      if bool_decide (S ch = length c) && bool_decide (y = expected) && negb spurious
      then Some (y, true, c ++ [desired]) else Some (y, false, c)
  end.

Definition newest (c : cell) : double := default (S754_zero false) (last c).

(** ** Counter and gauge *)

Definition CounterSlot_value : cell := [S754_zero false].

Inductive add_pc := ALoad | ACas (cur : double) | ADone.

(** One access of [Add(v)]. *)
Definition Add_step (ch : nat) (spurious : bool) (v : double) (pc : add_pc) (c : cell) : option (add_pc * cell) :=
  match pc with
  | ALoad => match cell_read ch c with Some cur => Some (ACas cur, c) | None => None end
  | ACas cur =>
      match cell_cas ch spurious cur (dadd cur v) c with
      | Some (_, true, c) => Some (ADone, c)
      | Some (cur, false, c) => Some (ACas cur, c)
      | None => None
      end
  | ADone => None
  end.

Definition Set_ (v : double) (c : cell) : cell := c ++ [v].

(** ** Histogram *)

Record HistogramSlot := mkHistogram {
  h_count : Z;
  h_sum : cell;
  h_min : cell;
  h_max : cell;
  h_buckets : list Z
}.

Definition HistogramSlot_ctor : HistogramSlot :=
  mkHistogram 0 [S754_zero false] [S754_infinity false] [S754_infinity true] (repeat 0 24).

Inductive record_pc :=
| RCount | RBucket
| RSumLoad | RSumCas (c : double)
| RMinLoad | RMin (m : double)
| RMaxLoad | RMax (x : double)
| RDone.

(** One access of [Record(v)]; a loop's comparison goes with the access that
    follows it. *)
Definition Record_step (ch : nat) (spurious : bool) (v : double) (pc : record_pc) (h : HistogramSlot)
  : option (record_pc * HistogramSlot) :=
  match pc with
  | RCount => Some (RBucket, mkHistogram (u64 (h_count h + 1)) (h_sum h) (h_min h) (h_max h) (h_buckets h))
  | RBucket =>
      match HistogramBucketOf v with
      | None => None
      | Some b =>
          match h_buckets h !! Z.to_nat b with
          | None => None
          | Some n => Some (RSumLoad, mkHistogram (h_count h) (h_sum h) (h_min h) (h_max h)
                                        (<[Z.to_nat b := u64 (n + 1)]> (h_buckets h)))
          end
      end
  | RSumLoad => match cell_read ch (h_sum h) with Some c => Some (RSumCas c, h) | None => None end
  | RSumCas c =>
      match cell_cas ch spurious c (dadd c v) (h_sum h) with
      | Some (_, true, s) => Some (RMinLoad, mkHistogram (h_count h) s (h_min h) (h_max h) (h_buckets h))
      | Some (c, false, _) => Some (RSumCas c, h)
      | None => None
      end
  | RMinLoad => match cell_read ch (h_min h) with Some m => Some (RMin m, h) | None => None end
  | RMin m =>
      if dlt v m then
        match cell_cas ch spurious m v (h_min h) with
        | Some (_, true, s) => Some (RMaxLoad, mkHistogram (h_count h) (h_sum h) s (h_max h) (h_buckets h))
        | Some (m, false, _) => Some (RMin m, h)
        | None => None
        end
      else Some (RMaxLoad, h)
  | RMaxLoad => match cell_read ch (h_max h) with Some x => Some (RMax x, h) | None => None end
  | RMax x =>
      if dlt x v then
        match cell_cas ch spurious x v (h_max h) with
        | Some (_, true, s) => Some (RDone, mkHistogram (h_count h) (h_sum h) (h_min h) s (h_buckets h))
        | Some (x, false, _) => Some (RMax x, h)
        | None => None
        end
      else Some (RDone, h)
  | RDone => None
  end.

(** ** Threads *)

Section Pool.
Context {PC ST : Type} (tstep : nat -> bool -> double -> PC -> ST -> option (PC * ST)).

Local Abbreviation pool := (list (double * PC)).

Inductive pool_step : pool * ST -> pool * ST -> Prop :=
| pool_step_one ts s i v pc ch spurious pc' s' :
    ts !! i = Some (v, pc) -> tstep ch spurious v pc s = Some (pc', s') ->
    pool_step (ts, s) (<[i := (v, pc')]> ts, s').

(** The values of the threads that have passed a point. *)
Fixpoint past (P : PC -> bool) (ts : pool) : list double :=
  match ts with
  | [] => []
  | (v, pc) :: ts => if P pc then v :: past P ts else past P ts
  end.

(** Rule induction: an invariant of the steps holds wherever they lead. *)
Lemma pool_invariant (I : pool -> ST -> Prop) s s' :
  (forall ts s i v pc ch spurious pc' s', I ts s -> ts !! i = Some (v, pc) ->
     tstep ch spurious v pc s = Some (pc', s') -> I (<[i := (v, pc')]> ts) s') ->
  I (fst s) (snd s) -> rtc pool_step s s' -> I (fst s') (snd s').
Proof.
  intros Hstep Hi Hr. induction Hr as [|s1 s2 s3 H12 _ IH]; [done|]. apply IH.
  destruct H12. cbn [fst snd] in *. eauto.
Qed.

Lemma past_cons P v pc ts : past P ((v, pc) :: ts) = if P pc then v :: past P ts else past P ts.
Proof. done. Qed.

Lemma past_insert P (ts : pool) i v pc pc' :
  ts !! i = Some (v, pc) -> (P pc = true -> P pc' = true) ->
  if negb (P pc) && P pc' then past P (<[i := (v, pc')]> ts) ≡ₚ v :: past P ts
  else past P (<[i := (v, pc')]> ts) = past P ts.
Proof.
  intros Hi Hm. revert i Hi. induction ts as [|[w q] ts IH]; intros [|i] Hi; cbn in Hi; [done|done| |].
  - injection Hi as -> ->. cbn. destruct (P pc); cbn [negb andb]; [now rewrite (Hm eq_refl)|].
    now destruct (P pc').
  - change (<[S i:=(v, pc')]> ((w, q) :: ts)) with ((w, q) :: <[i:=(v, pc')]> ts).
    specialize (IH i Hi). rewrite !past_cons.
    destruct (negb (P pc) && P pc'); destruct (P q); rewrite IH; try done. apply Permutation_swap.
Qed.

Lemma past_all P (ts : pool) : Forall (fun t => P (snd t) = true) ts -> past P ts = map fst ts.
Proof. induction 1 as [|[v pc] ts H _ IH]; cbn in *; [done|]. now rewrite H, IH. Qed.

Lemma past_none P (ts : pool) : Forall (fun t => P (snd t) = false) ts -> past P ts = [].
Proof. induction 1 as [|[v pc] ts H _ IH]; cbn in *; [done|]. now rewrite H, IH. Qed.

Lemma values_insert (ts : pool) i v pc pc' :
  ts !! i = Some (v, pc) -> map fst (<[i := (v, pc')]> ts) = map fst ts.
Proof.
  revert i. induction ts as [|[w q] ts IH]; intros [|i] Hi; cbn in *; [done|done|now injection Hi as -> ->|].
  f_equal. now apply IH.
Qed.
End Pool.

(** ** The order of doubles *)

Lemma dlt_irrefl a : dlt a a = false.
Proof.
  unfold dlt, SFltb. destruct a as [s|s| |s m e]; cbn; try done; destruct s; try done;
    rewrite Z.compare_refl; change (PosDef.Pos.compare_cont Eq m m) with (Pos.compare m m); now rewrite Pos.compare_refl.
Qed.

(** Among finite numbers of one sign: the exponents first, then the mantissas. *)
Lemma dlt_finite s m e m' e' :
  dlt (S754_finite s m e) (S754_finite s m' e') = true <->
  if s then e' < e \/ (e' = e /\ (m' < m)%positive) else e < e' \/ (e = e' /\ (m < m')%positive).
Proof.
  unfold dlt, SFltb. cbn. change (PosDef.Pos.compare_cont Eq m m') with (Pos.compare m m').
  destruct s, (Z.compare_spec e e'); cbn; try (destruct (Pos.compare_spec m m'); cbn); split; intros; try done; try lia; try (left; lia); right; lia.
Qed.

Lemma dle_finite m e m' e' :
  dle (S754_finite false m e) (S754_finite false m' e') = true <->
  e < e' \/ (e = e' /\ (m <= m')%positive).
Proof.
  unfold dle, SFleb. cbn. change (PosDef.Pos.compare_cont Eq m m') with (Pos.compare m m').
  destruct (Z.compare_spec e e'); cbn; try (destruct (Pos.compare_spec m m'); cbn); split; intros; try done; try lia; try (left; lia); right; lia.
Qed.

Lemma dlt_trans a b c : dlt a b = true -> dlt b c = true -> dlt a c = true.
Proof.
  destruct a as [sa|sa| |sa ma ea], b as [sb|sb| |sb mb eb], c as [sc|sc| |sc mc ec]; try done;
    destruct sa, sb, sc; try done; rewrite !dlt_finite; intros [|[]] [|[]]; lia.
Qed.

(** ** The sum: a cell that adds *)

Lemma fold_dadd_snoc log v x : fold_left dadd (log ++ [v]) x = dadd (fold_left dadd log x) v.
Proof. now rewrite fold_left_app. Qed.

Definition adds_up (vals : list double) (c : cell) : Prop :=
  exists log, log ≡ₚ vals /\ last c = Some (fold_left dadd log (S754_zero false)).

Lemma cell_cas_success ch spurious e d c y c' :
  cell_cas ch spurious e d c = Some (y, true, c') -> last c = Some e /\ c' = c ++ [d].
Proof.
  unfold cell_cas. destruct (c !! ch) as [z|] eqn:Ez; [|done].
  destruct (bool_decide (S ch = length c)) eqn:E1; cbn [andb]; [|done].
  destruct (bool_decide (z = e)) eqn:E2; cbn [andb]; [|done]. destruct spurious; cbn [negb]; [done|].
  intros [= <- <-]. apply bool_decide_eq_true in E1, E2. subst z.
  split; [|done]. rewrite last_lookup, <- E1. done.
Qed.

Lemma cell_cas_failure ch spurious e d c y c' :
  cell_cas ch spurious e d c = Some (y, false, c') -> c !! ch = Some y /\ c' = c.
Proof.
  unfold cell_cas. destruct (c !! ch) as [z|] eqn:Ez; [|done].
  destruct (bool_decide _ && bool_decide _ && negb spurious); [done|]. now intros [= <- <-].
Qed.

Lemma adds_up_success vals c e v :
  adds_up vals c -> last c = Some e -> adds_up (v :: vals) (c ++ [dadd e v]).
Proof.
  intros (log & Hp & Hl) He. rewrite Hl in He. injection He as <-.
  exists (log ++ [v]). split; [rewrite Hp; symmetry; apply Permutation_cons_append|].
  now rewrite last_snoc, fold_dadd_snoc.
Qed.

Lemma adds_up_perm vals vals' c : vals ≡ₚ vals' -> adds_up vals c -> adds_up vals' c.
Proof. intros H (log & Hp & Hl). exists log. split; [now rewrite Hp|done]. Qed.

Definition add_done (pc : add_pc) : bool := match pc with ADone => true | _ => false end.

Lemma Add_step_adds ch spurious v pc c pc' c' (ts : list (double * add_pc)) i :
  adds_up (past add_done ts) c -> ts !! i = Some (v, pc) -> Add_step ch spurious v pc c = Some (pc', c') ->
  adds_up (past add_done (<[i := (v, pc')]> ts)) c'.
Proof.
  intros Ha Hi. pose proof (past_insert add_done ts i v pc pc' Hi) as Hpast.
  destruct pc as [|cur|]; cbn [Add_step]; [..|done].
  - destruct (cell_read ch c); [|done]. intros [= <- <-]. cbn in Hpast. now rewrite Hpast.
  - destruct (cell_cas ch spurious cur (dadd cur v) c) as [[[y [|]] c1]|] eqn:E; [| |done]; intros [= <- <-].
    + destruct (cell_cas_success _ _ _ _ _ _ _ E) as [Hl ->]. cbn in Hpast.
      eapply adds_up_perm; [symmetry; now apply Hpast|]. now apply adds_up_success.
    + destruct (cell_cas_failure _ _ _ _ _ _ _ E) as [_ ->]. cbn in Hpast. now rewrite Hpast.
Qed.

Lemma last_index (c : cell) : c <> [] -> exists x, c !! pred (length c) = Some x /\ last c = Some x /\ S (pred (length c)) = length c.
Proof.
  intros H. destruct c as [|a c]; [done|]. rewrite last_lookup. cbn [length pred].
  destruct (lookup_lt_is_Some_2 (a :: c) (length c) ltac:(cbn; lia)) as [x Hx]. exists x. now rewrite Hx.
Qed.

Lemma cell_cas_newest e d c :
  last c = Some e -> cell_cas (pred (length c)) false e d c = Some (e, true, c ++ [d]).
Proof.
  intros H. unfold cell_cas. destruct (last_index c) as (x & Hx & Hl & Hn); [now intros ->|].
  rewrite Hx. rewrite H in Hl. injection Hl as <-. now rewrite !bool_decide_true by done.
Qed.

(** Counters lose no update: whatever the interleaving, the stale reads and the
    spurious failures, once the calls of [Add] have returned the counter's value
    is the sum of exactly their arguments, rounded in some order of the calls;
    and from every reachable state a call can finish on its own. *)
Theorem counter_no_lost_update (vs : list double) (ts : list (double * add_pc)) (c : cell) :
  rtc (pool_step Add_step) (map (fun v => (v, ALoad)) vs, CounterSlot_value) (ts, c) ->
  (Forall (fun t => snd t = ADone) ts -> exists log, log ≡ₚ vs /\ newest c = fold_left dadd log (S754_zero false)) /\
  (forall i v pc, ts !! i = Some (v, pc) -> exists c', rtc (pool_step Add_step) (ts, c) (<[i := (v, ADone)]> ts, c')).
Proof.
  intros Hr.
  assert (adds_up (past add_done ts) c /\ map fst ts = vs) as [Ha Hvs].
  { apply (pool_invariant Add_step (fun ts c => adds_up (past add_done ts) c /\ map fst ts = vs) _ (ts, c)) in Hr;
      [done| |].
    - intros ts0 s i v pc ch sp pc' s' [Ha Hv] Hi Hst. split; [eapply Add_step_adds; eauto|].
      now rewrite (values_insert ts0 i v pc pc').
    - cbn. split; [|rewrite map_map; apply map_id].
      rewrite past_none by (apply Forall_map, Forall_true; done). now exists []. }
  split.
  - intros Hd. rewrite past_all in Ha; [|eapply Forall_impl; [exact Hd|]; intros [v pc]; cbn; now intros ->].
    rewrite Hvs in Ha. destruct Ha as (log & Hp & Hl). exists log. split; [done|]. unfold newest. now rewrite Hl.
  - intros i v pc Hi. destruct Ha as (log & _ & Hl).
    set (x := fold_left dadd log (S754_zero false)) in *.
    destruct (last_index c) as (y & Hy & Hyl & _); [now intros ->|]. rewrite Hl in Hyl. injection Hyl as <-. clearbody x.
    assert (forall cur ts1, ts1 !! i = Some (v, ACas cur) -> last c = Some cur ->
              rtc (pool_step Add_step) (ts1, c) (<[i := (v, ADone)]> ts1, c ++ [dadd cur v])) as Hcas.
    { intros cur ts1 H1 Hc. apply rtc_once. apply (pool_step_one Add_step ts1 c i v (ACas cur) (pred (length c)) false); [done|].
      cbn [Add_step]. now rewrite cell_cas_newest. }
    destruct pc as [|cur|].
    + eexists. eapply rtc_l.
      { apply (pool_step_one Add_step ts c i v ALoad (pred (length c)) false (ACas x) c); [done|].
        cbn [Add_step]. unfold cell_read. now rewrite Hy. }
      rewrite <- (list_insert_insert_eq ts i (v, ADone) (v, ACas x)). apply Hcas; [|done].
      apply list_lookup_insert_eq. eapply lookup_lt_Some, Hi.
    + destruct (decide (cur = x)) as [->|Hne]; [eexists; apply Hcas; done|].
      eexists. eapply rtc_l.
      { apply (pool_step_one Add_step ts c i v (ACas cur) (pred (length c)) false (ACas x) c); [done|].
        cbn [Add_step]. unfold cell_cas. rewrite Hy, (bool_decide_false (x = cur)) by congruence. rewrite andb_false_r. done. }
      rewrite <- (list_insert_insert_eq ts i (v, ADone) (v, ACas x)). apply Hcas; [|done].
      apply list_lookup_insert_eq. eapply lookup_lt_Some, Hi.
    + exists c. rewrite list_insert_id by done. constructor.
Qed.

(** ** The buckets *)

Lemma HistogramBucketOf_spec (v : double) :
  dvalid v = true -> v <> S754_infinity false ->
  exists b, HistogramBucketOf v = Some b /\ 0 <= b < kHistogramBuckets /\
    (b = 0 <-> dle (pow2_double 0) v = false) /\
    (0 < b -> dle (HistogramBucketUpperBound (b - 1)) v = true) /\
    (0 < b < 23 -> dlt v (HistogramBucketUpperBound b) = true).
Proof.
  intros Hv Hinf. unfold HistogramBucketOf, kHistogramBuckets.
  destruct (dle (pow2_double 0) v) eqn:E; cbn [negb]; [|exists 0; split_and!; try done; lia].
  destruct v as [s|s| |s m e]; try done; [destruct s; done|].
  destruct s; [done|]. unfold dvalid, valid_binary, SpecFloat.bounded, canonical_mantissa in Hv.
  apply andb_true_iff in Hv as [Hc He]. apply Z.eqb_eq in Hc. apply Z.leb_le in He.
  unfold fexp, emin in Hc. set (d := Z.pos (digits2_pos m)) in *.
  assert (2 ^ (d - 1) <= Z.pos m < 2 ^ d) as Hd.
  { subst d. clear. induction m as [m IH|m IH|]; cbn [digits2_pos]; [| |now compute];
      rewrite Pos2Z.inj_succ; set (k := Z.pos (digits2_pos m)) in *;
      (replace (Z.succ k - 1) with (Z.succ (k - 1)) by lia);
      rewrite !Z.pow_succ_r by (subst k; lia); lia. }
  assert (-52 <= e /\ (e = -52 -> 2 ^ 52 <= Z.pos m)) as [He1 He2].
  { unfold pow2_double in E. apply dle_finite in E. change (2 ^ 52)%positive with 4503599627370496%positive in E. lia. }
  assert (d = 53) as Ed.
  { destruct (Z.max_spec (d + e - 53) (3 - 1024 - 53)) as [[_ Hm]|[_ Hm]]; lia. }
  assert (forall k, -52 <= k <= 22 -> k <= e -> dle (pow2_double (k + 52)) (S754_finite false m e) = true) as Hle.
  { intros k Hk Hke. unfold pow2_double. apply dle_finite. change (2 ^ 52)%positive with 4503599627370496%positive.
    rewrite Ed in Hd. lia. }
  unfold ilogb. fold d. rewrite Ed. replace (53 - 1 + e =? 2 ^ 31 - 1) with false by (symmetry; apply Z.eqb_neq; lia).
  eexists. split; [done|]. destruct (Z.leb_spec 23 (53 - 1 + e + 1)).
  - split_and!; try done; try lia. intros _. unfold HistogramBucketUpperBound. cbn [Z.leb Z.sub Z.add Z.opp].
    apply (Hle (-30)); lia.
  - split_and!; try done; try lia.
    + intros _. unfold HistogramBucketUpperBound. replace (23 <=? _) with false by (symmetry; apply Z.leb_gt; lia).
      replace (53 - 1 + e + 1 - 1) with (e + 52) by lia. apply Hle; lia.
    + intros _. unfold HistogramBucketUpperBound. replace (23 <=? _) with false by (symmetry; apply Z.leb_gt; lia).
      unfold pow2_double. change (2 ^ 52)%positive with 4503599627370496%positive. apply dlt_finite. left. lia.
Qed.

(** Buckets: every value but an infinity that is positive has one of the 24
    buckets; bucket 0 holds exactly what is not at least 1 (zeros, negatives and
    NaN included), and a value in bucket [i > 0] lies from the upper bound of the
    bucket before it (included) to its own (excluded, but for the last). *)
Theorem histogram_buckets (v : double) :
  dvalid v = true -> v <> S754_infinity false ->
  exists b, HistogramBucketOf v = Some b /\ 0 <= b < kHistogramBuckets /\
    (b = 0 <-> dle (pow2_double 0) v = false) /\
    (0 < b -> dle (HistogramBucketUpperBound (b - 1)) v = true) /\
    (0 < b < 23 -> dlt v (HistogramBucketUpperBound b) = true).
Proof. apply HistogramBucketOf_spec. Qed.

Lemma histogram_buckets_witness :
  exists b, HistogramBucketOf (S754_finite false 6755399441055744 (-51)) = Some b /\ b = 2.
Proof.
  destruct (histogram_buckets (S754_finite false 6755399441055744 (-51))) as (b & E & _); [reflexivity|discriminate|].
  exists b. split; [exact E|]. vm_compute in E. now injection E.
Defined.

(** Recording [+inf]: [std::ilogb] is [INT_MAX] there, so [e + 1] overflows a
    signed integer, for a value the comparison before it lets through. *)
Theorem infinity_overflows_the_bucket :
  HistogramBucketOf (S754_infinity false) = None /\
  dle (pow2_double 0) (S754_infinity false) = true /\
  ilogb (S754_infinity false) + 1 = 2 ^ 31.
Proof. now vm_compute. Qed.

(** ** The histogram under concurrent records *)

(** A cell that keeps the extremum for a strict order, started from [bottom]. *)
Section Extremum.
Variable lt : double -> double -> bool.
Hypothesis lt_trans : forall a b c, lt a b = true -> lt b c = true -> lt a c = true.
Hypothesis lt_irrefl : forall a, lt a a = false.
Variables (bottom : double) (all : list double).

(** [vals]: the values whose update is over. *)
Definition extremum (vals : list double) (c : cell) : Prop :=
  exists x, last c = Some x /\ (x = bottom \/ In x all) /\
    (forall y, In y c -> y = x \/ lt x y = true) /\
    (forall v, In v vals -> lt v x = false).

Lemma extremum_start : extremum [] [bottom].
Proof. exists bottom. split_and!; [done|now left|intros y [->|[]]; now left|intros v []]. Qed.

Lemma extremum_perm vals vals' c : vals ≡ₚ vals' -> extremum vals c -> extremum vals' c.
Proof.
  intros Hp (x & Hl & Ha & Hh & Hv). exists x. split_and!; try done.
  intros v Hi. apply Hv. apply list_elem_of_In. rewrite Hp. now apply list_elem_of_In.
Qed.

(** A value that is not below some value the cell held is not below the newest. *)
Lemma extremum_pass vals c v m :
  extremum vals c -> In m c -> lt v m = false -> extremum (v :: vals) c.
Proof.
  intros (x & Hl & Ha & Hh & Hv) Hm Hlt. exists x. split_and!; try done.
  intros w [<-|Hi]; [|now apply Hv]. destruct (lt v x) eqn:E; [|done].
  destruct (Hh m Hm) as [->|Hxm]; [congruence|]. now rewrite (lt_trans v x m E Hxm) in Hlt.
Qed.

Lemma extremum_replace vals c v m :
  extremum vals c -> last c = Some m -> lt v m = true -> In v all -> extremum (v :: vals) (c ++ [v]).
Proof.
  intros (x & Hl & Ha & Hh & Hv) Hm Hlt Hin. rewrite Hl in Hm. injection Hm as ->.
  exists v. split_and!; [apply last_snoc|now right| |].
  - intros y Hy. apply in_app_or in Hy as [Hy|[<-|[]]]; [|now left]. right.
    destruct (Hh y Hy) as [->|H]; [done|now apply (lt_trans v m y)].
  - intros w [<-|Hi]; [apply lt_irrefl|]. destruct (lt w v) eqn:E; [|done].
    now rewrite <- (Hv w Hi), (lt_trans w v m).
Qed.
End Extremum.

Definition bucket_is (b : Z) (v : double) : bool :=
  match HistogramBucketOf v with Some b' => b' =? b | None => false end.
Definition bucket_count (b : Z) (vals : list double) : Z :=
  fold_right (fun v n => if bucket_is b v then n + 1 else n) 0 vals.

Lemma bucket_count_perm b vals vals' : vals ≡ₚ vals' -> bucket_count b vals = bucket_count b vals'.
Proof.
  unfold bucket_count. induction 1 as [|x l l' _ IH|x y l|l l' l'' _ IH1 _ IH2]; cbn; [done|now rewrite IH| |congruence].
  now destruct (bucket_is b x), (bucket_is b y).
Qed.

(** How far a call has come. *)
Definition stage (pc : record_pc) : nat :=
  match pc with
  | RCount => 0 | RBucket => 1 | RSumLoad | RSumCas _ => 2 | RMinLoad | RMin _ => 3
  | RMaxLoad | RMax _ => 4 | RDone => 5
  end%nat.
Definition beyond (n : nat) (pc : record_pc) : bool := (n <? stage pc)%nat.

(** What a call holds was read from its cell. *)
Definition reads_ok (h : HistogramSlot) (pc : record_pc) : Prop :=
  match pc with RMin m => In m (h_min h) | RMax x => In x (h_max h) | _ => True end.

Definition gt (a b : double) : bool := dlt b a.

(** What the histogram holds of the values that have passed stage [n]. *)
Definition tally (vs : list double) (n : nat) (vals : list double) (h : HistogramSlot) : Prop :=
  match n with
  | 0%nat => h_count h = u64 (Z.of_nat (length vals))
  | 1%nat => length (h_buckets h) = 24%nat /\
         forall b, 0 <= b < 24 -> h_buckets h !! Z.to_nat b = Some (u64 (bucket_count b vals))
  | 2%nat => adds_up vals (h_sum h)
  | 3%nat => extremum dlt (S754_infinity false) vs vals (h_min h)
  | 4%nat => extremum gt (S754_infinity true) vs vals (h_max h)
  | _ => True
  end.

Record histogram_inv (vs : list double) (ts : list (double * record_pc)) (h : HistogramSlot) : Prop := {
  hi_vals : map fst ts = vs;
  hi_tally : forall n, tally vs n (past (beyond n) ts) h;
  hi_reads : Forall (fun t => reads_ok h (snd t)) ts
}.

Lemma tally_perm vs n vals vals' h : vals ≡ₚ vals' -> tally vs n vals h -> tally vs n vals' h.
Proof.
  intros Hp. destruct n as [|[|[|[|[|n]]]]]; cbn [tally]; [now rewrite Hp| | | | |done].
  - intros [Hl Hb]. split; [done|]. intros b Hb'. rewrite <- (bucket_count_perm b vals vals' Hp). auto.
  - now apply adds_up_perm.
  - now apply extremum_perm.
  - now apply extremum_perm.
Qed.

(** A step that moves a call from stage [n] to the next one: only the tally of
    stage [n] changes. *)
Lemma past_stage (ts : list (double * record_pc)) i v pc pc' n :
  ts !! i = Some (v, pc) -> (stage pc <= stage pc')%nat ->
  if (stage pc <=? n)%nat && (n <? stage pc')%nat
  then past (beyond n) (<[i := (v, pc')]> ts) ≡ₚ v :: past (beyond n) ts
  else past (beyond n) (<[i := (v, pc')]> ts) = past (beyond n) ts.
Proof.
  intros Hi Hle. pose proof (past_insert (beyond n) ts i v pc pc' Hi) as H.
  unfold beyond in *. rewrite <- Nat.leb_antisym in H. apply H. rewrite !Nat.ltb_lt. lia.
Qed.

Lemma reads_ok_mono h h' pc :
  (forall y, In y (h_min h) -> In y (h_min h')) -> (forall y, In y (h_max h) -> In y (h_max h')) ->
  reads_ok h pc -> reads_ok h' pc.
Proof. destruct pc; cbn; auto. Qed.

Lemma reads_insert h h' (ts : list (double * record_pc)) i v pc' :
  Forall (fun t => reads_ok h (snd t)) ts ->
  (forall y, In y (h_min h) -> In y (h_min h')) -> (forall y, In y (h_max h) -> In y (h_max h')) ->
  reads_ok h' pc' -> Forall (fun t => reads_ok h' (snd t)) (<[i := (v, pc')]> ts).
Proof.
  intros Hf H1 H2 Hpc. apply Forall_insert; [|done].
  eapply Forall_impl; [exact Hf|]. intros t. now apply reads_ok_mono.
Qed.

Lemma wrap_succ n : u64 (u64 (Z.of_nat n) + 1) = u64 (Z.of_nat (S n)).
Proof. rewrite wrap_add_l. f_equal. lia. Qed.

Lemma in_lookup {A} (l : list A) i x : l !! i = Some x -> In x l.
Proof. intros H. apply list_elem_of_In, list_elem_of_lookup. eauto. Qed.

(** An access that stays in its stage, and one that ends it. *)
Lemma histogram_inv_stay vs ts h i v pc pc' :
  histogram_inv vs ts h -> ts !! i = Some (v, pc) -> stage pc' = stage pc -> reads_ok h pc' ->
  histogram_inv vs (<[i := (v, pc')]> ts) h.
Proof.
  intros [Hv Ht Hr] Hi Hs Hp. split; [now rewrite (values_insert ts i v pc pc')| |now apply (reads_insert h)].
  intros n. pose proof (past_stage ts i v pc pc' n Hi ltac:(lia)) as H. rewrite Hs in H.
  replace ((stage pc <=? n)%nat && (n <? stage pc)%nat) with false in H; [now rewrite H|].
  symmetry. apply andb_false_iff. destruct (Nat.ltb_spec n (stage pc)); [left|now right]. apply Nat.leb_gt. lia.
Qed.

Lemma histogram_inv_end vs ts h i v pc pc' h' :
  histogram_inv vs ts h -> ts !! i = Some (v, pc) -> stage pc' = S (stage pc) ->
  (forall vals, tally vs (stage pc) vals h -> tally vs (stage pc) (v :: vals) h') ->
  (forall n vals, n <> stage pc -> tally vs n vals h -> tally vs n vals h') ->
  (forall y, In y (h_min h) -> In y (h_min h')) -> (forall y, In y (h_max h) -> In y (h_max h')) ->
  reads_ok h' pc' -> histogram_inv vs (<[i := (v, pc')]> ts) h'.
Proof.
  intros [Hv Ht Hr] Hi Hs Hnew Hold Hmin Hmax Hp.
  split; [now rewrite (values_insert ts i v pc pc')| |now apply (reads_insert h)].
  intros n. pose proof (past_stage ts i v pc pc' n Hi ltac:(lia)) as H. rewrite Hs in H.
  destruct (decide (n = stage pc)) as [->|Hne].
  - rewrite Nat.leb_refl in H. rewrite (proj2 (Nat.ltb_lt _ _) (Nat.lt_succ_diag_r _)) in H. cbn [andb] in H.
    eapply tally_perm; [symmetry; exact H|]. now apply Hnew.
  - replace ((stage pc <=? n)%nat && (n <? S (stage pc))%nat) with false in H; [rewrite H; now apply Hold|].
    symmetry. apply andb_false_iff. destruct (Nat.leb_spec (stage pc) n); [right|now left]. apply Nat.ltb_ge. lia.
Qed.

(** The bucket of a recorded value is counted once more, the others stay. *)
Lemma tally_bucket vs vals h v b n :
  tally vs 1 vals h -> HistogramBucketOf v = Some b -> 0 <= b < 24 -> h_buckets h !! Z.to_nat b = Some n ->
  tally vs 1 (v :: vals) (mkHistogram (h_count h) (h_sum h) (h_min h) (h_max h) (<[Z.to_nat b := u64 (n + 1)]> (h_buckets h))).
Proof.
  intros [Hl Hb] Eb Hb24 En. cbn [tally h_buckets]. rewrite length_insert. split; [done|].
  intros b' Hb'. cbn [bucket_count fold_right]. fold (bucket_count b' vals). unfold bucket_is. rewrite Eb.
  destruct (Z.eqb_spec b b') as [->|Hne].
  - rewrite list_lookup_insert_eq by lia. rewrite Hb in En by lia. injection En as <-. f_equal. apply wrap_add_l.
  - rewrite list_lookup_insert_ne by lia. now apply Hb.
Qed.

Lemma gt_trans a b c : gt a b = true -> gt b c = true -> gt a c = true.
Proof. intros H1 H2. apply (dlt_trans c b a H2 H1). Qed.

(** The two ways an extremum's stage ends. *)
Lemma extremum_exchange lt bottom vs vals c m v ch spurious y s :
  (forall a b c, lt a b = true -> lt b c = true -> lt a c = true) -> (forall a, lt a a = false) ->
  extremum lt bottom vs vals c -> In v vs -> lt v m = true ->
  cell_cas ch spurious m v c = Some (y, true, s) -> extremum lt bottom vs (v :: vals) s.
Proof.
  intros Ht Hi Hc Hv Hlt E. destruct (cell_cas_success _ _ _ _ _ _ _ E) as [Hl ->].
  now apply (extremum_replace lt Ht Hi _ _ _ _ _ m).
Qed.

Lemma cell_cas_grows ch spurious e d c y ok s z : cell_cas ch spurious e d c = Some (y, ok, s) -> In z c -> In z s.
Proof.
  destruct ok; intros E Hz.
  - destruct (cell_cas_success _ _ _ _ _ _ _ E) as [_ ->]. apply in_or_app. now left.
  - destruct (cell_cas_failure _ _ _ _ _ _ _ E) as [_ ->]. done.
Qed.

Lemma cell_cas_failed_read ch spurious e d c y s : cell_cas ch spurious e d c = Some (y, false, s) -> In y c.
Proof. intros E. destruct (cell_cas_failure _ _ _ _ _ _ _ E) as [Hy _]. now apply in_lookup in Hy. Qed.

(** Tallies of other stages read other fields. *)
Ltac other_tally := let n := fresh "n" in intros n vals Hn; destruct n as [|[|[|[|[|n]]]]]; cbn [tally stage] in *; done.

(** One access of one call keeps the histogram's invariant. *)
Lemma Record_step_inv vs ts h i v pc ch spurious pc' h' :
  Forall (fun v => dvalid v = true) vs ->
  histogram_inv vs ts h -> ts !! i = Some (v, pc) -> Record_step ch spurious v pc h = Some (pc', h') ->
  histogram_inv vs (<[i := (v, pc')]> ts) h'.
Proof.
  intros Hok Hinv Hi Hst.
  assert (In v vs) as Hin.
  { rewrite <- (hi_vals _ _ _ Hinv). apply (in_lookup _ i). now rewrite list_lookup_fmap, Hi. }
  assert (reads_ok h pc) as Hpc by (apply (Forall_lookup_1 _ _ _ _ (hi_reads _ _ _ Hinv) Hi)).
  pose proof (fun pc' => histogram_inv_stay vs ts h i v pc pc' Hinv Hi) as stay.
  pose proof (fun pc' h' => histogram_inv_end vs ts h i v pc pc' h' Hinv Hi) as finish.
  destruct pc; cbn [Record_step stage] in *; [..|done].
  - injection Hst as <- <-. apply finish; try done; [|other_tally].
    intros vals Ht. cbn [tally h_count length] in *. rewrite Ht. apply wrap_succ.
  - destruct (HistogramBucketOf v) as [b|] eqn:Eb; [|done].
    destruct (h_buckets h !! Z.to_nat b) as [n|] eqn:En; [|done]. injection Hst as <- <-.
    apply finish; try done; [|other_tally]. intros vals Ht. apply tally_bucket; try done.
    rewrite List.Forall_forall in Hok. destruct (HistogramBucketOf_spec v (Hok v Hin)) as (b0 & Eb0 & Hr0 & _); [now intros ->|].
    rewrite Eb in Eb0. injection Eb0 as <-. exact Hr0.
  - destruct (cell_read ch (h_sum h)) as [c|]; [|done]. injection Hst as <- <-. now apply stay.
  - destruct (cell_cas _ _ _ _ _) as [[[y [|]] s]|] eqn:E; [| |done]; injection Hst as <- <-; [|now apply stay].
    destruct (cell_cas_success _ _ _ _ _ _ _ E) as [He ->]. apply finish; try done; [|other_tally].
    intros vals Ht. now apply adds_up_success.
  - destruct (cell_read ch (h_min h)) as [c|] eqn:E; [|done]. injection Hst as <- <-. apply in_lookup in E. now apply stay.
  - destruct (dlt v m) eqn:Elt.
    + destruct (cell_cas _ _ _ _ _) as [[[y [|]] s]|] eqn:E; [| |done]; injection Hst as <- <-.
      * apply finish; try done; [|other_tally|intros z; apply (cell_cas_grows _ _ _ _ _ _ _ _ z E)].
        intros vals Ht. apply (extremum_exchange _ _ _ _ _ _ _ _ _ _ _ dlt_trans dlt_irrefl Ht Hin Elt E).
      * apply stay; [done|]. now apply cell_cas_failed_read in E.
    + injection Hst as <- <-. apply finish; try done.
      intros vals Ht. now apply (extremum_pass dlt dlt_trans _ _ _ _ _ m).
  - destruct (cell_read ch (h_max h)) as [c|] eqn:E; [|done]. injection Hst as <- <-. apply in_lookup in E. now apply stay.
  - change (dlt x v) with (gt v x) in Hst. destruct (gt v x) eqn:Elt.
    + destruct (cell_cas _ _ _ _ _) as [[[y [|]] s]|] eqn:E; [| |done]; injection Hst as <- <-.
      * apply finish; try done; [|other_tally|intros z; apply (cell_cas_grows _ _ _ _ _ _ _ _ z E)].
        intros vals Ht. apply (extremum_exchange _ _ _ _ _ _ _ _ _ _ _ gt_trans dlt_irrefl Ht Hin Elt E).
      * apply stay; [done|]. now apply cell_cas_failed_read in E.
    + injection Hst as <- <-. apply finish; try done.
      intros vals Ht. now apply (extremum_pass gt gt_trans _ _ _ _ _ x).
Qed.

Definition record_pool (vs : list double) : list (double * record_pc) := map (fun v => (v, RCount)) vs.

Lemma past_start vs n : past (beyond n) (record_pool vs) = [].
Proof. apply past_none. unfold record_pool. now apply Forall_map, Forall_true. Qed.

Lemma histogram_inv_start vs : histogram_inv vs (record_pool vs) HistogramSlot_ctor.
Proof.
  split.
  - unfold record_pool. rewrite map_map. apply map_id.
  - intros n. rewrite past_start. destruct n as [|[|[|[|[|n]]]]]; cbn [tally h_count h_buckets h_sum h_min h_max HistogramSlot_ctor]; try done.
    + split; [done|]. intros b Hb. cbn [bucket_count fold_right]. apply lookup_repeat_lt. lia.
    + now exists [].
    + apply extremum_start.
    + apply extremum_start.
  - unfold record_pool. apply Forall_map, Forall_true. done.
Qed.

(** C12: The histogram under concurrent records: whatever the interleaving, stale
    reads and spurious failures, once the calls of [Record] have returned, the
    count is their number and every bucket the number of values it holds, modulo
    2^64; the sum is that of exactly their values, rounded in some order; the
    minimum and the maximum are recorded values (or still the seeds) that no
    recorded value is beyond. *)
Theorem histogram_aggregates (vs : list double) (ts : list (double * record_pc)) (h : HistogramSlot) :
  Forall (fun v => dvalid v = true) vs ->
  rtc (pool_step Record_step) (record_pool vs, HistogramSlot_ctor) (ts, h) ->
  Forall (fun t => snd t = RDone) ts ->
  h_count h = u64 (Z.of_nat (length vs)) /\
  (forall b, 0 <= b < kHistogramBuckets -> h_buckets h !! Z.to_nat b = Some (u64 (bucket_count b vs))) /\
  (exists log, log ≡ₚ vs /\ newest (h_sum h) = fold_left dadd log (S754_zero false)) /\
  (let m := newest (h_min h) in (m = S754_infinity false \/ In m vs) /\ forall v, In v vs -> dlt v m = false) /\
  (let x := newest (h_max h) in (x = S754_infinity true \/ In x vs) /\ forall v, In v vs -> dlt x v = false).
Proof.
  intros Hok Hr Hd.
  apply (pool_invariant Record_step (histogram_inv vs) _ (ts, h)) in Hr;
    [|intros; eapply Record_step_inv; eauto|apply histogram_inv_start].
  cbn [fst snd] in Hr. destruct Hr as [Hv Ht _].
  pose proof (Ht 0%nat) as Hc. pose proof (Ht 1%nat) as [Hl Hb]. pose proof (Ht 2%nat) as Hs.
  pose proof (Ht 3%nat) as Hmin. pose proof (Ht 4%nat) as Hmax. cbn [tally] in *. clear Ht.
  assert (forall n, (n < 5)%nat -> past (beyond n) ts = vs) as Hp.
  { intros n Hn. rewrite past_all; [done|]. eapply Forall_impl; [exact Hd|].
    intros [v pc]. cbn. intros ->. unfold beyond. apply Nat.ltb_lt. cbn [stage]. lia. }
  rewrite !Hp in * by lia. unfold newest. split; [|split; [|split; [|split]]].
  - done.
  - intros b Hb'. rewrite Hb by (unfold kHistogramBuckets in *; lia). done.
  - destruct Hs as (log & Hpl & Hll). exists log. now rewrite Hll.
  - destruct Hmin as (x & Hx & Ha & _ & Hlt). now rewrite Hx.
  - destruct Hmax as (x & Hx & Ha & _ & Hlt). now rewrite Hx.
Qed.

(** Two concurrent records, interleaved at every access. *)
Fixpoint run_pool {PC ST} (tstep : nat -> bool -> double -> PC -> ST -> option (PC * ST))
    (sched : list (nat * nat)) (s : list (double * PC) * ST) : option (list (double * PC) * ST) :=
  match sched with
  | [] => Some s
  | (i, ch) :: sched =>
      match fst s !! i with
      | None => None
      | Some (v, pc) =>
          match tstep ch false v pc (snd s) with
          | None => None
          | Some (pc', st) => run_pool tstep sched (<[i := (v, pc')]> (fst s), st)
          end
      end
  end.

Lemma run_pool_rtc {PC ST} tstep sched (s s' : list (double * PC) * ST) :
  run_pool tstep sched s = Some s' -> rtc (pool_step tstep) s s'.
Proof.
  revert s. induction sched as [|[i ch] sched IH]; intros [ts st]; cbn; [intros [= <-]; constructor|].
  destruct (ts !! i) as [[v pc]|] eqn:Ei; [|done]. destruct (tstep ch false v pc st) as [[pc' st']|] eqn:Es; [|done].
  intros H. eapply rtc_l; [exact (pool_step_one tstep ts st i v pc ch false pc' st' Ei Es)|]. now apply IH.
Qed.

Definition one_half : double := S754_finite false 4503599627370496 (-53).
Definition three : double := S754_finite false 6755399441055744 (-51).

Definition add_sched : list (nat * nat) := [(0, 0); (1, 0); (1, 0); (0, 0); (0, 1); (0, 1)]%nat.

Definition record_sched : list (nat * nat) :=
  [(0, 0); (1, 0); (0, 0); (1, 0); (0, 0); (1, 0); (1, 0); (0, 1); (0, 1);
   (0, 0); (1, 0); (0, 0); (1, 1); (0, 0); (1, 0); (1, 0); (0, 0); (1, 1); (1, 1)]%nat.

Lemma counter_no_lost_update_witness :
  exists ts c, run_pool Add_step add_sched (map (fun v => (v, ALoad)) [one_half; three], CounterSlot_value) = Some (ts, c) /\
    exists log, log ≡ₚ [one_half; three] /\ newest c = fold_left dadd log (S754_zero false).
Proof.
  set (r := run_pool Add_step add_sched (map (fun v => (v, ALoad)) [one_half; three], CounterSlot_value)).
  assert (r = Some ([(one_half, ADone); (three, ADone)], [S754_zero false; three; dadd three one_half])) as E
    by (vm_compute; reflexivity).
  do 2 eexists. split; [exact E|].
  destruct (counter_no_lost_update [one_half; three] _ _ (run_pool_rtc _ _ _ _ E)) as [H _].
  apply H. repeat constructor.
Defined.

Lemma histogram_aggregates_witness :
  exists ts h, run_pool Record_step record_sched (record_pool [one_half; three], HistogramSlot_ctor) = Some (ts, h) /\
    h_count h = 2 /\ h_buckets h !! 2%nat = Some 1 /\ (newest (h_max h) = S754_infinity true \/ In (newest (h_max h)) [one_half; three]).
Proof.
  destruct (run_pool Record_step record_sched (record_pool [one_half; three], HistogramSlot_ctor)) as [[ts h]|] eqn:E; [|vm_compute in E; discriminate].
  exists ts, h. split; [reflexivity|].
  destruct (histogram_aggregates [one_half; three] ts h) as (H1 & H2 & _ & _ & H3 & _).
  - repeat constructor.
  - apply run_pool_rtc with record_sched. exact E.
  - vm_compute in E. injection E as <- <-. repeat constructor.
  - rewrite H1. split; [reflexivity|]. split; [|exact H3].
    specialize (H2 2). change (Z.to_nat 2) with 2%nat in H2. rewrite H2; [vm_compute; reflexivity|split; [discriminate|reflexivity]].
Defined.
