(* ===== verification/Binding.v ===== *)
(** * Installing and adopting a binding (src/telemetry_unbound.cpp)

    [InstallBinding] and [ActiveBinding] on the memory machine of Memory.v.  A
    [Binding] table is plain memory: it is filled before it is installed and read
    through the pointer [ActiveBinding] returns.  A table has two fields here, the
    [abi_version] that [InstallBinding] checks and the function pointers.  The
    table of [DefaultConsoleBinding] is a function-local static: its
    initialization happens before every return of the function, so it is part of
    the initial memory.  A strong compare-exchange is a loop over the weak one
    that repeats while the value read is the expected one. *)

From Stdlib Require Import ZArith Lia.
From stdpp Require Import base list numbers relations.
From S2P Require Import Prelude Memory Dispatch.

Inductive field := FAbi | FSlots.

Inductive bloc :=
| GBinding                            (* g_binding: 0 is nullptr *)
| GExplicit                           (* g_explicitly_set *)
| Table (b : Z) (f : field).          (* the table at address [b] *)

#[export] Instance field_eq_dec : EqDecision field.
Proof. solve_decision. Defined.
#[export] Instance bloc_eq_dec : EqDecision bloc.
Proof. solve_decision. Defined.

Abbreviation bprog := (prog bloc Z).

(** ** The functions *)

Definition compare_exchange_strong (l : bloc) (expected desired : Z) (o : memory_order) : bprog (bool * Z) :=
  forever (let! r := cas_weak l expected desired o in
           Ret (if negb (fst r) && (snd r =? expected)%Z then None else Some r))%prog.

Definition InstallBinding (binding : Z) : bprog bool :=
  (let! compatible :=
     (if (binding =? 0)%Z then Ret true
      else let! abi_version := na_load (Table binding FAbi) in
           Ret (abi_version =? kBindingAbiVersion)%Z) in
   if negb compatible then Ret false else
   store GExplicit 1%Z relaxed ;;;
   store GBinding binding release ;;;
   Ret true)%prog.

(** [def] is what [DefaultConsoleBinding] returns: null when logging is disabled. *)
Definition ActiveBinding (def : Z) : bprog Z :=
  (let! b := load GBinding acquire in
   if negb (b =? 0)%Z then Ret b else
   let! explicitly_set := load GExplicit relaxed in
   if negb (explicitly_set =? 0)%Z then Ret b else
   if (def =? 0)%Z then Ret b else
   compare_exchange_strong GBinding 0%Z def acq_rel ;;;
   load GBinding acquire)%prog.

(** ** Threads *)

(** A thread fills a table and installs it, unbinds, or uses the active binding
    as every entry point does: one call through its table. *)
Inductive bind_op := OpInstall (b : Z) | OpUnbind | OpUse.
Inductive bind_res := Installed (b : Z) (ok : bool) | Unbound_ (ok : bool) | Used (b : Z) (slots : option Z).

Section Clients.
Variable def : Z.
Variable contents : Z -> field -> Z.       (* what each table is filled with *)

Definition do_bind (op : bind_op) : bprog bind_res :=
  match op with
  | OpInstall b =>
      na_store (Table b FSlots) (contents b FSlots) ;;;
      na_store (Table b FAbi) (contents b FAbi) ;;;
      let! ok := InstallBinding b in Ret (Installed b ok)
  | OpUnbind => let! ok := InstallBinding 0 in Ret (Unbound_ ok)
  | OpUse =>
      let! b := ActiveBinding def in
      if (b =? 0)%Z then Ret (Used b None)
      else let! slots := na_load (Table b FSlots) in Ret (Used b (Some slots))
  end%prog.

Fixpoint bind_thread (ops : list bind_op) : bprog (list bind_res) :=
  match ops with
  | [] => Ret []
  | op :: ops => let! r := do_bind op in let! rs := bind_thread ops in Ret (r :: rs)
  end%prog.

Definition btv0 : tview bloc := TV vbot vbot vbot.

Definition bind_mem0 : memory bloc Z :=
  Mem (fun l => [Msg (match l with
                      | GBinding | GExplicit => 0
                      | Table b f => if (b =? def)%Z then contents def f else 0
                      end)%Z vbot]) (fun _ _ => 0).

Definition bind_cfg (scripts : list (list bind_op)) : config bloc Z (list bind_res) :=
  Cfg (map (fun ops => (bind_thread ops, btv0)) scripts) bind_mem0.

(** The tables a script installs. *)
Fixpoint tables (ops : list bind_op) : list Z :=
  match ops with
  | [] => []
  | OpInstall b :: ops => b :: tables ops
  | _ :: ops => tables ops
  end.

(** What the result of an operation may be. *)
Definition bind_res_ok (all : list Z) (op : bind_op) (r : bind_res) : Prop :=
  match op, r with
  | OpInstall b, Installed b' ok => b' = b /\ ok = (contents b FAbi =? kBindingAbiVersion)%Z
  | OpUnbind, Unbound_ ok => ok = true
  | OpUse, Used b slots =>
      (b = 0%Z /\ slots = None) \/
      (b <> 0%Z /\ (b = def \/ In b all) /\ contents b FAbi = kBindingAbiVersion /\
       slots = Some (contents b FSlots))
  | _, _ => False
  end.
End Clients.

(** ** The invariant *)

Section Weak.
Variables (nt : nat) (def : Z) (contents : Z -> field -> Z) (all : list Z) (owner : Z -> nat).
Hypothesis def_abi : def <> 0%Z -> contents def FAbi = kBindingAbiVersion.
Local Abbreviation memory := (memory bloc Z).
Local Abbreviation tview := (tview bloc).

(** A table that is not the default one is written by the thread that installs it. *)
Definition bind_owns (tid : nat) (l : bloc) : Prop :=
  match l with
  | Table b _ => b <> 0%Z /\ b <> def /\ In b all /\ owner b = tid
  | _ => False
  end.

(** The messages a field of table [b] has once the table is filled. *)
Definition filled (b : Z) : nat := if (b =? def)%Z then 1 else 2.

Definition ready (m : memory) (b : Z) : Prop :=
  forall f, length (hist m (Table b f)) = filled b /\
            exists msg, last (hist m (Table b f)) = Some msg /\ mval msg = contents b f.

(** A thread that knows [b] may read the whole table. *)
Definition knows (V : view bloc) (b : Z) : Prop := forall f, pred (filled b) <= V (At (Table b f)).

Definition valid (b : Z) : Prop :=
  b <> 0%Z /\ (b = def \/ In b all) /\ contents b FAbi = kBindingAbiVersion.

Record bind_inv (m : memory) : Prop := {
  b_msgs : forall t msg, hist m GBinding !! t = Some msg ->
    mval msg = 0%Z \/ (valid (mval msg) /\ ready m (mval msg) /\ knows (mview msg) (mval msg));
  b_def : ready m def;
  b_reads : forall i b f, b <> def -> length (hist m (Table b f)) = 1 -> reads m i (Table b f) = 0;
  b_adopt : forall t msg, def <> 0%Z -> hist m GBinding !! S t = Some msg -> mval msg = def ->
    exists msg0, hist m GBinding !! t = Some msg0 /\ mval msg0 = 0%Z
}.

Local Abbreviation rely := (rely bind_owns).
Local Abbreviation wp := (wp nt bind_owns bind_inv).

(** The tables a thread has yet to fill. *)
Definition unfilled (tid : nat) (bs : list Z) (m : memory) : Prop :=
  forall b f, In b bs -> bind_owns tid (Table b f) /\ length (hist m (Table b f)) = 1.

Lemma unfilled_rely tid bs m m' : rely tid m m' -> unfilled tid bs m -> unfilled tid bs m'.
Proof. intros (_ & Ho & _) H b f Hb. destruct (H b f Hb) as [H1 H2]. by rewrite Ho. Qed.

Lemma unfilled_append tid bs m l msg :
  (forall b f, l = Table b f -> ~ In b bs) -> unfilled tid bs m -> unfilled tid bs (append m l msg).
Proof.
  intros Hl H b f Hb. destruct (H b f Hb) as [H1 H2]. split; [done|].
  rewrite hist_append_ne; [done|]. intros <-. by eapply Hl.
Qed.

Lemma ready_append m l msg b :
  (forall f, l <> Table b f) -> ready m b -> ready (append m l msg) b.
Proof. intros Hl H f. rewrite hist_append_ne; [apply H|]. intros <-. by eapply Hl. Qed.

Lemma filled_other b : b <> def -> filled b = 2.
Proof. intros H. unfold filled. by destruct (Z.eqb_spec b def). Qed.

(** Filling a field of a table nobody can know yet. *)
Lemma inv_append_table m b f msg :
  bind_inv m -> b <> def -> length (hist m (Table b f)) = 1 -> bind_inv (append m (Table b f) msg).
Proof.
  intros Hinv Hb Hl.
  assert (forall b', ready m b' -> ready (append m (Table b f) msg) b') as Hrd.
  { intros b' H. apply ready_append; [|done]. intros f' [= <- <-].
    destruct (H f) as [H' _]. rewrite filled_other in H' by done. lia. }
  split.
  - intros t msg' Hm. rewrite hist_append_ne in Hm by done.
    destruct (b_msgs _ Hinv _ _ Hm) as [|(? & ? & ?)]; [by left|right; eauto].
  - apply Hrd, (b_def _ Hinv).
  - intros i b' f' Hb' Hl'. rewrite hist_append in Hl'. case_decide as E.
    + rewrite length_app in Hl'. cbn in Hl'. injection E as -> ->. lia.
    + by apply (b_reads _ Hinv).
  - intros t msg' Hd. rewrite !hist_append_ne by done. by apply (b_adopt _ Hinv).
Qed.

(** Any store of the flag. *)
Lemma inv_append_explicit m msg : bind_inv m -> bind_inv (append m GExplicit msg).
Proof.
  intros Hinv. split.
  - intros t msg' Hm. rewrite hist_append_ne in Hm by done.
    destruct (b_msgs _ Hinv _ _ Hm) as [|(? & ? & ?)]; [by left|right].
    split_and!; [done|by apply ready_append|done].
  - apply ready_append; [done|apply (b_def _ Hinv)].
  - intros i b f. rewrite hist_append_ne by done. apply (b_reads _ Hinv).
  - intros t msg' Hd. rewrite !hist_append_ne by done. by apply (b_adopt _ Hinv).
Qed.

(** A pointer whose table the writer knows; the default one only after a null. *)
Lemma inv_append_binding m msg :
  bind_inv m ->
  (mval msg = 0%Z \/ (valid (mval msg) /\ ready m (mval msg) /\ knows (mview msg) (mval msg))) ->
  (def <> 0%Z -> mval msg = def -> exists msg0, last (hist m GBinding) = Some msg0 /\ mval msg0 = 0%Z) ->
  bind_inv (append m GBinding msg).
Proof.
  intros Hinv Hmsg Hadopt.
  assert (forall b, ready m b -> ready (append m GBinding msg) b) as Hrd
    by (intros; by apply ready_append).
  split.
  - intros t msg' Hm. rewrite hist_append_eq in Hm. apply lookup_snoc_Some in Hm as [[_ Hm]|[_ <-]].
    + destruct (b_msgs _ Hinv _ _ Hm) as [|(? & ? & ?)]; [by left|right; eauto].
    + destruct Hmsg as [|(? & ? & ?)]; [by left|right; eauto].
  - apply Hrd, (b_def _ Hinv).
  - intros i b f. rewrite hist_append_ne by done. apply (b_reads _ Hinv).
  - intros t msg' Hd Hm Hv. rewrite hist_append_eq in Hm |- *.
    apply lookup_snoc_Some in Hm as [[_ Hm]|[Ht <-]].
    + destruct (b_adopt _ Hinv _ _ Hd Hm Hv) as (msg0 & H0 & ?). exists msg0. split; [|done].
      by apply lookup_app_l_Some.
    + destruct (Hadopt Hd Hv) as (msg0 & H0 & ?). exists msg0. split; [|done].
      rewrite last_lookup, <- Ht in H0. by apply lookup_app_l_Some.
Qed.

Lemma bind_inv_add_read m i b f :
  bind_inv m -> ready m b -> bind_inv (add_read m i (Table b f)).
Proof.
  intros Hinv Hrd. split; try apply Hinv.
  intros j b' f' Hb' Hl'. cbn in Hl' |- *. rewrite decide_False; [by apply (b_reads _ Hinv)|].
  intros [-> [= -> ->]]. destruct (Hrd f) as [H _]. rewrite filled_other in H by done. lia.
Qed.

(** ** The operations keep the invariant *)

(** A pointer some thread has put in [g_binding]. *)
Definition published (m : memory) (b : Z) : Prop :=
  exists t msg, hist m GBinding !! t = Some msg /\ mval msg = b.

Lemma published_le m m' b : mem_le m m' -> published m b -> published m' b.
Proof. intros Hm (t & msg & Ht & Hv). exists t, msg. split; [by eapply mem_le_lookup|done]. Qed.

Lemma published_ready m b : bind_inv m -> published m b -> b <> 0%Z -> valid b /\ ready m b.
Proof. intros Hinv (t & msg & Ht & <-) Hb. destruct (b_msgs _ Hinv _ _ Ht) as [|(? & ? & ?)]; done. Qed.

(** The pointer a thread has loaded: null, or one whose table it may read. *)
Definition loaded (tv : tview) (m : memory) (b : Z) : Prop :=
  b = 0%Z \/ (b <> 0%Z /\ published m b /\ knows (cur tv) b).

Lemma wp_load_binding tid {A} (k : Z -> bprog A) (Q : A -> tview -> memory -> Prop) tv m :
  (forall b tv' m', rely tid m m' -> loaded tv' m' b -> wp tid (k b) Q tv' m') ->
  wp tid (pbind (load GBinding acquire) k) Q tv m.
Proof.
  intros Hk m1 Hr Hinv ts v tv1 Hrd. apply Hk; [done|].
  apply read_msg_spec in Hrd as (msg & Hm & <- & _ & _ & _ & _ & _ & _ & _ & Hacq & _).
  specialize (Hacq eq_refl).
  destruct (b_msgs _ Hinv _ _ Hm) as [->|(Hv & _ & Hkn)]; [by left|right].
  split_and!; [apply Hv|by exists ts, msg|]. intros f. etrans; [apply Hkn|apply Hacq].
Qed.

(** A plain read through a loaded pointer: no race, and the field's contents. *)
Lemma wp_read_table tid {A} b f (k : Z -> bprog A) (Q : A -> tview -> memory -> Prop) tv m :
  published m b -> b <> 0%Z -> knows (cur tv) b ->
  (forall tv' m', mem_le m m' -> (forall bs, unfilled tid bs m -> unfilled tid bs m') -> valid b ->
     wp tid (k (contents b f)) Q tv' m') ->
  wp tid (pbind (na_load (Table b f)) k) Q tv m.
Proof.
  intros Hp Hb Hkn Hk m1 Hr Hinv. apply (published_le _ _ _ (rely_le _ _ _ _ Hr)) in Hp.
  destruct (published_ready _ _ Hinv Hp Hb) as [Hv Hrd]. destruct (Hrd f) as [Hl (msg & Hm & Hc)].
  split.
  { unfold sees_last. apply Nat.leb_le. specialize (Hkn f). lia. }
  intros msg' Hm'. rewrite Hm in Hm'. injection Hm' as <-. cbn zeta. split; [by apply bind_inv_add_read|].
  rewrite Hc. apply Hk; [etrans; [exact (rely_le _ _ _ _ Hr)|apply mem_le_add_read]| |done].
  intros bs Hu. exact (unfilled_rely _ _ _ _ Hr Hu).
Qed.

(** Stores of the flag and of the pointer. *)
Lemma wp_set_explicit tid {A} v (k : bprog A) (Q : A -> tview -> memory -> Prop) tv m :
  (forall tv' m', mem_le m m' -> (forall bs, unfilled tid bs m -> unfilled tid bs m') ->
     (forall b, (forall f, bind_owns tid (Table b f)) -> ready m b -> ready m' b) -> vle (cur tv) (cur tv') ->
     wp tid k Q tv' m') ->
  wp tid (store GExplicit v relaxed ;;; k)%prog Q tv m.
Proof.
  intros Hk m1 Hr Hinv. split; [by intros i []|]. cbn [write_msg fst snd].
  split; [by apply inv_append_explicit|]. apply Hk.
  - etrans; [exact (rely_le _ _ _ _ Hr)|apply mem_le_append].
  - intros bs Hu. apply unfilled_append; [done|]. exact (unfilled_rely _ _ _ _ Hr Hu).
  - intros b Ho H. apply ready_append; [done|]. intros f. rewrite (proj1 (proj2 Hr)) by apply Ho. apply H.
  - apply vjoin_l.
Qed.

Lemma wp_set_binding tid {A} b (k : bprog A) (Q : A -> tview -> memory -> Prop) tv m :
  b = 0%Z \/ (valid b /\ b <> def /\ ready m b /\ (forall f, bind_owns tid (Table b f)) /\ knows (cur tv) b) ->
  (forall tv' m', mem_le m m' -> (forall bs, unfilled tid bs m -> unfilled tid bs m') -> wp tid k Q tv' m') ->
  wp tid (store GBinding b release ;;; k)%prog Q tv m.
Proof.
  intros Hb Hk m1 Hr Hinv. split; [by intros i []|]. cbn [write_msg fst snd].
  split.
  - apply inv_append_binding; [done| |].
    + destruct Hb as [->|(Hv & _ & Hrd & Ho & Hkn)]; [by left|right]. cbn [mval mview].
      split_and!; [done| |].
      * intros f. rewrite (proj1 (proj2 Hr)) by apply Ho. apply Hrd.
      * intros f. etrans; [apply Hkn|]. etrans; [|apply vjoin_r]. apply vjoin_l.
    + cbn [mval]. intros Hd ->. by destruct Hb as [|(_ & ? & _)].
  - apply Hk.
    + etrans; [exact (rely_le _ _ _ _ Hr)|apply mem_le_append].
    + intros bs Hu. apply unfilled_append; [done|]. exact (unfilled_rely _ _ _ _ Hr Hu).
Qed.

(** The adopting exchange: whatever it does, nothing but a null is replaced. *)
Lemma wp_adopt tid {A} (k : bool * Z -> bprog A) (Q : A -> tview -> memory -> Prop) tv m :
  def <> 0%Z ->
  (forall r tv' m', mem_le m m' -> (forall bs, unfilled tid bs m -> unfilled tid bs m') -> wp tid (k r) Q tv' m') ->
  wp tid (pbind (compare_exchange_strong GBinding 0%Z def acq_rel) k) Q tv m.
Proof.
  intros Hd Hk. apply wp_bind.
  set (J := fun (tv' : tview) m' => mem_le m m' /\ forall bs, unfilled tid bs m -> unfilled tid bs m').
  assert (forall tv1 m1 m2, J tv1 m1 -> rely tid m1 m2 -> J tv1 m2) as HJ.
  { intros tv1 m1 m2 [H1 H2] Hr. split; [etrans; [exact H1|exact (rely_le _ _ _ _ Hr)]|].
    intros bs Hu. exact (unfilled_rely _ _ _ _ Hr (H2 bs Hu)). }
  apply wp_forever with J; [by split|]. intros tv1 m1 Hj m2 Hr Hinv.
  pose proof (HJ _ _ _ Hj Hr) as Hj2. split; [by intros i []|]. intros ts v tv2 Hrd.
  split; [|intros msg Hm Hts ->; cbn [write_msg fst snd]; split].
  - apply wp_ret. cbn [fst snd negb andb]. destruct (v =? 0)%Z; [exact Hj2|]. apply Hk; apply Hj2.
  - apply read_msg_spec in Hrd as (msg' & Hm' & Hv' & _).
    assert (msg' = msg) as ->.
    { rewrite last_lookup, <- Hts in Hm. cbn in Hm. congruence. }
    apply inv_append_binding; [done| |].
    + right. cbn [mval mview]. split_and!; [by split_and!; [|left|apply def_abi]|apply (b_def _ Hinv)|].
      intros f. unfold filled. rewrite Z.eqb_refl. cbn. lia.
    + intros _ _. exists msg. split; [done|done].
  - cbn [fst negb andb]. apply wp_ret. destruct Hj2 as [H1 H2]. apply Hk.
    + etrans; [exact H1|apply mem_le_append].
    + intros bs Hu. apply unfilled_append; [done|by apply H2].
Qed.

(** A table the thread has filled itself. *)
Definition own_filled (tid : nat) (b : Z) (tv : tview) (m : memory) : Prop :=
  b <> def /\ (forall f, bind_owns tid (Table b f)) /\ ready m b /\ knows (cur tv) b.

Lemma own_filled_rely tid b tv m m' : rely tid m m' -> own_filled tid b tv m -> own_filled tid b tv m'.
Proof.
  intros Hr (H1 & H2 & H3 & H4). split_and!; try done. intros f.
  rewrite (proj1 (proj2 Hr)) by apply H2. apply H3.
Qed.

Lemma wp_publish tid {A} b (k : bool -> bprog A) (Q : A -> tview -> memory -> Prop) tv m :
  b = 0%Z \/ (own_filled tid b tv m /\ contents b FAbi = kBindingAbiVersion) ->
  (forall tv' m', (forall bs, unfilled tid bs m -> unfilled tid bs m') -> wp tid (k true) Q tv' m') ->
  wp tid (store GExplicit 1%Z relaxed ;;; store GBinding b release ;;; k true)%prog Q tv m.
Proof.
  intros Hb Hk. apply wp_set_explicit. intros tv1 m1 Hm1 Hu1 Hrd1 Hv1.
  apply wp_set_binding; [|intros; apply Hk; auto].
  destruct Hb as [->|((H1 & H2 & H3 & H4) & H5)]; [by left|right].
  destruct (H2 FAbi) as (H0 & _ & Hin & _).
  split_and!; [by split_and!; [|right|]|done|by apply Hrd1|done|].
  intros f. etrans; [apply H4|apply Hv1].
Qed.

Lemma wp_InstallBinding tid {A} b (k : bool -> bprog A) (Q : A -> tview -> memory -> Prop) tv m :
  b = 0%Z \/ own_filled tid b tv m ->
  (forall tv' m', (forall bs, unfilled tid bs m -> unfilled tid bs m') ->
     wp tid (k (if (b =? 0)%Z then true else (contents b FAbi =? kBindingAbiVersion)%Z)) Q tv' m') ->
  wp tid (pbind (InstallBinding b) k) Q tv m.
Proof.
  intros [->|Hb] Hk.
  { apply (wp_publish tid 0%Z); [by left|]. intros. by apply Hk. }
  destruct Hb as (H1 & H2 & H3 & H4). destruct (H2 FAbi) as (H0 & _).
  unfold InstallBinding. destruct (Z.eqb_spec b 0); [done|].
  intros m1 Hr Hinv.
  assert (own_filled tid b tv m1) as (_ & _ & Hrd & _) by (by apply (own_filled_rely _ _ _ _ _ Hr)).
  destruct (Hrd FAbi) as [Hl (msg & Hm & Hc)]. split.
  { unfold sees_last. apply Nat.leb_le. specialize (H4 FAbi). lia. }
  intros msg' Hm'. rewrite Hm in Hm'. injection Hm' as <-. cbn zeta. split; [by apply bind_inv_add_read|].
  rewrite Hc. set (tv1 := TV _ _ _).
  assert (forall bs, unfilled tid bs m -> unfilled tid bs (add_read m1 tid (Table b FAbi))) as Hu
    by (intros bs Hu; exact (unfilled_rely _ _ _ _ Hr Hu)).
  cbn [pbind]. destruct (Z.eqb_spec (contents b FAbi) kBindingAbiVersion) as [E|E]; cbn [negb].
  - apply (wp_publish tid b).
    + right. split; [|done]. split_and!; [done|done|done|]. intros f. etrans; [apply H4|apply vjoin_l].
    + intros tv2 m2 Hu2. apply Hk. auto.
  - apply Hk. exact Hu.
Qed.

(** The two stores that fill a table before it is installed. *)
Lemma wp_fill tid {A} b bs (k : bprog A) (Q : A -> tview -> memory -> Prop) tv m :
  unfilled tid (b :: bs) m -> ~ In b bs -> b <> def ->
  (forall tv' m', own_filled tid b tv' m' -> unfilled tid bs m' -> wp tid k Q tv' m') ->
  wp tid (na_store (Table b FSlots) (contents b FSlots) ;;; na_store (Table b FAbi) (contents b FAbi) ;;; k)%prog Q tv m.
Proof.
  intros Hu Hb Hd Hk.
  assert (forall f, bind_owns tid (Table b f)) as Ho by (intros f; by apply Hu; left).
  assert (forall f i, bind_owns i (Table b f) -> i = tid) as Hw
    by (intros f i (_ & _ & _ & <-); by destruct (Ho f) as (_ & _ & _ & <-)).
  assert (forall (tv1 : tview) m1 f, bind_inv m1 -> length (hist m1 (Table b f)) = 1 ->
            sees_last (Table b f) tv1 m1 = true /\ sees_reads nt (Table b f) tv1 m1 = true) as Hsees.
  { intros tv1 m1 f Hinv Hl. unfold sees_last, sees_reads. split; [apply Nat.leb_le; lia|].
    apply forallb_forall. intros i _. rewrite (b_reads _ Hinv) by done. by apply Nat.leb_le, Nat.le_0_l. }
  intros m1 Hr1 Hinv1. apply (unfilled_rely _ _ _ _ Hr1) in Hu.
  destruct (Hu b FSlots) as [_ Hl1]; [by left|]. destruct (Hsees tv m1 FSlots Hinv1 Hl1).
  split; [exact (Hw FSlots)|]. do 2 (split; [done|]). cbn zeta. split; [by apply inv_append_table|].
  set (tv1 := TV _ _ _). set (m1' := append m1 _ _).
  intros m2 Hr2 Hinv2.
  assert (forall f, hist m2 (Table b f) = hist m1' (Table b f)) as Hh2 by (intros f; by apply (proj1 (proj2 Hr2))).
  assert (length (hist m2 (Table b FAbi)) = 1) as Hl2.
  { rewrite Hh2. unfold m1'. rewrite hist_append_ne by done. by apply (Hu b FAbi); left. }
  destruct (Hsees tv1 m2 FAbi Hinv2 Hl2).
  split; [exact (Hw FAbi)|]. do 2 (split; [done|]). cbn zeta. split; [by apply inv_append_table|].
  apply Hk.
  - split_and!; [done|done| |].
    + intros f. rewrite filled_other by done. destruct f.
      * rewrite hist_append_eq, length_app, Hl2. split; [done|]. rewrite last_snoc. by eexists.
      * rewrite hist_append_ne by done. rewrite Hh2. unfold m1'.
        rewrite hist_append_eq, length_app, Hl1. split; [done|]. rewrite last_snoc. by eexists.
    + intros f. rewrite filled_other by done. cbn [pred]. destruct f.
      * etrans; [|apply vjoin_r]. rewrite vsingle_eq, Hl2. done.
      * etrans; [|apply vjoin_l]. cbn [cur tv1]. etrans; [|apply vjoin_r]. rewrite vsingle_eq, Hl1. done.
  - assert (unfilled tid bs m1) as Hu1 by (intros b' f Hb'; apply Hu; by right).
    apply unfilled_append; [by intros b' f [= <- <-]|]. apply (unfilled_rely _ _ _ _ Hr2).
    apply unfilled_append; [by intros b' f [= <- <-]|done].
Qed.

Lemma wp_ActiveBinding tid {A} (k : Z -> bprog A) (Q : A -> tview -> memory -> Prop) tv m :
  (forall b tv' m', loaded tv' m' b -> (forall bs, unfilled tid bs m -> unfilled tid bs m') ->
     wp tid (k b) Q tv' m') ->
  wp tid (pbind (ActiveBinding def) k) Q tv m.
Proof.
  intros Hk. unfold ActiveBinding. apply wp_bind, wp_load_binding. intros b tv1 m1 Hr1 Hl1.
  assert (forall bs, unfilled tid bs m -> unfilled tid bs m1) as Hu1
    by (intros bs; by apply unfilled_rely).
  destruct (Z.eqb_spec b 0) as [->|Hb]; cbn [negb]; [|apply wp_ret, Hk; done].
  intros m2 Hr2 Hinv2 ts v tv2 Hrd. cbn [pbind].
  assert (forall bs, unfilled tid bs m -> unfilled tid bs m2) as Hu2
    by (intros bs Hu; apply (unfilled_rely _ _ _ _ Hr2); auto).
  destruct (negb (v =? 0)%Z); [apply wp_ret, Hk; [by left|done]|].
  destruct (Z.eqb_spec def 0); [apply wp_ret, Hk; [by left|done]|].
  apply wp_adopt; [done|]. intros r tv3 m3 _ Hu3.
  change (load GBinding acquire) with (pbind (load GBinding acquire) Ret : bprog Z).
  apply wp_load_binding. intros b tv4 m4 Hr4 Hl4. apply wp_ret, Hk; [done|].
  intros bs Hu. apply (unfilled_rely _ _ _ _ Hr4). auto.
Qed.

(** ** Threads and runs *)

Local Abbreviation result_ok := (bind_res_ok def contents all).

Lemma wp_do_bind tid {A} op bs (k : bind_res -> bprog A) (Q : A -> tview -> memory -> Prop) tv m :
  unfilled tid (tables [op] ++ bs) m -> NoDup (tables [op] ++ bs) ->
  (forall r tv' m', result_ok op r -> unfilled tid bs m' -> wp tid (k r) Q tv' m') ->
  wp tid (pbind (do_bind def contents op) k) Q tv m.
Proof.
  intros Hu Hnd Hk. apply wp_bind. destruct op as [b| |]; cbn [tables app] in *; cbn [do_bind].
  - apply NoDup_cons in Hnd as [Hni _]. rewrite list_elem_of_In in Hni.
    destruct (Hu b FAbi) as ((H0 & Hd & _) & _); [by left|].
    apply (wp_fill tid b bs); [done|done|done|]. intros tv1 m1 Ho Hu1.
    apply wp_InstallBinding; [by right|]. intros tv2 m2 Hu2. apply wp_ret, Hk; [|by apply Hu2].
    destruct (Z.eqb_spec b 0); done.
  - apply wp_InstallBinding; [by left|]. intros tv2 m2 Hu2. apply wp_ret, Hk; [done|by apply Hu2].
  - apply wp_ActiveBinding. intros b tv1 m1 [->|(Hb & Hp & Hkn)] Hu1.
    { apply wp_ret, Hk; [by left|by apply Hu1]. }
    destruct (Z.eqb_spec b 0); [done|]. apply wp_read_table; [done|done|done|].
    intros tv2 m2 _ Hu2 (_ & Hin & Habi). apply wp_ret, Hk; [|by apply Hu2, Hu1]. by right.
Qed.

Lemma tables_cons op ops : tables (op :: ops) = tables [op] ++ tables ops.
Proof. by destruct op. Qed.

Lemma wp_bind_thread tid ops tv m :
  unfilled tid (tables ops) m -> NoDup (tables ops) ->
  wp tid (bind_thread def contents ops) (fun rs _ _ => Forall2 result_ok ops rs) tv m.
Proof.
  revert tv m. induction ops as [|op ops IH]; intros tv m Hu Hnd; [by apply wp_ret|].
  rewrite tables_cons in Hu, Hnd. cbn [bind_thread].
  apply (wp_do_bind tid op (tables ops)); [done|done|]. intros r tv1 m1 Hr Hu1.
  apply wp_bind. eapply wp_mono; [|apply IH; [done|by apply NoDup_app in Hnd as (_ & _ & Hnd)]].
  intros rs tv2 m2 Hrs. apply wp_ret. by constructor.
Qed.
End Weak.

(** The thread that installs a table. *)
Fixpoint installer (scripts : list (list bind_op)) (b : Z) : nat :=
  match scripts with
  | [] => 0
  | ops :: scripts => if bool_decide (b ∈ tables ops) then 0 else S (installer scripts b)
  end.

Lemma installer_spec scripts i ops b :
  NoDup (concat (map tables scripts)) -> scripts !! i = Some ops -> In b (tables ops) ->
  installer scripts b = i.
Proof.
  revert i. induction scripts as [|o scripts IH]; intros i Hnd Hi Hb; [done|].
  cbn [map concat installer] in *. apply NoDup_app in Hnd as (_ & Hx & Hnd). destruct i as [|i].
  - injection Hi as ->. apply list_elem_of_In in Hb. by rewrite bool_decide_true.
  - cbn in Hi. rewrite bool_decide_false; [f_equal; by apply IH|]. intros Ho.
    apply (Hx b); [done|]. apply list_elem_of_In, in_concat.
    exists (tables ops). split; [|done]. by apply in_map, list_elem_of_In, (list_elem_of_lookup_2 _ i).
Qed.

Lemma bind_cfg_ok def contents scripts :
  (def <> 0%Z -> contents def FAbi = kBindingAbiVersion) ->
  NoDup (concat (map tables scripts)) ->
  Forall (fun b => b <> 0%Z /\ b <> def) (concat (map tables scripts)) ->
  let all := concat (map tables scripts) in
  cfg_ok (length scripts) (bind_owns def all (installer scripts)) (bind_inv def contents all)
    (fun tid rs _ _ => forall ops, scripts !! tid = Some ops -> Forall2 (bind_res_ok def contents all) ops rs)
    (bind_cfg def contents scripts).
Proof.
  intros Hdef Hnd Hall all. split_and!; cbn [bind_cfg threads mem]; [apply length_map| |].
  - split; cbn [bind_mem0 hist reads].
    + intros [|t] msg; [|done]. intros [= <-]. by left.
    + intros f. unfold filled. rewrite !Z.eqb_refl. split; [done|]. eexists. split; [done|]. cbn [mval]. by rewrite ?Z.eqb_refl.
    + done.
    + done.
  - intros tid p tv Ht. apply list_lookup_fmap_Some in Ht as (ops & Hp & Hops).
    injection Hp as -> ->.
    assert (forall b, In b (tables ops) -> In b all) as Hin.
    { intros b Hb. apply in_concat. exists (tables ops). split; [|done].
      by apply in_map, list_elem_of_In, (list_elem_of_lookup_2 _ tid). }
    eapply wp_mono; [|apply wp_bind_thread; [done| |]].
    + intros rs tv m Hrs ops' E. rewrite Hops in E. by injection E as <-.
    + intros b f Hb. rewrite List.Forall_forall in Hall. destruct (Hall b (Hin b Hb)).
      split; [|done]. split_and!; [done|done|by apply Hin|by eapply installer_spec].
    + apply list_elem_of_lookup_2 in Hops. clear -Hnd Hops. induction scripts as [|o scripts IH]; [by inversion Hops|].
      cbn [map concat] in Hnd. apply NoDup_app in Hnd as (H1 & _ & H2).
      inversion Hops; subst; [done|by apply IH].
Qed.

(** C5: Publication of a binding, under weak memory and with any number of threads
    that fill and install tables, unbind, and use the active binding: no access
    races; a table is refused exactly when its ABI version differs; every use
    gets null or a table some thread installed or the default one, always of the
    right ABI version and with the function pointers it was filled with; and the
    default binding only ever replaces a null pointer, so adoption never
    overwrites an installed one. *)
Theorem binding_publication (def : Z) (contents : Z -> field -> Z) (scripts : list (list bind_op)) c :
  (def <> 0%Z -> contents def FAbi = kBindingAbiVersion) ->
  NoDup (concat (map tables scripts)) ->
  Forall (fun b => b <> 0%Z /\ b <> def) (concat (map tables scripts)) ->
  rtc cstep (bind_cfg def contents scripts) c ->
  ~ racy c /\
  (forall i ops rs tv, scripts !! i = Some ops -> threads c !! i = Some (Ret rs, tv) ->
     Forall2 (bind_res_ok def contents (concat (map tables scripts))) ops rs) /\
  (forall t msg, def <> 0%Z -> hist (mem c) GBinding !! S t = Some msg -> mval msg = def ->
     exists msg0, hist (mem c) GBinding !! t = Some msg0 /\ mval msg0 = 0%Z).
Proof.
  intros Hdef Hnd Hall Hr. pose proof (bind_cfg_ok def contents scripts Hdef Hnd Hall) as Hok.
  destruct (wp_sound _ _ _ _ _ _ Hok Hr) as (Hinv & Hrace & Hres). split_and!; [done| |].
  - intros i ops rs tv Hi Ht. destruct (Hres _ _ _ Ht) as (m0 & _ & HQ). by apply HQ.
  - apply (b_adopt _ _ _ _ Hinv).
Qed.

(** Thread 0 fills and installs table 5, thread 1 has adopted the default table 7. *)
Definition sample_contents (b : Z) (f : field) : Z := match f with FAbi => 3 | FSlots => 100 + b end%Z.
Definition sample_scripts : list (list bind_op) := [[OpInstall 5; OpUse]; [OpUse]].
Definition sample_sched : list (nat * nat) :=
  let w := map (pair 0) in let r := map (pair 1) in
  r [0; 0; 0; 0] ++ w [0; 0; 0; 0; 0; 2; 0] ++ r [1; 0].

Lemma sample_results :
  (run (bind_cfg 7 sample_contents sample_scripts) sample_sched ≫= thread_result 0)
  = Some [Installed 5 true; Used 5 (Some 105)]%Z /\
  (run (bind_cfg 7 sample_contents sample_scripts) sample_sched ≫= thread_result 1)
  = Some [Used 7 (Some 107)]%Z.
Proof. by vm_compute. Qed.

Lemma binding_publication_witness :
  exists (c : config bloc Z (list bind_res)) tv, threads c !! 1 = Some (Ret [Used 7 (Some 107)]%Z, tv) /\ ~ racy c.
Proof.
  destruct (run_result _ _ _ _ (proj2 sample_results)) as (c & tv & Hr & Ht).
  exists c, tv. split; [exact Ht|].
  destruct (binding_publication 7 sample_contents sample_scripts c) as (H & _); [done| | |exact Hr|exact H].
  - cbn. apply NoDup_singleton.
  - cbn. by repeat constructor.
Defined.

(** ** One thread: the life cycle *)

Inductive life_op := LInstall (b : Z) | LActive.

Definition do_life (def : Z) (op : life_op) : bprog (bool + Z) :=
  match op with
  | LInstall b => let! ok := InstallBinding b in Ret (inl ok)
  | LActive => let! b := ActiveBinding def in Ret (inr b)
  end%prog.

Fixpoint life (def : Z) (ops : list life_op) : bprog (list (bool + Z)) :=
  match ops with
  | [] => Ret []
  | op :: ops => let! r := do_life def op in let! rs := life def ops in Ret (r :: rs)
  end%prog.

(** The documented states: nothing decided yet, or what was last installed or
    adopted. *)
Inductive life_state := Fresh | Adopted | Explicit (b : Z).

Definition life_active (def : Z) (st : life_state) : Z :=
  match st with Fresh => 0%Z | Adopted => def | Explicit b => b end.

Definition life_step (def : Z) (contents : Z -> field -> Z) (st : life_state) (op : life_op)
  : (bool + Z) * life_state :=
  match op with
  | LInstall b =>
      if (b =? 0)%Z || (contents b FAbi =? kBindingAbiVersion)%Z then (inl true, Explicit b)
      else (inl false, st)
  | LActive =>
      let st := match st with Fresh => Adopted | _ => st end in (inr (life_active def st), st)
  end.

Fixpoint life_spec def contents st ops : list (bool + Z) :=
  match ops with
  | [] => []
  | op :: ops => let '(r, st) := life_step def contents st op in r :: life_spec def contents st ops
  end.

(** The memory of a state; the tables are those of [contents]. *)
Definition life_mem (def : Z) (contents : Z -> field -> Z) (st : life_state) (s : bloc -> Z) : Prop :=
  s GBinding = life_active def st /\
  s GExplicit = (match st with Explicit _ => 1 | _ => 0 end)%Z /\
  forall b f, s (Table b f) = contents b f.

Lemma srun_InstallBinding fuel b s :
  srun fuel (InstallBinding b) s =
  if (b =? 0)%Z || (s (Table b FAbi) =? kBindingAbiVersion)%Z
  then Some (true, upd (upd s GExplicit 1%Z) GBinding b) else Some (false, s).
Proof.
  unfold InstallBinding. destruct (b =? 0)%Z; cbn; [done|].
  by destruct (s (Table b FAbi) =? kBindingAbiVersion)%Z.
Qed.

Lemma srun_ActiveBinding fuel def s :
  srun (S fuel) (ActiveBinding def) s =
  let s' := if (s GBinding =? 0)%Z && (s GExplicit =? 0)%Z && negb (def =? 0)%Z
            then upd s GBinding def else s in
  Some (s' GBinding, s').
Proof.
  unfold ActiveBinding. rewrite srun_bind. cbn [srun load].
  destruct (Z.eqb_spec (s GBinding) 0) as [E|E]; cbn [negb andb]; [|done].
  rewrite srun_bind. cbn [srun load].
  destruct (Z.eqb_spec (s GExplicit) 0); cbn [negb andb srun]; [|by rewrite E].
  destruct (Z.eqb_spec def 0); cbn [negb srun]; [by rewrite E|].
  rewrite srun_bind. unfold compare_exchange_strong.
  rewrite (srun_forever_now fuel _ (true, 0%Z) s (upd s GBinding def)); [done|].
  rewrite srun_bind. unfold cas_weak. cbn [srun]. by rewrite E.
Qed.

(** C26: Life cycle: for any sequence of calls of one thread, [InstallBinding]
    refuses exactly the tables of another ABI version and leaves the state alone
    then; [ActiveBinding] adopts the default binding once when nothing was ever
    installed, and afterwards answers with what was last installed explicitly,
    null included: after an explicit unbind the default is never adopted again. *)
Theorem binding_life_cycle (def : Z) (contents : Z -> field -> Z) (fuel : nat) (st : life_state)
    (s : bloc -> Z) (ops : list life_op) :
  life_mem def contents st s ->
  exists s', srun (S fuel) (life def ops) s = Some (life_spec def contents st ops, s').
Proof.
  revert st s. induction ops as [|op ops IH]; intros st s Hs; [by eexists|].
  assert (exists s1, srun (S fuel) (do_life def op) s = Some (fst (life_step def contents st op), s1) /\
            life_mem def contents (snd (life_step def contents st op)) s1) as (s1 & E & H1).
  { destruct Hs as (Hb & He & Ht). destruct op as [b|]; unfold do_life; rewrite srun_bind.
    - rewrite srun_InstallBinding, Ht. cbn [life_step].
      destruct ((b =? 0)%Z || _); (eexists; split; [reflexivity|]); [|done].
      split_and!; [done|done|]. intros b' f. by rewrite !upd_ne.
    - rewrite srun_ActiveBinding. cbn zeta. set (s' := if _ && _ && _ then _ else _).
      assert (life_mem def contents (snd (life_step def contents st LActive)) s') as H'.
      { subst s'. rewrite Hb, He. cbn [life_step snd].
        destruct st as [| |b]; cbn [life_active]; rewrite ?Z.eqb_refl, ?andb_false_r; cbn [andb]; [|by destruct (def =? 0)%Z|done].
        destruct (Z.eqb_spec def 0) as [->|]; cbn [negb]; [done|].
        split_and!; [by rewrite upd_eq|done|]. intros b' f. by rewrite upd_ne. }
      exists s'. split; [|exact H']. by rewrite (proj1 H'). }
  destruct (IH _ _ H1) as (s2 & E2). exists s2. cbn [life life_spec].
  destruct (life_step def contents st op) as [r st']. cbn [fst snd] in *.
  rewrite srun_bind, E, srun_bind, E2. done.
Qed.

Lemma binding_life_cycle_witness :
  exists s', srun 1 (life 7 [LActive; LInstall 5; LActive; LInstall 0; LActive]%Z)
               (fun l => match l with Table b f => sample_contents b f | _ => 0%Z end)
             = Some ([inr 7; inl true; inr 5; inl true; inr 0]%Z, s').
Proof. apply (binding_life_cycle 7 sample_contents 0 Fresh). by split_and!. Defined.

(** ** Two threads: an explicit unbind that does not last *)

(** Thread 1 has loaded null and the clear flag; thread 0 unbinds explicitly; the
    exchange of thread 1 then finds the null it expects. *)
Definition lost_unbind_sched : list (nat * nat) :=
  let w := map (pair 0) in let r := map (pair 1) in
  r [0; 0] ++ w [0; 0] ++ r [0; 1; 2; 0] ++ w [2; 0].

Lemma lost_unbind_run :
  (run (bind_cfg 7 sample_contents [[OpUnbind; OpUse]; [OpUse]]) lost_unbind_sched ≫= thread_result 0)
  = Some [Unbound_ true; Used 7 (Some 107)]%Z.
Proof. by vm_compute. Qed.

(** C40: An explicit unbind can be undone by an adoption already under way: there
    is a run in which a thread calls [InstallBinding(nullptr)], gets true, and its
    own next use of the active binding goes to the default console binding. *)
Theorem explicit_unbind_can_be_lost :
  exists c tv, rtc cstep (bind_cfg 7 sample_contents [[OpUnbind; OpUse]; [OpUse]]) c /\
    threads c !! 0 = Some (Ret [Unbound_ true; Used 7 (Some 107)]%Z, tv).
Proof.
  destruct (run_result _ _ _ _ lost_unbind_run) as (c & tv & Hr & Ht). by exists c, tv.
Qed.
