(* ===== verification/Process.v ===== *)
(** * Logging from the start of a process

    Composes Binding.v, Console.v, Unbound.v and Dispatch.v: every call of the
    front door first runs [ActiveBinding] (its program, on the shared variables),
    the first use of the default binding seeds its level from the environment, and
    the table the pointer designates handles the call.  The specification says
    where every event of a process goes, with no initialization at all. *)

From Stdlib Require Import ZArith Lia String.
From stdpp Require Import base list numbers relations.
From S2P Require Import Prelude Memory Context Printf ArgPack Format Unbound ConsoleFormat Console Dispatch Binding.

Local Open Scope Z_scope.

Section Process.
Variables (def : Z) (env : option bytes) (io : Z -> platform * list write_result).

Record process := mkProcess { shared : bloc -> Z; initialized : bool; front : world console }.

(** The initializer of [DefaultConsoleBinding]'s static runs once. *)
Definition seed (p : process) (w : world console) : world console :=
  if initialized p then w else with_backend w (SetLevelImpl (LevelFromEnv env kInfo) (backend w)).

(** [ActiveBinding()]: null or the console's table; a process that installs no
    other table has no other pointer. *)
Definition active (p : process) : option (option (Binding console) * process) :=
  match srun 1 (ActiveBinding def) (shared p) with
  | None => None
  | Some (b, s) =>
      if b =? 0 then Some (None, mkProcess s (initialized p) (front p))
      else Some (Some (console_binding io), mkProcess s true (seed p (front p)))
  end.

Inductive call :=
| Log (sev : Severity) (fmt : bytes) (args : list arg) (now : Z)
| SetLevel (l : Severity)
| Unbind.                                       (* InstallBinding(nullptr) *)

Definition do_call (c : call) (p : process) : option process :=
  match c with
  | Log sev fmt args now =>
      match active p with
      | None => None
      | Some (b, p) =>
          match XM_LOG 0 b None sev fmt args no_context now (front p) with
          | None => None
          | Some w => Some (mkProcess (shared p) (initialized p) w)
          end
      end
  | SetLevel l =>
      match active p with
      | None => None
      | Some (b, p) => Some (mkProcess (shared p) (initialized p) (SetLogLevel b l (front p)))
      end
  | Unbind =>
      match srun 1 (InstallBinding 0) (shared p) with
      | None => None
      | Some (_, s) => Some (mkProcess s (initialized p) (front p))
      end
  end.

Fixpoint do_calls (l : list call) (p : process) : option process :=
  match l with
  | [] => Some p
  | c :: l => match do_call c p with Some p => do_calls l p | None => None end
  end.

(** A process before any call. *)
Definition process0 : process :=
  mkProcess (fun l => match l with Table _ FAbi => kBindingAbiVersion | _ => 0 end) false
    (mkWorld (mkConsole (severity_u8 kInfo) [] []) []).

(** ** Where events go *)

Inductive phase := NoCallYet | ToConsole (l : Severity) | ToFallback.

(** Any call adopts the console at the level of the environment. *)
Definition adopt (ph : phase) : phase :=
  match ph with NoCallYet => ToConsole (LevelFromEnv env kInfo) | _ => ph end.

Definition admitted (l sev : Severity) : bool := negb (bool_decide (sev = kOff)) && (severity_u8 l <=? severity_u8 sev).

Definition console_line (sev : Severity) (fmt : bytes) (args : list arg) (now : Z) : bytes :=
  take 766 (line_body (fst (io now)) None sev (take 511 (fill console_show (pieces None fmt) (kept 8 160 (map value_of args))))) ++ [10].

Definition fallback_line (sev : Severity) (fmt : bytes) (args : list arg) : bytes :=
  str "[xmtelemetry:" ++ SeverityName sev ++ str "] " ++
  c_str (take 511 (fill default_show (pieces None fmt) (kept 8 160 (map value_of args)))) ++ [10].

(** The phase, and what the console and the fallback have written. *)
Fixpoint sinks (l : list call) (ph : phase) : bytes * bytes :=
  match l with
  | [] => ([], [])
  | Log sev fmt args now :: l =>
      let '(c, f) := sinks l (adopt ph) in
      match adopt ph with
      | ToConsole lev => ((if admitted lev sev then console_line sev fmt args now else []) ++ c, f)
      | _ => (c, (if warn_or_above sev then fallback_line sev fmt args else []) ++ f)
      end
  | SetLevel lev :: l => sinks l (match adopt ph with ToConsole _ => ToConsole lev | ph => ph end)
  | Unbind :: l => sinks l ToFallback
  end.

Definition call_ok (c : call) : Prop :=
  match c with
  | Log _ _ args now => Forall (fun a => value_ok (value_of a)) args /\ working (snd (io now))
  | _ => True
  end.

(** ** The process follows the phases *)

Hypothesis def_set : def <> 0.

Definition tables0 (b : Z) (f : field) : Z := match f with FAbi => kBindingAbiVersion | FSlots => 0 end.

(** The process in a phase, with what has been written so far. *)
Definition in_phase (ph : phase) (c f : bytes) (p : process) : Prop :=
  match ph with
  | NoCallYet => life_mem def tables0 Fresh (shared p) /\ initialized p = false /\
                 front p = mkWorld (mkConsole (severity_u8 kInfo) [] c) f
  | ToConsole l => life_mem def tables0 Adopted (shared p) /\ initialized p = true /\
                   front p = mkWorld (mkConsole (severity_u8 l) [] c) f
  | ToFallback => life_mem def tables0 (Explicit 0) (shared p) /\
                  exists g, front p = mkWorld (mkConsole g [] c) f
  end.

Definition table_of (ph : phase) : option (Binding console) :=
  match ph with ToConsole _ => Some (console_binding io) | _ => None end.

Lemma in_phase_active ph c f p :
  in_phase ph c f p -> exists p', active p = Some (table_of (adopt ph), p') /\ in_phase (adopt ph) c f p'.
Proof.
  intros Hp. unfold active. rewrite srun_ActiveBinding. cbn zeta. apply Z.eqb_neq in def_set as Hd.
  destruct ph as [|l|]; cbn [adopt table_of in_phase] in *.
  - destruct Hp as ((Hb & He & Ht) & Hi & Hw). rewrite Hb, He. cbn [life_active]. rewrite Z.eqb_refl, Hd. cbn [andb negb].
    rewrite upd_eq, Hd. eexists. split; [done|]. cbn [shared initialized front]. split; [|split; [done|]].
    + split_and!; [by rewrite upd_eq|by rewrite upd_ne|]. intros. by rewrite upd_ne.
    + unfold seed. rewrite Hi, Hw. done.
  - destruct Hp as ((Hb & He & Ht) & Hi & Hw). rewrite Hb. cbn [life_active]. rewrite Hd. cbn [andb]. rewrite Hb. cbn [life_active].
    rewrite Hd. eexists. split; [done|]. cbn [shared initialized front]. unfold seed. rewrite Hi. by split_and!.
  - destruct Hp as ((Hb & He & Ht) & Hw). rewrite He. rewrite andb_false_r. cbn [andb]. rewrite Hb. cbn [life_active Z.eqb].
    eexists. split; [done|]. cbn [shared initialized front]. by split_and!.
Qed.

Lemma in_phase_unbind ph c f p :
  in_phase ph c f p -> exists p', do_call Unbind p = Some p' /\ in_phase ToFallback c f p'.
Proof.
  intros Hp. cbn [do_call]. rewrite srun_InstallBinding. cbn [Z.eqb orb]. eexists. split; [done|].
  assert (exists st g, life_mem def tables0 st (shared p) /\ front p = mkWorld (mkConsole g [] c) f) as (st & g & (_ & _ & Ht) & Hw).
  { destruct ph; cbn [in_phase] in Hp; [destruct Hp as (? & _ & ?)|destruct Hp as (? & _ & ?)|destruct Hp as (? & ? & ?)]; by eauto. }
  split; [|by exists g]. cbn [shared]. split_and!; [done|done|]. intros. by rewrite !upd_ne.
Qed.

(** An event in each phase. *)
Lemma log_to_console l sev fmt args now c f :
  call_ok (Log sev fmt args now) ->
  XM_LOG 0 (Some (console_binding io)) None sev fmt args no_context now (mkWorld (mkConsole (severity_u8 l) [] c) f) =
  Some (mkWorld (mkConsole (severity_u8 l) [] (c ++ (if admitted l sev then console_line sev fmt args now else []))) f).
Proof.
  intros [Hok Hw]. unfold XM_LOG. replace (compiled_in 0 sev) with true by (now destruct sev).
  unfold EmitEvent, gate. cbn [console_binding should_log emit_event backend]. fold (admitted l sev).
  change (ShouldLogImpl (mkConsole (severity_u8 l) [] c) sev) with (admitted l sev).
  destruct (admitted l sev) eqn:E; cbn [negb]; [|by rewrite app_nil_r].
  rewrite EmitEventImpl_spec by done.
  change (ShouldLogImpl (mkConsole (severity_u8 l) [] c) sev) with (admitted l sev). rewrite E. done.
Qed.

Lemma log_to_fallback sev fmt args now g c f :
  call_ok (Log sev fmt args now) ->
  XM_LOG 0 None None sev fmt args no_context now (mkWorld (mkConsole g [] c) f) =
  Some (mkWorld (mkConsole g [] c) (f ++ (if warn_or_above sev then fallback_line sev fmt args else []))).
Proof.
  intros [Hok Hw]. unfold XM_LOG. replace (compiled_in 0 sev) with true by (now destruct sev).
  cbn [EmitEvent]. destruct (warn_or_above sev); [|by rewrite app_nil_r].
  destruct (unbound_event_line (Some []) sev fmt args Hok) as (msg & -> & _ & ->). done.
Qed.

(** One call: the phase moves on and the lines are appended. *)
Lemma call_sinks call calls ph c f p :
  call_ok call -> in_phase ph c f p ->
  exists p' ph' c' f', do_call call p = Some p' /\ in_phase ph' (c ++ c') (f ++ f') p' /\
    sinks (call :: calls) ph = (c' ++ fst (sinks calls ph'), f' ++ snd (sinks calls ph')).
Proof.
  intros Hok Hp. destruct call as [sev fmt args now|l|].
  - destruct (in_phase_active _ _ _ _ Hp) as (p1 & E & H1). cbn [do_call sinks]. rewrite E.
    destruct (sinks calls (adopt ph)) as [sc sf] eqn:Es. destruct (adopt ph) as [|l|] eqn:Ea; [by destruct ph| |]; cbn [in_phase table_of] in *.
    + destruct H1 as (Hm & Hi & Hw). rewrite Hw, log_to_console by done.
      eexists _, (ToConsole l), _, []. split; [done|]. split; [|rewrite Es; done]. rewrite app_nil_r. by split_and!.
    + destruct H1 as (Hm & g & Hw). rewrite Hw, log_to_fallback by done.
      eexists _, ToFallback, [], _. split; [done|]. split; [|rewrite Es; done]. rewrite app_nil_r. split; [done|]. by exists g.
  - destruct (in_phase_active _ _ _ _ Hp) as (p1 & E & H1). cbn [do_call sinks]. rewrite E.
    destruct (adopt ph) as [|l'|] eqn:Ea; [by destruct ph| |]; cbn [in_phase table_of] in *.
    + destruct H1 as (Hm & Hi & Hw). eexists _, (ToConsole l), [], []. split; [done|]. rewrite !app_nil_r.
      split; [|by destruct (sinks calls (ToConsole l))]. cbn [in_phase shared initialized front]. by rewrite Hw.
    + destruct H1 as (Hm & g & Hw). eexists _, ToFallback, [], []. split; [done|]. rewrite !app_nil_r.
      split; [|by destruct (sinks calls ToFallback)]. cbn [in_phase shared front SetLogLevel]. split; [done|]. by exists g.
  - destruct (in_phase_unbind _ _ _ _ Hp) as (p1 & E & H1). exists p1, ToFallback, [], []. rewrite !app_nil_r.
    split; [done|]. split; [done|]. cbn [sinks]. by destruct (sinks calls ToFallback).
Qed.

Lemma calls_sinks calls ph c f p :
  Forall call_ok calls -> in_phase ph c f p ->
  exists p', do_calls calls p = Some p' /\
    stderr (backend (front p')) = c ++ fst (sinks calls ph) /\ fallback (front p') = f ++ snd (sinks calls ph).
Proof.
  intros Hok. revert ph c f p. induction Hok as [|call calls Hc _ IH]; intros ph c f p Hp.
  - exists p. cbn [do_calls sinks fst snd]. rewrite !app_nil_r. split; [done|].
    destruct ph; cbn [in_phase] in Hp; [destruct Hp as (_ & _ & ->)|destruct Hp as (_ & _ & ->)|destruct Hp as (_ & g & ->)]; done.
  - destruct (call_sinks call calls ph c f p Hc Hp) as (p1 & ph1 & c1 & f1 & E & H1 & Es).
    destruct (IH _ _ _ _ H1) as (p2 & E2 & Ho & Hf). exists p2. cbn [do_calls]. rewrite E, Es. cbn [fst snd].
    by rewrite !app_assoc.
Qed.

(** C7: Logging with no initialization in a process of one thread: for any sequence of events
    without a source, level changes and explicit unbinds, when write(2) eventually
    takes each line whole, every call returns and stderr
    gets exactly these lines, in order: until the first unbind, one console line
    for every event the level admits, where the level is the environment's until
    it is set; afterwards nothing more from the console, and one line of the
    unbound fallback for every event of Warn and above.  (With a second thread an
    explicit unbind can be undone by an adoption under way: Binding.v.) *)
Theorem process_logs (calls : list call) :
  Forall call_ok calls ->
  exists p, do_calls calls process0 = Some p /\
    stderr (backend (front p)) = fst (sinks calls NoCallYet) /\ fallback (front p) = snd (sinks calls NoCallYet).
Proof.
  intros Hok. apply (calls_sinks calls NoCallYet [] []); [done|]. cbn [in_phase process0 shared initialized front].
  split_and!; [|done|done]. split_and!; [done|done|]. by intros b [].
Qed.
End Process.

Definition demo_calls : list call :=
  [Log kDebug (str "no") [] 0; Log kInfo (str "x={}") [ASigned 3] 1; SetLevel kError; Log kWarn (str "no") [] 2;
   Unbind; Log kInfo (str "no") [] 3; Log kWarn (str "bye") [] 4].

Lemma process_logs_witness :
  exists p, do_calls 7 None (fun _ => (demo_platform, [Wrote 767])) demo_calls process0 = Some p /\
    stderr (backend (front p)) = str "[info] [1700000000.000000042] [robot]: x=3" ++ [10] /\
    fallback (front p) = str "[xmtelemetry:WARN] bye" ++ [10].
Proof.
  destruct (process_logs 7 None (fun _ => (demo_platform, [Wrote 767])) ltac:(lia) demo_calls) as (p & E & H1 & H2).
  - repeat constructor; cbn; try lia; try (intros [H|[]]; discriminate).
  - exists p. split; [exact E|]. rewrite H1, H2. vm_compute. split; reflexivity.
Defined.
