(* ===== verification/Stats.v ===== *)
(** * Measurement (testing/bench_harness.hpp, testing/alloc_probe.hpp)

    The statistics of a benchmark (nearest-rank percentiles over the sorted
    samples, in binary64 arithmetic), the measurement loops and the per-thread
    allocation counter.  The operation under measurement is any function on a
    world that says how many allocations it makes; the clock is any sequence of
    readings. *)

From Stdlib Require Import ZArith Lia Floats.SpecFloat Sorting.Sorted.
From stdpp Require Import base list numbers sorting.
From S2P Require Import Prelude Metrics.

Local Open Scope Z_scope.

(** ** Binary64 *)

Definition dmul : double -> double -> double := SFmul 53 1024.
Definition ddiv : double -> double -> double := SFdiv 53 1024.

(** [static_cast<double>] of an integer. *)
Definition double_of (z : Z) : double := binary_normalize 53 1024 z 0 false.

(** [static_cast<std::size_t>(std::ceil(v))]; [None] where the conversion is
    undefined. *)
Definition ceil_size (v : double) : option Z :=
  match v with
  | S754_zero _ => Some 0
  | S754_finite s m e =>
      let n := (if s then Z.neg m else Z.pos m) * 2 ^ Z.max e 0 in
      let c := - (- n / 2 ^ Z.max (- e) 0) in
      if (0 <=? c) && (c <? 2 ^ 64) then Some c else None
  | S754_infinity _ | S754_nan => None
  end.

Definition not_nan (v : double) : bool := match v with S754_nan => false | _ => true end.

(** ** Statistics *)

Record Stats := mkStats { p50 : double; p99 : double; p999 : double; max : double; mean : double; samples : Z }.

Definition Stats_default : Stats :=
  mkStats (S754_zero false) (S754_zero false) (S754_zero false) (S754_zero false) (S754_zero false) 0.

Definition PercentileSorted (sorted : list double) (q : double) : option double :=
  if bool_decide (sorted = []) then Some (S754_zero false) else
  rank ← ceil_size (dmul q (double_of (Z.of_nat (length sorted))));
  let index := if rank =? 0 then 0%nat else Z.to_nat (rank - 1) in
  sorted !! Nat.min index (length sorted - 1).

(** [operator<] is what [std::sort] uses: nothing later is less. *)
Definition not_after (a b : double) : Prop := dlt b a = false.
#[export] Instance not_after_dec : RelDecision not_after.
Proof. intros a b. unfold not_after. apply _. Defined.

(** 0.50, 0.99 and 0.999. *)
Definition q50 : double := S754_finite false 4503599627370496 (-53).
Definition q99 : double := S754_finite false 8917127262193582 (-53).
Definition q999 : double := S754_finite false 8998192055486251 (-53).

Definition ComputeStats (samples : list double) : option Stats :=
  if bool_decide (samples = []) then Some Stats_default else
  let sorted := merge_sort not_after samples in
  let sum := fold_left dadd sorted (S754_zero false) in
  p50 ← PercentileSorted sorted q50;
  p99 ← PercentileSorted sorted q99;
  p999 ← PercentileSorted sorted q999;
  max ← last sorted;
  Some (mkStats p50 p99 p999 max (ddiv sum (double_of (Z.of_nat (length sorted)))) (Z.of_nat (length samples))).

(** ** The allocation counter *)

Record AllocState := mkAlloc { g_alloc_counting : bool; g_alloc_count : Z }.

Definition AllocProbe_ctor (a : AllocState) : AllocState := mkAlloc true 0.
Definition AllocProbe_dtor (a : AllocState) : AllocState := mkAlloc false (g_alloc_count a).
Definition allocations (a : AllocState) : Z := g_alloc_count a.
Definition CountingAlloc (a : AllocState) : AllocState :=
  if g_alloc_counting a then mkAlloc true (u64 (g_alloc_count a + 1)) else a.

(** The replaced allocation functions: [malloc] answers a size with an address or
    null.  [operator new] throws at null ([None]), its nothrow forms return it (0). *)
Section Operators.
Variable malloc : Z -> Z.

Definition malloc_size (size : Z) : Z := if negb (size =? 0) then size else 1.
Definition CountingAlloc_new (size : Z) (a : AllocState) : option Z * AllocState :=
  let a := CountingAlloc a in
  let p := malloc (malloc_size size) in
  (if negb (p =? 0) then Some p else None, a).
Definition CountingAllocNoThrow (size : Z) (a : AllocState) : Z * AllocState :=
  let a := CountingAlloc a in (malloc (malloc_size size), a).

Definition operator_new : Z -> AllocState -> option Z * AllocState := CountingAlloc_new.
Definition operator_new_array : Z -> AllocState -> option Z * AllocState := CountingAlloc_new.
Definition operator_new_nothrow : Z -> AllocState -> Z * AllocState := CountingAllocNoThrow.
Definition operator_new_array_nothrow : Z -> AllocState -> Z * AllocState := CountingAllocNoThrow.

(** Every form counts once while a probe is open and never otherwise, asks for at
    least one byte, and fails exactly when malloc does. *)
Lemma operators_count (size : Z) (a : AllocState) :
  0 <= size ->
  snd (operator_new size a) = CountingAlloc a /\ snd (operator_new_array size a) = CountingAlloc a /\
  snd (operator_new_nothrow size a) = CountingAlloc a /\ snd (operator_new_array_nothrow size a) = CountingAlloc a /\
  1 <= malloc_size size /\ (fst (operator_new size a) = None <-> fst (operator_new_nothrow size a) = 0) /\
  (g_alloc_counting a = false -> CountingAlloc a = a).
Proof.
  intros Hs. split_and!; try done.
  - unfold malloc_size. destruct (Z.eqb_spec size 0); cbn; lia.
  - unfold operator_new, operator_new_nothrow, CountingAlloc_new, CountingAllocNoThrow. cbn [fst].
    destruct (Z.eqb_spec (malloc (malloc_size size)) 0) as [E|E]; cbn; [by rewrite E|]. split; [done|]. intros E'. by destruct E.
  - unfold CountingAlloc. by intros ->.
Qed.
End Operators.

(** ** Measurement loops *)

Section Measure.
Context {W : Type} (op : W -> W * nat) (setup : W -> W * nat) (clock : nat -> Z).

(** Code that allocates, and a loop of it. *)
Definition counted (f : W -> W * nat) (s : W * AllocState) : W * AllocState :=
  let '(w, k) := f (fst s) in (w, Nat.iter k CountingAlloc (snd s)).
Definition times (n : Z) (f : W -> W * nat) (s : W * AllocState) : W * AllocState :=
  Nat.iter (Z.to_nat n) (counted f) s.

(** [std::chrono::duration<double, std::nano>(t1 - t0).count() / batch]. *)
Definition per_op (t0 t1 batch : Z) : double := ddiv (double_of (t1 - t0)) (double_of batch).

(** One probed sample: two clock readings around [batch] calls. *)
Fixpoint sample_loop (batch : Z) (n s : nat) (st : W * AllocState) : list double * (W * AllocState) :=
  match n with
  | O => ([], st)
  | S n =>
      let t0 := clock (2 * s) in
      let st := times batch op st in
      let t1 := clock (2 * s + 1) in
      let '(l, st) := sample_loop batch n (S s) st in (per_op t0 t1 batch :: l, st)
  end.

(** The statistics, [*allocations], and what is left.  [None]: [batch * 4]
    overflows an [int], or the vector's size is negative. *)
Definition MeasureBatched (batch samples : Z) (st : W * AllocState)
  : option (option Stats * Z * (W * AllocState)) :=
  if 2 ^ 31 <=? batch * 4 then None else
  if samples <? 0 then None else
  let '(w, a) := times (batch * 4) op st in                        (* warmup *)
  let '(per_op_ns, (w, a)) := sample_loop batch (Z.to_nat samples) 0 (w, AllocProbe_ctor a) in
  Some (ComputeStats per_op_ns, allocations a, (w, AllocProbe_dtor a)).

Fixpoint setup_loop (batch : Z) (n s : nat) (total : Z) (st : W * AllocState)
  : list double * Z * (W * AllocState) :=
  match n with
  | O => ([], total, st)
  | S n =>
      let '(w, a) := counted setup st in
      let t0 := clock (2 * s) in
      let '(w, a) := times batch op (w, AllocProbe_ctor a) in
      let t1 := clock (2 * s + 1) in
      let total := u64 (total + allocations a) in
      let '(l, total, st) := setup_loop batch n (S s) total (w, AllocProbe_dtor a) in
      (per_op t0 t1 batch :: l, total, st)
  end.

Definition MeasureBatchedWithSetup (batch samples : Z) (st : W * AllocState)
  : option (option Stats * Z * (W * AllocState)) :=
  if samples <? 0 then None else
  let st := times batch op (counted setup st) in                   (* warmup *)
  let '(per_op_ns, total, st) := setup_loop batch (Z.to_nat samples) 0 0 st in
  Some (ComputeStats per_op_ns, total, st).
End Measure.

Example stats_example :
  ComputeStats (map double_of [30; 10; 20; 40; 50]) =
  Some (mkStats (double_of 30) (double_of 50) (double_of 50) (double_of 50) (double_of 30) 5).
Proof. vm_compute. reflexivity. Qed.

(** ** The order of the samples *)

Lemma not_after_trans a b c : not_nan b = true -> not_after a b -> not_after b c -> not_after a c.
Proof.
  unfold not_after. intros Hb H1 H2. destruct (dlt c a) eqn:E; [exfalso|done].
  destruct a as [sa|sa| |sa ma ea], b as [sb|sb| |sb mb eb], c as [sc|sc| |sc mc ec]; try done;
    destruct sa, sb, sc; try done;
    apply dlt_finite in E; apply not_true_iff_false in H1, H2; rewrite dlt_finite in H1, H2; lia.
Qed.

#[export] Instance not_after_total : Total not_after.
Proof.
  intros a b. unfold not_after. destruct (dlt b a) eqn:E; [right|by left].
  destruct (dlt a b) eqn:E2; [|done]. pose proof (dlt_trans _ _ _ E E2) as H. by rewrite dlt_irrefl in H.
Qed.

(** Sorted samples: no element is less than an earlier one. *)
Lemma sorted_lookup (l : list double) i j a b :
  Forall (fun v => not_nan v = true) l -> Sorted not_after l ->
  l !! i = Some a -> l !! j = Some b -> (i < j)%nat -> not_after a b.
Proof.
  intros Hn Hs. revert i j a b. induction Hs as [|x l Hs IH Hx]; intros i j a b Hi Hj Hij; [done|].
  apply Forall_cons in Hn as [Hnx Hn]. specialize (IH Hn).
  destruct j as [|j]; [lia|]. cbn in Hj. destruct i as [|i]; cbn in Hi; [|eapply IH; eauto; lia].
  injection Hi as ->. destruct l as [|y l]; [done|]. inversion Hx as [|? ? Hy]; subst.
  destruct j as [|j]; [by injection Hj as ->|].
  apply (not_after_trans a y b); [by apply Forall_cons in Hn as [? _]|done|].
  by apply (IH 0%nat (S j) y b); [| |lia].
Qed.

Definition count (P : double -> bool) (l : list double) : Z := Z.of_nat (length (List.filter P l)).

Lemma count_perm P l l' : l ≡ₚ l' -> count P l = count P l'.
Proof.
  unfold count. induction 1 as [|x l l' _ IH|x y l|]; cbn; [done| | |lia].
  - destruct (P x); cbn; lia.
  - destruct (P x), (P y); cbn; lia.
Qed.

Lemma count_app P l l' : count P (l ++ l') = count P l + count P l'.
Proof. unfold count. rewrite List.filter_app, length_app. lia. Qed.

Lemma count_all P l : (forall x, In x l -> P x = true) -> count P l = Z.of_nat (length l).
Proof. unfold count. induction l as [|x l IH]; intros H; cbn; [done|]. rewrite H by (by left). cbn. rewrite Nat2Z.inj_succ, IH; [lia|]. intros; apply H; by right. Qed.

Lemma count_none P l : (forall x, In x l -> P x = false) -> count P l = 0.
Proof. unfold count. induction l as [|x l IH]; intros H; cbn; [done|]. rewrite H by (by left). apply IH. intros; apply H; by right. Qed.

Lemma count_le P l : 0 <= count P l <= Z.of_nat (length l).
Proof. unfold count. pose proof (List.filter_length_le P l). lia. Qed.

(** ** Ranks *)

Definition rank_of (a b n : Z) : Z := - (- (a * n) / b).

Definition rank_right (q : double) (a b : Z) (n : nat) : bool :=
  bool_decide (ceil_size (dmul q (double_of (Z.of_nat n))) = Some (rank_of a b (Z.of_nat n))).

(** The product in binary64 and its ceiling give the exact rank. *)
Lemma ranks_right :
  forallb (fun n => rank_right q50 1 2 n && rank_right q99 99 100 n && rank_right q999 999 1000 n) (seq 1 1024) = true.
Proof. vm_compute. reflexivity. Qed.

Lemma rank_exact n :
  (1 <= n <= 1024)%nat ->
  ceil_size (dmul q50 (double_of (Z.of_nat n))) = Some (rank_of 1 2 (Z.of_nat n)) /\
  ceil_size (dmul q99 (double_of (Z.of_nat n))) = Some (rank_of 99 100 (Z.of_nat n)) /\
  ceil_size (dmul q999 (double_of (Z.of_nat n))) = Some (rank_of 999 1000 (Z.of_nat n)).
Proof.
  intros Hn. pose proof ranks_right as H. rewrite forallb_forall in H.
  specialize (H n). rewrite !andb_true_iff in H. unfold rank_right in H. rewrite !bool_decide_eq_true in H.
  destruct H as [[H1 H2] H3]; [apply in_seq; lia|done].
Qed.

Lemma rank_bounds a b n :
  0 < a <= b -> 0 < n -> let r := rank_of a b n in 1 <= r <= n /\ a * n <= b * r /\ b * (r - 1) < a * n.
Proof.
  intros Ha Hn r. unfold rank_of in r. subst r.
  pose proof (Z.div_mod (- (a * n)) b ltac:(lia)). pose proof (Z.mod_pos_bound (- (a * n)) b ltac:(lia)).
  nia.
Qed.

(** What a nearest-rank percentile is. *)
Definition is_percentile (a b : Z) (l : list double) (p : double) : Prop :=
  In p l /\
  a * Z.of_nat (length l) <= b * count (fun v => negb (dlt p v)) l /\
  b * count (fun v => dlt v p) l < a * Z.of_nat (length l).

Lemma sorted_percentile a b (l : list double) i p :
  Forall (fun v => not_nan v = true) l -> Sorted not_after l -> 0 < a <= b ->
  Z.of_nat i = rank_of a b (Z.of_nat (length l)) - 1 -> l !! i = Some p ->
  is_percentile a b l p.
Proof.
  intros Hn Hs Hab Hi Hp. pose proof (lookup_lt_Some _ _ _ Hp) as Hlt.
  pose proof (rank_bounds a b (Z.of_nat (length l)) Hab ltac:(lia)) as (Hr & H1 & H2).
  split; [by apply (in_lookup l i)|].
  assert (forall x, In x (take (S i) l) -> negb (dlt p x) = true) as Hlow.
  { intros x Hx. apply list_elem_of_In, list_elem_of_lookup in Hx as [j Hj]. apply lookup_take_Some in Hj as [Hj Hji].
    apply negb_true_iff. destruct (decide (j = i)) as [->|]; [rewrite Hp in Hj; injection Hj as ->; apply dlt_irrefl|].
    by apply (sorted_lookup l j i x p); [| | | |lia]. }
  assert (forall x, In x (drop i l) -> dlt x p = false) as Hhigh.
  { intros x Hx. apply list_elem_of_In, list_elem_of_lookup in Hx as [j Hj]. rewrite lookup_drop in Hj.
    destruct (decide (j = 0)%nat) as [->|]; [rewrite Nat.add_0_r, Hp in Hj; injection Hj as ->; apply dlt_irrefl|].
    by apply (sorted_lookup l i (i + j) p x); [| | | |lia]. }
  split.
  - etrans; [exact H1|]. apply Z.mul_le_mono_nonneg_l; [lia|].
    rewrite <- (take_drop (S i) l) at 2. rewrite count_app, (count_all _ _ Hlow), length_take.
    pose proof (count_le (fun v => negb (dlt p v)) (drop (S i) l)). lia.
  - eapply Z.le_lt_trans; [|exact H2]. apply Z.mul_le_mono_nonneg_l; [lia|].
    rewrite <- (take_drop i l) at 1. rewrite count_app, (count_none _ _ Hhigh).
    pose proof (count_le (fun v => dlt v p) (take i l)). rewrite length_take in H. lia.
Qed.

Lemma PercentileSorted_rank (l : list double) q a b :
  0 < a <= b -> l <> [] -> ceil_size (dmul q (double_of (Z.of_nat (length l)))) = Some (rank_of a b (Z.of_nat (length l))) ->
  exists p, PercentileSorted l q = Some p /\ l !! Z.to_nat (rank_of a b (Z.of_nat (length l)) - 1) = Some p.
Proof.
  intros Hab Hl Hq. unfold PercentileSorted. rewrite bool_decide_false by done. rewrite Hq. cbn [mbind option_bind].
  assert (0 < length l)%nat by (destruct l; [done|cbn; lia]).
  pose proof (rank_bounds a b (Z.of_nat (length l)) Hab ltac:(lia)) as (Hr & _). cbn zeta in Hr.
  destruct (Z.eqb_spec (rank_of a b (Z.of_nat (length l))) 0); [lia|].
  rewrite Nat.min_l by lia. destruct (lookup_lt_is_Some_2 l (Z.to_nat (rank_of a b (Z.of_nat (length l)) - 1))) as [p Hp]; [lia|].
  by exists p.
Qed.

Lemma is_percentile_perm a b l l' p : l ≡ₚ l' -> is_percentile a b l p -> is_percentile a b l' p.
Proof.
  intros Hp (H1 & H2 & H3). rewrite (Permutation_length Hp) in H2, H3.
  rewrite (count_perm _ _ _ Hp) in H2. rewrite (count_perm _ _ _ Hp) in H3. split_and!; try done. by eapply Permutation_in.
Qed.

Lemma rank_mono a b a' b' n : 0 < b -> 0 < b' -> 0 <= n -> a * b' <= a' * b -> rank_of a b n <= rank_of a' b' n.
Proof.
  intros Hb Hb' Hn H. unfold rank_of.
  pose proof (Z.div_mod (- (a * n)) b ltac:(lia)) as E1. pose proof (Z.mod_pos_bound (- (a * n)) b Hb).
  pose proof (Z.div_mod (- (a' * n)) b' ltac:(lia)) as E2. pose proof (Z.mod_pos_bound (- (a' * n)) b' Hb').
  set (x := - (a * n) / b) in *. set (y := - (a' * n) / b') in *.
  assert (b * b' * (y - x) < b * b'); nia.
Qed.

Lemma ComputeStats_some (l : list double) :
  (1 <= length l <= 1024)%nat -> exists st, ComputeStats l = Some st /\ samples st = Z.of_nat (length l).
Proof.
  intros Hn. unfold ComputeStats. rewrite bool_decide_false by (intros ->; cbn in Hn; lia).
  set (s := merge_sort not_after l).
  assert (length s = length l) as Hlen by (apply Permutation_length, merge_sort_Permutation).
  assert (s <> []) as Hne by (intros E; rewrite E in Hlen; cbn in Hlen; lia).
  destruct (rank_exact (length s)) as (R1 & R2 & R3); [lia|].
  destruct (PercentileSorted_rank s q50 1 2) as (x1 & -> & _); [lia|done|done|].
  destruct (PercentileSorted_rank s q99 99 100) as (x2 & -> & _); [lia|done|done|].
  destruct (PercentileSorted_rank s q999 999 1000) as (x3 & -> & _); [lia|done|done|].
  destruct (last_index s Hne) as (x4 & _ & -> & _). cbn [mbind option_bind]. eexists. split; done.
Qed.

(** C36: The statistics of 1 to 1024 samples, none of them NaN: the three
    percentiles are the exact nearest-rank ones (the rounded product and its
    ceiling never move the rank): a sample that at least the fraction of the
    samples do not exceed, and fewer than that fraction are below; the maximum is a
    sample none exceeds; and p50, p99, p99.9 and the maximum are in order. *)
Theorem percentiles_are_nearest_rank (l : list double) :
  (1 <= length l <= 1024)%nat -> Forall (fun v => not_nan v = true) l ->
  exists st, ComputeStats l = Some st /\ samples st = Z.of_nat (length l) /\
    is_percentile 1 2 l (p50 st) /\ is_percentile 99 100 l (p99 st) /\ is_percentile 999 1000 l (p999 st) /\
    (In (max st) l /\ forall v, In v l -> dlt (max st) v = false) /\
    dlt (p99 st) (p50 st) = false /\ dlt (p999 st) (p99 st) = false /\ dlt (max st) (p999 st) = false.
Proof.
  intros Hn Hnan. unfold ComputeStats. rewrite bool_decide_false by (intros ->; cbn in Hn; lia).
  set (s := merge_sort not_after l).
  assert (s ≡ₚ l) as Hp by apply merge_sort_Permutation.
  assert (Sorted not_after s) as Hs by apply (Sorted_merge_sort not_after).
  assert (Forall (fun v => not_nan v = true) s) as Hns.
  { apply List.Forall_forall. intros v Hv. apply (Permutation_in _ Hp) in Hv. rewrite List.Forall_forall in Hnan. auto. }
  pose proof (Permutation_length Hp) as Hlen.
  assert (s <> []) as Hne by (intros E; rewrite E in Hlen; cbn in Hlen; lia).
  destruct (rank_exact (length s)) as (R1 & R2 & R3); [lia|].
  destruct (PercentileSorted_rank s q50 1 2) as (x1 & E1 & L1); [lia|done|done|].
  destruct (PercentileSorted_rank s q99 99 100) as (x2 & E2 & L2); [lia|done|done|].
  destruct (PercentileSorted_rank s q999 999 1000) as (x3 & E3 & L3); [lia|done|done|].
  destruct (last_index s Hne) as (x4 & L4 & E4 & Hpred). rewrite E1, E2, E3, E4. cbn [mbind option_bind].
  eexists. split; [done|]. cbn [samples p50 p99 p999 max].
  set (n := Z.of_nat (length s)) in *.
  pose proof (rank_bounds 1 2 n ltac:(lia) ltac:(lia)) as (B1 & _).
  pose proof (rank_bounds 99 100 n ltac:(lia) ltac:(lia)) as (B2 & _).
  pose proof (rank_bounds 999 1000 n ltac:(lia) ltac:(lia)) as (B3 & _).
  pose proof (rank_mono 1 2 99 100 n ltac:(lia) ltac:(lia) ltac:(lia) ltac:(lia)) as M1.
  pose proof (rank_mono 99 100 999 1000 n ltac:(lia) ltac:(lia) ltac:(lia) ltac:(lia)) as M2. cbn zeta in B1, B2, B3.
  assert (forall i j a b, s !! i = Some a -> s !! j = Some b -> (i <= j)%nat -> dlt b a = false) as Hord.
  { intros i j a b Hi Hj Hij. destruct (decide (i = j)) as [->|]; [rewrite Hi in Hj; injection Hj as ->; apply dlt_irrefl|].
    apply (sorted_lookup s i j); [done|done|done|done|lia]. }
  split; [done|]. split_and!.
  - apply (is_percentile_perm _ _ s); [done|]. eapply (sorted_percentile 1 2 s); [done|done|lia| |exact L1]. fold n. lia.
  - apply (is_percentile_perm _ _ s); [done|]. eapply (sorted_percentile 99 100 s); [done|done|lia| |exact L2]. fold n. lia.
  - apply (is_percentile_perm _ _ s); [done|]. eapply (sorted_percentile 999 1000 s); [done|done|lia| |exact L3]. fold n. lia.
  - apply (Permutation_in _ Hp). by apply (in_lookup s _ _ L4).
  - intros v Hv. apply (Permutation_in _ (symmetry Hp)), list_elem_of_In, list_elem_of_lookup in Hv as [j Hj].
    pose proof (lookup_lt_Some _ _ _ Hj). eapply Hord; [exact Hj|exact L4|lia].
  - eapply Hord; [exact L1|exact L2|lia].
  - eapply Hord; [exact L2|exact L3|lia].
  - eapply Hord; [exact L3|exact L4|lia].
Qed.

Lemma percentiles_are_nearest_rank_witness :
  exists st, ComputeStats (map double_of [30; 10; 20; 40; 50]) = Some st /\ is_percentile 1 2 (map double_of [30; 10; 20; 40; 50]) (p50 st) /\
    p50 st = double_of 30.
Proof.
  destruct (percentiles_are_nearest_rank (map double_of [30; 10; 20; 40; 50])) as (st & E & _ & H & _);
    [cbn; lia|repeat constructor|].
  exists st. split; [exact E|]. split; [exact H|]. rewrite stats_example in E. now injection E as <-.
Defined.

(** ** What a measurement counts *)

Section MeasureSpec.
Context {W : Type} (op : W -> W * nat) (setup : W -> W * nat) (clock : nat -> Z).

Definition advance (w : W) : W := fst (op w).

(** The allocations of [n] calls from [w]. *)
Fixpoint allocs (n : nat) (w : W) : Z :=
  match n with
  | O => 0
  | S n => Z.of_nat (snd (op w)) + allocs n (advance w)
  end.

Lemma CountingAlloc_iter k a :
  Nat.iter k CountingAlloc a =
  if g_alloc_counting a then mkAlloc true (match k with O => g_alloc_count a | S _ => u64 (g_alloc_count a + Z.of_nat k) end) else a.
Proof.
  destruct (g_alloc_counting a) eqn:E.
  - induction k as [|k IH]; [by destruct a; cbn in *; subst|]. rewrite Nat.iter_succ, IH. cbn [CountingAlloc g_alloc_counting g_alloc_count].
    f_equal. destruct k as [|k]; [done|]. rewrite wrap_add_l. f_equal. lia.
  - induction k as [|k IH]; [done|]. rewrite Nat.iter_succ, IH. unfold CountingAlloc. by rewrite E.
Qed.

Lemma counted_on (f : W -> W * nat) w c :
  0 <= c < 2 ^ 64 ->
  counted f (w, mkAlloc true c) = (fst (f w), mkAlloc true (u64 (c + Z.of_nat (snd (f w))))).
Proof.
  intros Hc. unfold counted. cbn [fst snd]. destruct (f w) as [w' k]. cbn [fst snd]. f_equal.
  rewrite CountingAlloc_iter. cbn [g_alloc_counting g_alloc_count]. destruct k; [|done].
  f_equal. rewrite Z.add_0_r. symmetry. by apply wrap_id.
Qed.

Lemma counted_off (f : W -> W * nat) w c : counted f (w, mkAlloc false c) = (fst (f w), mkAlloc false c).
Proof. unfold counted. cbn [fst snd]. destruct (f w) as [w' k]. cbn [fst snd]. by rewrite CountingAlloc_iter. Qed.

Lemma u64_bounds z : 0 <= u64 z < 2 ^ 64.
Proof. by apply wrap_range. Qed.

(** A probed loop. *)
Lemma iter_on n w c :
  0 <= c < 2 ^ 64 ->
  Nat.iter n (counted op) (w, mkAlloc true c) = (Nat.iter n advance w, mkAlloc true (u64 (c + allocs n w))).
Proof.
  revert w c. induction n as [|n IH]; intros w c Hc.
  - cbn [allocs Nat.iter nat_rect]. rewrite Z.add_0_r. do 2 f_equal. symmetry. by apply wrap_id.
  - rewrite !Nat.iter_succ_r, counted_on by done. rewrite IH by apply u64_bounds. cbn [allocs].
    rewrite wrap_add_l. fold (advance w). do 3 f_equal. lia.
Qed.

Lemma iter_off n w c :
  Nat.iter n (counted op) (w, mkAlloc false c) = (Nat.iter n advance w, mkAlloc false c).
Proof.
  revert w. induction n as [|n IH]; intros w; [done|]. by rewrite !Nat.iter_succ_r, counted_off, IH.
Qed.

Lemma allocs_add n k w : allocs (n + k) w = allocs n w + allocs k (Nat.iter n advance w).
Proof. revert w. induction n as [|n IH]; intros w; [done|]. rewrite Nat.iter_succ_r. cbn [Nat.add allocs]. rewrite IH. lia. Qed.

Lemma iter_add_world n k (w : W) : Nat.iter k advance (Nat.iter n advance w) = Nat.iter (n + k) advance w.
Proof. by rewrite Nat.add_comm, Nat.iter_add. Qed.

Lemma sample_loop_spec batch n s w c :
  0 <= c < 2 ^ 64 ->
  let k := (n * Z.to_nat batch)%nat in
  sample_loop op clock batch n s (w, mkAlloc true c) =
  (map (fun i => per_op (clock (2 * i)%nat) (clock (2 * i + 1)%nat) batch) (seq s n),
   (Nat.iter k advance w, mkAlloc true (u64 (c + allocs k w)))).
Proof.
  revert s w c. induction n as [|n IH]; intros s w c Hc.
  - cbn. do 3 f_equal. rewrite Z.add_0_r. symmetry. by apply wrap_id.
  - cbn zeta. cbn [sample_loop seq map]. unfold times. rewrite iter_on by done. rewrite IH by apply u64_bounds.
    rewrite iter_add_world. cbn [Nat.mul]. now rewrite allocs_add, wrap_add_l, Z.add_assoc.
Qed.

(** With a setup before every sample. *)
Fixpoint setup_world (batch n : nat) (w : W) : W :=
  match n with
  | O => w
  | S n => setup_world batch n (Nat.iter batch advance (fst (setup w)))
  end.

Fixpoint setup_allocs (batch n : nat) (w : W) : Z :=
  match n with
  | O => 0
  | S n => let w := fst (setup w) in allocs batch w + setup_allocs batch n (Nat.iter batch advance w)
  end.

Lemma setup_loop_spec batch n s total w c :
  0 <= total < 2 ^ 64 ->
  exists c',
  setup_loop op setup clock batch n s total (w, mkAlloc false c) =
  (map (fun i => per_op (clock (2 * i)%nat) (clock (2 * i + 1)%nat) batch) (seq s n),
   u64 (total + setup_allocs (Z.to_nat batch) n w),
   (setup_world (Z.to_nat batch) n w, mkAlloc false c')).
Proof.
  revert s total w c. induction n as [|n IH]; intros s total w c Ht.
  - exists c. cbn. rewrite Z.add_0_r. do 2 f_equal. f_equal. symmetry. by apply wrap_id.
  - cbn [setup_loop]. rewrite counted_off. unfold AllocProbe_ctor, times. rewrite iter_on by lia.
    unfold AllocProbe_dtor, allocations. cbn [g_alloc_count].
    destruct (IH (S s) (u64 (total + u64 (0 + allocs (Z.to_nat batch) (fst (setup w)))))
                (Nat.iter (Z.to_nat batch) advance (fst (setup w)))
                (u64 (0 + allocs (Z.to_nat batch) (fst (setup w))))) as [c' E]; [apply u64_bounds|].
    exists c'. rewrite E. cbn [seq map setup_allocs setup_world]. rewrite wrap_add_l, Z.add_0_l.
    replace (total + u64 (allocs (Z.to_nat batch) (fst (setup w))) + setup_allocs (Z.to_nat batch) n (Nat.iter (Z.to_nat batch) advance (fst (setup w))))
      with (u64 (allocs (Z.to_nat batch) (fst (setup w))) + (total + setup_allocs (Z.to_nat batch) n (Nat.iter (Z.to_nat batch) advance (fst (setup w))))) by lia.
    rewrite wrap_add_l. do 3 f_equal. lia.
Qed.

(** What a measurement counts, for any operation, any allocations and any
    clock: the operation runs [4 * batch] times unprobed and then [samples * batch]
    times; the samples are the [samples] differences of consecutive clock readings
    over the batch; and the allocation count is that of exactly the probed calls,
    modulo 2^64 (with a setup: of the calls alone, never of the setup's). *)
Theorem measurement_counts_the_batches (batch nsamples : Z) (w : W) (c : Z) :
  0 <= batch < 2 ^ 29 -> 0 <= nsamples ->
  let b := Z.to_nat batch in
  let n := Z.to_nat nsamples in
  let times_ := map (fun i => per_op (clock (2 * i)%nat) (clock (2 * i + 1)%nat) batch) (seq 0 n) in
  let warm := Nat.iter (4 * b) advance w in
  MeasureBatched op clock batch nsamples (w, mkAlloc false c) =
    Some (ComputeStats times_, u64 (allocs (n * b) warm),
          (Nat.iter (n * b) advance warm, mkAlloc false (u64 (allocs (n * b) warm)))) /\
  (let warm := Nat.iter b advance (fst (setup w)) in
   exists c', MeasureBatchedWithSetup op setup clock batch nsamples (w, mkAlloc false c) =
     Some (ComputeStats times_, u64 (setup_allocs b n warm), (setup_world b n warm, mkAlloc false c'))).
Proof.
  intros Hb Hn b n times_ warm. split.
  - unfold MeasureBatched. destruct (Z.leb_spec (2 ^ 31) (batch * 4)); [lia|].
    destruct (Z.ltb_spec nsamples 0); [lia|]. unfold times. rewrite iter_off.
    replace (Z.to_nat (batch * 4)) with (4 * b)%nat by lia. unfold AllocProbe_ctor.
    rewrite sample_loop_spec by lia. done.
  - cbn zeta. unfold MeasureBatchedWithSetup. destruct (Z.ltb_spec nsamples 0); [lia|].
    unfold times. rewrite counted_off, iter_off.
    subst times_ b n. set (warm' := Nat.iter (Z.to_nat batch) advance (fst (setup w))).
    destruct (setup_loop_spec batch (Z.to_nat nsamples) 0 0 warm' c) as [c' E]; [lia|].
    exists c'. rewrite E. done.
Qed.
End MeasureSpec.

Lemma measurement_counts_the_batches_witness :
  MeasureBatched (fun w : nat => (S w, w)) (fun i => 7 * Z.of_nat i) 2 3 (0%nat, mkAlloc false 5) =
  Some (ComputeStats (map (fun _ => ddiv (double_of 7) (double_of 2)) (seq 0 3)), 8 + 9 + 10 + 11 + 12 + 13,
        (14%nat, mkAlloc false 63)).
Proof.
  destruct (measurement_counts_the_batches (fun w : nat => (S w, w)) (fun w => (w, 0%nat)) (fun i => 7 * Z.of_nat i) 2 3 0%nat 5)
    as [E _]; [lia|lia|]. rewrite E. vm_compute. reflexivity.
Defined.
