(* ===== verification/Report.v ===== *)
(** * The JSON report (testing/bench_harness.hpp)

    [JsonEscapeTo] and [WriteJsonReport] byte for byte, against the grammar of
    JSON: the report is a JSON document and means what the rows say.  In the
    literals below an apostrophe stands for the double quote. *)

From Stdlib Require Import ZArith Lia String Floats.SpecFloat.
From stdpp Require Import base list numbers.
From S2P Require Import Prelude Printf Metrics Stats.

Local Open Scope Z_scope.

Definition quote : Z := 34.
Definition text (s : string) : bytes := map (fun c => if c =? 39 then quote else c) (bytes_of_string s).

(** ** JSON *)

(** A number [JNum n k] is [n / 10^k]. *)
Inductive json :=
| JStr (s : bytes)
| JNum (n : Z) (k : nat)
| JBool (b : bool)
| JArr (l : list json)
| JObj (l : list (bytes * json)).

Definition is_ws (c : Z) : Prop := c = 32 \/ c = 9 \/ c = 10 \/ c = 13.
Definition ws (t : bytes) : Prop := Forall is_ws t.

(** A string's characters and what they stand for. *)
Inductive chars : bytes -> bytes -> Prop :=
| chars_nil : chars [] []
| chars_plain c t v : 32 <= c -> c <> quote -> c <> 92 -> chars t v -> chars (c :: t) (c :: v)
| chars_quote t v : chars t v -> chars (92 :: quote :: t) (quote :: v)
| chars_backslash t v : chars t v -> chars (92 :: 92 :: t) (92 :: v)
| chars_newline t v : chars t v -> chars (92 :: 110 :: t) (10 :: v)
| chars_tab t v : chars t v -> chars (92 :: 116 :: t) (9 :: v).

(** [-? int frac?]. *)
Definition number (t : bytes) (n : Z) (k : nat) : Prop :=
  exists (neg : bool) ds z fs,
    t = (if neg then [c_minus] else []) ++ ds ++ (match fs with [] => [] | _ => c_dot :: fs end) /\
    decimal_text ds z /\ Forall is_digit fs /\ length fs = k /\
    n = (if neg then -1 else 1) * (z * 10 ^ Z.of_nat k + dec_value fs).

Inductive value : bytes -> json -> Prop :=
| value_str t s : chars t s -> value (quote :: t ++ [quote]) (JStr s)
| value_num t n k : number t n k -> value t (JNum n k)
| value_true : value (text "true") (JBool true)
| value_false : value (text "false") (JBool false)
| value_empty_arr w : ws w -> value (91 :: w ++ [93]) (JArr [])
| value_arr t l : elements t l -> value (91 :: t ++ [93]) (JArr l)
| value_empty_obj w : ws w -> value (123 :: w ++ [125]) (JObj [])
| value_obj t l : members t l -> value (123 :: t ++ [125]) (JObj l)
with elements : bytes -> list json -> Prop :=
| elements_one w1 t v w2 : ws w1 -> value t v -> ws w2 -> elements (w1 ++ t ++ w2) [v]
| elements_more w1 t v w2 t' l :
    ws w1 -> value t v -> ws w2 -> elements t' l -> elements (w1 ++ t ++ w2 ++ 44 :: t') (v :: l)
with members : bytes -> list (bytes * json) -> Prop :=
| members_one w1 kt k w2 t v w3 :
    ws w1 -> chars kt k -> ws w2 -> value t v -> ws w3 ->
    members (w1 ++ quote :: kt ++ quote :: 58 :: w2 ++ t ++ w3) [(k, v)]
| members_more w1 kt k w2 t v w3 t' l :
    ws w1 -> chars kt k -> ws w2 -> value t v -> ws w3 -> members t' l ->
    members (w1 ++ quote :: kt ++ quote :: 58 :: w2 ++ t ++ w3 ++ 44 :: t') ((k, v) :: l).

Definition document (t : bytes) (v : json) : Prop := exists w1 t' w2, t = w1 ++ t' ++ w2 /\ ws w1 /\ value t' v /\ ws w2.

(** ** The writer *)

Definition escape_char (c : Z) : bytes :=
  if c =? quote then [92; quote] else
  if c =? 92 then [92; 92] else
  if c =? 10 then [92; 110] else
  if c =? 9 then [92; 116] else
  if 32 <=? c then [c] else [].

Definition JsonEscapeTo (out value : bytes) : bytes := fold_left (fun out c => out ++ escape_char c) value out.

(** The arguments of [%.1f]. *)
Definition printf_arg (v : double) : Printf.double :=
  match v with
  | S754_finite s m e => Finite s (Z.pos m) e
  | S754_zero s => Finite s 0 (-1074)
  | S754_infinity s => Infinite s
  | S754_nan => NotANumber false
  end.

(** [char num[64]]. *)
Definition num_text (t : bytes) : bytes := take 63 t.

Definition comma (trailing_comma : bool) : bytes := if trailing_comma then text ", " else [].

Definition field_str (out key value : bytes) (trailing_comma : bool) : bytes :=
  JsonEscapeTo (out ++ text "'" ++ key ++ text "': '") value ++ text "'" ++ comma trailing_comma.

Definition field_num (out key : bytes) (value : double) (trailing_comma : bool) : bytes :=
  let num := num_text (print_decoded Fixed false false None (Some 1%nat) (printf_arg value)) in
  out ++ text "'" ++ key ++ text "': " ++ num ++ comma trailing_comma.

(** [value] is a [long long]. *)
Definition field_int (out key : bytes) (value : Z) (trailing_comma : bool) : bytes :=
  let num := num_text (print_int Clld false None value) in
  out ++ text "'" ++ key ++ text "': " ++ num ++ comma trailing_comma.

Definition field_bool (out key : bytes) (value trailing_comma : bool) : bytes :=
  out ++ text "'" ++ key ++ text "': " ++ text (if value then "true" else "false") ++ comma trailing_comma.

Record BenchResult := mkBenchResult {
  name : bytes; layer : bytes; payload_bytes : Z; contended : bool; batch : Z; stats : Stats;
  allocations_ : Z; alloc_gated : bool; has_jitter : bool; jitter_p99_ns : double; jitter_max_ns : double;
  group : bytes; mode : bytes; rate_hz : double; achieved_fps : double; notes : bytes
}.

Record HardwareContext := mkHardware {
  cpu_model : bytes; governor : bytes; kernel : bytes; preempt_rt : bool; nproc : Z;
  load_avg_1m : double; load_avg_5m : double; load_avg_15m : double; display : bytes; gl_renderer : bytes
}.

Definition empty {A} (s : list A) : bool := match s with [] => true | _ => false end.
Definition zero : double := S754_zero false.

(** One iteration of the loop over the rows, up to the closing brace. *)
Definition row_text (out : bytes) (r : BenchResult) : bytes :=
  let out := out ++ text "    { " in
  let out := field_str out (text "name") (name r) true in
  let out := field_str out (text "layer") (layer r) true in
  let out := if negb (empty (group r)) then field_str out (text "group") (group r) true else out in
  let out := if negb (empty (mode r)) then field_str out (text "mode") (mode r) true else out in
  let out := field_int out (text "payload_bytes") (sint 64 (payload_bytes r)) true in
  let out := field_bool out (text "contended") (contended r) true in
  let out := field_str out (text "unit") (text "ns") true in
  let out := if dlt zero (rate_hz r) then field_num out (text "rate_hz") (rate_hz r) true else out in
  let out := field_int out (text "batch") (batch r) true in
  let out := field_int out (text "samples") (sint 64 (samples (stats r))) true in
  let out := field_num out (text "p50") (p50 (stats r)) true in
  let out := field_num out (text "p99") (p99 (stats r)) true in
  let out := field_num out (text "p999") (p999 (stats r)) true in
  let out := field_num out (text "max") (max (stats r)) true in
  let out := field_num out (text "mean") (mean (stats r)) true in
  let out := field_int out (text "allocations") (sint 64 (allocations_ r)) true in
  let fps := dle zero (achieved_fps r) in
  let more := has_jitter r || fps || negb (empty (notes r)) in
  let out := field_bool out (text "alloc_gated") (alloc_gated r) more in
  let out := if has_jitter r then
               let out := field_num out (text "jitter_p99") (jitter_p99_ns r) true in
               field_num out (text "jitter_max") (jitter_max_ns r) (fps || negb (empty (notes r)))
             else out in
  let out := if fps then field_num out (text "achieved_fps") (achieved_fps r) (negb (empty (notes r))) else out in
  if negb (empty (notes r)) then field_str out (text "notes") (notes r) false else out.

Definition newline (s : string) : bytes := text s ++ [10].

Fixpoint rows_text (out : bytes) (results : list BenchResult) : bytes :=
  match results with
  | [] => out
  | r :: results =>
      rows_text (row_text out r ++ newline (if empty results then " }" else " },")) results
  end.

(** [first] is [i == 0]. *)
Fixpoint failures_text (out : bytes) (first : bool) (gate_failures : list bytes) : bytes :=
  match gate_failures with
  | [] => out
  | f :: fs => failures_text (JsonEscapeTo (out ++ text (if first then "'" else ", '")) f ++ text "'") false fs
  end.

Definition hardware_text (out : bytes) (hw : HardwareContext) : bytes :=
  let out := field_str out (text "cpu_model") (cpu_model hw) true in
  let out := field_int out (text "nproc") (nproc hw) true in
  let out := field_str out (text "governor") (governor hw) true in
  let out := field_str out (text "kernel") (kernel hw) true in
  let out := field_bool out (text "preempt_rt") (preempt_rt hw) true in
  let out := if negb (empty (display hw)) then field_str out (text "display") (display hw) true else out in
  let out := if negb (empty (gl_renderer hw)) then field_str out (text "gl_renderer") (gl_renderer hw) true else out in
  let out := field_num out (text "load_avg_1m") (load_avg_1m hw) true in
  let out := field_num out (text "load_avg_5m") (load_avg_5m hw) true in
  field_num out (text "load_avg_15m") (load_avg_15m hw) false.

(** The text of the report; [now] is the formatted time. *)
Definition report_text (schema now : bytes) (hw : HardwareContext) (results : list BenchResult)
    (smoke : bool) (scale : double) (gate_failures : list bytes) : bytes :=
  let out := newline "{" ++ text "  " in
  let out := field_str out (text "schema") schema true in
  let out := field_str out (text "generated_at_utc") now true in
  let out := field_bool out (text "smoke") smoke true in
  let out := field_num out (text "scale") scale false in
  let out := out ++ newline "," ++ text "  'hardware': { " in
  let out := hardware_text out hw in
  let out := out ++ newline " }," ++ text "  'alloc_gate': { " in
  let out := field_bool out (text "passed") (empty gate_failures) true in
  let out := out ++ text "'failures': [" in
  let out := failures_text out true gate_failures in
  let out := out ++ newline "] }," ++ newline "  'benchmarks': [" in
  let out := rows_text out results in
  out ++ newline "  ]" ++ newline "}".

(** [WriteJsonReport] given what [fopen], [fwrite] and [fclose] answer. *)
Definition WriteJsonReport (opened : bool) (written : nat) (closed : bool) (out : bytes) : bool :=
  if negb opened then false else
  let ok := bool_decide (written = length out) in
  closed && ok.

(** ** What the report means *)

(** The characters the writer keeps. *)
Definition kept (s : bytes) : bytes := List.filter (fun c => (c =? 10) || (c =? 9) || (32 <=? c)) s.

(** Numbers of the report: one decimal, rounded to nearest, ties to even. *)
Definition tenths (v : double) : Z :=
  match printf_arg v with
  | Finite neg m e =>
      let '(num, den) := fraction m e in (if neg then -1 else 1) * round_half_even (num * 10 ^ Z.of_nat 1) den
  | _ => 0
  end.

Definition json_str (s : bytes) : json := JStr (kept s).
Definition json_num (v : double) : json := JNum (tenths v) 1.
Definition json_int (z : Z) : json := JNum z 0.

Definition opt {A} (b : bool) (l : list A) : list A := if b then l else [].

Definition row_members (r : BenchResult) : list (bytes * json) :=
  [(text "name", json_str (name r)); (text "layer", json_str (layer r))] ++
  opt (negb (empty (group r))) [(text "group", json_str (group r))] ++
  opt (negb (empty (mode r))) [(text "mode", json_str (mode r))] ++
  [(text "payload_bytes", json_int (sint 64 (payload_bytes r))); (text "contended", JBool (contended r));
   (text "unit", JStr (text "ns"))] ++
  opt (dlt zero (rate_hz r)) [(text "rate_hz", json_num (rate_hz r))] ++
  [(text "batch", json_int (batch r)); (text "samples", json_int (sint 64 (samples (stats r))));
   (text "p50", json_num (p50 (stats r))); (text "p99", json_num (p99 (stats r)));
   (text "p999", json_num (p999 (stats r))); (text "max", json_num (max (stats r)));
   (text "mean", json_num (mean (stats r))); (text "allocations", json_int (sint 64 (allocations_ r)));
   (text "alloc_gated", JBool (alloc_gated r))] ++
  opt (has_jitter r) [(text "jitter_p99", json_num (jitter_p99_ns r)); (text "jitter_max", json_num (jitter_max_ns r))] ++
  opt (dle zero (achieved_fps r)) [(text "achieved_fps", json_num (achieved_fps r))] ++
  opt (negb (empty (notes r))) [(text "notes", json_str (notes r))].

Definition hardware_members (hw : HardwareContext) : list (bytes * json) :=
  [(text "cpu_model", json_str (cpu_model hw)); (text "nproc", json_int (nproc hw));
   (text "governor", json_str (governor hw)); (text "kernel", json_str (kernel hw));
   (text "preempt_rt", JBool (preempt_rt hw))] ++
  opt (negb (empty (display hw))) [(text "display", json_str (display hw))] ++
  opt (negb (empty (gl_renderer hw))) [(text "gl_renderer", json_str (gl_renderer hw))] ++
  [(text "load_avg_1m", json_num (load_avg_1m hw)); (text "load_avg_5m", json_num (load_avg_5m hw));
   (text "load_avg_15m", json_num (load_avg_15m hw))].

Definition report_json (schema now : bytes) (hw : HardwareContext) (results : list BenchResult)
    (smoke : bool) (scale : double) (gate_failures : list bytes) : json :=
  JObj [(text "schema", json_str schema); (text "generated_at_utc", json_str now);
        (text "smoke", JBool smoke); (text "scale", json_num scale);
        (text "hardware", JObj (hardware_members hw));
        (text "alloc_gate", JObj [(text "passed", JBool (empty gate_failures));
                                  (text "failures", JArr (map json_str gate_failures))]);
        (text "benchmarks", JArr (map (fun r => JObj (row_members r)) results))].

(** What the 64-byte buffer holds: finite, and at most 63 characters. *)
Definition printable (v : double) : bool :=
  match printf_arg v with
  | Finite _ _ _ => (length (print_decoded Fixed false false None (Some 1%nat) (printf_arg v)) <=? 63)%nat
  | _ => false
  end.

Definition ok_int (z : Z) : Prop := - 2 ^ 63 <= z < 2 ^ 63.

(** The numbers a row prints. *)
Definition row_ok (r : BenchResult) : Prop :=
  printable (p50 (stats r)) = true /\ printable (p99 (stats r)) = true /\ printable (p999 (stats r)) = true /\
  printable (max (stats r)) = true /\ printable (mean (stats r)) = true /\ ok_int (batch r) /\
  (dlt zero (rate_hz r) = true -> printable (rate_hz r) = true) /\
  (has_jitter r = true -> printable (jitter_p99_ns r) = true /\ printable (jitter_max_ns r) = true) /\
  (dle zero (achieved_fps r) = true -> printable (achieved_fps r) = true).

Definition hardware_ok (hw : HardwareContext) : Prop :=
  ok_int (nproc hw) /\ printable (load_avg_1m hw) = true /\ printable (load_avg_5m hw) = true /\
  printable (load_avg_15m hw) = true.

(** ** Strings and numbers *)

Lemma JsonEscapeTo_app out s : JsonEscapeTo out s = out ++ flat_map escape_char s.
Proof.
  revert out. induction s as [|c s IH]; intros out; cbn [JsonEscapeTo fold_left flat_map]; [by rewrite app_nil_r|].
  unfold JsonEscapeTo in IH. rewrite IH. by rewrite app_assoc.
Qed.

Lemma escape_chars s : chars (flat_map escape_char s) (kept s).
Proof.
  induction s as [|c s IH]; [constructor|]. cbn [flat_map kept List.filter]. fold (kept s). unfold escape_char.
  destruct (Z.eqb_spec c quote) as [->|H1]; [cbn; by constructor|].
  destruct (Z.eqb_spec c 92) as [->|H2]; [cbn; by constructor|].
  destruct (Z.eqb_spec c 10) as [->|H3]; [cbn; by constructor|].
  destruct (Z.eqb_spec c 9) as [->|H4]; [cbn; by constructor|].
  destruct (Z.leb_spec 32 c); cbn; [by constructor|done].
Qed.

Definition plain (c : Z) : bool := (32 <=? c) && negb (c =? quote) && negb (c =? 92).

Lemma plain_chars k : forallb plain k = true -> chars k k.
Proof.
  induction k as [|c k IH]; cbn; [constructor|]. unfold plain at 1.
  intros [[[? ?]%andb_true_iff ?]%andb_true_iff ?]%andb_true_iff.
  constructor; [lia| | |by apply IH].
  - intros ->. done.
  - intros ->. done.
Qed.

Lemma number_int z : ok_int z -> number (num_text (print_int Clld false None z)) z 0.
Proof.
  intros Hz. unfold ok_int in Hz. unfold num_text. rewrite take_ge.
  2: { pose proof (print_int_length Clld false None z ltac:(lia) ltac:(done)). cbn in *. lia. }
  unfold print_int, pad. cbn [repeat Nat.sub from_option app].
  exists (z <? 0), (digits 10 false (Z.abs z)), (Z.abs z), []. rewrite app_nil_r.
  split_and!; [done|by apply digits_decimal, Z.abs_nonneg|done|done|]. cbn. destruct (Z.ltb_spec z 0); lia.
Qed.

Lemma number_tenths v : printable v = true ->
  number (num_text (print_decoded Fixed false false None (Some 1%nat) (printf_arg v))) (tenths v) 1.
Proof.
  unfold printable, tenths, num_text. destruct (printf_arg v) as [neg m e| |] eqn:E; [|done|done].
  assert (0 <= m) as Hm by (destruct v; cbn in E; try done; injection E as <- <- <-; lia).
  intros Hl. apply Nat.leb_le in Hl. rewrite take_ge by lia. clear Hl.
  cbn [print_decoded double_body from_option]. unfold print_fixed. destruct (fraction m e) as [num den] eqn:Ef.
  assert (0 <= num /\ 0 < den) as [Hn Hd].
  { unfold fraction in Ef. injection Ef as <- <-. split; [apply Z.mul_nonneg_nonneg; [done|]|]; [apply Z.pow_nonneg|apply Z.pow_pos_nonneg]; lia. }
  set (N := round_half_even _ _). assert (0 <= N) as HN by (apply round_half_even_nonneg; [done|]; cbn; lia).
  clearbody N. unfold with_decimals, join_decimals, pad. cbn [fst snd Nat.eqb from_option Nat.sub repeat app id]. cbn [Nat.eqb Nat.sub repeat app].
  change (10 ^ Z.of_nat 1) with 10. pose proof (Z.mod_pos_bound N 10 ltac:(lia)) as Hmod.
  assert (digits_padded 1 (N mod 10) = [c_zero + N mod 10]) as ->.
  { unfold digits_padded, digits. cbn [digits_acc]. destruct (Z.ltb_spec (N mod 10) 10); [|lia].
    rewrite Z.mod_small, digit_char_10 by done. done. }
  exists neg, (digits 10 false (N / 10)), (N / 10), [c_zero + N mod 10].
  split_and!; [done|apply digits_decimal; apply Z.div_pos; lia| |done|].
  - constructor; [|done]. unfold is_digit, c_zero. lia.
  - unfold dec_value. cbn [fold_left]. change (10 ^ Z.of_nat 1) with 10. f_equal. pose proof (Z.div_mod N 10). lia.
Qed.

(** ** Members *)

(** A member as the writer lays it out. *)
Definition member (k vt : bytes) : bytes := text "'" ++ k ++ text "': " ++ vt.

Definition str_text (s : bytes) : bytes := quote :: flat_map escape_char s ++ [quote].
Definition dec_text (v : double) : bytes :=
  num_text (print_decoded Fixed false false None (Some 1%nat) (printf_arg v)).
Definition int_text (z : Z) : bytes := num_text (print_int Clld false None z).
Definition bool_text (b : bool) : bytes := text (if b then "true" else "false").

Lemma field_str_app out k v c : field_str out k v c = out ++ member k (str_text v) ++ comma c.
Proof.
  unfold field_str, member, str_text. rewrite JsonEscapeTo_app. rewrite <- !app_assoc. cbn [text].
  change (text "': '") with (text "': " ++ [quote]). change (text "'") with [quote].
  rewrite <- !app_assoc. cbn [app]. by rewrite <- !app_assoc.
Qed.
Lemma field_num_app out k v c : field_num out k v c = out ++ member k (dec_text v) ++ comma c.
Proof. unfold field_num, member, dec_text. by rewrite <- !app_assoc. Qed.
Lemma field_int_app out k v c : field_int out k v c = out ++ member k (int_text v) ++ comma c.
Proof. unfold field_int, member, int_text. by rewrite <- !app_assoc. Qed.
Lemma field_bool_app out k v c : field_bool out k v c = out ++ member k (bool_text v) ++ comma c.
Proof. unfold field_bool, member, bool_text. by rewrite <- !app_assoc. Qed.

Lemma if_app (b : bool) (out t : bytes) : (if b then out ++ t else out) = out ++ opt b t.
Proof. destruct b; [done|]. by rewrite app_nil_r. Qed.

Lemma if_app2 (b : bool) (out x y : bytes) : (if b then (out ++ x) ++ y else out) = out ++ opt b (x ++ y).
Proof. by rewrite <- app_assoc, if_app. Qed.

Lemma value_str_text s : value (str_text s) (json_str s).
Proof. apply value_str, escape_chars. Qed.
Lemma value_dec_text v : printable v = true -> value (dec_text v) (json_num v).
Proof. intros H. by apply value_num, number_tenths. Qed.
Lemma value_int_text z : ok_int z -> value (int_text z) (json_int z).
Proof. intros H. by apply value_num, number_int. Qed.
Lemma value_bool_text b : value (bool_text b) (JBool b).
Proof. destruct b; constructor. Qed.
Lemma ok_sint z : ok_int (sint 64 z).
Proof. apply (sint_range 64). lia. Qed.
#[local] Hint Resolve value_str_text value_dec_text value_int_text value_bool_text ok_sint : json.

Lemma members_space w t l : ws w -> members t l -> members (w ++ t) l.
Proof.
  intros Hw Hm. inversion Hm; subst; rewrite app_assoc; constructor; try done; by apply Forall_app.
Qed.

Lemma elements_space w t l : ws w -> elements t l -> elements (w ++ t) l.
Proof.
  intros Hw Hm. inversion Hm; subst; rewrite app_assoc; constructor; try done; by apply Forall_app.
Qed.

Lemma ws_space : ws [32].
Proof. repeat constructor. Qed.
Lemma ws_nil : ws [].
Proof. constructor. Qed.

(** A member before others, and the last one. *)
Lemma members_step k vt v t l :
  forallb plain k = true -> value vt v -> members t l -> members (member k vt ++ comma true ++ t) ((k, v) :: l).
Proof.
  intros Hk Hv Hm. pose proof (members_more [] k k [32] vt v [] (32 :: t) l ws_nil (plain_chars k Hk) ws_space Hv ws_nil) as H.
  unfold member. cbn [app] in H. change (text "'") with [quote]. change (text "': ") with [quote; 58; 32].
  change (comma true) with [44; 32]. rewrite <- !app_assoc. cbn [app]. apply H. exact (members_space [32] t l ws_space Hm).
Qed.

Lemma members_last k vt v w :
  forallb plain k = true -> value vt v -> ws w -> members (member k vt ++ comma false ++ w) [(k, v)].
Proof.
  intros Hk Hv Hw. pose proof (members_one [] k k [32] vt v w ws_nil (plain_chars k Hk) ws_space Hv Hw) as H.
  unfold member. cbn [app] in H. change (text "'") with [quote]. change (text "': ") with [quote; 58; 32].
  rewrite <- !app_assoc. apply H.
Qed.

Lemma members_opt b k vt v t l :
  forallb plain k = true -> (b = true -> value vt v) -> members t l ->
  members (opt b (member k vt ++ comma true) ++ t) (opt b [(k, v)] ++ l).
Proof.
  intros Hk Hv Hm. destruct b; [|done]. cbn [opt]. rewrite <- app_assoc. cbn [app]. apply members_step; auto.
Qed.

Ltac fields :=
  cbn [app];
  first [ apply members_step; [reflexivity|auto with json|]
        | apply members_opt; [reflexivity|intros ?; auto with json|]
        | apply members_last; [reflexivity|auto with json|exact ws_space] ].

(** ** Rows and the hardware context *)

(** The members after "allocations": commas depend on what follows. *)
Definition row_tail (r : BenchResult) : bytes :=
  let fps := dle zero (achieved_fps r) in
  let has_notes := negb (empty (notes r)) in
  (member (text "alloc_gated") (bool_text (alloc_gated r)) ++ comma (has_jitter r || fps || has_notes)) ++
  opt (has_jitter r) ((member (text "jitter_p99") (dec_text (jitter_p99_ns r)) ++ comma true) ++
                      (member (text "jitter_max") (dec_text (jitter_max_ns r)) ++ comma (fps || has_notes))) ++
  opt fps (member (text "achieved_fps") (dec_text (achieved_fps r)) ++ comma has_notes) ++
  opt has_notes (member (text "notes") (str_text (notes r)) ++ comma false).

Definition row_tail_members (r : BenchResult) : list (bytes * json) :=
  [(text "alloc_gated", JBool (alloc_gated r))] ++
  opt (has_jitter r) [(text "jitter_p99", json_num (jitter_p99_ns r)); (text "jitter_max", json_num (jitter_max_ns r))] ++
  opt (dle zero (achieved_fps r)) [(text "achieved_fps", json_num (achieved_fps r))] ++
  opt (negb (empty (notes r))) [(text "notes", json_str (notes r))].

Lemma members_row_tail r : row_ok r -> members (row_tail r ++ [32]) (row_tail_members r).
Proof.
  intros (_ & _ & _ & _ & _ & _ & _ & Hj & Hf). unfold row_tail, row_tail_members.
  destruct (has_jitter r); [destruct (Hj eq_refl)|]; (destruct (dle zero (achieved_fps r)); [specialize (Hf eq_refl)|]);
    destruct (negb (empty (notes r))); cbn [orb opt app]; rewrite ?app_nil_r, <- ?app_assoc; repeat fields.
Qed.

Definition row_body (r : BenchResult) : bytes :=
  member (text "name") (str_text (name r)) ++ comma true ++
  member (text "layer") (str_text (layer r)) ++ comma true ++
  opt (negb (empty (group r))) (member (text "group") (str_text (group r)) ++ comma true) ++
  opt (negb (empty (mode r))) (member (text "mode") (str_text (mode r)) ++ comma true) ++
  member (text "payload_bytes") (int_text (sint 64 (payload_bytes r))) ++ comma true ++
  member (text "contended") (bool_text (contended r)) ++ comma true ++
  member (text "unit") (str_text (text "ns")) ++ comma true ++
  opt (dlt zero (rate_hz r)) (member (text "rate_hz") (dec_text (rate_hz r)) ++ comma true) ++
  member (text "batch") (int_text (batch r)) ++ comma true ++
  member (text "samples") (int_text (sint 64 (samples (stats r)))) ++ comma true ++
  member (text "p50") (dec_text (p50 (stats r))) ++ comma true ++
  member (text "p99") (dec_text (p99 (stats r))) ++ comma true ++
  member (text "p999") (dec_text (p999 (stats r))) ++ comma true ++
  member (text "max") (dec_text (max (stats r))) ++ comma true ++
  member (text "mean") (dec_text (mean (stats r))) ++ comma true ++
  member (text "allocations") (int_text (sint 64 (allocations_ r))) ++ comma true ++
  row_tail r.

Lemma row_text_body out r : row_text out r = out ++ text "    { " ++ row_body r.
Proof.
  unfold row_text, row_body, row_tail.
  rewrite !field_str_app, !field_int_app, !field_bool_app, !field_num_app, ?if_app, ?if_app2, ?if_app.
  rewrite <- !app_assoc. done.
Qed.

Lemma members_row r : row_ok r -> members (row_body r ++ [32]) (row_members r).
Proof.
  intros Hr. pose proof Hr as (H1 & H2 & H3 & H4 & H5 & H6 & H7 & _).
  unfold row_body, row_members. rewrite <- !app_assoc. do 16 (fields; auto). apply (members_row_tail r Hr).
Qed.

Definition hardware_body (hw : HardwareContext) : bytes :=
  member (text "cpu_model") (str_text (cpu_model hw)) ++ comma true ++
  member (text "nproc") (int_text (nproc hw)) ++ comma true ++
  member (text "governor") (str_text (governor hw)) ++ comma true ++
  member (text "kernel") (str_text (kernel hw)) ++ comma true ++
  member (text "preempt_rt") (bool_text (preempt_rt hw)) ++ comma true ++
  opt (negb (empty (display hw))) (member (text "display") (str_text (display hw)) ++ comma true) ++
  opt (negb (empty (gl_renderer hw))) (member (text "gl_renderer") (str_text (gl_renderer hw)) ++ comma true) ++
  member (text "load_avg_1m") (dec_text (load_avg_1m hw)) ++ comma true ++
  member (text "load_avg_5m") (dec_text (load_avg_5m hw)) ++ comma true ++
  member (text "load_avg_15m") (dec_text (load_avg_15m hw)) ++ comma false.

Lemma hardware_text_body out hw : hardware_text out hw = out ++ hardware_body hw.
Proof.
  unfold hardware_text, hardware_body.
  rewrite !field_str_app, !field_int_app, !field_bool_app, !field_num_app, ?if_app.
  rewrite <- !app_assoc. done.
Qed.

Lemma members_hardware hw : hardware_ok hw -> members (hardware_body hw ++ [32]) (hardware_members hw).
Proof.
  intros (H1 & H2 & H3 & H4). unfold hardware_body, hardware_members. rewrite <- !app_assoc. do 10 (fields; auto).
Qed.

(** ** Arrays *)

Lemma value_members t l : members (t ++ [32]) l -> value (text "{ " ++ t ++ text " }") (JObj l).
Proof.
  intros Hm. pose proof (value_obj _ _ (members_space [32] _ _ ws_space Hm)) as H.
  rewrite <- !app_assoc in H. exact H.
Qed.

Definition rows_body (results : list BenchResult) : bytes :=
  (fix rows (l : list BenchResult) :=
     match l with
     | [] => []
     | r :: l => text "    { " ++ row_body r ++ newline (if empty l then " }" else " },") ++ rows l
     end) results.

Lemma rows_text_body out results : rows_text out results = out ++ rows_body results.
Proof.
  revert out. induction results as [|r l IH]; intros out; cbn [rows_text rows_body]; [by rewrite app_nil_r|].
  rewrite IH, row_text_body, <- !app_assoc. done.
Qed.

Lemma ws_text s : forallb (fun c => (c =? 32) || (c =? 10)) s = true -> ws s.
Proof.
  intros H. apply List.Forall_forall. intros c Hc. rewrite forallb_forall in H. specialize (H c Hc).
  apply orb_true_iff in H as [H|H]; apply Z.eqb_eq in H as ->; unfold is_ws; lia.
Qed.

(** The array after "benchmarks": the rows between newlines. *)
Lemma value_rows results :
  Forall row_ok results ->
  value (newline "[" ++ rows_body results ++ text "  ]") (JArr (map (fun r => JObj (row_members r)) results)).
Proof.
  intros Hr. destruct results as [|r l].
  { exact (value_empty_arr [10; 32; 32] (ws_text [10; 32; 32] eq_refl)). }
  assert (elements (rows_body (r :: l) ++ text "  ") (map (fun r => JObj (row_members r)) (r :: l))) as He.
  { revert r Hr. induction l as [|r' l IH]; intros r Hr; apply Forall_cons_1 in Hr as [Hr Hl];
      pose proof (value_members _ _ (members_row r Hr)) as Hv.
    - cbn [rows_body empty map]. pose proof (elements_one (text "    ") _ _ (10 :: text "  ") (ws_text (text "    ") eq_refl) Hv (ws_text (10 :: text "  ") eq_refl)) as H.
      rewrite <- !app_assoc in H. rewrite <- !app_assoc. exact H.
    - pose proof (elements_more (text "    ") _ _ [] (10 :: rows_body (r' :: l) ++ text "  ")
                    (map (fun r => JObj (row_members r)) (r' :: l)) (ws_text (text "    ") eq_refl) Hv ws_nil) as H.
      specialize (H (elements_space [10] _ _ (ws_text [10] eq_refl) (IH r' Hl))).
      change (rows_body (r :: r' :: l)) with (text "    { " ++ row_body r ++ newline " }," ++ rows_body (r' :: l)).
      clear IH. set (rest := rows_body (r' :: l)) in *. clearbody rest.
      rewrite <- !app_assoc in H. rewrite <- !app_assoc. exact H. }
  pose proof (value_arr _ _ (elements_space [10] _ _ (ws_text [10] eq_refl) He)) as H.
  rewrite <- !app_assoc in H. exact H.
Qed.

Fixpoint failures_body (first : bool) (fs : list bytes) : bytes :=
  match fs with
  | [] => []
  | f :: fs => text (if first then "'" else ", '") ++ flat_map escape_char f ++ text "'" ++ failures_body false fs
  end.

Lemma failures_text_body out first fs : failures_text out first fs = out ++ failures_body first fs.
Proof.
  revert out first. induction fs as [|f fs IH]; intros out first; cbn [failures_text failures_body]; [by rewrite app_nil_r|].
  rewrite IH, JsonEscapeTo_app, <- !app_assoc. done.
Qed.

Lemma failures_body_str f fs : failures_body true (f :: fs) = str_text f ++ failures_body false fs.
Proof. cbn [failures_body]. unfold str_text. cbn [app]. rewrite <- app_assoc. done. Qed.

Lemma value_failures fs : value (text "[" ++ failures_body true fs ++ text "]") (JArr (map json_str fs)).
Proof.
  destruct fs as [|f fs]; [exact (value_empty_arr [] ws_nil)|]. apply value_arr.
  revert f. induction fs as [|f' fs IH]; intros f; rewrite failures_body_str.
  - exact (elements_one [] (str_text f) _ [] ws_nil (value_str_text f) ws_nil).
  - specialize (IH f'). rewrite failures_body_str in IH.
    pose proof (elements_more [] _ _ [] _ _ ws_nil (value_str_text f) ws_nil (elements_space [32] _ _ (ws_text [32] eq_refl) IH)) as H.
    cbn [map failures_body]. unfold str_text at 2 in H. cbn [app] in H. rewrite <- app_assoc in H. exact H.
Qed.

(** ** The document *)

Definition gate_value (gate_failures : list bytes) : bytes :=
  text "{ " ++ (member (text "passed") (bool_text (empty gate_failures)) ++ comma true ++
                member (text "failures") (text "[" ++ failures_body true gate_failures ++ text "]") ++ comma false) ++ text " }".

Lemma value_gate gate_failures :
  value (gate_value gate_failures)
    (JObj [(text "passed", JBool (empty gate_failures)); (text "failures", JArr (map json_str gate_failures))]).
Proof.
  apply value_members. rewrite <- !app_assoc. apply members_step; [reflexivity|apply value_bool_text|].
  exact (members_last (text "failures") _ _ [32] eq_refl (value_failures gate_failures) ws_space).
Qed.

(** The members of the document, the last four of which start on a new line. *)
Definition document_body (schema now : bytes) (hw : HardwareContext) (results : list BenchResult)
    (smoke : bool) (scale : double) (gate_failures : list bytes) : bytes :=
  member (text "schema") (str_text schema) ++ comma true ++
  member (text "generated_at_utc") (str_text now) ++ comma true ++
  member (text "smoke") (bool_text smoke) ++ comma true ++
  member (text "scale") (dec_text scale) ++ text "," ++ [10; 32; 32] ++
  member (text "hardware") (text "{ " ++ hardware_body hw ++ text " }") ++ text "," ++ [10; 32; 32] ++
  member (text "alloc_gate") (gate_value gate_failures) ++ text "," ++ [10; 32; 32] ++
  member (text "benchmarks") (newline "[" ++ rows_body results ++ text "  ]") ++ [10].

Lemma report_text_body schema now hw results smoke scale gate_failures :
  report_text schema now hw results smoke scale gate_failures =
  text "{" ++ ([10; 32; 32] ++ document_body schema now hw results smoke scale gate_failures) ++ text "}" ++ [10].
Proof.
  unfold report_text. rewrite rows_text_body, failures_text_body, hardware_text_body.
  rewrite !field_str_app, !field_num_app, !field_bool_app.
  unfold document_body, gate_value.
  set (h := hardware_body hw). set (f := failures_body true gate_failures). set (r := rows_body results).
  clearbody h f r. unfold member. change (comma false) with (@nil Z). rewrite <- !app_assoc. cbn [app]. done.
Qed.

(** A member followed by a comma and a new line. *)
Lemma members_line k vt v t l :
  forallb plain k = true -> value vt v -> members t l ->
  members (member k vt ++ text "," ++ [10; 32; 32] ++ t) ((k, v) :: l).
Proof.
  intros Hk Hv Hm.
  pose proof (members_more [] k k [32] vt v [] _ l ws_nil (plain_chars k Hk) ws_space Hv ws_nil
                (members_space [10; 32; 32] _ _ (ws_text [10; 32; 32] eq_refl) Hm)) as H.
  unfold member. rewrite <- !app_assoc. exact H.
Qed.

(** C21: The report is JSON and means what it was given: for any rows, hardware
    context and gate failures whose numbers the 64-byte buffer holds, the text is
    a JSON document whose value has the schema, the time and the flags, the
    hardware context, whether the allocation gate passed with the failures, and
    one object per row in order; every string is the one given less its control
    characters other than newline and tab, every integer is exact, every other
    number is rounded to one decimal, optional members are present exactly when
    they are set, and no comma is missing or left over. *)
Theorem report_is_json (schema now : bytes) (hw : HardwareContext) (results : list BenchResult)
    (smoke : bool) (scale : double) (gate_failures : list bytes) :
  Forall row_ok results -> hardware_ok hw -> printable scale = true ->
  document (report_text schema now hw results smoke scale gate_failures)
           (report_json schema now hw results smoke scale gate_failures).
Proof.
  intros Hr Hh Hs. rewrite report_text_body. exists [], (text "{" ++ ([10; 32; 32] ++ document_body schema now hw results smoke scale gate_failures) ++ text "}"), [10].
  split; [by rewrite app_nil_l, <- !app_assoc|]. split; [exact ws_nil|]. split; [|exact (ws_text [10] eq_refl)].
  apply value_obj, (members_space [10; 32; 32]); [exact (ws_text [10; 32; 32] eq_refl)|].
  unfold document_body. do 3 (apply members_step; [reflexivity|auto with json|]).
  apply members_line; [reflexivity|auto with json|].
  apply members_line; [reflexivity|apply value_members, members_hardware, Hh|].
  apply members_line; [reflexivity|apply value_gate|].
  exact (members_last (text "benchmarks") _ _ [10] eq_refl (value_rows results Hr) (ws_text [10] eq_refl)).
Qed.

(** A row with every optional member, and a gate failure. *)
Definition sample_stats : Stats := mkStats (double_of 12) (double_of 15) (double_of 15) (double_of 16) (ddiv (double_of 25) (double_of 2)) 400.
Definition sample_row : BenchResult :=
  mkBenchResult (text "micro/'x'") (text "micro") 64 false 256 sample_stats 0 true true (double_of 3) (double_of 4)
    [] (text "headless") (double_of 1000) (double_of 60) (text "a" ++ [10; 1; 92]).
Definition sample_hardware : HardwareContext :=
  mkHardware (text "cpu") (text "performance") (text "6.1") true 8 (double_of 1) (double_of (-1)) (double_of 0) [] (text "llvmpipe").

Lemma report_is_json_witness :
  document (report_text (text "v1") (text "now") sample_hardware [sample_row; sample_row] true (double_of 1) [text "f"])
           (report_json (text "v1") (text "now") sample_hardware [sample_row; sample_row] true (double_of 1) [text "f"]) /\
  row_text [] sample_row =
    text "    { 'name': 'micro/" ++ [92; quote; 120; 92; quote] ++
    text "', 'layer': 'micro', 'mode': 'headless', 'payload_bytes': 64, 'contended': false, 'unit': 'ns', 'rate_hz': 1000.0, 'batch': 256, 'samples': 400, 'p50': 12.0, 'p99': 15.0, 'p999': 15.0, 'max': 16.0, 'mean': 12.5, 'allocations': 0, 'alloc_gated': true, 'jitter_p99': 3.0, 'jitter_max': 4.0, 'achieved_fps': 60.0, 'notes': 'a" ++
    [92; 110; 92; 92; quote].
Proof.
  split; [|vm_compute; reflexivity].
  assert (row_ok sample_row) as Hr.
  { unfold row_ok, ok_int. split_and!; try (vm_compute; reflexivity); try (cbn; lia); intros _; split_and?; vm_compute; reflexivity. }
  apply (report_is_json (text "v1") (text "now") sample_hardware [sample_row; sample_row] true (double_of 1) [text "f"]).
  - by repeat constructor.
  - unfold hardware_ok, ok_int. split_and!; try (vm_compute; reflexivity); cbn; lia.
  - vm_compute; reflexivity.
Defined.

(** A number that is not finite is printed as a word, which JSON does not have. *)
Lemma infinity_is_not_json n k : ~ number (dec_text (S754_infinity false)) n k.
Proof.
  intros (neg & ds & z & fs & E & (Hd & _ & c & ds' & -> & _) & _).
  change (dec_text (S754_infinity false)) with [105; 110; 102] in E.
  destruct neg; cbn [app] in E; injection E as E; subst; [done|].
  apply Forall_cons_1 in Hd as [Hd _]. unfold is_digit, c_zero in Hd. lia.
Qed.
