(* ===== verification/Hardware.v ===== *)
(** * The machine a report describes (testing/bench_harness.hpp)

    [CaptureHardwareContext], [ReadVmRssKiB] and [UtcTimestamp] over the contents of
    the files they read, what uname(2) answers and the time: line reading, the
    searches of std::string, stream extraction of doubles, the calendar. *)

From Stdlib Require Import ZArith Lia String Floats.SpecFloat.
From stdpp Require Import base list numbers.
From S2P Require Import Prelude Printf ArgPack Format Unbound ConsoleFormat Console Metrics Stats Report.

Local Open Scope Z_scope.

(** ** Streams and strings *)

(** [std::getline]: the line without its newline and what is left; [None] when there
    is nothing left to extract. *)
Fixpoint split_line (s : bytes) : bytes * bytes :=
  match s with
  | [] => ([], [])
  | c :: s => if c =? 10 then ([], s) else let '(l, r) := split_line s in (c :: l, r)
  end.
Definition getline (s : bytes) : option (bytes * bytes) :=
  match s with [] => None | _ => Some (split_line s) end.

(** [find(c)], [find_first_not_of]; [rfind(p, 0) == 0] is [starts_with] and
    [find(p) != npos] is [contains]. *)
Fixpoint find_char (c : Z) (s : bytes) : option nat :=
  match s with [] => None | d :: s => if d =? c then Some 0%nat else option_map S (find_char c s) end.
Fixpoint find_first_not_of (set s : bytes) : option nat :=
  match s with
  | [] => None
  | d :: s => if existsb (Z.eqb d) set then option_map S (find_first_not_of set s) else Some 0%nat
  end.

(** A file is its content, [None] when it cannot be opened. *)
Definition file : Type := option bytes.

Definition ReadFirstLine (f : file) : bytes :=
  match f with
  | Some s => match getline s with Some (line, _) => line | None => [] end
  | None => []
  end.

(** ** Extraction of a double in the C locale *)

Definition span_sign (s : bytes) : bool * bytes :=
  match s with
  | c :: r => if c =? c_minus then (true, r) else if c =? 43 then (false, r) else (false, s)
  | [] => (false, [])
  end.

(** The double nearest to [m * 10^k]. *)
Definition decimal_double (neg : bool) (m k : Z) : Metrics.double :=
  match m with
  | Zpos p =>
      if 0 <=? k then binary_normalize 53 1024 (if neg then - (m * 10 ^ k) else m * 10 ^ k) 0 neg
      else let '(q, e, l) := SFdiv_core_binary 53 1024 m 0 (10 ^ (- k)) 0 in binary_round_aux 53 1024 neg q e l
  | _ => S754_zero neg
  end.

Definition max_double : Metrics.double := S754_finite false (2 ^ 53 - 1) 971.

(** The value stored and the rest of the stream, [None] once it has failed: no
    digits or an exponent without digits store zero, overflow the largest value. *)
Definition read_double (s : bytes) : Metrics.double * option bytes :=
  let '(neg, s) := span_sign s in
  let '(i, s) := span_digits s in
  let '(f, s) := match s with c :: r => if c =? 46 then span_digits r else ([], s) | [] => ([], []) end in
  if empty (i ++ f) then (S754_zero false, None) else
  let convert (k : Z) (s : bytes) :=
    let v := decimal_double neg (decimal 0 (i ++ f)) (k - Z.of_nat (length f)) in
    match v with
    | S754_infinity _ => (if neg then SFopp max_double else max_double, None)
    | _ => (v, Some s)
    end in
  match s with
  | c :: r =>
      if (c =? 101) || (c =? 69) then
        let '(eneg, r) := span_sign r in
        let '(x, r) := span_digits r in
        if empty x then (S754_zero false, None) else convert (if eneg then - decimal 0 x else decimal 0 x) r
      else convert 0 s
  | [] => convert 0 s
  end.

(** [stream >> v]: a stream that failed, or has nothing but blanks left, leaves [v]. *)
Definition shift_right (stream : option bytes) (v : Metrics.double) : Metrics.double * option bytes :=
  match stream with
  | None => (v, None)
  | Some s => match skip_spaces s with [] => (v, None) | s => read_double s end
  end.

(** ** The hardware context *)

(** What the host shows: the four files, uname's release and version when it
    succeeds, and the number of hardware threads. *)
Record host := mkHost {
  cpuinfo : file;
  scaling_governor : file;
  realtime : file;
  loadavg : file;
  uts : option (bytes * bytes);
  hardware_concurrency : Z
}.

Definition unknown : bytes := text "unknown".

(** The loop over /proc/cpuinfo, with the fuel of its length; [model] is
    [hw.cpu_model]. *)
Definition model_of (line model : bytes) : bytes :=
  match find_char 58 line with
  | None => model
  | Some colon =>
      let v := drop (colon + 1) line in
      match find_first_not_of [32; 9] v with None => v | Some first => drop first v end
  end.
Fixpoint scan_cpuinfo (fuel : nat) (s model : bytes) : bytes :=
  match fuel with
  | O => model
  | S fuel =>
      match getline s with
      | None => model
      | Some (line, s) =>
          if starts_with (text "model name") line then model_of line model else scan_cpuinfo fuel s model
      end
  end.

Definition CaptureHardwareContext (h : host) : HardwareContext :=
  let cpu_model := match cpuinfo h with Some s => scan_cpuinfo (length s) s unknown | None => unknown end in
  let g := ReadFirstLine (scaling_governor h) in
  let governor := if empty g then unknown else g in
  let '(kernel, preempt_rt) :=
    match uts h with
    | Some (release, version) => (c_str release, contains (text "PREEMPT_RT") (c_str version))
    | None => (unknown, false)
    end in
  let preempt_rt := if bool_decide (ReadFirstLine (realtime h) = text "1") then true else preempt_rt in
  let nproc := u32 (hardware_concurrency h) in
  let minus_one := double_of (-1) in
  let '(l1, l5, l15) :=
    match loadavg h with
    | None => (minus_one, minus_one, minus_one)
    | Some s =>
        let '(l1, r) := shift_right (Some s) minus_one in
        let '(l5, r) := shift_right r minus_one in
        let '(l15, _) := shift_right r minus_one in (l1, l5, l15)
    end in
  mkHardware cpu_model governor kernel preempt_rt nproc l1 l5 l15 [] [].

(** ** Resident memory *)

(** [sscanf(line, "VmRSS: %ld", &kib)] on a line that starts with the literal:
    blanks, then a number if there is one; [None] is a number that does not fit a
    [long]. *)
Definition scan_vmrss (line : bytes) : option Z :=
  match strtol (drop 6 (c_str line)) with
  | None => Some 0
  | Some z => if bool_decide (- 2 ^ 63 <= z < 2 ^ 63) then Some z else None
  end.

Fixpoint scan_status (fuel : nat) (s : bytes) : option Z :=
  match fuel with
  | O => Some (-1)
  | S fuel =>
      match getline s with
      | None => Some (-1)
      | Some (line, s) => if starts_with (text "VmRSS:") line then scan_vmrss line else scan_status fuel s
      end
  end.

Definition ReadVmRssKiB (status : file) : option Z :=
  match status with Some s => scan_status (length s) s | None => Some (-1) end.

(** ** The time of the report *)

(** [gmtime_r]: the proleptic Gregorian calendar from the seconds since 1970. *)
Definition leap (y : Z) : bool := ((y mod 4 =? 0) && negb (y mod 100 =? 0)) || (y mod 400 =? 0).
Definition year_days (y : Z) : Z := if leap y then 366 else 365.
Definition months (y : Z) : list Z := [31; if leap y then 29 else 28; 31; 30; 31; 30; 31; 31; 30; 31; 30; 31].

(** The year and the day in it; a year has at least 365 days. *)
Fixpoint find_year (fuel : nat) (y d : Z) : Z * Z :=
  match fuel with
  | O => (y, d)
  | S fuel => if d <? year_days y then (y, d) else find_year fuel (y + 1) (d - year_days y)
  end.
Fixpoint find_month (l : list Z) (m d : Z) : Z * Z :=
  match l with
  | n :: l => if d <? n then (m, d) else find_month l (m + 1) (d - n)
  | [] => (m, d)
  end.

Record tm := mkTm { tm_year : Z; tm_mon : Z; tm_mday : Z; tm_hour : Z; tm_min : Z; tm_sec : Z }.

Definition gmtime (t : Z) : tm :=
  let days := t / 86400 in
  let rem := t mod 86400 in
  let '(y, yd) := find_year (Z.to_nat (days / 365 + 1)) 1970 days in
  let '(m, d) := find_month (months y) 1 yd in
  mkTm y m (d + 1) (rem / 3600) (rem mod 3600 / 60) (rem mod 60).

(** [strftime(buffer, 32, "%Y-%m-%dT%H:%M:%SZ")]. *)
Definition UtcTimestamp (t : Z) : bytes :=
  let x := gmtime t in
  digits 10 false (tm_year x) ++ text "-" ++ digits_padded 2 (tm_mon x) ++ text "-" ++ digits_padded 2 (tm_mday x) ++ text "T" ++
  digits_padded 2 (tm_hour x) ++ text ":" ++ digits_padded 2 (tm_min x) ++ text ":" ++ digits_padded 2 (tm_sec x) ++ text "Z".

Example utc_example : UtcTimestamp 1700000000 = text "2023-11-14T22:13:20Z".
Proof. vm_compute. reflexivity. Qed.
Example utc_leap : UtcTimestamp 1709208000 = text "2024-02-29T12:00:00Z".
Proof. vm_compute. reflexivity. Qed.

(** The seconds a broken-down time stands for. *)
Definition days_before_year (n : nat) : Z := foldr Z.add 0 (map (fun k => year_days (1970 + Z.of_nat k)) (seq 0 n)).
Definition days_before_month (y m : Z) : Z := foldr Z.add 0 (take (Z.to_nat (m - 1)) (months y)).
Definition seconds_of (x : tm) : Z :=
  (days_before_year (Z.to_nat (tm_year x - 1970)) + days_before_month (tm_year x) (tm_mon x) + (tm_mday x - 1)) * 86400 +
  tm_hour x * 3600 + tm_min x * 60 + tm_sec x.

Definition tm_ok (x : tm) : Prop :=
  1970 <= tm_year x /\ 1 <= tm_mon x <= 12 /\
  (exists n, months (tm_year x) !! Z.to_nat (tm_mon x - 1) = Some n /\ 1 <= tm_mday x <= n) /\
  0 <= tm_hour x < 24 /\ 0 <= tm_min x < 60 /\ 0 <= tm_sec x < 60.

Lemma year_days_bounds y : 365 <= year_days y <= 366.
Proof. unfold year_days. destruct (leap y); lia. Qed.

Lemma months_sum y : foldr Z.add 0 (months y) = year_days y.
Proof. unfold months, year_days. by destruct (leap y). Qed.

Lemma days_before_year_S n : days_before_year (S n) = days_before_year n + year_days (1970 + Z.of_nat n).
Proof.
  unfold days_before_year. rewrite seq_S, map_app, foldr_app. cbn [map foldr Nat.add].
  generalize (year_days (1970 + Z.of_nat n)). intros z.
  induction (map _ (seq 0 n)) as [|a l IH]; cbn; [lia|]. cbn in IH. rewrite IH. lia.
Qed.

Lemma find_year_spec fuel n d :
  0 <= d -> d / 365 < Z.of_nat fuel ->
  exists m yd, find_year fuel (1970 + Z.of_nat n) d = (1970 + Z.of_nat m, yd) /\ (n <= m)%nat /\
    0 <= yd < year_days (1970 + Z.of_nat m) /\ days_before_year m + yd = days_before_year n + d.
Proof.
  revert n d. induction fuel as [|fuel IH]; intros n d Hd Hf.
  { pose proof (Z.div_pos d 365 Hd ltac:(lia)). lia. }
  cbn [find_year]. pose proof (year_days_bounds (1970 + Z.of_nat n)) as Hy. destruct (Z.ltb_spec d (year_days (1970 + Z.of_nat n))).
  - exists n, d. split_and!; try done; lia.
  - destruct (IH (S n) (d - year_days (1970 + Z.of_nat n))) as (m & yd & E & Hn & Hyd & Hs).
    + lia.
    + assert (d - year_days (1970 + Z.of_nat n) <= d - 1 * 365) by lia.
      pose proof (Z.div_le_mono _ _ 365 ltac:(lia) H0) as Hm.
      replace (d - 1 * 365) with (d + (-1) * 365) in Hm by lia. rewrite Z.div_add in Hm by lia. lia.
    + exists m, yd. replace (1970 + Z.of_nat n + 1) with (1970 + Z.of_nat (S n)) by lia. split_and!; try done; try lia.
      rewrite Hs, days_before_year_S. lia.
Qed.

Lemma find_month_spec l m d :
  0 <= d < foldr Z.add 0 l ->
  exists k n r, find_month l m d = (m + Z.of_nat k, r) /\ l !! k = Some n /\ 0 <= r < n /\ foldr Z.add 0 (take k l) + r = d.
Proof.
  revert m d. induction l as [|n l IH]; intros m d Hd; cbn [foldr] in Hd; [lia|]. cbn [find_month].
  destruct (Z.ltb_spec d n).
  - exists 0%nat, n, d. cbn. split_and!; try done; try lia. f_equal. lia.
  - destruct (IH (m + 1) (d - n)) as (k & n' & r & E & Hl & Hr & Hs); [lia|]. exists (S k), n', r. cbn [take foldr lookup list_lookup].
    rewrite E. split_and!; try done; try lia. f_equal. lia.
Qed.

(** The time of a report: for every second from 1970 on, the broken-down time is a
    date of the calendar and a time of day, and stands for that second. *)
Theorem gmtime_roundtrip (t : Z) : 0 <= t -> tm_ok (gmtime t) /\ seconds_of (gmtime t) = t.
Proof.
  intros Ht. unfold gmtime. assert (0 <= t / 86400) as Hd by (apply Z.div_pos; lia).
  pose proof (Z.mod_pos_bound t 86400 ltac:(lia)) as Hr. pose proof (Z.div_mod t 86400 ltac:(lia)) as Et.
  set (days := t / 86400) in *. set (rem := t mod 86400) in *.
  assert (0 <= days / 365) as Hq by (apply Z.div_pos; lia).
  destruct (find_year_spec (Z.to_nat (days / 365 + 1)) 0 days Hd ltac:(lia)) as (n & yd & E & _ & Hyd & Hs).
  change (1970 + Z.of_nat 0) with 1970 in E. rewrite E. set (y := 1970 + Z.of_nat n) in *.
  destruct (find_month_spec (months y) 1 yd) as (k & nd & r & Em & Hk & Hrd & Hsum); [rewrite months_sum; lia|]. rewrite Em.
  assert (k < 12)%nat as Hk12 by (by apply lookup_lt_Some in Hk).
  pose proof (Z.mod_pos_bound rem 3600 ltac:(lia)). pose proof (Z.mod_pos_bound rem 60 ltac:(lia)).
  assert (rem mod 60 = (rem mod 3600) mod 60) as E60.
  { pose proof (Z.div_mod rem 3600 ltac:(lia)). set (q := rem / 3600) in *. replace rem with (rem mod 3600 + (q * 60) * 60) at 1 by lia.
    apply Z.mod_add. lia. }
  pose proof (Z.div_mod rem 3600 ltac:(lia)). pose proof (Z.div_mod (rem mod 3600) 60 ltac:(lia)).
  assert (0 <= rem / 3600 < 24) by (split; [apply Z.div_pos|apply Z.div_lt_upper_bound]; lia).
  assert (0 <= rem mod 3600 / 60 < 60) by (split; [apply Z.div_pos|apply Z.div_lt_upper_bound]; lia).
  split.
  - split_and!; cbn [tm_year tm_mon tm_mday tm_hour tm_min tm_sec]; try lia. exists nd.
    replace (Z.to_nat (1 + Z.of_nat k - 1)) with k by lia. split; [done|lia].
  - unfold seconds_of, days_before_month. cbn [tm_year tm_mon tm_mday tm_hour tm_min tm_sec].
    replace (Z.to_nat (1 + Z.of_nat k - 1)) with k by lia.
    replace (Z.to_nat (y - 1970)) with n by lia. change (days_before_year 0) with 0 in Hs. lia.
Qed.

(** ** What is captured *)

Lemma getline_line l r : Forall (fun c => c <> 10) l -> getline (l ++ 10 :: r) = Some (l, r).
Proof.
  intros Hl. assert (split_line (l ++ 10 :: r) = (l, r)) as E.
  { induction Hl as [|c l Hc _ IH]; [done|]. cbn [app split_line]. rewrite (proj2 (Z.eqb_neq _ _)) by done. by rewrite IH. }
  unfold getline. rewrite E. by destruct l.
Qed.

Lemma find_char_app c l r : Forall (fun d => d <> c) l -> find_char c (l ++ c :: r) = Some (length l).
Proof.
  induction 1 as [|d l Hd _ IH]; cbn; [by rewrite Z.eqb_refl|]. rewrite (proj2 (Z.eqb_neq _ _)) by done. by rewrite IH.
Qed.

Lemma find_first_not_of_app set l c r :
  Forall (fun d => In d set) l -> ~ In c set -> find_first_not_of set (l ++ c :: r) = Some (length l).
Proof.
  intros Hl Hc. assert (forall d, existsb (Z.eqb d) set = true <-> In d set) as Hex.
  { intros d. rewrite existsb_exists. split; [intros (x & Hx & E); apply Z.eqb_eq in E; by subst|intros Hd; exists d; by rewrite Z.eqb_refl]. }
  induction Hl as [|d l Hd _ IH]; cbn.
  - destruct (existsb (Z.eqb c) set) eqn:E; [by apply Hex in E|done].
  - rewrite (proj2 (Hex d)) by done. by rewrite IH.
Qed.

(** The row of /proc/cpuinfo that counts. *)
Lemma model_of_row tabs blanks c model old :
  Forall (fun d => d <> 58) tabs -> Forall (fun d => In d [32; 9]) blanks -> ~ In c [32; 9] ->
  model_of (text "model name" ++ tabs ++ [58] ++ blanks ++ c :: model) old = c :: model.
Proof.
  intros Ht Hb Hc. unfold model_of.
  assert (Forall (fun d => d <> 58) (text "model name" ++ tabs)) as Hp
    by (apply Forall_app_2; [repeat (constructor; [discriminate|]); constructor|done]).
  replace (text "model name" ++ tabs ++ [58] ++ blanks ++ c :: model) with ((text "model name" ++ tabs) ++ 58 :: blanks ++ c :: model)
    by (by rewrite <- app_assoc).
  rewrite find_char_app by done.
  replace (length (text "model name" ++ tabs) + 1)%nat with (length ((text "model name" ++ tabs) ++ [58])) by (by rewrite length_app).
  change (58 :: blanks ++ c :: model) with ([58] ++ (blanks ++ c :: model)). rewrite (app_assoc _ [58]), drop_app_length.
  rewrite find_first_not_of_app by done. apply drop_app_length.
Qed.

Lemma scan_cpuinfo_rows fuel pre line rest model :
  Forall (fun l => Forall (fun c => c <> 10) l /\ starts_with (text "model name") l = false) pre ->
  Forall (fun c => c <> 10) line -> starts_with (text "model name") line = true -> (length pre < fuel)%nat ->
  scan_cpuinfo fuel (concat (map (fun l => l ++ [10]) pre) ++ line ++ 10 :: rest) model = model_of line model.
Proof.
  intros Hpre Hl Hs. revert fuel. induction Hpre as [|l pre [Hl1 Hl2] _ IH]; intros [|fuel] Hf; cbn [length] in Hf; try lia.
  - cbn [map concat app scan_cpuinfo]. by rewrite getline_line, Hs.
  - cbn [map concat scan_cpuinfo]. rewrite <- !app_assoc. cbn [app]. rewrite getline_line, Hl2 by done. apply IH. lia.
Qed.

Lemma rows_length (pre : list bytes) : (length pre <= length (concat (map (fun l : bytes => l ++ [10%Z]) pre)))%nat.
Proof. induction pre as [|l pre IH]; [done|]. cbn [map concat length]. rewrite !length_app. cbn [length]. lia. Qed.

(** A number as the kernel writes the loads. *)
Definition all_digits (d : bytes) : Prop := d <> [] /\ Forall (fun c => is_digit c = true) d.

Lemma digit_head d : all_digits d -> exists c r, d = c :: r /\ is_digit c = true.
Proof. intros [Hn Hd]. destruct d as [|c r]; [done|]. apply Forall_cons_1 in Hd as [Hc _]. by exists c, r. Qed.

Definition load_text (i f : bytes) : bytes := i ++ [46] ++ f.
Definition load_value (i f : bytes) : Metrics.double := decimal_double false (decimal 0 (i ++ f)) (- Z.of_nat (length f)).
Definition load_ok (i f : bytes) : Prop := all_digits i /\ all_digits f /\ forall s, load_value i f <> S754_infinity s.

Lemma shift_right_load i f r v blanks :
  load_ok i f -> Forall (fun c => c = c_space) blanks ->
  shift_right (Some (blanks ++ load_text i f ++ c_space :: r)) v = (load_value i f, Some (c_space :: r)).
Proof.
  intros (Hi & Hf & Hv) Hb. unfold shift_right.
  assert (skip_spaces (blanks ++ load_text i f ++ c_space :: r) = load_text i f ++ c_space :: r) as ->.
  { induction Hb as [|c blanks -> _ IH]; [|exact IH]. destruct (digit_head i Hi) as (c & i' & -> & Hc).
    destruct (is_digit_not_space c Hc) as (Hs & _ & _). unfold load_text. cbn [app skip_spaces]. by rewrite Hs. }
  unfold load_text. rewrite <- !app_assoc. destruct (digit_head i Hi) as (c & i' & Ei & Hc). rewrite Ei at 1. cbn [app]. rewrite app_comm_cons, <- Ei.
  unfold read_double. destruct (is_digit_not_space c Hc) as (_ & Hm & Hp).
  assert (forall s, span_sign (i ++ s) = (false, i ++ s)) as -> by (intros s; rewrite Ei; cbn [app span_sign]; by rewrite Hm, Hp).
  rewrite span_digits_app by (done || apply Hi). cbn [Z.eqb Pos.eqb]. rewrite span_digits_app by (done || apply Hf).
  assert (empty (i ++ f) = false) as -> by (by rewrite Ei). unfold c_space. cbn [Z.eqb Pos.eqb orb].
  change (0 - Z.of_nat (length f)) with (- Z.of_nat (length f)). fold (load_value i f).
  destruct (load_value i f) as [s|s| |s m e] eqn:E; [done|by destruct (Hv s)|done..].
Qed.

(** What the report says of the machine.  On a host whose files are as Linux writes
    them: the model is the text after the colon and the blanks of the first "model
    name" row; the governor is the first line of its file; the kernel is uname's
    release, real-time if its version says PREEMPT_RT or /sys/kernel/realtime holds
    1; the loads are the first three numbers of /proc/loadavg.  What cannot be read
    stays "unknown", not real-time, and -1. *)
Theorem captured_context (h : host) pre tabs blanks c model rest g grest release version i1 f1 i5 f5 i15 f15 lrest :
  Forall (fun l => Forall (fun c => c <> 10) l /\ starts_with (text "model name") l = false) pre ->
  Forall (fun d => d <> 58 /\ d <> 10) tabs -> Forall (fun d => In d [32; 9]) blanks -> ~ In c [32; 9] -> Forall (fun d => d <> 10) (c :: model) ->
  g <> [] -> Forall (fun d => d <> 10) g ->
  load_ok i1 f1 -> load_ok i5 f5 -> load_ok i15 f15 ->
  let row := text "model name" ++ tabs ++ [58] ++ blanks ++ c :: model in
  let captured := mkHost (Some (concat (map (fun l => l ++ [10]) pre) ++ row ++ 10 :: rest)) (Some (g ++ 10 :: grest)) (realtime h)
    (Some (load_text i1 f1 ++ [c_space] ++ load_text i5 f5 ++ [c_space] ++ load_text i15 f15 ++ c_space :: lrest))
    (Some (release, version)) (hardware_concurrency h) in
  let hw := CaptureHardwareContext captured in
  cpu_model hw = c :: model /\ governor hw = g /\ kernel hw = c_str release /\
  (preempt_rt hw = true <-> ReadFirstLine (realtime h) = text "1" \/ contains (text "PREEMPT_RT") (c_str version) = true) /\
  nproc hw = u32 (hardware_concurrency h) /\
  load_avg_1m hw = load_value i1 f1 /\ load_avg_5m hw = load_value i5 f5 /\ load_avg_15m hw = load_value i15 f15 /\
  CaptureHardwareContext (mkHost None None None None None (hardware_concurrency h)) =
    mkHardware unknown unknown unknown false (u32 (hardware_concurrency h)) (double_of (-1)) (double_of (-1)) (double_of (-1)) [] [].
Proof.
  intros Hpre Ht Hb Hc Hm Hg1 Hg2 Hl1 Hl5 Hl15 row captured hw.
  assert (Forall (fun d => d <> 10) row) as Hrow.
  { unfold row. apply Forall_app_2; [repeat (constructor; [discriminate|]); constructor|].
    apply Forall_app_2; [eapply List.Forall_impl; [|exact Ht]; by intros d [_ ?]|]. constructor; [discriminate|]. apply Forall_app_2; [|done].
    eapply List.Forall_impl; [|exact Hb]. intros d [<-|[<-|[]]]; discriminate. }
  assert (starts_with (text "model name") row = true) as Hs by apply starts_with_app.
  assert (shift_right (Some (load_text i1 f1 ++ [c_space] ++ load_text i5 f5 ++ [c_space] ++ load_text i15 f15 ++ c_space :: lrest)) (double_of (-1))
    = (load_value i1 f1, Some ([c_space] ++ load_text i5 f5 ++ c_space :: load_text i15 f15 ++ c_space :: lrest))) as E1
    by (by apply (shift_right_load i1 f1 _ _ [])).
  assert (shift_right (Some ([c_space] ++ load_text i5 f5 ++ c_space :: load_text i15 f15 ++ c_space :: lrest)) (double_of (-1))
    = (load_value i5 f5, Some ([c_space] ++ load_text i15 f15 ++ c_space :: lrest))) as E5
    by (apply (shift_right_load i5 f5 _ _ [c_space]); [done|by repeat constructor]).
  assert (shift_right (Some ([c_space] ++ load_text i15 f15 ++ c_space :: lrest)) (double_of (-1))
    = (load_value i15 f15, Some (c_space :: lrest))) as E15
    by (apply (shift_right_load i15 f15 _ _ [c_space]); [done|by repeat constructor]).
  subst hw. unfold CaptureHardwareContext. cbn [captured cpuinfo scaling_governor realtime loadavg uts hardware_concurrency].
  rewrite E1, E5, E15. cbn [cpu_model governor kernel preempt_rt nproc load_avg_1m load_avg_5m load_avg_15m].
  assert (ReadFirstLine (Some (g ++ 10 :: grest)) = g) as -> by (unfold ReadFirstLine; by rewrite getline_line).
  split_and!; try done.
  - rewrite scan_cpuinfo_rows; [|done|done|done|].
    + apply model_of_row; [eapply List.Forall_impl; [|exact Ht]; by intros d [? _]|done|done].
    + rewrite !length_app. pose proof (rows_length pre). cbn [length]. lia.
  - by destruct g.
  - case_bool_decide as E; [by split; [left|]|]. split; [by right|]. intros [?|?]; [by destruct E|done].
Qed.

Example captured_demo :
  let nl := [10] in
  let h := mkHost (Some (text "processor" ++ [9] ++ text ": 0" ++ nl ++ text "model name" ++ [9] ++ text ": ARM Cortex: A76" ++ nl ++ text "model name" ++ [9] ++ text ": other" ++ nl))
    (Some (text "performance" ++ nl)) None (Some (text "0.52 0.58 1.05 1/467 12345" ++ nl))
    (Some (text "6.1.0-rt", text "#1 SMP PREEMPT_RT")) 4 in
  CaptureHardwareContext h =
  mkHardware (text "ARM Cortex: A76") (text "performance") (text "6.1.0-rt") true 4
    (S754_finite false 4683743612465316 (-53)) (S754_finite false 5224175567749775 (-53)) (S754_finite false 4728779608739021 (-52)) [] [].
Proof. vm_compute. reflexivity. Qed.

(** Resident memory: the number of the first row that names it, -1 without one. *)
Example vmrss_demo :
  ReadVmRssKiB (Some (text "Name:" ++ [9] ++ text "bench" ++ [10] ++ text "VmRSS:" ++ [9] ++ text "    5120 kB" ++ [10])) = Some 5120 /\
  ReadVmRssKiB (Some (text "Name:" ++ [9] ++ text "bench" ++ [10])) = Some (-1) /\ ReadVmRssKiB None = Some (-1).
Proof. vm_compute. done. Qed.
