(* ===== verification/Bench.v ===== *)
(** * The benchmark program (bench/xmbase_bench.cpp)

    Arguments, the list of benchmarks, the allocation gate, the printed lines, the
    report and the exit code.  The code under measurement is a function on a world
    (what it does and how many allocations it makes) and a clock, one per
    benchmark; BenchBodies.v gives it the functions of the source. *)

From Stdlib Require Import ZArith Lia String Floats.SpecFloat.
From stdpp Require Import base list numbers.
From S2P Require Import Prelude Printf Metrics Stats Report.

Local Open Scope Z_scope.

(** ** Settings *)

Record settings := mkSettings { out_path : bytes; g_scale : double; g_smoke : bool; g_filter : bytes }.

(** 1.0 and 0.15. *)
Definition scale_full : double := S754_finite false 4503599627370496 (-52).
Definition scale_smoke : double := S754_finite false 5404319552844595 (-55).

Definition settings0 : settings := mkSettings (text "xmbase_bench_report.json") scale_full false [].

Definition arg_is (s : string) (a : bytes) : bool := bool_decide (a = text s).

(** The loop over [argv]; [None] is the usage message and exit code 2. *)
Fixpoint parse_args (args : list bytes) (c : settings) : option settings :=
  match args with
  | [] => Some c
  | a :: args =>
      match args with
      | v :: args' =>
          if arg_is "--out" a then parse_args args' (mkSettings v (g_scale c) (g_smoke c) (g_filter c)) else
          if arg_is "--smoke" a then parse_args args (mkSettings (out_path c) scale_smoke true (g_filter c)) else
          if arg_is "--filter" a then parse_args args' (mkSettings (out_path c) (g_scale c) (g_smoke c) v) else None
      | [] =>
          if arg_is "--smoke" a then parse_args args (mkSettings (out_path c) scale_smoke true (g_filter c)) else None
      end
  end.

Definition Enabled (c : settings) (name : bytes) : bool := empty (g_filter c) || contains (g_filter c) name.

(** [static_cast<int>]: toward zero. *)
Definition trunc_int (v : double) : option Z :=
  match v with
  | S754_zero _ => Some 0
  | S754_finite s m e =>
      let n := Z.pos m * 2 ^ Z.max e 0 / 2 ^ Z.max (- e) 0 in
      let n := if s then - n else n in
      if (- 2 ^ 31 <=? n) && (n <? 2 ^ 31) then Some n else None
  | S754_infinity _ | S754_nan => None
  end.

Definition ScaledSamples (c : settings) (samples floor_samples : Z) : option Z :=
  scaled ← trunc_int (dmul (double_of samples) (g_scale c));
  Some (if scaled <? floor_samples then floor_samples else scaled).

(** ** The benchmarks *)

Definition kBatch : Z := 256.

Definition to_string (z : Z) : bytes := digits 10 false z.

(** The lambda a benchmark function measures, with its template argument. *)
Inductive bench_kind :=
| KLatestStore (kBytes : Z) | KLatestLoad (kBytes : Z) | KQueuePushPop (kBytes : Z) | KMutexLatestStoreLoad
| KWaiterNotify | KBufferStore (kDepth : Z) | KBufferSnapshot | KLatestStoreContended (kBytes : Z).

(** A benchmark function: its lambda, its row before the measurement, the samples it
    asks for and whether it checks its sink. *)
Record benchmark := mkBenchmark { b_kind : bench_kind; b_row : BenchResult; b_samples : Z; b_sink : bool }.

Definition BenchResult_default : BenchResult :=
  mkBenchResult [] [] 0 false 1 Stats_default 0 false false (S754_zero false) (S754_zero false) [] []
    (S754_zero false) (double_of (-1)) [].

(** The fields the benchmark functions set. *)
Definition row (name layer : bytes) (payload_bytes : Z) (contended : bool) (batch : Z) (alloc_gated : bool) : BenchResult :=
  mkBenchResult name layer payload_bytes contended batch Stats_default 0 alloc_gated false (S754_zero false) (S754_zero false)
    [] [] (S754_zero false) (double_of (-1)) [].

Definition BenchLatestStore (kBytes : Z) : benchmark :=
  mkBenchmark (KLatestStore kBytes) (row (text "micro/latest_store/" ++ to_string kBytes ++ text "B") (text "micro") kBytes false kBatch true) 400 false.
Definition BenchLatestLoad (kBytes : Z) : benchmark :=
  mkBenchmark (KLatestLoad kBytes) (row (text "micro/latest_load/" ++ to_string kBytes ++ text "B") (text "micro") kBytes false kBatch true) 400 true.
Definition BenchQueuePushPop (kBytes : Z) : benchmark :=
  mkBenchmark (KQueuePushPop kBytes) (row (text "micro/queue_push_pop/" ++ to_string kBytes ++ text "B") (text "micro") kBytes false kBatch true) 400 false.
Definition BenchMutexLatestStoreLoad : benchmark :=
  mkBenchmark KMutexLatestStoreLoad (row (text "micro/mutex_latest_store_load/64B") (text "micro") 64 false kBatch true) 400 false.
Definition BenchWaiterNotifyUncontended : benchmark :=
  mkBenchmark KWaiterNotify (row (text "micro/futex_notify_all_uncontended") (text "micro") 0 false 64 true) 200 false.
Definition BenchBufferStore (kDepth : Z) : benchmark :=
  mkBenchmark (KBufferStore kDepth) (row (text "micro/message_buffer_store/64B/N" ++ to_string kDepth) (text "micro") 64 false kBatch true) 400 false.
Definition BenchBufferSnapshot : benchmark :=
  mkBenchmark KBufferSnapshot (row (text "micro/message_buffer_snapshot/64B/N16/k8") (text "micro") 64 false kBatch true) 400 true.
Definition BenchLatestStoreContended (kBytes : Z) : benchmark :=
  mkBenchmark (KLatestStoreContended kBytes) (row (text "contended/latest_store_2readers/" ++ to_string kBytes ++ text "B") (text "contended") kBytes true kBatch true) 400 false.

(** In the order [main] calls them. *)
Definition benchmarks : list benchmark :=
  [BenchLatestStore 16; BenchLatestStore 64; BenchLatestStore 256; BenchLatestLoad 64;
   BenchBufferStore 1; BenchBufferStore 4; BenchBufferStore 16; BenchBufferSnapshot;
   BenchQueuePushPop 64; BenchQueuePushPop 256; BenchMutexLatestStoreLoad;
   BenchWaiterNotifyUncontended; BenchLatestStoreContended 64].

(** ** Running *)

(** [Record]: the gate, then the row. *)
Definition gate_failure (r : BenchResult) : bytes :=
  name r ++ text ": " ++ to_string (allocations_ r) ++ text " allocation(s) in the measured section".

(** [%-<n>s] and [%<n>.1f]. *)
Definition print_left (n : nat) (t : bytes) : bytes := let t := c_str t in t ++ repeat c_space (n - length t).
Definition print_ns (n : nat) (v : double) : bytes := print_decoded Fixed false false (Some n) (Some 1%nat) (printf_arg v).

(** The line [Record] prints. *)
Definition record_line (r : BenchResult) : bytes :=
  print_left 40 (name r) ++ text " p50 " ++ print_ns 9 (p50 (stats r)) ++ text "  p99 " ++ print_ns 9 (p99 (stats r)) ++
  text "  p99.9 " ++ print_ns 9 (p999 (stats r)) ++ text "  max " ++ print_ns 10 (max (stats r)) ++ text " ns  (n=" ++
  to_string (samples (stats r)) ++ (if 1 <? batch r then text ", batched" else []) ++ text ", alloc=" ++
  to_string (allocations_ r) ++ (if alloc_gated r then text " gated" else []) ++ newline ")".

(** [g_results], [g_gate_failures] and what went to [stdout]. *)
Definition recorded : Type := list BenchResult * list bytes * bytes.

Definition Record_ (r : BenchResult) (st : recorded) : recorded :=
  let '(g_results, g_gate_failures, out) := st in
  let g_gate_failures := if alloc_gated r && negb (allocations_ r =? 0) then g_gate_failures ++ [gate_failure r] else g_gate_failures in
  (g_results ++ [r], g_gate_failures, out ++ record_line r).

Definition measured (r : BenchResult) (s : Stats) (allocations : Z) (notes : bytes) : BenchResult :=
  mkBenchResult (name r) (layer r) (payload_bytes r) (contended r) (batch r) s allocations (alloc_gated r) (has_jitter r)
    (jitter_p99_ns r) (jitter_max_ns r) (group r) (mode r) (rate_hz r) (achieved_fps r) notes.

Section Program.
Context {W : Type}.
(** Per lambda: the state the benchmark function sets up, the lambda, the clock; and
    the sum the lambda accumulates. *)
Context (init : bench_kind -> W) (op : bench_kind -> W -> W * nat) (clock : bench_kind -> nat -> Z) (sink : W -> Z).

Definition run_benchmark (c : settings) (b : benchmark) (st : recorded) : option recorded :=
  let r := b_row b in
  if negb (Enabled c (name r)) then Some st else
  n ← ScaledSamples c (b_samples b) 50;
  m ← MeasureBatched (op (b_kind b)) (clock (b_kind b)) (batch r) n (init (b_kind b), mkAlloc false 0);
  let '(s, a, (w, _)) := m in
  s ← s;
  Some (Record_ (measured r s a (if b_sink b && (sink w =? 0) then text "sink zero (unexpected)" else [])) st).

Fixpoint run_benchmarks (c : settings) (l : list benchmark) (st : recorded) : option recorded :=
  match l with
  | [] => Some st
  | b :: l => st ← run_benchmark c b st; run_benchmarks c l st
  end.

(** What is printed before, and to [stderr]. *)
Definition preamble (c : settings) (hw : HardwareContext) : bytes :=
  text "xmbase_bench " ++ [226; 128; 148] ++ text " primitive numbers (" ++ text (if g_smoke c then "smoke" else "full") ++ newline ")" ++
  text "  cpu      : " ++ c_str (cpu_model hw) ++ text " (nproc " ++ to_string (nproc hw) ++ text ", governor " ++
  c_str (governor hw) ++ newline ")" ++
  text "  kernel   : " ++ c_str (kernel hw) ++ (if preempt_rt hw then text " PREEMPT_RT" else []) ++ [10; 10].

Definition usage (argv0 : bytes) : bytes :=
  text "usage: " ++ c_str argv0 ++ newline " [--out <report.json>] [--smoke] [--filter <substr>]".

Definition gate_report (failures : list bytes) : bytes :=
  [10] ++ newline "ALLOC GATE FAILED:" ++ concat (map (fun f => text "  " ++ c_str f ++ [10]) failures).

(** What the report file's [fopen], [fwrite] and [fclose] answer. *)
Record file_answers := mkAnswers { f_opened : bool; f_written : bytes -> nat; f_closed : bool }.

(** The exit code, the two streams and, when the file was opened, the path and the
    text handed to [fwrite]. *)
Record run_result := mkRun { exit_code : Z; to_stdout : bytes; to_stderr : bytes; report : option (bytes * bytes) }.

Definition main (argv0 : bytes) (args : list bytes) (hw : HardwareContext) (now : bytes) (f : file_answers)
  : option run_result :=
  match parse_args args settings0 with
  | None => Some (mkRun 2 [] (usage argv0) None)
  | Some c =>
      st ← run_benchmarks c benchmarks ([], [], preamble c hw);
      let '(g_results, g_gate_failures, stdout) := st in
      let out := report_text (text "xmbase-bench-v1") now hw g_results (g_smoke c) (g_scale c) g_gate_failures in
      let file := if f_opened f then Some (out_path c, out) else None in
      if negb (WriteJsonReport (f_opened f) (f_written f out) (f_closed f) out) then
        Some (mkRun 1 stdout (text "xmbase_bench: failed to write " ++ c_str (out_path c) ++ [10]) file) else
      let stdout := stdout ++ [10] ++ text "report: " ++ c_str (out_path c) ++ [10] in
      if negb (empty g_gate_failures) then Some (mkRun 1 stdout (gate_report g_gate_failures) file)
      else Some (mkRun 0 stdout [] file)
  end.
End Program.

(** ** What a run does *)

Lemma parse_args_scale args c c' :
  g_scale c = scale_full \/ g_scale c = scale_smoke ->
  parse_args args c = Some c' -> g_scale c' = scale_full \/ g_scale c' = scale_smoke.
Proof.
  revert c. induction args as [args IH] using (induction_ltof1 _ (@length bytes)). unfold ltof in IH.
  intros c Hc. destruct args as [|a [|v args]]; cbn [parse_args]; [by intros [= <-]| |].
  - destruct (arg_is "--smoke" a); [|done]. intros [= <-]. by right.
  - destruct (arg_is "--out" a); [apply IH; [cbn; lia|done]|].
    destruct (arg_is "--smoke" a); [apply (IH (v :: args)); [cbn; lia|by right]|].
    destruct (arg_is "--filter" a); [apply IH; [cbn; lia|done]|done].
Qed.

Definition scale_ok (c : settings) : Prop := g_scale c = scale_full \/ g_scale c = scale_smoke.

(** The samples a benchmark gets: 400 or 200, 60 or 50 in a smoke run. *)
Lemma ScaledSamples_values c k :
  scale_ok c -> k = 400 \/ k = 200 ->
  exists n, ScaledSamples c k 50 = Some n /\ 50 <= n <= 400.
Proof.
  unfold ScaledSamples. intros [->| ->] [->| ->]; eexists; (split; [vm_compute; reflexivity|lia]).
Qed.

Section ProgramSpec.
Context {W : Type} (init : bench_kind -> W) (op : bench_kind -> W -> W * nat) (clock : bench_kind -> nat -> Z) (sink : W -> Z).

Definition sample_count (c : settings) (b : benchmark) : Z := default 0 (ScaledSamples c (b_samples b) 50).

(** How often a benchmark's lambda runs: four warmup batches, then its samples. *)
Definition warm_calls (b : benchmark) : nat := (4 * Z.to_nat (batch (b_row b)))%nat.
Definition probed_calls (c : settings) (b : benchmark) : nat := (Z.to_nat (sample_count c b) * Z.to_nat (batch (b_row b)))%nat.

Definition after_calls (b : benchmark) (n : nat) : W := Nat.iter n (advance (op (b_kind b))) (init (b_kind b)).

(** The allocations of the probed calls of a benchmark. *)
Definition gate_count (c : settings) (b : benchmark) : Z :=
  u64 (allocs (op (b_kind b)) (probed_calls c b) (after_calls b (warm_calls b))).

Definition runs (c : settings) (b : benchmark) : bool := Enabled c (name (b_row b)).

(** The row of a benchmark. *)
Definition row_of (c : settings) (b : benchmark) (r : BenchResult) : Prop :=
  exists s, samples s = sample_count c b /\
    r = measured (b_row b) s (gate_count c b)
          (if b_sink b && (sink (after_calls b (probed_calls c b + warm_calls b)) =? 0) then text "sink zero (unexpected)" else []).

Definition failure_of (c : settings) (b : benchmark) : list bytes :=
  opt (negb (gate_count c b =? 0))
    [name (b_row b) ++ text ": " ++ to_string (gate_count c b) ++ text " allocation(s) in the measured section"].

(** What every benchmark of the program has. *)
Definition benchmark_ok (b : benchmark) : Prop :=
  (b_samples b = 400 \/ b_samples b = 200) /\ 0 <= batch (b_row b) < 2 ^ 29 /\ alloc_gated (b_row b) = true.

Lemma run_benchmark_spec c b rs fs out :
  scale_ok c -> benchmark_ok b ->
  exists r, row_of c b r /\
    run_benchmark init op clock sink c b (rs, fs, out) =
    Some (if runs c b then (rs ++ [r], fs ++ failure_of c b, out ++ record_line r) else (rs, fs, out)).
Proof.
  intros Hc (Hs & Hb & Hg). destruct (ScaledSamples_values c (b_samples b) Hc Hs) as (n & En & Hn).
  assert (sample_count c b = n) as Ec by (unfold sample_count; by rewrite En).
  destruct (measurement_counts_the_batches (op (b_kind b)) (fun w => (w, 0%nat)) (clock (b_kind b))
              (batch (b_row b)) n (init (b_kind b)) 0 Hb ltac:(lia)) as [Em _].
  set (times_ := map _ _) in Em.
  destruct (ComputeStats_some times_) as (st & Est & Hst).
  { subst times_. rewrite length_map, length_seq. lia. }
  rewrite Est in Em. subst times_. rewrite length_map, length_seq in Hst.
  assert (samples st = sample_count c b) as Hst' by (rewrite Hst, Ec; lia).
  exists (measured (b_row b) st (gate_count c b)
    (if b_sink b && (sink (after_calls b (probed_calls c b + warm_calls b)) =? 0) then text "sink zero (unexpected)" else [])).
  split; [by exists st|]. unfold run_benchmark, runs. destruct (Enabled c (name (b_row b))); cbn [negb]; [|done].
  rewrite En. cbn [mbind option_bind]. rewrite Em. cbn [mbind option_bind]. f_equal. unfold Record_.
  unfold failure_of, gate_count, after_calls, probed_calls, warm_calls. rewrite Ec, Nat.iter_add.
  cbn [measured alloc_gated allocations_ name]. rewrite Hg. cbn [andb].
  destruct (negb _); cbn [opt]; [done|by rewrite app_nil_r].
Qed.

Lemma run_benchmarks_spec c l rs fs out :
  scale_ok c -> Forall benchmark_ok l ->
  exists rs', Forall2 (row_of c) (List.filter (runs c) l) rs' /\
    run_benchmarks init op clock sink c l (rs, fs, out) =
    Some (rs ++ rs', fs ++ concat (map (failure_of c) (List.filter (runs c) l)), out ++ concat (map record_line rs')).
Proof.
  intros Hc Hl. revert rs fs out. induction Hl as [|b l Hb _ IH]; intros rs fs out.
  { exists []. split; [constructor|]. cbn. by rewrite !app_nil_r. }
  destruct (run_benchmark_spec c b rs fs out Hc Hb) as (r & Hr & E). cbn [run_benchmarks List.filter]. rewrite E. cbn [mbind option_bind].
  destruct (runs c b).
  - destruct (IH (rs ++ [r]) (fs ++ failure_of c b) (out ++ record_line r)) as (rs' & H1 & H2). exists (r :: rs').
    split; [by constructor|]. cbn [map concat]. by rewrite H2, <- !app_assoc.
  - destruct (IH rs fs out) as (rs' & H1 & H2). by exists rs'.
Qed.

Lemma benchmarks_ok : Forall benchmark_ok benchmarks.
Proof.
  unfold benchmarks. repeat apply Forall_cons_2; try apply Forall_nil_2;
    unfold benchmark_ok; cbn; split_and!; first [by left|by right|lia|done].
Qed.

Lemma no_failures c l :
  concat (map (failure_of c) (List.filter (runs c) l)) = [] <->
  forall b, In b l -> runs c b = true -> gate_count c b = 0.
Proof.
  induction l as [|b l IH]; cbn [List.filter]; [by split|]. destruct (runs c b) eqn:E; cbn [map concat].
  - rewrite app_nil, IH. unfold failure_of. split.
    + intros [H1 H2] b' [<-|Hb'] Hr; [|by apply H2].
      destruct (Z.eqb_spec (gate_count c b) 0); [done|]. cbn in H1. by destruct (name (b_row b)).
    + intros H. split; [|intros; apply H; [by right|done]]. rewrite H; [done|by left|done].
  - rewrite IH. split; intros H b'; [intros [<-|?] Hr; [congruence|auto]|intros; apply H; [by right|done]].
Qed.

(** C27: The program, for any code under measurement and any clock: bad arguments
    give the usage message and exit code 2; otherwise the report's rows, and the
    lines printed under the hardware's, are the benchmarks the filter selects, in
    order, each with its scaled number of samples, the allocations of exactly its
    probed calls, and the note exactly when its sink stayed zero; the gate fails for
    exactly the selected benchmarks that allocated, and says so on stderr; and the
    exit code is 0 exactly when the file was written whole and closed and no
    benchmark failed the gate. *)
Theorem bench_exit_code (argv0 : bytes) (args : list bytes) (hw : HardwareContext) (now : bytes) (f : file_answers) :
  match parse_args args settings0 with
  | None => main init op clock sink argv0 args hw now f = Some (mkRun 2 [] (usage argv0) None)
  | Some c =>
      exists results failures,
        let out := report_text (text "xmbase-bench-v1") now hw results (g_smoke c) (g_scale c) failures in
        let written := f_opened f && f_closed f && bool_decide (f_written f out = length out) in
        main init op clock sink argv0 args hw now f =
          Some (mkRun (if written && empty failures then 0 else 1)
                  (preamble c hw ++ concat (map record_line results) ++
                   opt written ([10] ++ text "report: " ++ c_str (out_path c) ++ [10]))
                  (if written then opt (negb (empty failures)) (gate_report failures)
                   else text "xmbase_bench: failed to write " ++ c_str (out_path c) ++ [10])
                  (if f_opened f then Some (out_path c, out) else None)) /\
        Forall2 (row_of c) (List.filter (runs c) benchmarks) results /\
        failures = concat (map (failure_of c) (List.filter (runs c) benchmarks)) /\
        (failures = [] <-> forall b, In b benchmarks -> runs c b = true -> gate_count c b = 0)
  end.
Proof.
  unfold main. destruct (parse_args args settings0) as [c|] eqn:Ea; [|done].
  assert (scale_ok c) as Hc by (exact (parse_args_scale args settings0 c (or_introl eq_refl) Ea)).
  destruct (run_benchmarks_spec c benchmarks [] [] (preamble c hw) Hc benchmarks_ok) as (rs & Hrs & E).
  exists rs, (concat (map (failure_of c) (List.filter (runs c) benchmarks))). cbn zeta.
  rewrite E. cbn [mbind option_bind app]. split_and!; [|done|done|apply no_failures].
  set (failures := concat (map (failure_of c) _)). clearbody failures.
  set (out := report_text _ _ _ _ _ _ _). clearbody out.
  generalize (preamble c hw) (concat (map record_line rs)) (gate_report failures). intros pre lines gr.
  unfold WriteJsonReport. f_equal.
  destruct (f_opened f), (f_closed f), (bool_decide (f_written f out = length out)), (empty failures); cbn;
    f_equal; by rewrite ?app_nil_r, <- ?app_assoc.
Qed.
End ProgramSpec.

(** One selected benchmark in a smoke run, without and with an allocation. *)
Definition sample_main (allocs : nat) : option run_result :=
  main (fun _ => 0%nat) (fun _ w => (S w, allocs)) (fun _ i => 100 * Z.of_nat i) (fun w => Z.of_nat w) (text "bench")
    (map text ["--smoke"; "--filter"; "snapshot"; "--out"; "r.json"]%string) sample_hardware (text "now")
    (mkAnswers true (fun out => length out) true).

Example bench_passes : option_map exit_code (sample_main 0) = Some 0.
Proof. vm_compute. reflexivity. Qed.
Example bench_gate_fails :
  option_map (fun r => (exit_code r, to_stderr r)) (sample_main 1) =
  Some (1, [10] ++ newline "ALLOC GATE FAILED:" ++
           newline "  micro/message_buffer_snapshot/64B/N16/k8: 15360 allocation(s) in the measured section").
Proof. vm_compute. reflexivity. Qed.
Example bench_line :
  record_line (measured (b_row BenchBufferSnapshot) (mkStats (double_of 30) (double_of 50) (double_of 51) (double_of 1234) (double_of 40) 60) 0 []) =
  newline "micro/message_buffer_snapshot/64B/N16/k8 p50      30.0  p99      50.0  p99.9      51.0  max     1234.0 ns  (n=60, batched, alloc=0 gated)".
Proof. vm_compute. reflexivity. Qed.
