(* ===== verification/BenchBodies.v ===== *)
(** * What the benchmarks measure (bench/xmbase_bench.cpp)

    The lambdas of the benchmark functions and the state they set up, over the
    library's own operations: the slot, the buffer, the queue, the mutex slot and
    the event count.  One call at a time: the readers of the contended benchmark only
    load, and a load changes nothing a store looks at (SeqlockWeak has the threads). *)

From Stdlib Require Import ZArith Lia String.
From stdpp Require Import base list numbers relations.
From S2P Require Import Prelude Memory SeqlockRing SeqlockSeq Slots SpscQueue EventCount Printf Stats Metrics Report Bench.

Local Open Scope Z_scope.

(** ** Payloads *)

(** [Payload<kBytes>] with [words[0] = w], and [++words[0]]. *)
Definition payload (kBytes : nat) (w : Z) : bytes := le_bytes 8 w ++ repeat 0 (kBytes - 8).
Definition word0 (p : bytes) : Z := le_word (take 8 p).
Definition bump (p : bytes) : bytes := le_bytes 8 (word0 p + 1) ++ drop 8 p.

Lemma le_bytes_wrap n z : le_bytes n (wrap (8 * Z.of_nat n) z) = le_bytes n z.
Proof.
  rewrite <- le_word_le_bytes. rewrite <- (length_le_bytes n z) at 1. apply le_bytes_le_word, le_bytes_bytes.
Qed.

Lemma word0_payload K w : word0 (payload K w) = u64 w.
Proof. unfold word0, payload. rewrite take_app_length' by done. apply (le_word_le_bytes 8). Qed.

Lemma bump_payload K w : bump (payload K w) = payload K (w + 1).
Proof.
  unfold bump. rewrite word0_payload. unfold payload. rewrite drop_app_length' by done. f_equal.
  rewrite <- (le_bytes_wrap 8 (u64 w + 1)), <- (le_bytes_wrap 8 (w + 1)). f_equal. apply (wrap_add_l 64).
Qed.

Lemma payload_ok K w : (8 <= K)%nat -> length (payload K w) = K /\ Forall is_byte (payload K w).
Proof.
  intros HK. unfold payload. split; [rewrite length_app, repeat_length; cbn; lia|].
  apply Forall_app_2; [apply le_bytes_bytes|]. apply Forall_forall. intros x Hx%list_elem_of_In%repeat_spec. subst. done.
Qed.

(** ** The state and the code *)

(** What a benchmark function holds: the value, the output, the sink and the object. *)
Inductive bench_world :=
| WSlot (value : bytes) (out : list bytes) (sink : Z) (slot : rloc -> Z)
| WQueue (value out : bytes) (queue : qloc -> qval bytes)
| WMutex (value out : bytes) (slot : MutexMessageSlot.MutexMessageSlot bytes)
| WWaiter (s : EventCount.system).

Section Bodies.
(** What the allocated memory held before the constructors ran. *)
Variable heap : rloc -> Z.
Variable qheap : qloc -> qval bytes.

(** *** What each benchmark function sets up, and one call of its lambda; [None]: a call
    in it does not return. *)

Definition LatestStore_setup (K : nat) : option bench_world :=
  '(_, slot) ← srun 1 (MessageSlot.MessageSlot_ctor K true) heap;
  Some (WSlot (payload K 1) [] 0 slot).
Definition LatestStore_call (K : nat) (w : bench_world) : option bench_world :=
  match w with
  | WSlot value out sink slot =>
      let value := bump value in
      '(_, slot) ← srun 1 (MessageSlot.Store K value) slot;
      Some (WSlot value out sink slot)
  | _ => None
  end.

Definition LatestLoad_setup (K : nat) : option bench_world :=
  '(_, slot) ← srun 1 (MessageSlot.MessageSlot_ctor K true) heap;
  '(_, slot) ← srun 1 (MessageSlot.Store K (payload K 7)) slot;
  Some (WSlot (payload K 7) [payload K 0] 0 slot).
Definition LatestLoad_call (K : nat) (w : bench_world) : option bench_world :=
  match w with
  | WSlot value out sink slot =>
      '(r, slot) ← srun 1 (MessageSlot.Load K) slot;
      let out := match r with Some v => [v] | None => out end in
      Some (WSlot value out (u64 (sink + word0 (default [] (head out)))) slot)
  | _ => None
  end.

Definition QueuePushPop_setup (K : nat) : option bench_world :=
  '(_, queue) ← srun 1 (SpscQueue_ctor 16 true) qheap;
  Some (WQueue (payload K 0) (payload K 0) queue).
Definition QueuePushPop_call (w : bench_world) : option bench_world :=
  match w with
  | WQueue value out queue =>
      let value := bump value in
      '(_, queue) ← srun 1 (TryPush value) queue;
      '(r, queue) ← srun 1 TryPop queue;
      Some (WQueue value (default out r) queue)
  | _ => None
  end.

Definition MutexStoreLoad_setup : option bench_world :=
  Some (WMutex (payload 64 0) (payload 64 0) (MutexMessageSlot.MutexMessageSlot_ctor (payload 64 0))).
Definition MutexStoreLoad_call (w : bench_world) : option bench_world :=
  match w with
  | WMutex value out slot =>
      let value := bump value in
      let slot := MutexMessageSlot.Store value slot in
      Some (WMutex value (snd (MutexMessageSlot.Load slot out)) slot)
  | _ => None
  end.

Definition WaiterNotify_setup : option bench_world := Some (WWaiter (EventCount.initial 0 false [] 1)).
Definition WaiterNotify_call (w : bench_world) : option bench_world :=
  match w with
  | WWaiter s =>
      '(n, s) ← EventCount.NotifyAll_step EventCount.NBump s;
      '(_, s) ← EventCount.NotifyAll_step n s;
      Some (WWaiter s)
  | _ => None
  end.

Definition BufferStore_setup (N : nat) : option bench_world :=
  '(_, slot) ← srun 1 (MessageBuffer.MessageBuffer_ctor N 64 true) heap;
  Some (WSlot (payload 64 1) [] 0 slot).
Definition BufferStore_call (N : nat) (w : bench_world) : option bench_world :=
  match w with
  | WSlot value out sink slot =>
      let value := bump value in
      '(_, slot) ← srun 1 (MessageBuffer.Store N 64 value) slot;
      Some (WSlot value out sink slot)
  | _ => None
  end.

Definition BufferSnapshot_setup : option bench_world :=
  '(_, slot) ← srun 1 (MessageBuffer.MessageBuffer_ctor 16 64 true) heap;
  slot ← store_seq 16 64 (map (fun i => payload 64 (Z.of_nat i)) (seq 1 16)) slot;
  Some (WSlot (payload 64 16) (repeat (payload 64 0) 8) 0 slot).
Definition BufferSnapshot_call (w : bench_world) : option bench_world :=
  match w with
  | WSlot value out sink slot =>
      '(l, slot) ← srun 1 (MessageBuffer.Snapshot 16 64 8) slot;
      Some (WSlot value (l ++ drop (length l) out) (u64 (sink + Z.of_nat (length l))) slot)
  | _ => None
  end.

Definition LatestStoreContended_setup (K : nat) : option bench_world :=
  '(_, slot) ← srun 1 (MessageSlot.MessageSlot_ctor K true) heap;
  '(_, slot) ← srun 1 (MessageSlot.Store K (payload K 1)) slot;
  Some (WSlot (payload K 1) [] 0 slot).

Definition setup (k : bench_kind) : option bench_world :=
  match k with
  | KLatestStore b => LatestStore_setup (Z.to_nat b)
  | KLatestLoad b => LatestLoad_setup (Z.to_nat b)
  | KQueuePushPop b => QueuePushPop_setup (Z.to_nat b)
  | KMutexLatestStoreLoad => MutexStoreLoad_setup
  | KWaiterNotify => WaiterNotify_setup
  | KBufferStore d => BufferStore_setup (Z.to_nat d)
  | KBufferSnapshot => BufferSnapshot_setup
  | KLatestStoreContended b => LatestStoreContended_setup (Z.to_nat b)
  end.

(** The contended benchmark's lambda is that of the uncontended one. *)
Definition body (k : bench_kind) : bench_world -> option bench_world :=
  match k with
  | KLatestStore b | KLatestStoreContended b => LatestStore_call (Z.to_nat b)
  | KLatestLoad b => LatestLoad_call (Z.to_nat b)
  | KQueuePushPop _ => QueuePushPop_call
  | KMutexLatestStoreLoad => MutexStoreLoad_call
  | KWaiterNotify => WaiterNotify_call
  | KBufferStore d => BufferStore_call (Z.to_nat d)
  | KBufferSnapshot => BufferSnapshot_call
  end.

(** The functions handed to the measurement.  No operation above calls operator new;
    what the platform allocates in a call (its mutex, its condition variable) is
    [a], which may depend on the lambda and on the state it is called in. *)
Definition bench_init (k : bench_kind) : bench_world := default (WWaiter (EventCount.initial 0 false [] 0)) (setup k).
Definition bench_op (a : bench_kind -> bench_world -> nat) (k : bench_kind) (w : bench_world) : bench_world * nat :=
  (default w (body k w), a k w).
Definition bench_sink (w : bench_world) : Z := match w with WSlot _ _ sink _ => sink | _ => 0 end.
End Bodies.

(** ** What the lambdas do *)

(** The stores of [n] calls after [first]. *)
Definition stores (K : nat) (first : Z) (n : nat) : list bytes :=
  map (fun i => payload K (first + Z.of_nat i)) (seq 1 n).

Lemma stores_S K first n : stores K first (S n) = stores K first n ++ [payload K (first + Z.of_nat (S n))].
Proof. unfold stores. by rewrite seq_S, map_app. Qed.

Lemma length_stores K first n : length (stores K first n) = n.
Proof. unfold stores. by rewrite length_map, length_seq. Qed.

Lemma snapshot_values : map (fun i => payload 64 (Z.of_nat i)) (seq 1 16) = stores 64 0 16.
Proof. by apply map_ext. Qed.

(** The state after [n] calls of a benchmark's lambda. *)
Definition world_after (k : bench_kind) (n : nat) (w : bench_world) : Prop :=
  let z := Z.of_nat n in
  match k with
  | KLatestStore kBytes =>
      let K := Z.to_nat kBytes in
      exists slot, w = WSlot (payload K (1 + z)) [] 0 slot /\ holds 1 K slot (stores K 1 n)
  | KLatestLoad kBytes =>
      let K := Z.to_nat kBytes in
      exists slot, w = WSlot (payload K 7) [payload K (if (n =? 0)%nat then 0 else 7)] (u64 (7 * z)) slot /\
        holds 1 K slot [payload K 7]
  | KQueuePushPop kBytes =>
      let K := Z.to_nat kBytes in
      exists queue, w = WQueue (payload K z) (payload K z) queue /\ queue_rep 16 (n + n) [] queue
  | KMutexLatestStoreLoad => w = WMutex (payload 64 z) (payload 64 z) (MutexMessageSlot.Slot (payload 64 z) (negb (n =? 0)%nat))
  | KWaiterNotify => exists s, w = WWaiter s /\ EventCount.word s = u32 z /\ EventCount.waiters s = []
  | KBufferStore kDepth =>
      exists slot, w = WSlot (payload 64 (1 + z)) [] 0 slot /\ holds (Z.to_nat kDepth) 64 slot (stores 64 1 n)
  | KBufferSnapshot =>
      exists slot, w = WSlot (payload 64 16)
          (if (n =? 0)%nat then repeat (payload 64 0) 8 else map (fun i => payload 64 (16 - Z.of_nat i)) (seq 0 8)) (u64 (8 * z)) slot /\
        holds 16 64 slot (stores 64 0 16)
  | KLatestStoreContended kBytes =>
      let K := Z.to_nat kBytes in
      exists slot, w = WSlot (payload K (1 + z)) [] 0 slot /\ holds 1 K slot (payload K 1 :: stores K 1 n)
  end.

Definition kind_ok (k : bench_kind) : Prop :=
  match k with
  | KLatestStore b | KLatestLoad b | KQueuePushPop b | KLatestStoreContended b => 8 <= b
  | KBufferStore d => 0 < d
  | _ => True
  end.

(** *** The objects are set up, and each lambda returns. *)
Lemma setup_ok heap qheap k : kind_ok k -> exists w, setup heap qheap k = Some w /\ world_after k 0 w.
Proof.
  intros Hk. destruct k as [b|b|b| | |d| |b]; cbn [kind_ok setup world_after] in *;
    unfold LatestStore_setup, LatestLoad_setup, BufferStore_setup, BufferSnapshot_setup, LatestStoreContended_setup;
    try assert (8 <= Z.to_nat b)%nat as HK by lia.
  - destruct (ring_holds_ctor 1 (Z.to_nat b) ltac:(lia) heap) as (slot & E & Hs).
    eexists. split; [apply (bind_step _ _ _ _ _ E); reflexivity|]. by exists slot.
  - destruct (ring_holds_ctor 1 (Z.to_nat b) ltac:(lia) heap) as (slot & E & Hs).
    destruct (holds_store 1 _ ltac:(lia) slot [] (payload (Z.to_nat b) 7) Hs ltac:(done) (payload_ok _ _ HK)) as (s1 & E1 & Hs1).
    eexists. split; [apply (bind_step _ _ _ _ _ E), (bind_step _ _ _ _ _ E1); reflexivity|]. by exists s1.
  - eexists. split; [reflexivity|]. eexists. split; [done|]. split; [|done|cbn; lia]. exists 0%nat. by split_and!.
  - by eexists.
  - eexists. split; [done|]. by eexists.
  - destruct (ring_holds_ctor (Z.to_nat d) 64 ltac:(lia) heap) as (slot & E & Hs).
    eexists. split; [apply (bind_step _ _ _ _ _ E); reflexivity|]. by exists slot.
  - destruct (ring_holds_ctor 16 64 ltac:(lia) heap) as (slot & E & Hs).
    destruct (store_seq_holds 16 64 (stores 64 0 16) slot [] ltac:(lia) Hs) as (s1 & E1 & Hs1); [rewrite length_stores; cbn; lia| |].
    { unfold stores. apply Forall_map, Forall_true. intros i. apply payload_ok. lia. }
    rewrite app_nil_l in Hs1. rewrite <- snapshot_values in E1.
    eexists. split; [apply (bind_step _ _ _ _ _ E), (bind_one _ _ _ _ E1); reflexivity|]. exists s1. split; [reflexivity|exact Hs1].
  - destruct (ring_holds_ctor 1 (Z.to_nat b) ltac:(lia) heap) as (slot & E & Hs).
    destruct (holds_store 1 _ ltac:(lia) slot [] (payload (Z.to_nat b) 1) Hs ltac:(done) (payload_ok _ _ HK)) as (s1 & E1 & Hs1).
    eexists. split; [apply (bind_step _ _ _ _ _ E), (bind_step _ _ _ _ _ E1); reflexivity|]. by exists s1.
Qed.

Lemma queue_push_pop C bound (s : qloc -> qval bytes) v :
  (0 < C)%nat -> queue_rep C bound [] s -> Z.of_nat (S (S bound)) < 2 ^ 63 ->
  exists s1 s2, srun 1 (TryPush v) s = Some (true, s1) /\ srun 1 TryPop s1 = Some (Some v, s2) /\ queue_rep C (S (S bound)) [] s2.
Proof.
  intros HC Hr Hb. destruct (call_refines C HC 1 bound (QPush v) [] s Hr ltac:(lia)) as (s1 & E1 & H1).
  cbn [call_prog bounded_queue length app] in E1, H1. destruct (decide (0 < C)%nat); [|lia]. cbn [fst snd] in E1, H1.
  destruct (call_refines C HC 1 (S bound) QPop [v] s1 H1 ltac:(lia)) as (s2 & E2 & H2).
  cbn [call_prog bounded_queue fst snd] in E2, H2. rewrite srun_bind in E1, E2.
  destruct (srun 1 (TryPush v) s) as [[b s1']|]; [|done]. injection E1 as -> ->.
  destruct (srun 1 TryPop s1) as [[r s2']|] eqn:E; [|done]. injection E2 as -> ->. by exists s1, s2.
Qed.

Lemma snapshot_take : take 8 (reverse (stores 64 0 16)) = map (fun i => payload 64 (16 - Z.of_nat i)) (seq 0 8).
Proof.
  assert (forall f : Z -> bytes, take 8 (reverse (map (fun i => f (0 + Z.of_nat i)) (seq 1 16))) =
                                 map (fun i => f (16 - Z.of_nat i)) (seq 0 8)) as H by reflexivity.
  exact (H (payload 64)).
Qed.

Lemma u64_add_mul k n : u64 (u64 (k * Z.of_nat n) + k) = u64 (k * Z.of_nat (S n)).
Proof. rewrite wrap_add_l. f_equal. lia. Qed.

(** One call of a storing lambda. *)
Lemma store_call N K slot first n l :
  (0 < N)%nat -> (8 <= K)%nat -> holds N K slot (l ++ stores K first n) -> Z.of_nat (length l + n) < 2 ^ 62 ->
  exists slot', srun 1 (RStore N K (payload K (first + Z.of_nat (S n)))) slot = Some (tt, slot') /\
    holds N K slot' (l ++ stores K first (S n)).
Proof.
  intros HN HK Hs Hn. destruct (holds_store N K HN slot _ (payload K (first + Z.of_nat (S n))) Hs) as (s1 & E & Hs1);
    [rewrite length_app, length_stores; lia|by apply payload_ok|].
  exists s1. split; [exact E|]. by rewrite stores_S, app_assoc.
Qed.

Lemma body_ok k n w :
  kind_ok k -> Z.of_nat n < 2 ^ 61 -> world_after k n w -> exists w', body k w = Some w' /\ world_after k (S n) w'.
Proof.
  intros Hk Hn. destruct k as [b|b|b| | |d| |b]; cbn [kind_ok world_after] in *;
    try assert (8 <= Z.to_nat b)%nat as HK by lia.
  - intros (slot & -> & Hs). destruct (store_call 1 (Z.to_nat b) slot 1 n [] ltac:(lia) HK Hs ltac:(cbn; lia)) as (s1 & E & Hs1).
    eexists. split; [cbn [body LatestStore_call BufferStore_call]; rewrite bump_payload; replace (1 + Z.of_nat n + 1) with (1 + Z.of_nat (S n)) by lia; apply (bind_step _ _ _ _ _ E); reflexivity|].
    by exists s1.
  - intros (slot & -> & Hs). destruct (holds_load 1 (Z.to_nat b) ltac:(lia) slot _ Hs ltac:(cbn; lia)) as (s1 & E & Hs1).
    eexists. split; [cbn [body LatestLoad_call BufferSnapshot_call]; apply (bind_value _ _ _ _ _ E); reflexivity|]. exists s1. split; [|exact Hs1].
    cbn [last head default from_option id]. rewrite word0_payload. by rewrite <- (u64_add_mul 7 n).
  - intros (queue & -> & Hq).
    destruct (queue_push_pop 16 (n + n) queue (payload (Z.to_nat b) (Z.of_nat (S n))) ltac:(lia) Hq ltac:(lia)) as (s1 & s2 & E1 & E2 & H2).
    eexists. split.
    { cbn [body QueuePushPop_call]. rewrite bump_payload. replace (Z.of_nat n + 1) with (Z.of_nat (S n)) by lia.
      apply (bind_step _ _ _ _ _ E1), (bind_value _ _ _ _ _ E2). reflexivity. }
    exists s2. split; [reflexivity|]. by replace (S n + S n)%nat with (S (S (n + n))) by lia.
  - intros ->. eexists. split; [reflexivity|]. cbn [MutexMessageSlot.Load MutexMessageSlot.Store MutexMessageSlot.written_ MutexMessageSlot.value_ snd negb].
    rewrite bump_payload. by replace (Z.of_nat n + 1) with (Z.of_nat (S n)) by lia.
  - intros (s & -> & Hw & Hws). eexists. split; [reflexivity|]. eexists. split; [reflexivity|].
    cbn [EventCount.word EventCount.waiters]. rewrite Hw, Hws. split; [|done]. rewrite wrap_add_l. f_equal. lia.
  - intros (slot & -> & Hs). destruct (store_call (Z.to_nat d) 64 slot 1 n [] ltac:(lia) ltac:(lia) Hs ltac:(cbn; lia)) as (s1 & E & Hs1).
    eexists. split; [cbn [body LatestStore_call BufferStore_call]; rewrite bump_payload; replace (1 + Z.of_nat n + 1) with (1 + Z.of_nat (S n)) by lia; apply (bind_step _ _ _ _ _ E); reflexivity|].
    by exists s1.
  - intros (slot & -> & Hs).
    destruct (holds_snapshot 16 64 ltac:(lia) slot _ 8 Hs) as (s1 & E & Hs1); [rewrite length_stores; lia|lia|].
    replace (Nat.min (Z.to_nat 8) 16) with 8%nat in E by lia. rewrite snapshot_take in E.
    eexists. split; [cbn [body LatestLoad_call BufferSnapshot_call]; apply (bind_value _ _ _ _ _ E); reflexivity|]. exists s1. split; [|exact Hs1].
    rewrite length_map, length_seq. change (Z.of_nat 8) with 8. rewrite (u64_add_mul 8 n). f_equal. rewrite drop_ge, app_nil_r; [done|].
    destruct (n =? 0)%nat; [by rewrite repeat_length|by rewrite length_map, length_seq].
  - intros (slot & -> & Hs).
    destruct (store_call 1 (Z.to_nat b) slot 1 n [payload (Z.to_nat b) 1] ltac:(lia) HK Hs ltac:(cbn [length]; lia)) as (s1 & E & Hs1).
    eexists. split; [cbn [body LatestStore_call BufferStore_call]; rewrite bump_payload; replace (1 + Z.of_nat n + 1) with (1 + Z.of_nat (S n)) by lia; apply (bind_step _ _ _ _ _ E); reflexivity|].
    by exists s1.
Qed.

(** [n] calls of a lambda. *)
Definition calls (k : bench_kind) (n : nat) (w : bench_world) : option bench_world :=
  Nat.iter n (fun w => w ≫= body k) (Some w).

Lemma calls_ok heap qheap a k n :
  kind_ok k -> Z.of_nat n < 2 ^ 61 ->
  exists w0 w, setup heap qheap k = Some w0 /\ calls k n w0 = Some w /\ world_after k n w /\
    Nat.iter n (advance (bench_op a k)) (bench_init heap qheap k) = w.
Proof.
  intros Hk Hn. destruct (setup_ok heap qheap k Hk) as (w0 & E0 & H0). exists w0. unfold bench_init. rewrite E0. cbn [default].
  induction n as [|n IH]; [by exists w0|]. destruct IH as (w & _ & Ec & Hw & Ei); [lia|].
  destruct (body_ok k n w Hk ltac:(lia) Hw) as (w' & Eb & Hw'). exists w'. split; [done|]. split_and!; [|done|].
  - unfold calls in *. rewrite Nat.iter_succ, Ec. exact Eb.
  - rewrite Nat.iter_succ. unfold from_option, id in *. rewrite Ei. unfold advance, bench_op. cbn [fst]. by rewrite Eb.
Qed.

Lemma kinds_ok : Forall (fun b => kind_ok (b_kind b)) benchmarks.
Proof. repeat constructor; done. Qed.

(** The sinks are checked in two benchmarks only, whose lambdas add 7 and 8. *)
Lemma sinks_positive b k n w :
  In b benchmarks -> b_sink b = true -> b_kind b = k -> (0 < n)%nat -> Z.of_nat n < 2 ^ 60 -> world_after k n w -> bench_sink w <> 0.
Proof.
  intros Hb Hs <- Hn Hn2.
  assert (b_kind b = KLatestLoad 64 \/ b_kind b = KBufferSnapshot) as [E|E].
  { repeat (destruct Hb as [<-|Hb]; [first [discriminate Hs|by left|by right]|]). destruct Hb. }
  - rewrite E. intros (slot & -> & _). cbn [bench_sink]. rewrite (wrap_id 64); [lia|unfold in_width; lia].
  - rewrite E. intros (slot & -> & _). cbn [bench_sink]. rewrite (wrap_id 64); [lia|unfold in_width; lia].
Qed.

(** A sequence of calls counts no allocation exactly when none of them makes one. *)
Lemma allocs_zero {W : Type} (op : W -> W * nat) n w :
  allocs op n w = 0 <-> forall i, (i < n)%nat -> snd (op (Nat.iter i (advance op) w)) = 0%nat.
Proof.
  revert w. induction n as [|n IH]; intros w; cbn [allocs]; [split; [lia|done]|].
  pose proof (IH (advance op w)) as H.
  assert (forall k w, 0 <= allocs op k w) as Hpos by (induction k as [|k IHk]; intros w'; cbn [allocs]; [lia|specialize (IHk (advance op w')); lia]).
  pose proof (Hpos n (advance op w)). split.
  - intros E [|i] Hi; [cbn; lia|]. rewrite Nat.iter_succ_r. apply H; lia.
  - intros Hall. pose proof (Hall 0%nat ltac:(lia)) as E0. change (Nat.iter 0 (advance op) w) with w in E0. rewrite E0.
    rewrite (proj2 H); [lia|]. intros i Hi. rewrite <- Nat.iter_succ_r. apply Hall. lia.
Qed.

Lemma allocs_bound {W : Type} (op : W -> W * nat) n w m : (forall w, Z.of_nat (snd (op w)) <= m) -> 0 <= allocs op n w <= Z.of_nat n * m.
Proof.
  intros Hm. revert w. induction n as [|n IH]; intros w; cbn [allocs]; [lia|].
  specialize (IH (advance op w)). specialize (Hm w). lia.
Qed.

(** How often a lambda runs. *)
Lemma calls_bound c b :
  scale_ok c -> In b benchmarks -> (0 < probed_calls c b + warm_calls b)%nat /\ Z.of_nat (probed_calls c b + warm_calls b) < 2 ^ 20.
Proof.
  intros Hc Hb. pose proof benchmarks_ok as H. rewrite List.Forall_forall in H. destruct (H b Hb) as (Hs & _ & _).
  destruct (ScaledSamples_values c (b_samples b) Hc Hs) as (n & E & Hn).
  assert (sample_count c b = n) as Es by (unfold sample_count; by rewrite E).
  assert (1 <= batch (b_row b) <= 256) as Hbt by (repeat (destruct Hb as [<-|Hb]; [by vm_compute|]); destruct Hb).
  unfold probed_calls, warm_calls. rewrite Es. nia.
Qed.

(** The calls of benchmark [b] that are probed allocate nothing. *)
Definition clean (heap : rloc -> Z) (qheap : qloc -> qval bytes) (a : bench_kind -> bench_world -> nat) (c : settings) (b : benchmark) : Prop :=
  forall i w0 w, (warm_calls b <= i < warm_calls b + probed_calls c b)%nat ->
    setup heap qheap (b_kind b) = Some w0 -> calls (b_kind b) i w0 = Some w -> a (b_kind b) w = 0%nat.

Lemma gate_count_clean heap qheap a c b :
  (forall k w, Z.of_nat (a k w) < 2 ^ 32) -> scale_ok c -> In b benchmarks ->
  gate_count (bench_init heap qheap) (bench_op a) c b = 0 <-> clean heap qheap a c b.
Proof.
  intros Ha Hc Hb. destruct (calls_bound c b Hc Hb) as [_ Hn2]. pose proof kinds_ok as Hk. rewrite List.Forall_forall in Hk.
  assert (forall i, (i < warm_calls b + probed_calls c b)%nat ->
    exists w0 w, setup heap qheap (b_kind b) = Some w0 /\ calls (b_kind b) i w0 = Some w /\
      Nat.iter i (advance (bench_op a (b_kind b))) (bench_init heap qheap (b_kind b)) = w) as Hat.
  { intros i Hi. destruct (calls_ok heap qheap a (b_kind b) i (Hk b Hb) ltac:(lia)) as (w0 & w & H1 & H2 & _ & H4). by exists w0, w. }
  unfold gate_count. rewrite wrap_id.
  2: { pose proof (allocs_bound (bench_op a (b_kind b)) (probed_calls c b)
         (after_calls (bench_init heap qheap) (bench_op a) b (warm_calls b)) (2 ^ 32)) as Hle.
       unfold in_width. destruct Hle as [? ?]; [intros w; cbn [bench_op snd]; specialize (Ha (b_kind b) w); lia|]. lia. }
  rewrite allocs_zero. unfold clean, after_calls. split.
  - intros H i w0 w Hi E0 E. destruct (Hat i ltac:(lia)) as (v0 & v & F0 & F & Ei).
    assert (w = v) as -> by congruence. rewrite <- Ei.
    specialize (H (i - warm_calls b)%nat ltac:(lia)). rewrite <- Nat.iter_add in H.
    by replace (i - warm_calls b + warm_calls b)%nat with i in H by lia.
  - intros H j Hj. rewrite <- Nat.iter_add. destruct (Hat (j + warm_calls b)%nat ltac:(lia)) as (w0 & w & E0 & E & Ei).
    cbn [bench_op snd]. rewrite Ei. by apply (H (j + warm_calls b)%nat w0 w); [lia|..].
Qed.

Lemma row_without_note heap qheap a c b r :
  scale_ok c -> In b benchmarks -> row_of (bench_init heap qheap) (bench_op a) bench_sink c b r -> notes r = [].
Proof.
  intros Hc Hb (s & _ & ->). cbn [measured notes]. destruct (b_sink b) eqn:Es; [|done].
  destruct (calls_bound c b Hc Hb) as [Hn Hn2]. pose proof kinds_ok as Hk. rewrite List.Forall_forall in Hk.
  destruct (calls_ok heap qheap a (b_kind b) (probed_calls c b + warm_calls b) (Hk b Hb) ltac:(lia)) as (w0 & w & _ & _ & Hw & E).
  unfold after_calls. rewrite E. by rewrite (proj2 (Z.eqb_neq _ _) (sinks_positive b _ _ w Hb Es eq_refl Hn ltac:(lia) Hw)).
Qed.

(** C28: What the benchmarks measure: every lambda the program measures, over the
    library's own operations and from any heap, can be called 2^61 times (the
    contended one is called without its readers); each call returns, every push is
    accepted and popped again, every store is what the next load finds, the mutex
    slot loads what it stored, a snapshot copies the eight newest of sixteen values
    newest first, the epoch counts the notifications.  So a run of the program never
    notes an unused sink.  Whatever the calls allocate (less than 2^32 times each, so
    that the counter cannot wrap), it exits with 0 exactly when its report is
    written and no probed call of a selected benchmark allocated: the warm-up does
    not count, and one allocation in the state a probed call finds is enough to
    fail. *)
Theorem bench_measures_the_library (heap : rloc -> Z) (qheap : qloc -> qval bytes) (a : bench_kind -> bench_world -> nat)
  (clock : bench_kind -> nat -> Z) (argv0 : bytes) (args : list bytes) (hw : HardwareContext) (now : bytes)
  (f : file_answers) (c : settings) :
  parse_args args settings0 = Some c -> (forall k w, Z.of_nat (a k w) < 2 ^ 32) ->
  (forall b n, In b benchmarks -> Z.of_nat n < 2 ^ 61 ->
     exists w0 w, setup heap qheap (b_kind b) = Some w0 /\ calls (b_kind b) n w0 = Some w /\ world_after (b_kind b) n w) /\
  exists results failures lines,
    run_benchmarks (bench_init heap qheap) (bench_op a) clock bench_sink c benchmarks ([], [], preamble c hw) =
      Some (results, failures, lines) /\
    map name results = map (fun b => name (b_row b)) (List.filter (runs c) benchmarks) /\
    Forall (fun r => notes r = []) results /\
    let out := report_text (text "xmbase-bench-v1") now hw results (g_smoke c) (g_scale c) failures in
    let written := f_opened f && f_closed f && bool_decide (f_written f out = length out) in
    option_map exit_code (main (bench_init heap qheap) (bench_op a) clock bench_sink argv0 args hw now f) =
      Some (if written && empty failures then 0 else 1) /\
    (failures = [] <-> forall b, In b benchmarks -> runs c b = true -> clean heap qheap a c b).
Proof.
  intros Hc Ha. split.
  { intros b n Hb Hn. pose proof kinds_ok as Hk. rewrite List.Forall_forall in Hk.
    destruct (calls_ok heap qheap a (b_kind b) n (Hk b Hb) Hn) as (w0 & w & H1 & H2 & H3 & _). by exists w0, w. }
  assert (scale_ok c) as Hs by (exact (parse_args_scale args settings0 c (or_introl eq_refl) Hc)).
  destruct (run_benchmarks_spec (bench_init heap qheap) (bench_op a) clock bench_sink c benchmarks [] [] (preamble c hw) Hs benchmarks_ok)
    as (rs & Hrs & E).
  cbn [app] in E. do 3 eexists. split; [exact E|]. split_and!.
  - clear E. induction Hrs as [|b r l rs (s & _ & ->) _ IH]; [done|]. cbn [map] in *. by rewrite IH.
  - apply Forall_lookup. intros i r Hi. destruct (Forall2_lookup_r _ _ _ _ _ Hrs Hi) as (b & Hb & Hrow).
    apply list_elem_of_lookup_2, list_elem_of_In, filter_In in Hb as [Hb _]. by apply (row_without_note heap qheap a c b).
  - intros out written. split.
    + unfold main. rewrite Hc, E. cbn [mbind option_bind]. unfold WriteJsonReport. cbn zeta. subst written. fold out.
      set (failures := concat _) in *. clearbody out failures.
      by destruct (f_opened f), (f_closed f), (bool_decide (f_written f out = length out)), (empty failures).
    + rewrite no_failures. split; intros H b Hb Hr; specialize (H b Hb Hr); by apply (gate_count_clean heap qheap a c b Ha Hs Hb).
Qed.

(** A smoke run on a platform whose event count allocates at its 2000th notification:
    past the warm-up, so the gate fails. *)
Definition late_allocation (k : bench_kind) (w : bench_world) : nat :=
  match w with WWaiter ec => if EventCount.word ec =? 2000 then 1%nat else 0%nat | _ => 0%nat end.

Lemma bench_measures_the_library_witness :
  exists results failures lines,
    run_benchmarks (bench_init (fun _ => 5) (fun _ => Num 3)) (bench_op late_allocation) (fun _ i => 100 * Z.of_nat i) bench_sink
      (mkSettings (text "xmbase_bench_report.json") scale_smoke true []) benchmarks
      ([], [], preamble (mkSettings (text "xmbase_bench_report.json") scale_smoke true []) sample_hardware) = Some (results, failures, lines) /\
    failures <> [].
Proof.
  destruct (bench_measures_the_library (fun _ => 5) (fun _ => Num 3) late_allocation (fun _ i => 100 * Z.of_nat i)
    (text "bench") [text "--smoke"] sample_hardware (text "now") (mkAnswers true (fun out => length out) true)
    (mkSettings (text "xmbase_bench_report.json") scale_smoke true [])) as [Hcalls (rs & fs & ls & E & _ & _ & _ & Hf)].
  - reflexivity.
  - intros k w. unfold late_allocation. destruct w; try destruct (_ =? _); lia.
  - exists rs, fs, ls. split; [exact E|]. intros Hn. apply (proj1 Hf) with (b := BenchWaiterNotifyUncontended) in Hn.
    + destruct (Hcalls BenchWaiterNotifyUncontended 2000%nat) as (w0 & w & E0 & Ew & Hw); [repeat (first [left; reflexivity|right])|lia|].
      destruct Hw as (ec & -> & Hw & _).
      pose proof (Hn 2000%nat w0 (WWaiter ec) ltac:(vm_compute; lia) E0 Ew) as Hz.
      cbn [late_allocation] in Hz. by rewrite Hw in Hz.
    + repeat (first [left; reflexivity|right]).
    + vm_compute. reflexivity.
Defined.
