(* ===== verification/Handles.v ===== *)
(** * Instrument handles on their slots (telemetry/handles.hpp)

    A handle is a slot; what it updates is the slot's memory.  [Counter::Add],
    [Gauge::Set] and [Histogram::Record] of a thread that is not disturbed, as runs
    of the steps of Metrics.v, and what an application acts on: the front door, the
    memory of the slots and its thread-local trace state, with the end of a span as
    an application sees it. *)

From Stdlib Require Import ZArith Lia Floats.SpecFloat.
From stdpp Require Import base list numbers relations.
From S2P Require Import Prelude Context Printf ArgPack Format Unbound ConsoleFormat Console Dispatch Metrics Stats Report.

Local Open Scope Z_scope.

#[export] Instance slot_eq_dec : EqDecision slot.
Proof. solve_decision. Defined.

(** ** The bits of a double, as the argument pack copies them *)

Definition double_bits (v : Metrics.double) : Z :=
  u64 match v with
  | S754_zero s => if s then 2 ^ 63 else 0
  | S754_infinity s => (if s then 2 ^ 63 else 0) + 2047 * 2 ^ 52
  | S754_nan => 2047 * 2 ^ 52 + 2 ^ 51
  | S754_finite s m e =>
      (if s then 2 ^ 63 else 0) +
      (if Z.pos m <? 2 ^ 52 then Z.pos m else (e + 1075) * 2 ^ 52 + (Z.pos m - 2 ^ 52))
  end.

Lemma double_bits_width v : in_width 64 (double_bits v).
Proof. by apply wrap_range. Qed.

(** A number of 64 bits from its sign, exponent and fraction. *)
Lemma decode_fields (s : bool) (ex frac : Z) :
  0 <= ex < 2048 -> 0 <= frac < 2 ^ 52 ->
  decode_double (u64 ((if s then 2 ^ 63 else 0) + (ex * 2 ^ 52 + frac))) =
  if ex =? 2047 then (if frac =? 0 then Infinite s else NotANumber s)
  else Finite s (if ex =? 0 then frac else frac + 2 ^ 52) (Z.max ex 1 - 1075).
Proof.
  intros Hex Hf. rewrite wrap_id by (unfold in_width; destruct s; lia). set (bits := _ + _).
  assert (bits = (if s then 2048 else 0) * 2 ^ 52 + ex * 2 ^ 52 + frac) as Eb by (subst bits; destruct s; lia).
  assert (bits / 2 ^ 52 = (if s then 2048 else 0) + ex) as Ed.
  { rewrite Eb. replace (_ * 2 ^ 52 + ex * 2 ^ 52 + frac) with (frac + ((if s then 2048 else 0) + ex) * 2 ^ 52) by lia.
    rewrite Z.div_add by lia. rewrite Z.div_small by lia. lia. }
  unfold decode_double.
  assert (Z.testbit bits 63 = s) as ->.
  { rewrite Z.testbit_odd, Z.shiftr_div_pow2 by lia. change (2 ^ 63) with (2 ^ 52 * 2 ^ 11).
    rewrite <- Z.div_div, Ed by lia. destruct s.
    - replace (2048 + ex) with (ex + 1 * 2 ^ 11) by lia. rewrite Z.div_add, Z.div_small by lia. done.
    - rewrite Z.div_small by lia. done. }
  assert (Z.land (Z.shiftr bits 52) 2047 = ex) as ->.
  { change 2047 with (Z.ones 11). rewrite Z.land_ones, Z.shiftr_div_pow2, Ed by lia.
    destruct s; [replace (2048 + ex) with (ex + 1 * 2 ^ 11) by lia; rewrite Z.mod_add by lia|]; apply Z.mod_small; lia. }
  assert (Z.land bits (2 ^ 52 - 1) = frac) as ->; [|done].
  change (2 ^ 52 - 1) with (Z.ones 52). rewrite Z.land_ones, Eb by lia.
  replace (_ * 2 ^ 52 + ex * 2 ^ 52 + frac) with (frac + ((if s then 2048 else 0) + ex) * 2 ^ 52) by lia.
  rewrite Z.mod_add by lia. apply Z.mod_small. lia.
Qed.

(** A canonical mantissa has 53 bits, or the least exponent. *)
Lemma canonical_cases m e :
  SpecFloat.bounded 53 1024 m e = true -> 0 < Z.pos m < 2 ^ 53 /\ -1074 <= e <= 971 /\ (e = -1074 \/ 2 ^ 52 <= Z.pos m).
Proof.
  unfold SpecFloat.bounded, canonical_mantissa, fexp, emin. intros H. apply andb_true_iff in H as [Hc He].
  apply Z.eqb_eq in Hc. apply Z.leb_le in He. set (d := Z.pos (digits2_pos m)) in *.
  assert (2 ^ (d - 1) <= Z.pos m < 2 ^ d) as Hd.
  { subst d. clear. induction m as [m IH|m IH|]; cbn [digits2_pos]; [| |now compute];
      rewrite Pos2Z.inj_succ; set (k := Z.pos (digits2_pos m)) in *;
      (replace (Z.succ k - 1) with (Z.succ (k - 1)) by lia); rewrite !Z.pow_succ_r by (subst k; lia); lia. }
  assert (d <= 53) as Hd53 by lia.
  assert (2 ^ d <= 2 ^ 53) by (apply Z.pow_le_mono_r; lia).
  split_and!; try lia. destruct (Z.eq_dec e (-1074)) as [->|Hne]; [by left|right].
  assert (d = 53) as -> by lia. exact (proj1 Hd).
Qed.

(** The bits mean the number. *)
Lemma decode_double_bits v :
  dvalid v = true -> v <> S754_nan -> decode_double (double_bits v) = printf_arg v.
Proof.
  intros Hv Hn. destruct v as [s|s| |s m e]; [by destruct s|by destruct s|done|].
  destruct (canonical_cases m e Hv) as (Hm & He & Hc). cbn [printf_arg]. unfold double_bits.
  destruct (Z.ltb_spec (Z.pos m) (2 ^ 52)) as [Hlt|Hge].
  - replace (Z.pos m) with (0 * 2 ^ 52 + Z.pos m) at 1 by lia. rewrite decode_fields by lia. cbn [Z.eqb].
    f_equal. lia.
  - rewrite decode_fields by lia.
    replace (e + 1075 =? 2047) with false by (symmetry; apply Z.eqb_neq; lia).
    replace (e + 1075 =? 0) with false by (symmetry; apply Z.eqb_neq; lia). f_equal; lia.
Qed.

(** ** Updates of an undisturbed thread *)

Section Loop.
Context {PC ST : Type} (step : double -> PC -> ST -> option (PC * ST)) (done_ : PC -> bool).

(** The steps of one call, each reading the newest value. *)
Fixpoint call_loop (fuel : nat) (v : double) (pc : PC) (s : ST) : option ST :=
  if done_ pc then Some s else
  match fuel with
  | O => None
  | S fuel => match step v pc s with Some (pc, s) => call_loop fuel v pc s | None => None end
  end.
End Loop.

Definition Slot_Add (v : Metrics.double) (c : cell) : option cell :=
  call_loop (fun v pc c => Add_step (pred (length c)) false v pc c)
    (fun pc => match pc with ADone => true | _ => false end) 2 v ALoad c.

Lemma Slot_Add_spec v c : c <> [] -> Slot_Add v c = Some (c ++ [dadd (newest c) v]).
Proof.
  intros Hc. destruct (last_index c Hc) as (x & Hx & Hl & _). unfold Slot_Add. cbn [call_loop Add_step].
  unfold cell_read. rewrite Hx. cbn [call_loop Add_step]. rewrite cell_cas_newest by done.
  cbn [call_loop]. unfold newest. by rewrite Hl.
Qed.

Lemma newest_snoc (c : cell) v : newest (c ++ [v]) = v.
Proof. unfold newest. by rewrite last_snoc. Qed.

(** The reads of a record's steps, each of the newest value of its cell. *)
Definition newest_read (pc : record_pc) (h : HistogramSlot) : nat :=
  match pc with
  | RSumLoad | RSumCas _ => pred (length (h_sum h))
  | RMinLoad | RMin _ => pred (length (h_min h))
  | RMaxLoad | RMax _ => pred (length (h_max h))
  | _ => 0
  end.

Definition Slot_Record (v : Metrics.double) (h : HistogramSlot) : option HistogramSlot :=
  call_loop (fun v pc h => Record_step (newest_read pc h) false v pc h)
    (fun pc => match pc with RDone => true | _ => false end) 8 v RCount h.

(** A slot in use: its cells have values, its buckets are there. *)
Definition histogram_ok (h : HistogramSlot) : Prop :=
  h_sum h <> [] /\ h_min h <> [] /\ h_max h <> [] /\ length (h_buckets h) = Z.to_nat kHistogramBuckets.

Definition recorded (b : Z) (v : Metrics.double) (h h' : HistogramSlot) : Prop :=
  h_count h' = u64 (h_count h + 1) /\
  h_buckets h' = alter (fun n => u64 (n + 1)) (Z.to_nat b) (h_buckets h) /\
  newest (h_sum h') = dadd (newest (h_sum h)) v /\
  newest (h_min h') = (if dlt v (newest (h_min h)) then v else newest (h_min h)) /\
  newest (h_max h') = (if dlt (newest (h_max h)) v then v else newest (h_max h)).

Lemma Slot_Record_spec v h b :
  histogram_ok h -> HistogramBucketOf v = Some b -> 0 <= b < kHistogramBuckets ->
  exists h', Slot_Record v h = Some h' /\ histogram_ok h' /\ recorded b v h h'.
Proof.
  intros (Hs & Hmi & Hma & Hb) Hbu Hb24.
  destruct (last_index _ Hs) as (s & Hs1 & Hs2 & _). destruct (last_index _ Hmi) as (mi & Hmi1 & Hmi2 & _).
  destruct (last_index _ Hma) as (ma & Hma1 & Hma2 & _).
  destruct (lookup_lt_is_Some_2 (h_buckets h) (Z.to_nat b)) as [n Hn]; [unfold kHistogramBuckets in *; lia|].
  assert (<[Z.to_nat b := u64 (n + 1)]> (h_buckets h) = alter (fun n => u64 (n + 1)) (Z.to_nat b) (h_buckets h)) as Ea
    by (rewrite list_insert_alter; apply list_alter_ext; [intros x Hx; congruence|done]).
  assert (newest (h_sum h) = s /\ newest (h_min h) = mi /\ newest (h_max h) = ma) as (Es & Emi & Ema)
    by (unfold newest; by rewrite Hs2, Hmi2, Hma2).
  unfold Slot_Record, recorded, histogram_ok. rewrite Es, Emi, Ema.
  cbn [call_loop Record_step newest_read h_sum h_min h_max h_buckets h_count]. rewrite Hbu, Hn.
  cbn [call_loop Record_step newest_read h_sum h_min h_max h_buckets h_count]. unfold cell_read. rewrite Hs1.
  cbn [call_loop Record_step newest_read h_sum h_min h_max h_buckets h_count]. rewrite (cell_cas_newest s) by done.
  cbn [call_loop Record_step newest_read h_sum h_min h_max h_buckets h_count]. unfold cell_read. rewrite Hmi1.
  cbn [call_loop Record_step newest_read h_sum h_min h_max h_buckets h_count].
  destruct (dlt v mi) eqn:Emin; [rewrite (cell_cas_newest mi) by done|];
    cbn [call_loop Record_step newest_read h_sum h_min h_max h_buckets h_count]; unfold cell_read; rewrite Hma1;
    cbn [call_loop Record_step newest_read h_sum h_min h_max h_buckets h_count];
    (destruct (dlt ma v) eqn:Emax; [rewrite (cell_cas_newest ma) by done|]);
    (eexists; split; [done|]); cbn [h_sum h_min h_max h_buckets h_count];
    rewrite ?newest_snoc, ?Emi, ?Ema; rewrite Ea; split_and!; try done; rewrite ?length_alter; try done;
    by intros [? [=]]%app_nil.
Qed.

(** What a histogram holds after the records [vs] of one thread, in order. *)
Definition tallied (vs : list Metrics.double) (h : HistogramSlot) : Prop :=
  h_count h = u64 (Z.of_nat (length vs)) /\ length (h_buckets h) = Z.to_nat kHistogramBuckets /\
  (forall b, 0 <= b < kHistogramBuckets -> h_buckets h !! Z.to_nat b = Some (u64 (bucket_count b vs))) /\
  newest (h_sum h) = fold_left dadd vs (S754_zero false) /\
  newest (h_min h) = fold_left (fun m v => if dlt v m then v else m) vs (S754_infinity false) /\
  newest (h_max h) = fold_left (fun m v => if dlt m v then v else m) vs (S754_infinity true).

Lemma tallied_ctor : tallied [] HistogramSlot_ctor.
Proof. split_and!; try done. intros b Hb. apply lookup_repeat_lt. unfold kHistogramBuckets in *. lia. Qed.

Lemma tallied_snoc vs v b h h' :
  tallied vs h -> HistogramBucketOf v = Some b -> 0 <= b < kHistogramBuckets -> recorded b v h h' -> tallied (vs ++ [v]) h'.
Proof.
  intros (Hc & Hl & Hb & Hs & Hmi & Hma) Hv Hr (Rc & Rb & Rs & Rmi & Rma).
  split_and!; rewrite ?fold_left_app; cbn [fold_left].
  - by rewrite Rc, Hc, wrap_succ, length_app, Nat.add_1_r.
  - by rewrite Rb, length_alter.
  - intros b' Hb'. rewrite Rb, (bucket_count_perm b' (vs ++ [v]) (v :: vs)) by (symmetry; apply Permutation_cons_append).
    cbn [bucket_count fold_right]. fold (bucket_count b' vs). unfold bucket_is. rewrite Hv.
    destruct (Z.eqb_spec b b') as [->|Hne].
    + rewrite list_lookup_alter_eq, Hb by done. cbn. f_equal. apply wrap_add_l.
    + destruct (decide (Z.to_nat b = Z.to_nat b')) as [E|E]; [|by rewrite list_lookup_alter_ne, Hb].
      lia.
  - by rewrite Rs, Hs.
  - by rewrite Rmi, Hmi.
  - by rewrite Rma, Hma.
Qed.

(** ** An application *)

Section Application.
Context {S : Type}.

(** The memory behind the handles: every slot's modification order. *)
Record slots := mkSlots { counter_cell : slot -> cell; gauge_cell : slot -> cell; histogram_cell : slot -> HistogramSlot }.

Record application := mkApp { front : world S; memory : slots; tls : Context.thread }.

Definition with_front (a : application) (w : world S) : application := mkApp w (memory a) (tls a).
Definition on_front (a : application) (w : option (world S)) : option application := option_map (with_front a) w.

Definition update {A} (f : slot -> A) (k : slot) (x : A) : slot -> A := fun k' => if decide (k' = k) then x else f k'.

(** [Counter::Add], [Gauge::Set] and [Histogram::Record]. *)
Definition Counter_Add (h : slot) (v : Metrics.double) (a : application) : option application :=
  match Slot_Add v (counter_cell (memory a) h) with
  | None => None
  | Some c => Some (mkApp (front a) (mkSlots (update (counter_cell (memory a)) h c) (gauge_cell (memory a)) (histogram_cell (memory a))) (tls a))
  end.
Definition Gauge_Set (h : slot) (v : Metrics.double) (a : application) : application :=
  mkApp (front a) (mkSlots (counter_cell (memory a)) (update (gauge_cell (memory a)) h (Set_ v (gauge_cell (memory a) h))) (histogram_cell (memory a))) (tls a).
Definition Histogram_Record (h : slot) (v : Metrics.double) (a : application) : option application :=
  match Slot_Record v (histogram_cell (memory a) h) with
  | None => None
  | Some x => Some (mkApp (front a) (mkSlots (counter_cell (memory a)) (gauge_cell (memory a)) (update (histogram_cell (memory a)) h x)) (tls a))
  end.

(** What a counter or a gauge shows. *)
Definition counter_value (a : application) (h : slot) : Metrics.double := newest (counter_cell (memory a) h).
Definition gauge_value (a : application) (h : slot) : Metrics.double := newest (gauge_cell (memory a) h).

(** Every slot starts with a value. *)
Definition slots_ok (m : slots) : Prop := forall h, counter_cell m h <> [] /\ histogram_ok (histogram_cell m h).

Definition slots0 : slots := mkSlots (fun _ => CounterSlot_value) (fun _ => [S754_zero false]) (fun _ => HistogramSlot_ctor).

Lemma slots0_ok : slots_ok slots0.
Proof. intros h. by split_and!. Qed.

Lemma Counter_Add_spec h v a :
  slots_ok (memory a) ->
  exists a', Counter_Add h v a = Some a' /\ front a' = front a /\ tls a' = tls a /\ slots_ok (memory a') /\
    gauge_cell (memory a') = gauge_cell (memory a) /\ histogram_cell (memory a') = histogram_cell (memory a) /\
    forall k, counter_value a' k = if decide (k = h) then dadd (counter_value a h) v else counter_value a k.
Proof.
  intros Hok. unfold Counter_Add. rewrite Slot_Add_spec by apply Hok. eexists. split_and!; [done..| |done|done|].
  - intros k. split; [|apply Hok]. cbn [memory counter_cell]. unfold update. case_decide; [|apply Hok]. intros E%app_nil. by destruct E.
  - intros k. unfold counter_value. cbn [memory counter_cell]. unfold update. case_decide; [apply newest_snoc|done].
Qed.

Lemma Histogram_Record_spec h v b a :
  slots_ok (memory a) -> HistogramBucketOf v = Some b -> 0 <= b < kHistogramBuckets ->
  exists a', Histogram_Record h v a = Some a' /\ front a' = front a /\ tls a' = tls a /\ slots_ok (memory a') /\
    counter_cell (memory a') = counter_cell (memory a) /\ gauge_cell (memory a') = gauge_cell (memory a) /\
    recorded b v (histogram_cell (memory a) h) (histogram_cell (memory a') h).
Proof.
  intros Hok Hb Hb24. unfold Histogram_Record.
  destruct (Slot_Record_spec v (histogram_cell (memory a) h) b) as (x & -> & Hx & Hr); [apply Hok|done|done|].
  eexists. split_and!; [done..| |done|done|]; cbn [memory histogram_cell]; unfold update.
  - intros k. split; [apply Hok|]. cbn [histogram_cell]. case_decide; [done|apply Hok].
  - by rewrite decide_True.
Qed.

(** ** Scopes of an application *)

Definition with_tls (t : Context.thread) (a : application) : application := mkApp (front a) (memory a) t.

(** A span's destructor as the application sees it. *)
Definition close_span (bd : option (Binding S)) (s : Span) (now : Z) (a : application) : application :=
  let '(r, t) := Span_dtor s (match bd with Some _ => true | None => false end) now (tls a) in
  let w := match bd, r with
           | Some b, Some r => with_backend (front a) (emit_span _ b r (backend (front a)))
           | _, _ => front a
           end in
  mkApp w (memory a) t.
End Application.
Arguments application : clear implicits.
