(* ===== verification/DeviceHealth.v ===== *)
(** * Device health with hysteresis (examples/device_health_example.cpp)

    The device driver's supervisor: a freshness gauge, health transitions that are
    reported only once a state has held, attributed faults.  The whole [Supervise]
    runs against the front door and the slots of any binding; its specification is
    a window over the states observed. *)

From Stdlib Require Import ZArith Lia String.
From stdpp Require Import base list numbers relations.
From S2P Require Import Prelude Context Printf ArgPack Format Unbound ConsoleFormat Console Dispatch Metrics Stats Report Handles.

Local Open Scope Z_scope.

(** ** The driver *)

Definition kHoldTicks : Z := 3.

Record FakeImuDriver := mkDriver {
  src_ : EventSource;
  age_ms_ : slot;
  faults_ : slot;
  last_ns_ : Z;
  reported_ : HealthState;
  candidate_ : HealthState;
  held_ : Z
}.

Section Driver.
Context {W : Type} (bd : option (Binding W)).

Definition FakeImuDriver_ctor (a : application W) : FakeImuDriver * application W :=
  let '(src, w) := GetEventSource bd (str "imu.front") (front a) in
  let '(age, w) := GetGauge bd (str "imu.front.age_ms") w in
  let '(faults, w) := GetCounter bd (str "imu.front.faults") w in
  (mkDriver src age faults 0 kOk kOk 0, with_front a w).

Definition OnSample (now : Z) (d : FakeImuDriver) : FakeImuDriver :=
  mkDriver (src_ d) (age_ms_ d) (faults_ d) now (reported_ d) (candidate_ d) (held_ d).

(** What the clock shows in one tick of the loop: at [OnSample] when the device is
    fed, at [Supervise], and at the emissions it makes. *)
Record tick := mkTick { t_feed : option Z; t_now : Z; t_report : Z; t_event : Z }.

(** [duration<double, milli>]. *)
Definition millis (ns : Z) : Metrics.double := ddiv (double_of ns) (double_of 1000000).

Definition raw_state (age : Z) : HealthState :=
  if 200 * 1000000 <? age then kDisconnected else if 50 * 1000000 <? age then kDegraded else kOk.

(** The calls a reported transition makes. *)
Definition report_transition (k : tick) (raw : HealthState) (age_ms : Metrics.double) (d : FakeImuDriver) (a : application W)
  : option (application W) :=
  let detail := if decide (raw = kOk) then str "recovered" else str "stale sample stream" in
  match on_front a (ReportHealth bd (Some (str "imu.front")) raw (Some detail) (CurrentContext (tls a)) (t_report k) (front a)) with
  | None => None
  | Some a =>
      if decide (raw = kDisconnected) then
        match Counter_Add (faults_ d) (double_of 1) a with
        | None => None
        | Some a =>
            on_front a (XM_LOG 0 bd (Some (src_ d)) kError
              (str "no samples for {:.0f} ms " ++ [226; 128; 148] ++ str " treating as disconnected")
              [AFloat (double_bits age_ms)] (CurrentContext (tls a)) (t_event k) (front a))
        end
      else Some a
  end.

(** [None] for the overflow of a signed integer, or of a call that does not return. *)
Definition Supervise (k : tick) (d : FakeImuDriver) (a : application W) : option (FakeImuDriver * application W) :=
  let age := t_now k - last_ns_ d in
  if negb (bool_decide (- 2 ^ 63 <= age < 2 ^ 63)) then None else
  let age_ms := millis age in
  let a := Gauge_Set (age_ms_ d) age_ms a in
  let raw := raw_state age in
  if decide (raw = candidate_ d) then
    if held_ d + 1 =? 2 ^ 31 then None else
    let held := held_ d + 1 in
    if (kHoldTicks <=? held) && bool_decide (raw <> reported_ d) then
      let d := mkDriver (src_ d) (age_ms_ d) (faults_ d) (last_ns_ d) raw (candidate_ d) held in
      option_map (pair d) (report_transition k raw age_ms d a)
    else Some (mkDriver (src_ d) (age_ms_ d) (faults_ d) (last_ns_ d) (reported_ d) (candidate_ d) held, a)
  else Some (mkDriver (src_ d) (age_ms_ d) (faults_ d) (last_ns_ d) (reported_ d) raw 0, a).

(** The loop of [main]'s [run], one entry per iteration. *)
Fixpoint run (ticks : list tick) (d : FakeImuDriver) (a : application W) : option (FakeImuDriver * application W) :=
  match ticks with
  | [] => Some (d, a)
  | k :: ticks =>
      let d := match t_feed k with Some now => OnSample now d | None => d end in
      match Supervise k d a with Some (d, a) => run ticks d a | None => None end
  end.

(** ** Specification *)

(** The age each tick sees, from the time of the last sample. *)
Fixpoint ages (ticks : list tick) (last : Z) : list Z :=
  match ticks with
  | [] => []
  | k :: ticks => let last := default last (t_feed k) in (t_now k - last) :: ages ticks last
  end.

(** The states seen, newest first; a transition to [x] is due when the last four
    are [x] and [x] is not what was reported last. *)
Definition due (seen : list HealthState) (reported x : HealthState) : bool :=
  bool_decide (take 4 seen = [x; x; x; x]) && bool_decide (x <> reported).

Fixpoint transitions (seen : list HealthState) (reported : HealthState) (raws : list HealthState) : list (option HealthState) :=
  match raws with
  | [] => []
  | x :: raws =>
      let seen := x :: seen in
      if due seen reported x then Some x :: transitions seen x raws else None :: transitions seen reported raws
  end.

(** What the decisions do: the gauge every tick, the calls of a transition when due. *)
Fixpoint enact (ticks : list tick) (last : Z) (l : list (option HealthState)) (d : FakeImuDriver) (a : application W) : option (application W) :=
  match ticks, l with
  | k :: ticks, o :: l =>
      let last := default last (t_feed k) in
      let age_ms := millis (t_now k - last) in
      let a := Gauge_Set (age_ms_ d) age_ms a in
      match match o with Some x => report_transition k x age_ms d a | None => Some a end with
      | None => None
      | Some a => enact ticks last l d a
      end
  | _, _ => Some a
  end.

(** The driver as it stands after what it has seen: [held_] counts how often the
    candidate repeated. *)
Fixpoint repeats (x : HealthState) (seen : list HealthState) : nat :=
  match seen with
  | y :: seen => if decide (y = x) then S (repeats x seen) else O
  | [] => O
  end.

Definition tracks (seen : list HealthState) (d : FakeImuDriver) : Prop :=
  exists rest, seen = candidate_ d :: rest /\ held_ d = Z.of_nat (repeats (candidate_ d) rest).

Lemma repeats_four x rest : (3 <= repeats x rest)%nat <-> take 3 rest = [x; x; x].
Proof.
  destruct rest as [|a [|b [|c rest]]]; cbn; repeat case_decide; subst; split; try lia; try done; try congruence.
Qed.

Lemma enact_driver ticks last l d d' a :
  src_ d' = src_ d -> age_ms_ d' = age_ms_ d -> faults_ d' = faults_ d -> enact ticks last l d' a = enact ticks last l d a.
Proof.
  intros H1 H2 H3. revert last l a. induction ticks as [|k ticks IH]; intros last [|o l] a; [done..|].
  cbn [enact]. rewrite H2. unfold report_transition. rewrite H1, H3.
  destruct o; [|apply IH]. destruct (on_front _ _); [|done]. case_decide; [|apply IH].
  destruct (Counter_Add _ _ _); [|done]. destruct (on_front _ _); [apply IH|done].
Qed.

(** One tick follows the window. *)
Lemma Supervise_window k d a seen :
  tracks seen d -> held_ d + 1 < 2 ^ 31 -> - 2 ^ 63 <= t_now k - last_ns_ d < 2 ^ 63 ->
  let age_ms := millis (t_now k - last_ns_ d) in
  let x := raw_state (t_now k - last_ns_ d) in
  let a1 := Gauge_Set (age_ms_ d) age_ms a in
  exists d', tracks (x :: seen) d' /\ held_ d' <= held_ d + 1 /\ last_ns_ d' = last_ns_ d /\
    (src_ d' = src_ d /\ age_ms_ d' = age_ms_ d /\ faults_ d' = faults_ d) /\
    reported_ d' = (if due (x :: seen) (reported_ d) x then x else reported_ d) /\
    Supervise k d a = option_map (pair d')
      (if due (x :: seen) (reported_ d) x then report_transition k x age_ms d a1 else Some a1).
Proof.
  intros (rest & -> & Hheld) Hov Hage age_ms x a1. unfold Supervise.
  rewrite bool_decide_true by done. cbn [negb]. fold x age_ms a1.
  destruct (decide (x = candidate_ d)) as [Ex|Ex].
  - replace (held_ d + 1 =? 2 ^ 31) with false by (symmetry; apply Z.eqb_neq; lia).
    assert (repeats x (candidate_ d :: rest) = S (repeats (candidate_ d) rest)) as Er.
    { cbn [repeats]. rewrite decide_True by done. by rewrite Ex. }
    assert (due (x :: candidate_ d :: rest) (reported_ d) x = (kHoldTicks <=? held_ d + 1) && bool_decide (x <> reported_ d)) as ->.
    { unfold due. f_equal. pose proof (repeats_four x (candidate_ d :: rest)) as H4. rewrite Er in H4.
      change (take 4 (x :: candidate_ d :: rest)) with (x :: take 3 (candidate_ d :: rest)).
      generalize dependent (take 3 (candidate_ d :: rest)). intros w H4. unfold kHoldTicks. destruct (Z.leb_spec 3 (held_ d + 1)).
      - apply bool_decide_true. f_equal. apply H4. lia.
      - apply bool_decide_false. intros [= E]. apply H4 in E. lia. }
    destruct ((kHoldTicks <=? held_ d + 1) && bool_decide (x <> reported_ d)).
    + eexists. split; [|split; [|split; [|split; [|split; [|done]]]]]; try done.
      exists (candidate_ d :: rest). cbn [candidate_ held_]. rewrite <- Ex in *. rewrite Er. split; [done|lia].
    + eexists. split; [|split; [|split; [|split; [|split; [|done]]]]]; try done.
      exists (candidate_ d :: rest). cbn [candidate_ held_]. rewrite <- Ex in *. rewrite Er. split; [done|lia].
  - assert (due (x :: candidate_ d :: rest) (reported_ d) x = false) as ->.
    { unfold due. rewrite bool_decide_false; [done|]. cbn [take]. intros [=]. congruence. }
    eexists. split; [|split; [|split; [|split; [|split; [|done]]]]]; try done; cbn [held_]; [|lia].
    exists (candidate_ d :: rest). cbn [candidate_ held_ repeats]. rewrite decide_False by congruence. done.
Qed.

(** What the clock may show: ages fit 64 bits. *)
Definition ages_ok (ticks : list tick) (last : Z) : Prop := Forall (fun age => - 2 ^ 63 <= age < 2 ^ 63) (ages ticks last).

Lemma run_window ticks d a seen :
  tracks seen d -> held_ d + Z.of_nat (length ticks) < 2 ^ 31 -> ages_ok ticks (last_ns_ d) ->
  option_map snd (run ticks d a) =
  enact ticks (last_ns_ d) (transitions seen (reported_ d) (map raw_state (ages ticks (last_ns_ d)))) d a.
Proof.
  revert d a seen. induction ticks as [|k ticks IH]; intros d a seen Ht Hh Ha; [done|].
  cbn [run ages map transitions length] in *. unfold ages_ok in Ha. cbn [ages] in Ha. apply Forall_cons_1 in Ha as [Ha Has].
  set (d1 := match t_feed k with Some now => OnSample now d | None => d end).
  assert (last_ns_ d1 = default (last_ns_ d) (t_feed k) /\ tracks seen d1 /\ held_ d1 = held_ d /\ reported_ d1 = reported_ d /\
          src_ d1 = src_ d /\ age_ms_ d1 = age_ms_ d /\ faults_ d1 = faults_ d) as (El & Ht1 & Eh & Er & E1 & E2 & E3)
    by (subst d1; destruct (t_feed k); done).
  rewrite <- El, <- Er in *. rewrite <- Eh in Hh.
  destruct (Supervise_window k d1 a seen Ht1 ltac:(lia) Ha) as (d2 & Ht2 & Hh2 & El2 & (F1 & F2 & F3) & Er2 & ->).
  set (x := raw_state (t_now k - last_ns_ d1)) in *.
  rewrite <- (enact_driver _ _ _ d d1) by done.
  assert (forall a2, option_map snd (run ticks d2 a2) =
            enact ticks (last_ns_ d1) (transitions (x :: seen) (reported_ d2) (map raw_state (ages ticks (last_ns_ d1)))) d1 a2) as HIH.
  { intros a2. rewrite (IH d2 a2 (x :: seen)); [|done|lia|by rewrite El2]. rewrite El2. by apply enact_driver. }
  destruct (due (x :: seen) (reported_ d1) x); cbn [enact]; rewrite Er2 in HIH.
  - rewrite <- El. destruct (report_transition k x _ d1 _); cbn [option_map]; [apply HIH|done].
  - rewrite <- El. cbn [option_map]. apply HIH.
Qed.

(** The ticks of the three phases; the sample between the last two. *)
Definition phases (healthy pulled recovery : list tick) (between : Z) (d : FakeImuDriver) (a : application W) : option (FakeImuDriver * application W) :=
  match run healthy d a with
  | None => None
  | Some (d, a) =>
      match run pulled d a with
      | None => None
      | Some (d, a) => run recovery (OnSample between d) a
      end
  end.

(** The whole program; [hello] and [bye] are the times of its two events. *)
Definition main (hello : Z) (healthy pulled recovery : list tick) (between bye : Z) (a : application W) : option (FakeImuDriver * application W) :=
  match on_front a (XM_LOG 0 bd None kInfo (str "device health demo: healthy -> cable pull -> recovery") [] (CurrentContext (tls a)) hello (front a)) with
  | None => None
  | Some a =>
      let '(imu, a) := FakeImuDriver_ctor a in
      match phases healthy pulled recovery between imu a with
      | None => None
      | Some (imu, a) =>
          option_map (pair imu)
            (on_front a (XM_LOG 0 bd None kInfo (str "done " ++ [226; 128; 148] ++ str " transitions were reported once each, no flapping") []
              (CurrentContext (tls a)) bye (front a)))
      end
  end.

Lemma Supervise_faults k d a d' a' : Supervise k d a = Some (d', a') -> faults_ d' = faults_ d.
Proof.
  unfold Supervise. destruct (negb _); [done|]. destruct (decide _); [|by intros [= <- _]].
  destruct (_ =? _); [done|]. destruct (_ && _); [|by intros [= <- _]].
  destruct (report_transition _ _ _ _ _); [|done]. by intros [= <- _].
Qed.

Lemma run_faults ticks d a d' a' : run ticks d a = Some (d', a') -> faults_ d' = faults_ d.
Proof.
  revert d a. induction ticks as [|k ticks IH]; intros d a; cbn [run]; [by intros [= <- _]|].
  destruct (Supervise _ _ a) as [[d1 a1]|] eqn:E; [|done]. intros H. apply Supervise_faults in E.
  rewrite (IH _ _ H), E. by destruct (t_feed k).
Qed.
End Driver.

(** ** Windows *)

(** A reported transition: the last four states observed, those before the list
    included, are the one reported. *)
Lemma transitions_window seen reported raws i x :
  transitions seen reported raws !! i = Some (Some x) ->
  (3 <= length seen + i)%nat /\
  forall k, (k < 4)%nat -> (reverse seen ++ raws) !! (length seen + i - k)%nat = Some x.
Proof.
  revert seen reported i. induction raws as [|r raws IH]; intros seen reported i; [done|]. cbn [transitions].
  assert (forall rep, transitions (r :: seen) rep raws !! pred i = Some (Some x) -> (0 < i)%nat ->
    (3 <= length seen + i)%nat /\ forall k, (k < 4)%nat -> (reverse seen ++ r :: raws) !! (length seen + i - k)%nat = Some x) as Hrec.
  { intros rep H Hi. destruct (IH _ _ _ H) as [H1 H2]. cbn [length] in *. split; [lia|]. intros k Hk.
    specialize (H2 k Hk). rewrite reverse_cons, <- app_assoc in H2. cbn [app] in H2. rewrite <- H2. f_equal. lia. }
  destruct (due (r :: seen) reported r) eqn:Ed.
  - destruct i as [|i]; [|intros H; apply (Hrec r H); lia]. intros [= <-].
    unfold due in Ed. apply andb_true_iff in Ed as [Ed _]. apply bool_decide_eq_true in Ed.
    destruct seen as [|a [|b [|c seen]]]; try (by cbn in Ed). cbn [take] in Ed. injection Ed as -> -> ->.
    cbn [length]. split; [lia|]. intros k Hk.
    replace (reverse (r :: r :: r :: seen) ++ r :: raws) with (reverse seen ++ [r; r; r; r] ++ raws)
      by (rewrite !reverse_cons, <- !app_assoc; done).
    rewrite lookup_app_r by (rewrite length_reverse; lia). rewrite length_reverse.
    replace (_ - length seen)%nat with (3 - k)%nat by lia. by destruct k as [|[|[|[|k]]]]; [..|lia].
  - destruct i as [|i]; [done|]. intros H. apply (Hrec reported H). lia.
Qed.

(** Reports alternate. *)
Lemma transitions_alternate seen reported raws i a b :
  (reported :: omap id (transitions seen reported raws)) !! i = Some a ->
  (reported :: omap id (transitions seen reported raws)) !! S i = Some b -> a <> b.
Proof.
  revert seen reported i. induction raws as [|r raws IH]; intros seen reported i; [done|]. cbn [transitions].
  destruct (due (r :: seen) reported r) eqn:Ed; [|apply IH].
  destruct i as [|i]; [|apply (IH (r :: seen) r i)]. cbn. intros [= <-] [= <-].
  unfold due in Ed. apply andb_true_iff in Ed as [_ Ed]. by apply bool_decide_eq_true in Ed.
Qed.

(** A state that persists is reported once, at its fourth tick, unless it was the
    last reported. *)
Lemma transitions_same n seen x rest :
  omap id (transitions seen x (repeat x n ++ rest)) = omap id (transitions (repeat x n ++ seen) x rest).
Proof.
  revert seen. induction n as [|n IH]; intros seen; [done|]. cbn [repeat app transitions].
  assert (due (x :: seen) x x = false) as ->.
  { unfold due. rewrite (bool_decide_false (x <> x)) by (by intros []). apply andb_false_r. }
  cbn. rewrite IH. change (x :: seen) with ([x] ++ seen). by rewrite app_assoc, <- repeat_cons.
Qed.

Lemma transitions_new n y seen r x rest :
  x <> y -> x <> r ->
  omap id (transitions (y :: seen) r (repeat x (4 + n) ++ rest)) =
  x :: omap id (transitions (repeat x (4 + n) ++ y :: seen) x rest).
Proof.
  intros Hy Hr. cbn [Nat.add repeat app transitions].
  assert (forall l, take 4 l <> [x; x; x; x] -> due l r x = false) as Hnot.
  { intros l Hl. unfold due. by rewrite bool_decide_false. }
  rewrite (Hnot (x :: y :: seen)), (Hnot (x :: x :: y :: seen)), (Hnot (x :: x :: x :: y :: seen))
    by (cbn; intros [=]; congruence).
  assert (due (x :: x :: x :: x :: y :: seen) r x = true) as ->.
  { unfold due. by rewrite !bool_decide_true. }
  cbn [omap list_omap id]. f_equal. rewrite transitions_same. do 2 f_equal. change (x :: x :: x :: x :: y :: seen) with (repeat x 4 ++ y :: seen).
  rewrite app_assoc, <- repeat_app. by rewrite (Nat.add_comm n 4).
Qed.

(** ** At the console *)

Section OnConsole.
Variable io : Z -> platform * list write_result.
Hypothesis io_works : forall ts, working (snd (io ts)).
Notation bd := (Some (console_binding io)).

(** The reported ticks: the tick, the age it saw, the state. *)
Fixpoint reported_ticks (ticks : list tick) (last : Z) (l : list (option HealthState)) : list (tick * Z * HealthState) :=
  match ticks, l with
  | k :: ticks, o :: l =>
      let last := default last (t_feed k) in
      (match o with Some x => [(k, t_now k - last, x)] | None => [] end) ++ reported_ticks ticks last l
  | _, _ => []
  end.

(** What a reported tick writes: the health line, and the fault event. *)
Definition fault_message (age : Z) : bytes :=
  take 511 (fill console_show (pieces None (str "no samples for {:.0f} ms " ++ [226; 128; 148] ++ str " treating as disconnected"))
    [VF64 (double_bits (millis age))]).

Definition transition_text (name : option bytes) (r : tick * Z * HealthState) : bytes :=
  let '(k, age, x) := r in
  let detail := if decide (x = kOk) then str "recovered" else str "stale sample stream" in
  take 766 (line_body (fst (io (t_report k))) None (health_severity x) (HealthMessage (Some (str "imu.front")) x (Some detail))) ++ [10] ++
  (if decide (x = kDisconnected)
   then take 766 (line_body (fst (io (t_event k))) name kError (fault_message age)) ++ [10] else []).

Definition faults_in (rs : list (tick * Z * HealthState)) : nat :=
  length (List.filter (fun r => bool_decide (snd r = kDisconnected)) rs).

(** The application with a console behind it. *)
Definition console_app (st : console) (other : bytes) (a : application console) : Prop :=
  front a = mkWorld st other /\ slots_ok (memory a).

(** An admitted event writes its line and touches nothing else. *)
Lemma log_console src sev fmt args ctx now a st other :
  console_app st other a -> ShouldLogImpl st sev = true -> Forall (fun x => value_ok (value_of x)) args ->
  exists a', on_front a (XM_LOG 0 bd src sev fmt args ctx now (front a)) = Some a' /\
    console_app (wrote st (event_line (fst (io now)) (LookupSource st (match src with Some s => id_ s | None => 0 end)) sev (event_says fmt args))) other a' /\
    memory a' = memory a /\ tls a' = tls a.
Proof.
  intros [Hf Hm] Hl Hok. rewrite Hf, XM_LOG_console, Hl, compiled_in_0 by (done || apply io_works). eexists. by split.
Qed.

Lemma admits_above st sev : ShouldLogImpl st kInfo = true -> severity_u8 kInfo <= severity_u8 sev -> sev <> kOff -> ShouldLogImpl st sev = true.
Proof.
  unfold ShouldLogImpl. intros H Hs Hn. apply andb_true_iff in H as [_ H]. apply Z.leb_le in H.
  rewrite bool_decide_false by done. apply Z.leb_le. lia.
Qed.

Lemma kept_float b : ArgPack.kept 8 160 (map value_of [AFloat b]) = [VF64 b].
Proof. reflexivity. Qed.

Lemma report_transition_console k x age d a st other :
  console_app st other a -> ShouldLogImpl st kInfo = true ->
  exists a', report_transition bd k x (millis age) d a = Some a' /\
    console_app (mkConsole (g_level st) (sources st) (stderr st ++ transition_text (LookupSource st (id_ (src_ d))) (k, age, x))) other a' /\
    counter_value a' (faults_ d) =
      (if decide (x = kDisconnected) then dadd (counter_value a (faults_ d)) (double_of 1) else counter_value a (faults_ d)).
Proof.
  intros [Hf Hm] Hl. unfold report_transition. set (detail := if decide (x = kOk) then _ else _).
  assert (ShouldLogImpl st (health_severity x) = true) as Hx by (apply admits_above; [done|by destruct x|by destruct x]).
  cbn [ReportHealth console_binding report_health]. rewrite Hf. cbn [backend]. unfold ReportHealthImpl. rewrite Hx. cbn [negb].
  rewrite EmitLine_spec by apply io_works. change (LookupSource st 0) with (@None bytes).
  set (line := take 766 _ ++ [10]). cbn [lift on_front option_map with_backend].
  set (st1 := mkConsole _ _ _). set (a1 := with_front a (mkWorld st1 other)).
  change (with_front a (with_backend {| backend := st; fallback := other |} st1)) with a1.
  unfold transition_text. fold detail. case_decide as Ex; [|exists a1; rewrite app_nil_r; done].
  destruct (Counter_Add_spec (faults_ d) (double_of 1) a1 Hm) as (a2 & -> & Ef & _ & Hm2 & _ & _ & Hc).
  rewrite Ef. unfold XM_LOG. cbn [compiled_in severity_u8 Z.leb]. unfold EmitEvent, gate.
  cbn [console_binding should_log emit_event a1 with_front front backend].
  assert (ShouldLogImpl st1 kError = true) as He by (apply (admits_above st1 kError); done). rewrite He. cbn [negb].
  rewrite EmitEventImpl_spec; [|repeat constructor; apply double_bits_width|apply io_works]. rewrite He.
  cbn [lift on_front option_map with_backend]. eexists. split; [done|]. split.
  - split; [|exact Hm2]. cbn [with_front front fallback]. do 2 f_equal. cbn [st1 stderr].
    unfold line. rewrite <- !app_assoc, kept_float.
    change (LookupSource st1) with (LookupSource st). unfold with_backend, fault_message. reflexivity.
  - cbn [with_front counter_value memory]. unfold counter_value in *. cbn [with_front memory]. rewrite Hc, decide_True by done.
    done.
Qed.

Lemma enact_console ticks last l d a st other :
  console_app st other a -> ShouldLogImpl st kInfo = true ->
  let rs := reported_ticks ticks last l in
  exists a', enact bd ticks last l d a = Some a' /\
    console_app (mkConsole (g_level st) (sources st)
      (stderr st ++ concat (map (transition_text (LookupSource st (id_ (src_ d)))) rs))) other a' /\
    counter_value a' (faults_ d) = Nat.iter (faults_in rs) (fun v => dadd v (double_of 1)) (counter_value a (faults_ d)).
Proof.
  intros Ha Hl. revert last l a st Ha Hl.
  induction ticks as [|k ticks IH]; intros last [|o l] a st Ha Hl; cbn [enact reported_ticks];
    try (exists a; cbn; rewrite app_nil_r; destruct st; done).
  set (last1 := default last (t_feed k)). set (a1 := Gauge_Set _ _ a).
  assert (console_app st other a1 /\ counter_value a1 (faults_ d) = counter_value a (faults_ d)) as [Ha1 Ec1] by (split; [exact Ha|done]).
  destruct o as [x|]; cbn [app].
  - destruct (report_transition_console k x (t_now k - last1) d a1 st other Ha1 Hl) as (a2 & -> & Ha2 & Ec2).
    destruct (IH last1 l a2 _ Ha2) as (a3 & E3 & Ha3 & Ec3); [done|].
    exists a3. split; [exact E3|]. split.
    + cbn [map concat]. cbn [g_level sources stderr] in Ha3. rewrite <- app_assoc in Ha3. exact Ha3.
    + rewrite Ec3, Ec2, Ec1. unfold faults_in. cbn [List.filter snd]. case_decide; [|by rewrite bool_decide_false].
      rewrite bool_decide_true by done. cbn [length]. by rewrite Nat.iter_succ_r.
  - destruct (IH last1 l a1 st Ha1 Hl) as (a3 & E3 & Ha3 & Ec3). exists a3. split; [exact E3|]. split; [exact Ha3|].
    by rewrite Ec3, Ec1.
Qed.

(** ** The run of [main] *)

Lemma run_app {W : Type} (b : option (Binding W)) t1 t2 d a :
  run b (t1 ++ t2) d a = match run b t1 d a with Some (d, a) => run b t2 d a | None => None end.
Proof.
  revert d a. induction t1 as [|k t1 IH]; intros d a; [done|]. cbn [run app].
  destruct (Supervise _ _ _ _) as [[d1 a1]|]; [apply IH|done].
Qed.

(** Each tick of a fed phase takes its own sample first. *)
Lemma run_fed {W : Type} (b : option (Binding W)) now ticks d a :
  Forall (fun k => is_Some (t_feed k)) ticks -> ticks <> [] -> run b ticks (OnSample now d) a = run b ticks d a.
Proof. destruct ticks as [|k ticks]; [done|]. intros Hf _. apply Forall_cons_1 in Hf as [[x Hx] _]. cbn [run]. by rewrite Hx. Qed.

Lemma reported_states ticks last l :
  length l = length ticks -> map snd (reported_ticks ticks last l) = omap id l.
Proof.
  revert last l. induction ticks as [|k ticks IH]; intros last [|o l] Hl; cbn in Hl; try done.
  cbn [reported_ticks]. rewrite map_app, IH by lia. by destruct o.
Qed.

Lemma transitions_length seen r raws : length (transitions seen r raws) = length raws.
Proof. revert seen r. induction raws as [|x raws IH]; intros seen r; [done|]. cbn [transitions]. destruct (due _ _ _); cbn; by rewrite IH. Qed.

Lemma ages_length ticks last : length (ages ticks last) = length ticks.
Proof. revert last. induction ticks as [|k ticks IH]; intros last; [done|]. cbn. by rewrite IH. Qed.
End OnConsole.

(** C32: Health transitions are held and never flap, for every binding: the driver's
    supervisor reports exactly when the last four states it saw agree and differ
    from the last one reported (device Ok at the start); the calls it makes are
    those of these reports and one update of the gauge per tick; two reports in a
    row differ, and reports of different states are at least four ticks apart. *)
Theorem health_never_flaps {W : Type} (bd : option (Binding W)) (ticks : list tick) (a : application W) :
  Z.of_nat (length ticks) < 2 ^ 31 -> ages_ok ticks 0 ->
  let '(d, a) := FakeImuDriver_ctor bd a in
  let raws := map raw_state (ages ticks 0) in
  let l := transitions [kOk] kOk raws in
  option_map snd (run bd ticks d a) = enact bd ticks 0 l d a /\
  (forall i x y, (kOk :: omap id l) !! i = Some x -> (kOk :: omap id l) !! S i = Some y -> x <> y) /\
  (forall i j x y, l !! i = Some (Some x) -> l !! j = Some (Some y) -> (i < j)%nat -> x <> y -> (i + 4 <= j)%nat) /\
  (forall i x, l !! i = Some (Some x) -> (2 <= i)%nat /\ forall k, (k < 4)%nat -> (kOk :: raws) !! (S i - k)%nat = Some x).
Proof.
  intros Hn Ha. destruct (FakeImuDriver_ctor bd a) as [d a1] eqn:Ec.
  assert (tracks [kOk] d /\ held_ d = 0 /\ reported_ d = kOk /\ last_ns_ d = 0) as (Ht & Eh & Er & El).
  { unfold FakeImuDriver_ctor in Ec. destruct (GetEventSource _ _ _), (GetGauge _ _ _), (GetCounter _ _ _).
    injection Ec as <- _. split_and!; try done. by exists []. }
  intros raws l. split_and!.
  - rewrite (run_window bd ticks d a1 [kOk]); [by rewrite El, Er|done|lia|by rewrite El].
  - apply transitions_alternate.
  - intros i j x y Hi Hj Hij Hxy. destruct (Nat.le_gt_cases (i + 4) j) as [|Hlt]; [done|]. exfalso. apply Hxy.
    destruct (transitions_window _ _ _ _ _ Hi) as [_ Wi]. destruct (transitions_window _ _ _ _ _ Hj) as [_ Wj].
    specialize (Wi 0%nat ltac:(lia)). specialize (Wj (j - i)%nat ltac:(lia)). cbn [length] in *.
    replace (1 + j - (j - i))%nat with (1 + i - 0)%nat in Wj by lia. congruence.
  - intros i x Hi. destruct (transitions_window _ _ _ _ _ Hi) as [H1 H2]. cbn [length] in *. split; [lia|exact H2].
Qed.

Definition demo_tick (fed : bool) (age now : Z) : tick := mkTick (if fed then Some (now - age) else None) now now now.

Definition demo_ticks : list tick :=
  map (fun i => demo_tick true 1000 (Z.of_nat i * 10000000 + 20000000)) (seq 0 5) ++
  map (fun i => demo_tick false 0 (Z.of_nat i * 10000000 + 120000000)) (seq 0 25) ++
  map (fun i => demo_tick true 1000 (Z.of_nat i * 10000000 + 500000000)) (seq 0 5).

Definition demo_app : application unit := mkApp (mkWorld tt []) slots0 (Thread no_context None (1, 2)).

Lemma demo_ages : Forall (fun age => - 2 ^ 63 <= age < 2 ^ 63) (ages demo_ticks 0).
Proof.
  assert (Forall (fun age => 0 <= age < 1000000000) (ages demo_ticks 0)) as H.
  { apply Forall_forall. intros x Hx.
    assert (forallb (fun age => (0 <=? age) && (age <? 1000000000)) (ages demo_ticks 0) = true) as Hb by (vm_compute; reflexivity).
    rewrite forallb_forall in Hb. apply list_elem_of_In in Hx. specialize (Hb x Hx). zbool. lia. }
  eapply Forall_impl; [exact H|]. cbn beta. lia.
Qed.

Lemma health_never_flaps_witness :
  omap id (transitions [kOk] kOk (map raw_state (ages demo_ticks 0))) = [kDegraded; kDisconnected; kOk] /\
  let '(d, a) := FakeImuDriver_ctor None demo_app in
  option_map snd (run None demo_ticks d a) =
  enact None demo_ticks 0 (transitions [kOk] kOk (map raw_state (ages demo_ticks 0))) d a.
Proof.
  split; [vm_compute; reflexivity|].
  pose proof (health_never_flaps None demo_ticks demo_app eq_refl demo_ages) as H.
  destruct (FakeImuDriver_ctor None demo_app) as [d a]. exact (proj1 H).
Defined.

(** The states of a cable pull. *)
Lemma transitions_cable_pull n1 n2 n3 n4 :
  omap id (transitions [kOk] kOk
    (repeat kOk n1 ++ repeat kDegraded (4 + n2) ++ repeat kDisconnected (4 + n3) ++ repeat kOk (4 + n4))) =
  [kDegraded; kDisconnected; kOk].
Proof.
  rewrite transitions_same, <- repeat_cons, transitions_new by done. f_equal.
  change (repeat kDegraded (4 + n2) ++ kOk :: repeat kOk n1) with (kDegraded :: repeat kDegraded (3 + n2) ++ kOk :: repeat kOk n1).
  rewrite transitions_new by done. f_equal. rewrite <- (app_nil_r (repeat kOk (4 + n4))).
  change (repeat kDisconnected (4 + n3) ++ ?l) with (kDisconnected :: repeat kDisconnected (3 + n3) ++ l).
  by rewrite transitions_new by done.
Qed.

(** A line of the program itself. *)
Definition info_line (io : Z -> platform * list write_result) (ts : Z) (text : bytes) : bytes :=
  event_line (fst (io ts)) None kInfo (event_says text []).

Definition hello_text : bytes := str "device health demo: healthy -> cable pull -> recovery".
Definition bye_text : bytes := str "done " ++ [226; 128; 148] ++ str " transitions were reported once each, no flapping".

Lemma ctor_on_console io st other (a : application console) :
  NoDup (sources st) -> Z.of_nat (length (sources st)) + 1 < 2 ^ 32 -> console_app st other a ->
  let '(d, a1) := FakeImuDriver_ctor (Some (console_binding io)) a in
  exists st1, console_app st1 other a1 /\ memory a1 = memory a /\ g_level st1 = g_level st /\ stderr st1 = stderr st /\
    LookupSource st1 (id_ (src_ d)) = Some (str "imu.front") /\ tracks [kOk] d /\
    held_ d = 0 /\ reported_ d = kOk /\ last_ns_ d = 0.
Proof.
  intros Hnd Hlen [Hf Hm]. unfold FakeImuDriver_ctor. rewrite Hf. cbn [GetEventSource console_binding intern_source backend].
  pose proof (registry_facts st (str "imu.front") Hnd Hlen) as Hr.
  destruct (InternSourceImpl (str "imu.front") st) as [i st1]. destruct Hr as (Hl & El & Es).
  cbn [GetGauge GetCounter console_binding get_gauge get_counter with_backend backend fallback].
  exists st1. split_and!; try done. by exists [].
Qed.

(** The three phases, one after the other, are one run. *)
Lemma phases_run {W : Type} (b : option (Binding W)) healthy pulled recovery between d a :
  Forall (fun k => is_Some (t_feed k)) recovery -> recovery <> [] ->
  phases b healthy pulled recovery between d a = run b (healthy ++ pulled ++ recovery) d a.
Proof.
  intros Hfed Hne. unfold phases. rewrite run_app. destruct (run _ healthy d a) as [[d1 b1]|]; [|done].
  rewrite run_app. destruct (run _ pulled d1 b1) as [[d2 b2]|]; [|done]. by apply run_fed.
Qed.

(** What a cable pull makes the driver write and count. *)
Lemma cable_pull_run io (st : console) other ticks d a n1 n2 n3 n4 :
  (forall ts, working (snd (io ts))) -> console_app st other a -> ShouldLogImpl st kInfo = true ->
  tracks [kOk] d -> held_ d = 0 -> reported_ d = kOk -> last_ns_ d = 0 ->
  Z.of_nat (length ticks) < 2 ^ 31 -> ages_ok ticks 0 ->
  map raw_state (ages ticks 0) =
    repeat kOk n1 ++ repeat kDegraded (4 + n2) ++ repeat kDisconnected (4 + n3) ++ repeat kOk (4 + n4) ->
  exists d2 a2 r1 r2 r3, run (Some (console_binding io)) ticks d a = Some (d2, a2) /\
    map snd [r1; r2; r3] = [kDegraded; kDisconnected; kOk] /\
    console_app (wrote st (concat (map (transition_text io (LookupSource st (id_ (src_ d)))) [r1; r2; r3]))) other a2 /\
    counter_value a2 (faults_ d2) = dadd (counter_value a (faults_ d)) (double_of 1).
Proof.
  intros Hio Ha Hl Ht Eh Er Elast Hn Hag Hraws.
  pose proof (run_window (Some (console_binding io)) ticks d a [kOk] Ht ltac:(lia) ltac:(by rewrite Elast)) as Hrun.
  rewrite Elast, Er, Hraws in Hrun.
  set (l := transitions [kOk] kOk _) in *.
  destruct (enact_console io Hio ticks 0 l d a st other Ha Hl) as (a2 & He & Ha2 & Hcnt).
  rewrite He in Hrun. destruct (run _ ticks d a) as [[d2 b2]|] eqn:Ed; [|done]. injection Hrun as ->.
  apply run_faults in Ed.
  pose proof (reported_states ticks 0 l) as Hst. subst l.
  rewrite transitions_length, <- Hraws, map_length, ages_length, Hraws, transitions_cable_pull in Hst.
  specialize (Hst eq_refl). set (rs := reported_ticks ticks 0 _) in *.
  destruct rs as [|r1 [|r2 [|r3 [|]]]]; cbn [map] in Hst; try done. injection Hst as E1 E2 E3.
  exists d2, a2, r1, r2, r3. split; [done|]. split; [cbn [map]; by rewrite E1, E2, E3|]. split; [exact Ha2|].
  rewrite Ed, Hcnt. unfold faults_in. cbn [List.filter]. by rewrite E1, E2, E3.
Qed.

(** The cable pull at the console: whatever the timing, if the device is seen
    healthy, then stale, then gone, then healthy, the last three for at least four
    ticks each, the whole program returns and stderr gets exactly its first line, the
    degraded line, the disconnected line with the fault attributed to the device's
    source, and the recovery line, once each and in that order, and its last line;
    the fault counter shows 1. *)
Theorem cable_pull_at_console io (st : console) (other : bytes) (a : application console)
    (healthy pulled recovery : list tick) (hello between bye : Z) (n1 n2 n3 n4 : nat) :
  (forall ts, working (snd (io ts))) ->
  NoDup (sources st) -> Z.of_nat (length (sources st)) + 1 < 2 ^ 32 -> ShouldLogImpl st kInfo = true ->
  front a = mkWorld st other -> memory a = slots0 ->
  let ticks := healthy ++ pulled ++ recovery in
  Z.of_nat (length ticks) < 2 ^ 31 -> ages_ok ticks 0 ->
  Forall (fun k => is_Some (t_feed k)) recovery -> recovery <> [] ->
  map raw_state (ages ticks 0) =
    repeat kOk n1 ++ repeat kDegraded (4 + n2) ++ repeat kDisconnected (4 + n3) ++ repeat kOk (4 + n4) ->
  exists d2 a2 r1 r2 r3, main (Some (console_binding io)) hello healthy pulled recovery between bye a = Some (d2, a2) /\
    map snd [r1; r2; r3] = [kDegraded; kDisconnected; kOk] /\
    stderr (backend (front a2)) =
      stderr st ++ info_line io hello hello_text ++
      concat (map (transition_text io (Some (str "imu.front"))) [r1; r2; r3]) ++ info_line io bye bye_text /\
    fallback (front a2) = other /\
    counter_value a2 (faults_ d2) = double_of 1.
Proof.
  intros Hio Hnd Hlen Hl Hf Hm ticks Hn Hag Hfed Hne Hraws.
  assert (console_app st other a) as Ha by (split; [done|]; rewrite Hm; apply slots0_ok).
  unfold main.
  destruct (log_console io Hio None kInfo hello_text [] (CurrentContext (tls a)) hello a st other Ha Hl (List.Forall_nil _))
    as (a1 & E1 & Ha1 & Hm1 & _). fold hello_text. rewrite E1.
  pose proof (ctor_on_console io (wrote st _) other a1 Hnd Hlen Ha1) as Hc.
  destruct (FakeImuDriver_ctor _ a1) as [d b1]. destruct Hc as (st1 & Hb1 & Em & El & Es & Hsrc & Ht & Eh & Er & Elast).
  assert (ShouldLogImpl st1 kInfo = true) as Hl1 by (unfold ShouldLogImpl; rewrite El; exact Hl).
  rewrite phases_run by done. fold ticks.
  destruct (cable_pull_run io st1 other ticks d b1 n1 n2 n3 n4 Hio Hb1 Hl1 Ht Eh Er Elast Hn Hag Hraws)
    as (d2 & a2 & r1 & r2 & r3 & Erun & Hst & Ha2 & Hcnt). rewrite Erun.
  destruct (log_console io Hio None kInfo bye_text [] (CurrentContext (tls a2)) bye a2 _ other Ha2 ltac:(by rewrite level_wrote) (List.Forall_nil _))
    as (a3 & E3 & [Hf3 _] & Hm3 & _). fold bye_text. rewrite E3. cbn [option_map].
  exists d2, a3, r1, r2, r3. split; [done|]. split; [done|]. rewrite Hf3. cbn [backend fallback]. split; [|split; [done|]].
  - rewrite Hsrc. unfold wrote at 1 2. cbn [stderr]. rewrite Es. cbn [wrote stderr]. rewrite <- !app_assoc. done.
  - unfold counter_value in *. rewrite Hm3, Hcnt, Em, Hm1, Hm. vm_compute. reflexivity.
Qed.

Lemma cable_pull_at_console_witness :
  let io := fun _ => (demo_platform, [Wrote 767%nat]) in
  let a := mkApp (mkWorld (mkConsole 2 [] []) []) slots0 (Thread no_context None (1, 2)) in
  exists d2 a2, main (Some (console_binding io)) 0 (take 5 demo_ticks) (take 25 (drop 5 demo_ticks)) (drop 30 demo_ticks) 490000000 0 a = Some (d2, a2) /\
    counter_value a2 (faults_ d2) = double_of 1.
Proof.
  intros io a.
  pose proof (cable_pull_at_console io (mkConsole 2 [] []) [] a (take 5 demo_ticks) (take 25 (drop 5 demo_ticks)) (drop 30 demo_ticks)
    0 490000000 0 5 10 7 1) as H.
  specialize (H ltac:(intros; split; [intros [E|[]]; discriminate|cbn; lia]) ltac:(constructor) ltac:(done) eq_refl eq_refl eq_refl).
  specialize (H eq_refl demo_ages ltac:(vm_compute; repeat constructor; eexists; reflexivity) ltac:(discriminate) ltac:(vm_compute; reflexivity)).
  destruct H as (d2 & a2 & _ & _ & _ & E & _ & _ & _ & Hc). exists d2, a2. by split.
Defined.

(** The hold counter is a signed 32-bit integer that never stops counting: at
    100 ticks a second it overflows after 248 days in one state. *)
Theorem hold_counter_overflows {W : Type} (bd : option (Binding W)) (k : tick) (d : FakeImuDriver) (a : application W) :
  held_ d = 2 ^ 31 - 1 -> raw_state (t_now k - last_ns_ d) = candidate_ d -> Supervise bd k d a = None.
Proof.
  intros Hh Hr. unfold Supervise. destruct (negb _); [done|]. rewrite decide_True by done.
  by rewrite Hh.
Qed.
