(* ===== verification/OverwriteExamples.v ===== *)
(** * Programs over the overwrite ring
    (examples/concurrency_message_slot_example.cpp, concurrency_message_buffer_example.cpp,
    concurrency_region_storage_example.cpp)

    A producer that stores samples as fast as it can and a consumer that checks what
    it reads.  The threads run on the weak memory machine of Memory.v: any
    interleaving, any stale read it allows.  The consumer's counters are a fold over
    what its calls return; what is printed at the end is rendered. *)

From Stdlib Require Import ZArith Lia String Floats.SpecFloat.
From stdpp Require Import base list numbers relations.
From S2P Require Import Prelude Printf Memory SeqlockRing SeqlockWeak SeqlockSeq Slots Metrics Stats Handles.

Local Open Scope Z_scope.

(** A 64-bit member, and a member read back. *)
Definition u64_member (z : Z) : bytes := le_bytes 8 z.
Definition double_member (v : double) : bytes := le_bytes 8 (double_bits v).
Definition member_at (i : nat) (s : bytes) : Z := le_word (take 8 (drop (8 * i) s)).

(** Pieces of what the programs print: text, a dash. *)
Definition lit (s : string) : bytes := bytes_of_string s.
Definition dash : bytes := [226; 128; 148].

(** [1, 2, ..., n]: the arguments of [n] rounds of [Make(++t)]. *)
Definition rounds (n : nat) : list Z := map Z.of_nat (seq 1 n).

Lemma rounds_lookup n p z : rounds n !! p = Some z <-> z = Z.of_nat (S p) /\ (p < n)%nat.
Proof. unfold rounds. rewrite list_lookup_fmap_Some. setoid_rewrite lookup_seq. naive_solver. Qed.

Lemma last_rounds {A} (f : Z -> A) n : (0 < n)%nat -> exists l, map f (rounds n) = l ++ [f (Z.of_nat n)].
Proof. intros Hn. destruct n as [|n]; [lia|]. exists (map f (rounds n)). unfold rounds. by rewrite seq_S, !map_app. Qed.

Lemma length_rounds n : length (rounds n) = n.
Proof. unfold rounds. by rewrite length_map, length_seq. Qed.

(** ** The newest state (concurrency_message_slot_example.cpp) *)

Module MessageSlotExample.

(** 0.1, 0.2, 0.3. *)
Definition d0_1 : double := S754_finite false 7205759403792794 (-56).
Definition d0_2 : double := S754_finite false 7205759403792794 (-55).
Definition d0_3 : double := S754_finite false 5404319552844595 (-54).

(** [ImuState::Make(n)]: seq, gyro[3], accel[3], checksum. *)
Definition Make (n : Z) : bytes :=
  u64_member n ++
  double_member (dmul d0_1 (double_of n)) ++ double_member (dmul d0_2 (double_of n)) ++ double_member (dmul d0_3 (double_of n)) ++
  double_member (double_of 1) ++ double_member (double_of 2) ++ double_member (double_of 3) ++
  u64_member (u64 (u64 n * 7919)).

Definition sizeT : nat := 64.
Definition seq_of (s : bytes) : Z := member_at 0 s.
Definition Torn (s : bytes) : bool := negb (member_at 7 s =? u64 (seq_of s * 7919)).

(** The loop's variables, one [Load], and [main]'s result. *)
Record consumer := mkConsumer { cycles : Z; last_seq : Z; torn : Z }.
Definition consumer0 : consumer := mkConsumer 0 0 0.

Definition cycle (st : consumer) (r : option bytes) : consumer :=
  if negb (cycles st <? 200000) then st else
  let st := match r with
            | Some s => mkConsumer (cycles st) (seq_of s) (if Torn s then u64 (torn st + 1) else torn st)
            | None => st
            end in
  mkConsumer (cycles st + 1) (last_seq st) (torn st).

Definition exit_code (st : consumer) : Z := if torn st =? 0 then 0 else 1.

(** What the sensor prints when it has produced [n] states, and then the consumer. *)
Definition sensor_line (n : Z) : bytes := lit "sensor: produced " ++ lu n ++ lit " states" ++ [10].
Definition summary (st : consumer) : bytes :=
  lit "consumer: " ++ lu (cycles st) ++ lit " cycles, newest seq seen " ++ lu (last_seq st) ++ lit ", torn reads " ++ lu (torn st) ++ [10] ++
  lit "(gaps between seen seqs are OVERWRITTEN-UNREAD values " ++ dash ++ lit " correct latest-only behavior, not loss of the newest)" ++ [10].
Definition output (n : nat) (st : consumer) : bytes := sensor_line (Z.of_nat n) ++ summary st.

(** The sensor has stored [n] states, the consumer has made [m] loads. *)
Definition program (n m : nat) : config rloc Z (list robs) := ring_cfg 1 sizeT (map Make (rounds n)) [repeat OpLoad m].

Definition loads (os : list robs) : list (option bytes) := omap (fun o => match o with ObsLoad r => Some r | _ => None end) os.
Definition consume (os : list robs) : consumer := fold_left cycle (loads os) consumer0.
End MessageSlotExample.

(** ** Windows of a history (concurrency_message_buffer_example.cpp) *)

Module MessageBufferExample.

(** 0.001. *)
Definition d0_001 : double := S754_finite false 4611686018427388 (-62).

(** [ImuSample::Make(t)]: t_us, gyro_z, check. *)
Definition Make (t : Z) : bytes :=
  u64_member t ++ double_member (dmul d0_001 (double_of t)) ++ u64_member (u64 (u64 t * 2654435761)).

Definition sizeT : nat := 24.
Definition t_us (s : bytes) : Z := member_at 0 s.
Definition check (s : bytes) : Z := member_at 2 s.
Definition Torn (s : bytes) : bool := negb (check s =? u64 (t_us s * 2654435761)).

Record fusion := mkFusion { windows : Z; torn : Z; gaps : Z; shortened : Z }.
Definition fusion0 : fusion := mkFusion 0 0 0 0.

(** The inner loop over a window. *)
Fixpoint check_window (prev : option bytes) (window : list bytes) (st : fusion) : fusion :=
  match window with
  | [] => st
  | s :: l =>
      let torn := if Torn s then u64 (torn st + 1) else torn st in
      let gap := match prev with Some p => negb (t_us p =? u64 (t_us s + 1)) | None => false end in
      check_window (Some s) l (mkFusion (windows st) torn (if gap then u64 (gaps st + 1) else gaps st) (shortened st))
  end.

Definition round (st : fusion) (window : list bytes) : fusion :=
  if negb (windows st <? 100000) then st else
  match window with
  | [] => st
  | _ =>
      let st := check_window None window st in
      let shortened := if (length window <? 64)%nat then u64 (shortened st + 1) else shortened st in
      mkFusion (windows st + 1) (torn st) (gaps st) shortened
  end.

Definition exit_code (st : fusion) : Z := if (torn st =? 0) && (gaps st =? 0) then 0 else 1.

(** What the driver prints when it has stored [n] samples, and then fusion. *)
Definition imu_line (n : Z) : bytes := lit "imu: stored " ++ lu n ++ lit " samples" ++ [10].
Definition summary (st : fusion) : bytes :=
  lit "fusion: " ++ lu (windows st) ++ lit " windows, torn " ++ lu (torn st) ++ lit ", ordering gaps " ++ lu (gaps st) ++
  lit " (both must be 0), tail-shortened windows " ++ lu (shortened st) ++ lit " (laps/startup " ++ dash ++ lit " expected, counted)" ++ [10].
Definition output (n : nat) (st : fusion) : bytes := imu_line (Z.of_nat n) ++ summary st.

(** The driver has stored [n] samples, fusion has taken [m] snapshots. *)
Definition program (n m : nat) : config rloc Z (list robs) := ring_cfg 256 sizeT (map Make (rounds n)) [repeat (OpSnapshot 64) m].

Definition snapshots (os : list robs) : list (list bytes) := omap (fun o => match o with ObsSnapshot _ l => Some l | _ => None end) os.
Definition fuse (os : list robs) : fusion := fold_left round (snapshots os) fusion0.
End MessageBufferExample.

(** ** A window in shared memory (concurrency_region_storage_example.cpp)

    The example declares the same [ImuSample].  The parent initializes the region
    before the fork; the child and the parent attach to it.  While [waitpid] says
    the child runs, the parent's snapshots race its stores; once it has exited, the
    memory is what the child's stores left. *)

Module RegionExample.
Import MessageBufferExample.

Definition kStores : Z := 100000.

Record fused := mkFused { r_torn : Z; live_windows : Z }.

Definition live (st : fused) (snap : list bytes) : fused :=
  mkFused (fold_left (fun torn s => u64 (torn + if Torn s then 1 else 0)) snap (r_torn st))
    (if (length snap =? 0)%nat then live_windows st else u64 (live_windows st + 1)).

(** The race: [m] snapshots of the parent, [n] stores of the child. *)
Definition program (n m : nat) : config rloc Z (list robs) := ring_cfg 64 sizeT (map Make (rounds n)) [repeat (OpSnapshot 64) m].
Definition race (os : list robs) : fused := fold_left live (snapshots os) (mkFused 0 0).

(** The whole child on the region, then the last snapshot. *)
Definition final_window (region : rloc -> Z) : option (list bytes) :=
  '(_, region) ← srun 1 (MessageBuffer.MessageBuffer_ctor 64 sizeT true) region;
  '(_, region) ← srun 1 (MessageBuffer.MessageBuffer_ctor 64 sizeT false) region;
  region ← store_seq 64 sizeT (map Make (rounds (Z.to_nat kStores))) region;
  '(snap, _) ← srun 1 (MessageBuffer.Snapshot 64 sizeT 64) region;
  Some snap.

Definition exit_code (st : fused) (snap : list bytes) : Z :=
  if (r_torn st =? 0) && (length snap =? 64)%nat && (t_us (default [] (head snap)) =? 100000) then 0 else 1.

Definition region_line : bytes :=
  lit "region: " ++ lu (MessageBuffer.StorageBytes 64 sizeT) ++ lit " bytes for MessageBuffer<ImuSample, 64>" ++ [10].
Definition summary (st : fused) (snap : list bytes) : bytes :=
  lit "parent: " ++ lu (live_windows st) ++ lit " live cross-process windows (torn " ++ lu (r_torn st) ++ lit " " ++ dash ++
  lit " must be 0); final window after child exit: " ++ lu (Z.of_nat (length snap)) ++ lit " samples, newest t=" ++
  lu (match snap with s :: _ => t_us s | [] => 0 end) ++ [10].

(** What the parent prints and returns; [mapped]: mmap succeeded. *)
Definition outcome (mapped : bool) (st : fused) (snap : list bytes) : bytes * Z :=
  if mapped then (region_line ++ summary st snap, exit_code st snap) else ([], 1).
End RegionExample.

(** ** Members of a sample *)

Lemma member_words (ws : list Z) i w : ws !! i = Some w -> member_at i (concat (map (le_bytes 8) ws)) = u64 w.
Proof.
  revert i. induction ws as [|x ws IH]; intros [|i] Hw; try done.
  - injection Hw as ->. unfold member_at. cbn [map concat]. rewrite Nat.mul_0_r, drop_0, take_app_length' by done. apply (le_word_le_bytes 8).
  - cbn [lookup list_lookup] in Hw. rewrite <- (IH i Hw). unfold member_at. cbn [map concat].
    replace (8 * S i)%nat with (length (le_bytes 8 x) + 8 * i)%nat by (rewrite length_le_bytes; lia). by rewrite drop_app_add.
Qed.

Lemma words_ok ws : length (concat (map (le_bytes 8) ws)) = (8 * length ws)%nat /\ Forall is_byte (concat (map (le_bytes 8) ws)).
Proof.
  induction ws as [|w ws [IH1 IH2]]; [done|]. cbn [map concat length]. split.
  - rewrite length_app, length_le_bytes, IH1. lia.
  - apply Forall_app_2; [apply le_bytes_bytes|done].
Qed.

(** The values stored are samples. *)
Lemma made (Make : Z -> bytes) n p v :
  map Make (rounds n) !! p = Some v -> v = Make (Z.of_nat (S p)) /\ (p < n)%nat.
Proof. rewrite list_lookup_fmap_Some. intros (z & -> & Hz%rounds_lookup). by destruct Hz as [-> ?]. Qed.

Module MessageSlotProof.
Import MessageSlotExample.

Definition words (n : Z) : list Z :=
  [n; double_bits (dmul d0_1 (double_of n)); double_bits (dmul d0_2 (double_of n)); double_bits (dmul d0_3 (double_of n));
   double_bits (double_of 1); double_bits (double_of 2); double_bits (double_of 3); u64 (u64 n * 7919)].

Lemma ImuState_words n : Make n = concat (map (le_bytes 8) (words n)).
Proof. unfold Make, words. cbn [map concat]. by rewrite app_nil_r. Qed.

Lemma ImuState_ok n : length (Make n) = sizeT /\ Forall is_byte (Make n).
Proof. rewrite ImuState_words. apply words_ok. Qed.

Lemma seq_of_Make n : seq_of (Make n) = u64 n.
Proof. unfold seq_of. rewrite ImuState_words. by apply member_words. Qed.

Lemma ImuState_not_torn n : Torn (Make n) = false.
Proof.
  unfold Torn. rewrite seq_of_Make, ImuState_words, (member_words _ 7 (u64 (u64 n * 7919))) by done.
  rewrite wrap_wrap by done. by rewrite Z.eqb_refl.
Qed.

(** The consumer under a cursor [lo], with [n] states stored. *)
Definition consumer_ok (n lo : nat) (st : consumer) : Prop :=
  torn st = 0 /\ 0 <= last_seq st <= Z.of_nat lo /\ last_seq st <= Z.of_nat n.

Lemma cycle_ok n m lo hi r st :
  Z.of_nat n < 2 ^ 63 -> (lo <= hi)%nat -> obs_ok 1 (map Make (rounds n)) m lo hi (ObsLoad r) -> consumer_ok n lo st ->
  consumer_ok n hi (cycle st r) /\ last_seq st <= last_seq (cycle st r).
Proof.
  intros Hn Hlh Ho (Ht & Hs & Hl). unfold cycle. destruct (negb _); [split; [split_and!|]; lia|].
  destruct r as [v|]; cbn [torn last_seq]; [|split; [split_and!; cbn [torn last_seq]|]; lia].
  cbn in Ho. destruct Ho as (p & Hp & [-> Hpn]%made). rewrite ImuState_not_torn, seq_of_Make.
  rewrite wrap_id by (unfold in_width; lia). split; [split_and!; cbn [torn last_seq]|]; lia.
Qed.

(** The loop stops at its 200000th cycle. *)
Lemma consume_cycles l st : 0 <= cycles st <= 200000 -> cycles (fold_left cycle l st) = Z.min 200000 (cycles st + Z.of_nat (length l)).
Proof.
  revert st. induction l as [|r l IH]; intros st Hst; cbn [fold_left length]; [lia|]. unfold cycle at 2.
  destruct (Z.ltb_spec (cycles st) 200000); cbn [negb]; [|rewrite IH by done; lia].
  destruct r as [s|]; rewrite IH by (cbn [cycles]; lia); cbn [cycles]; lia.
Qed.

Lemma consume_ok n m lo os rest st :
  Z.of_nat n < 2 ^ 63 -> history_ok 1 (map Make (rounds n)) m lo (os ++ rest) -> consumer_ok n lo st ->
  exists hi, history_ok 1 (map Make (rounds n)) m hi rest /\ consumer_ok n hi (fold_left cycle (loads os) st) /\
    last_seq st <= last_seq (fold_left cycle (loads os) st).
Proof.
  intros Hn. revert lo st. induction os as [|o os IH]; intros lo st Hh Hst; [exists lo; split_and!; try done; lia|].
  destruct Hh as (mid & Hlm & Ho & Hh).
  assert (forall st', consumer_ok n mid st' -> last_seq st <= last_seq st' ->
            exists hi, history_ok 1 (map Make (rounds n)) m hi rest /\ consumer_ok n hi (fold_left cycle (loads os) st') /\
              last_seq st <= last_seq (fold_left cycle (loads os) st')) as Hnext.
  { intros st' Hst' Hle. destruct (IH mid st' Hh Hst') as (hi & H1 & H2 & H3). exists hi. split_and!; [done|done|lia]. }
  destruct o as [r| | |]; [destruct (cycle_ok n m lo mid r st Hn Hlm Ho Hst); by apply Hnext|..];
    (apply Hnext; [destruct Hst as (? & ? & ?); split_and!; lia|lia]).
Qed.
End MessageSlotProof.

Module MessageBufferProof.
Import MessageBufferExample.

Definition words (t : Z) : list Z := [t; double_bits (dmul d0_001 (double_of t)); u64 (u64 t * 2654435761)].

Lemma ImuSample_words t : Make t = concat (map (le_bytes 8) (words t)).
Proof. unfold Make, words. cbn [map concat]. by rewrite app_nil_r. Qed.

Lemma ImuSample_ok t : length (Make t) = sizeT /\ Forall is_byte (Make t).
Proof. rewrite ImuSample_words. apply words_ok. Qed.

Lemma t_us_Make t : t_us (Make t) = u64 t.
Proof. unfold t_us. rewrite ImuSample_words. by apply member_words. Qed.

Lemma ImuSample_not_torn t : Torn (Make t) = false.
Proof.
  unfold Torn, check. rewrite t_us_Make, ImuSample_words, (member_words _ 2 (u64 (u64 t * 2654435761))) by done.
  rewrite wrap_wrap by done. by rewrite Z.eqb_refl.
Qed.

(** A window of consecutive samples, newest [Make c]. *)
Definition run_of (c : nat) (window : list bytes) : Prop :=
  forall q v, window !! q = Some v -> v = Make (Z.of_nat (c - q)) /\ (q < c)%nat.

Lemma run_of_cons c v l : run_of c (v :: l) -> v = Make (Z.of_nat c) /\ (0 < c)%nat /\ run_of (pred c) l.
Proof.
  intros H. destruct (H 0%nat v eq_refl) as [-> Hc]. split_and!; [by rewrite Nat.sub_0_r|done|].
  intros q w Hq. destruct (H (S q) w Hq) as [-> Hlt]. split; [|lia]. do 2 f_equal. lia.
Qed.

Lemma check_window_ok c prev window st :
  Z.of_nat c < 2 ^ 63 -> run_of c window -> prev = None \/ prev = Some (Make (Z.of_nat (S c))) ->
  check_window prev window st = st.
Proof.
  revert c prev st. induction window as [|v l IH]; intros c prev st Hc Hr Hp; [done|].
  apply run_of_cons in Hr as (-> & Hc0 & Hr). cbn [check_window]. rewrite ImuSample_not_torn.
  replace (match prev with Some p => _ | None => false end) with false.
  - destruct st. apply (IH (pred c)); [lia|done|]. right. do 2 f_equal. lia.
  - destruct Hp as [->| ->]; [done|]. rewrite !t_us_Make, wrap_add_l.
    replace (Z.of_nat c + 1) with (Z.of_nat (S c)) by lia. by rewrite Z.eqb_refl.
Qed.

(** What a snapshot of the history may be. *)
Lemma snapshot_run N n m lo hi k outs :
  obs_ok N (map Make (rounds n)) m lo hi (ObsSnapshot k outs) -> outs = [] \/ exists c, (c <= n)%nat /\ run_of c outs.
Proof.
  intros (c & _ & Hlen & Hpos & _). destruct outs as [|v l]; [by left|right].
  exists c. pose proof (Hpos 0%nat v eq_refl) as [_ Hn]%made. split; [cbn in Hlen; lia|].
  intros q w Hq. pose proof (lookup_lt_Some _ _ _ Hq). pose proof (Hpos q w Hq) as [-> _]%made. split; [|lia]. do 2 f_equal. lia.
Qed.

Lemma round_ok N n m lo hi k outs st :
  Z.of_nat n < 2 ^ 63 -> obs_ok N (map Make (rounds n)) m lo hi (ObsSnapshot k outs) -> torn st = 0 /\ gaps st = 0 ->
  torn (round st outs) = 0 /\ gaps (round st outs) = 0.
Proof.
  intros Hn Ho Hst. unfold round. destruct (negb _); [done|].
  destruct (snapshot_run N n m lo hi k outs Ho) as [->|(c & Hc & Hr)]; [done|]. destruct outs as [|v l]; [done|].
  rewrite (check_window_ok c None (v :: l) st ltac:(lia) Hr (or_introl eq_refl)). exact Hst.
Qed.

Lemma fuse_ok N n m lo os st :
  Z.of_nat n < 2 ^ 63 -> history_ok N (map Make (rounds n)) m lo os -> torn st = 0 /\ gaps st = 0 ->
  torn (fold_left round (snapshots os) st) = 0 /\ gaps (fold_left round (snapshots os) st) = 0.
Proof.
  intros Hn. revert lo st. induction os as [|o os IH]; intros lo st Hh Hst; [done|].
  destruct Hh as (hi & _ & Ho & Hh). destruct o as [| | |k outs]; [by apply (IH hi)..|].
  apply (IH hi); [done|]. by apply (round_ok N n m lo hi k outs).
Qed.

(** The loop stops at its 100000th window that is not empty; at most those are short. *)
Lemma check_window_counts prev window st :
  windows (check_window prev window st) = windows st /\ shortened (check_window prev window st) = shortened st.
Proof. revert prev st. induction window as [|s l IH]; intros prev st; [done|]. cbn [check_window]. by rewrite !(proj1 (IH _ _)), !(proj2 (IH _ _)). Qed.

Lemma fuse_windows l st : 0 <= windows st <= 100000 ->
  windows (fold_left round l st) = Z.min 100000 (windows st + Z.of_nat (length (filter (fun w => w <> []) l))).
Proof.
  revert st. induction l as [|w l IH]; intros st Hst; cbn [fold_left]; [cbn; lia|]. unfold round at 2. rewrite filter_cons.
  destruct (Z.ltb_spec (windows st) 100000); cbn [negb].
  - destruct w as [|s w]; [rewrite decide_False by tauto; apply IH; lia|rewrite decide_True by done].
    pose proof (check_window_counts None (s :: w) st) as [Ec _]. rewrite IH by (cbn [windows]; lia). cbn [windows length]. lia.
  - rewrite IH by done. case_decide; cbn [length]; lia.
Qed.

Lemma windows_ok N n m lo os window :
  history_ok N (map Make (rounds n)) m lo os -> In window (snapshots os) ->
  exists c, (c <= n)%nat /\ forall q s, window !! q = Some s -> s = Make (Z.of_nat (c - q)).
Proof.
  revert lo. induction os as [|o os IH]; intros lo Hh Hw; [destruct Hw|].
  destruct Hh as (hi & _ & Ho & Hh). destruct o as [| | |k outs]; [by apply (IH hi)..|].
  destruct Hw as [->|Hw]; [|by apply (IH hi)].
  destruct (snapshot_run N n m lo hi k window Ho) as [->|(c & Hc & Hrun)].
  - exists 0%nat. split; [lia|]. intros q s Hq. by rewrite lookup_nil in Hq.
  - exists c. split; [done|]. intros q s Hq. by destruct (Hrun q s Hq).
Qed.
End MessageBufferProof.

Module RegionProof.
Import MessageBufferExample MessageBufferProof RegionExample.

Lemma live_ok N n m lo hi k outs st :
  obs_ok N (map Make (rounds n)) m lo hi (ObsSnapshot k outs) -> r_torn st = 0 -> r_torn (live st outs) = 0.
Proof.
  intros Ho Hst. unfold live. cbn [r_torn]. rewrite Hst.
  assert (Forall (fun s => Torn s = false) outs) as Hf.
  { apply Forall_lookup. intros q v Hq. destruct (snapshot_run N n m lo hi k outs Ho) as [->|(c & _ & Hr)]; [done|].
    destruct (Hr q v Hq) as [-> _]. apply ImuSample_not_torn. }
  clear Ho. induction Hf as [|s l Hs _ IH]; [done|]. cbn [fold_left]. rewrite Hs. exact IH.
Qed.

Lemma race_ok N n m lo os st :
  history_ok N (map Make (rounds n)) m lo os -> r_torn st = 0 -> r_torn (fold_left live (snapshots os) st) = 0.
Proof.
  revert lo st. induction os as [|o os IH]; intros lo st Hh Hst; [done|].
  destruct Hh as (hi & _ & Ho & Hh). destruct o as [| | |k outs]; [by apply (IH hi)..|].
  apply (IH hi); [done|]. by apply (live_ok N n m lo hi k outs).
Qed.

Lemma final_window_ok region :
  final_window region = Some (take 64 (reverse (map Make (rounds (Z.to_nat kStores))))).
Proof.
  unfold final_window, MessageBuffer.MessageBuffer_ctor, MessageBuffer.Snapshot.
  destruct (ring_holds_ctor 64 sizeT ltac:(lia) region) as (s0 & E0 & H0).
  destruct (store_seq_holds 64 sizeT (map Make (rounds (Z.to_nat kStores))) s0 [] ltac:(lia) H0) as (s1 & E1 & H1).
  { rewrite length_map, length_rounds. unfold kStores. cbn [length]. lia. }
  { apply Forall_map, Forall_true. intros t. apply ImuSample_ok. }
  rewrite app_nil_l in H1.
  destruct (holds_snapshot 64 sizeT ltac:(lia) s1 _ 64 H1) as (s2 & E2 & _).
  { rewrite length_map, length_rounds. unfold kStores. lia. } { lia. }
  apply (bind_step _ _ _ _ _ E0), (bind_step _ _ tt s0); [reflexivity|].
  apply (bind_one _ _ _ _ E1), (bind_value _ _ _ _ _ E2). reflexivity.
Qed.
End RegionProof.

(** ** What the programs report *)

(** C20: The latest-state and the history example, in any interleaving and with any
    stale read: however many states the producer has stored and however often the
    consumer has read, no read is torn and the sequence number never goes back; no
    window is torn or has a gap, each being consecutive samples newest first.  So
    both print no torn read and no gap, with the counts of what they read, and exit
    with 0. *)
Theorem overwrite_examples_never_tear (n m : nat) :
  Z.of_nat n < 2 ^ 63 ->
  (forall c' os tv, rtc cstep (MessageSlotExample.program n m) c' -> threads c' !! 1%nat = Some (Ret os, tv) ->
     let st := MessageSlotExample.consume os in
     MessageSlotExample.exit_code st = 0 /\ 0 <= MessageSlotExample.last_seq st <= Z.of_nat n /\
     MessageSlotExample.output n st =
       lit "sensor: produced " ++ lu (Z.of_nat n) ++ lit " states" ++ [10] ++ lit "consumer: " ++
       lu (Z.min 200000 (Z.of_nat (length (MessageSlotExample.loads os)))) ++ lit " cycles, newest seq seen " ++
       lu (MessageSlotExample.last_seq st) ++ lit ", torn reads 0" ++ [10] ++
       lit "(gaps between seen seqs are OVERWRITTEN-UNREAD values " ++ dash ++ lit " correct latest-only behavior, not loss of the newest)" ++ [10] /\
     forall os1 os2, os = os1 ++ os2 -> MessageSlotExample.last_seq (MessageSlotExample.consume os1) <= MessageSlotExample.last_seq st) /\
  (forall c' os tv, rtc cstep (MessageBufferExample.program n m) c' -> threads c' !! 1%nat = Some (Ret os, tv) ->
     let st := MessageBufferExample.fuse os in
     MessageBufferExample.exit_code st = 0 /\
     MessageBufferExample.output n st =
       lit "imu: stored " ++ lu (Z.of_nat n) ++ lit " samples" ++ [10] ++ lit "fusion: " ++
       lu (Z.min 100000 (Z.of_nat (length (filter (fun w => w <> []) (MessageBufferExample.snapshots os))))) ++
       lit " windows, torn 0, ordering gaps 0 (both must be 0), tail-shortened windows " ++ lu (MessageBufferExample.shortened st) ++
       lit " (laps/startup " ++ dash ++ lit " expected, counted)" ++ [10] /\
     forall window, In window (MessageBufferExample.snapshots os) ->
       exists c, (c <= n)%nat /\ forall q s, window !! q = Some s -> s = MessageBufferExample.Make (Z.of_nat (c - q))).
Proof.
  intros Hn. split.
  - intros c' os tv Hr Ht.
    destruct (ring_run 1 MessageSlotExample.sizeT (map MessageSlotExample.Make (rounds n)) _ ltac:(lia)
                ltac:(by rewrite length_map, length_rounds)
                ltac:(by apply Forall_map, Forall_true; intros; apply MessageSlotProof.ImuState_ok) c' Hr) as [_ H].
    destruct (H 0%nat os tv Ht) as [Hh _]. clear H.
    assert (forall os1 os2, os = os1 ++ os2 -> exists hi, history_ok 1 (map MessageSlotExample.Make (rounds n)) (mem c') hi os2 /\
              MessageSlotProof.consumer_ok n hi (MessageSlotExample.consume os1)) as Hpre.
    { intros os1 os2 ->. destruct (MessageSlotProof.consume_ok n (mem c') 0 os1 os2 MessageSlotExample.consumer0 Hn Hh) as (hi & H1 & H2 & _);
        [split_and!; cbn; lia|]. by exists hi. }
    destruct (Hpre os [] (eq_sym (app_nil_r os))) as (hi & _ & Ht0 & Hs & Hl). split_and!; [|lia|lia| |].
    + unfold MessageSlotExample.exit_code. by rewrite Ht0.
    + unfold MessageSlotExample.output, MessageSlotExample.sensor_line, MessageSlotExample.summary. rewrite Ht0.
      unfold MessageSlotExample.consume. rewrite MessageSlotProof.consume_cycles by done.
      cbn [MessageSlotExample.consumer0 MessageSlotExample.cycles]. by rewrite Z.add_0_l, <- !app_assoc.
    + intros os1 os2 Eos. destruct (Hpre os1 os2 Eos) as (mid & Hh2 & Hok). rewrite <- (app_nil_r os2) in Hh2.
      destruct (MessageSlotProof.consume_ok n (mem c') mid os2 [] _ Hn Hh2 Hok) as (_ & _ & _ & Hle).
      unfold MessageSlotExample.consume, MessageSlotExample.loads in *. by rewrite Eos, omap_app, fold_left_app.
  - intros c' os tv Hr Ht.
    destruct (ring_run 256 MessageBufferExample.sizeT (map MessageBufferExample.Make (rounds n)) _ ltac:(lia)
                ltac:(by rewrite length_map, length_rounds)
                ltac:(by apply Forall_map, Forall_true; intros; apply MessageBufferProof.ImuSample_ok) c' Hr) as [_ H].
    destruct (H 0%nat os tv Ht) as [Hh _]. clear H. intros st.
    destruct (MessageBufferProof.fuse_ok 256 n (mem c') 0 os MessageBufferExample.fusion0 Hn Hh ltac:(done)) as [H1 H2].
    change (MessageBufferExample.torn st = 0) in H1. change (MessageBufferExample.gaps st = 0) in H2. split_and!.
    + unfold MessageBufferExample.exit_code. by rewrite H1, H2.
    + unfold MessageBufferExample.output, MessageBufferExample.imu_line, MessageBufferExample.summary. rewrite H1, H2.
      assert (MessageBufferExample.windows st = Z.min 100000 (Z.of_nat (length (filter (fun w => w <> []) (MessageBufferExample.snapshots os))))) as ->
        by (apply MessageBufferProof.fuse_windows; done).
      by rewrite <- !app_assoc.
    + intros window Hw. by apply (MessageBufferProof.windows_ok 256 n (mem c') 0 os window Hh).
Qed.

(** C29: The shared window: whatever the region held, however the parent's snapshots
    race the child's stores, no sample is torn; when the child has exited, the last
    window is the newest 64 of the 100000 samples, newest first, and the program
    prints so, names the region's size, and exits with 0. *)
Theorem shared_window_survives (m : nat) (region : rloc -> Z) (c' : config rloc Z (list robs)) (os : list robs) (tv : tview rloc) :
  let stored := map MessageBufferExample.Make (rounds (Z.to_nat RegionExample.kStores)) in
  rtc cstep (RegionExample.program (Z.to_nat RegionExample.kStores) m) c' -> threads c' !! 1%nat = Some (Ret os, tv) ->
  RegionExample.r_torn (RegionExample.race os) = 0 /\
  RegionExample.final_window region = Some (take 64 (reverse stored)) /\
  RegionExample.outcome true (RegionExample.race os) (take 64 (reverse stored)) =
    (lit "region: 2568 bytes for MessageBuffer<ImuSample, 64>" ++ [10] ++
     lit "parent: " ++ lu (RegionExample.live_windows (RegionExample.race os)) ++ lit " live cross-process windows (torn 0 " ++ dash ++
     lit " must be 0); final window after child exit: 64 samples, newest t=100000" ++ [10], 0).
Proof.
  intros stored Hr Ht.
  destruct (ring_run 64 MessageBufferExample.sizeT stored _ ltac:(lia)
              ltac:(subst stored; rewrite length_map, length_rounds; unfold RegionExample.kStores; lia)
              ltac:(by apply Forall_map, Forall_true; intros; apply MessageBufferProof.ImuSample_ok) c' Hr) as [_ H].
  destruct (H 0%nat os tv Ht) as [Hh _]. clear H.
  pose proof (RegionProof.race_ok 64 _ (mem c') 0 os (RegionExample.mkFused 0 0) Hh eq_refl) as Hrace.
  change (RegionExample.r_torn (RegionExample.race os) = 0) in Hrace.
  split_and!; [exact Hrace|apply RegionProof.final_window_ok|].
  assert (length (take 64 (reverse stored)) = 64%nat) as El.
  { rewrite length_take, length_reverse. subst stored. rewrite length_map, length_rounds. unfold RegionExample.kStores. lia. }
  destruct (last_rounds MessageBufferExample.Make (Z.to_nat RegionExample.kStores)) as (l & E); [unfold RegionExample.kStores; lia|].
  assert (exists rest, take 64 (reverse stored) = MessageBufferExample.Make RegionExample.kStores :: rest) as (rest & Er).
  { subst stored. rewrite E, reverse_snoc. eexists. cbn [take]. by rewrite Z2Nat.id by (unfold RegionExample.kStores; lia). }
  unfold RegionExample.outcome, RegionExample.exit_code, RegionExample.summary. rewrite El, Er. cbn [head default from_option id].
  rewrite Hrace, MessageBufferProof.t_us_Make. reflexivity.
Qed.

(** ** Concrete runs: one state stored and loaded; two samples stored and windowed;
    a snapshot before the child's first store. *)

Definition slot_sched : list (nat * nat) :=
  map (pair 0%nat) (repeat 0%nat 15) ++ map (pair 1%nat) [0; 1; 2; 1; 1; 1; 1; 1; 1; 1; 1; 1; 0; 2]%nat.
Definition window_sched : list (nat * nat) :=
  map (pair 0%nat) (repeat 0%nat 10 ++ 1%nat :: repeat 0%nat 9) ++
  map (pair 1%nat) [2; 2; 1; 1; 1; 1; 0; 2; 2; 1; 1; 1; 1; 0; 2]%nat.

Lemma slot_example_run :
  (run (MessageSlotExample.program 2 1) slot_sched ≫= thread_result 1) = Some [ObsLoad (Some (MessageSlotExample.Make 1))].
Proof. vm_compute. reflexivity. Qed.

Lemma window_example_run :
  (run (MessageBufferExample.program 2 1) window_sched ≫= thread_result 1) =
  Some [ObsSnapshot 64 [MessageBufferExample.Make 2; MessageBufferExample.Make 1]].
Proof. vm_compute. reflexivity. Qed.

Lemma overwrite_examples_never_tear_witness :
  MessageSlotExample.exit_code (MessageSlotExample.consume [ObsLoad (Some (MessageSlotExample.Make 1))]) = 0 /\
  MessageBufferExample.exit_code (MessageBufferExample.fuse [ObsSnapshot 64 [MessageBufferExample.Make 2; MessageBufferExample.Make 1]]) = 0.
Proof.
  destruct (overwrite_examples_never_tear 2 1) as [H1 H2]; [lia|]. split.
  - destruct (run_result _ _ _ _ slot_example_run) as (c' & tv & Hr & Ht). apply (H1 c' _ tv Hr Ht).
  - destruct (run_result _ _ _ _ window_example_run) as (c' & tv & Hr & Ht). apply (H2 c' _ tv Hr Ht).
Defined.

Lemma shared_example_run :
  (run (RegionExample.program (Z.to_nat RegionExample.kStores) 1) [(1, 0)]%nat ≫= thread_result 1) = Some [ObsSnapshot 64 []].
Proof. lazy. reflexivity. Qed.

Lemma shared_window_survives_witness :
  RegionExample.r_torn (RegionExample.race [ObsSnapshot 64 []]) = 0.
Proof.
  destruct (run_result _ _ _ _ shared_example_run) as (c' & tv & Hr & Ht).
  apply (shared_window_survives 1 (fun _ => 7) c' _ tv Hr Ht).
Defined.
