(* ===== verification/CustomBinding.v ===== *)
(** * A custom binding and a program over it (examples/custom_binding_example.cpp)

    A second implementation of the binding table: registries that allocate one slot
    per name, and entries that print what they receive.  The example's [main] runs
    through installation, the front door, the tracing API and the handles, and its
    whole output is computed. *)

From Stdlib Require Import ZArith Lia String Floats.SpecFloat.
From stdpp Require Import base list numbers relations.
From S2P Require Import Prelude Memory Context Printf ArgPack Format Unbound ConsoleFormat Console Dispatch Metrics Binding Stats Report Handles DeviceHealth.

Local Open Scope Z_scope.

(** ** The backend *)

(** The deques are the names in order: entry [i] of one is its slot [i]; the deque
    never moves an entry, so the address of a slot is its index.  [handed] is a
    history: the spans [emit_span] was called with, of which its line shows a part. *)
Record MiniBackend := mkMini { counters : list bytes; gauges : list bytes; stdout : bytes; handed : list span_record }.

Definition print (s : bytes) (st : MiniBackend) : MiniBackend := mkMini (counters st) (gauges st) (stdout st ++ s) (handed st).
Definition hand (r : span_record) (st : MiniBackend) : MiniBackend := mkMini (counters st) (gauges st) (stdout st) (handed st ++ [r]).

(** [Slot(store, name)]: the slot and the store. *)
Definition Slot (store : list bytes) (name : bytes) : slot * list bytes :=
  match find_source 0 store name with
  | Some i => (BackendSlot (Z.of_nat i), store)
  | None => (BackendSlot (Z.of_nat (length store)), store ++ [name])
  end.

(** [%.*s] with an [int] made of a size. *)
Definition print_view (s : bytes) : bytes :=
  let n := sint 32 (Z.of_nat (length s)) in print_str None (if n <? 0 then None else Some (Z.to_nat n)) s.

(** [%-22s]. *)
Definition print_left (width : nat) (s : bytes) : bytes :=
  let s := c_str s in s ++ repeat c_space (width - length s).

Definition health_number (s : HealthState) : Z :=
  match s with kOk => 0 | kDegraded => 1 | kFault => 2 | kDisconnected => 3 end.

Definition event_text (src : Z) (sev : Severity) (fmt : bytes) (args : ArgPack) : bytes :=
  str "[mini] event  sev=" ++ print_int Clld false None (severity_u8 sev) ++ str " src=" ++ print_int Cllu false None src ++
  str " fmt=" ++ [34] ++ print_str None None fmt ++ [34] ++ str " (" ++ print_int Clld false None (ArgPack.count args) ++ str " args)" ++ [10].

Definition event_dyn_text (sev : Severity) (msg : bytes) : bytes :=
  str "[mini] event* sev=" ++ print_int Clld false None (severity_u8 sev) ++ str " " ++ [34] ++ print_view msg ++ [34; 10].

Definition span_text (r : span_record) : bytes :=
  str "[mini] span   " ++ print_left 22 (r_name r) ++ str " " ++
  print_decoded Fixed false false (Some 6%nat) (Some 2%nat) (printf_arg (millis (r_end r - r_begin r))) ++
  str " ms  links=" ++ print_int Cllu false None (Z.of_nat (length (r_links r))) ++
  str "  trace=" ++ print_int Cllx true (Some 16%nat) (hi (trace (r_ctx r))) ++ [226; 128; 166; 10].

Definition health_text (sub : bytes) (state : HealthState) (d : bytes) : bytes :=
  str "[mini] health " ++ print_str None None sub ++ str " -> " ++ print_int Clld false None (health_number state) ++
  str " (" ++ print_str None None d ++ str ")" ++ [10].

Definition channel_text (name : bytes) (size : Z) : bytes :=
  str "[mini] channel registered: " ++ print_view name ++ str " (" ++ print_int Cllu false None size ++ str " B/sample)" ++ [10].

Definition signal_text (size : Z) : bytes := str "[mini] signal " ++ print_int Cllu false None size ++ str " B" ++ [10].

Definition resource_text (k v : bytes) : bytes :=
  str "[mini] resource " ++ print_view k ++ str "=" ++ print_view v ++ [10].

(** [Make()]'s table.  A null string handed to [%s] is undefined. *)
Definition Make : Binding MiniBackend :=
  mkBinding MiniBackend kBindingAbiVersion
    (fun n st => let '(sl, c) := Slot (counters st) n in (sl, mkMini c (gauges st) (stdout st) (handed st)))
    (fun n st => let '(sl, g) := Slot (gauges st) n in (sl, mkMini (counters st) g (stdout st) (handed st)))
    (fun _ st => (BackendSlot 0, st))
    (fun n sz _ _ st => (BackendSlot 0, print (channel_text n sz) st))
    (fun _ st => (1, st))
    (Some (fun _ _ => true)) (Some (fun _ st => st)) (Some (fun _ => kTrace))
    (fun src sev fmt args _ _ st =>
       match fmt with Some fmt => Some (print (event_text src sev fmt args) st) | None => None end)
    (fun _ sev msg _ _ st => match msg with Some msg => Some (print (event_dyn_text sev msg) st) | None => None end)
    (fun r st => hand r (print (span_text r) st))
    (fun _ sample _ => print (signal_text (Z.of_nat (length sample))))
    (fun sub state d _ _ st =>
       match sub, d with Some sub, Some d => Some (print (health_text sub state d) st) | _, _ => None end)
    (fun k v => print (resource_text k v)).

(** ** The program *)

(** [TrajPoint{index, x, y, v}]: 32 bytes; what the four bytes of padding hold is not
    determined. *)
Definition TrajPoint (padding : bytes) (index : Z) (x y v : Metrics.double) : bytes :=
  le_bytes 4 index ++ padding ++ le_bytes 8 (double_bits x) ++ le_bytes 8 (double_bits y) ++ le_bytes 8 (double_bits v).

Definition tenth : Metrics.double := S754_finite false 7205759403792794 (-56).
Definition two_tenths : Metrics.double := S754_finite false 7205759403792794 (-55).

Section Main.
Context {W : Type} (bd : option (Binding W)).
Variables (clock : nat -> Z) (padding type_name : bytes).

(** The loop that publishes: from [i], [n] more points. *)
Fixpoint publish_points (n : nat) (i : Z) (traj cycles : slot) (now : nat) (a : application W) : option (application W) :=
  match n with
  | O => Some a
  | S n =>
      let sample := TrajPoint padding i (dmul tenth (double_of i)) (dmul two_tenths (double_of i)) (double_of 1) in
      let a := with_front a (Publish bd traj sample (clock now) (front a)) in
      match Counter_Add cycles (double_of 1) a with
      | Some a => publish_points n (i + 1) traj cycles (S now) a
      | None => None
      end
  end.

(** The scope of XM_SPAN("demo.plan.generate"). *)
Definition generate (traj cycles : slot) (a : application W) : option (application W) :=
  let '(span, t) := Span_ctor (str "demo.plan.generate") (clock 1) (tls a) in
  match publish_points 3 0 traj cycles 2 (with_tls t a) with
  | None => None
  | Some a =>
      match on_front a (XM_LOG 0 bd None kInfo (str "trajectory ready: {} points") [ASigned 3] (CurrentContext (tls a)) (clock 5) (front a)) with
      | None => None
      | Some a =>
          match on_front a (XM_STREAM 0 bd None kWarn (str "streamed 42") (CurrentContext (tls a)) (clock 6) (front a)) with
          | None => None
          | Some a => Some (close_span bd span (clock 7) a)
          end
      end
  end.

(** [main] from the resource to the health report. *)
Definition instrumented (a : application W) : option (slot * application W) :=
  let a := with_front a (SetResource bd (str "robot.id") (str "demo-bot") (front a)) in
  let '(cycles, w) := GetCounter bd (str "demo.cycles") (front a) in
  let '(traj, w) := GetChannel bd (str "demo.plan.traj_point") 32 8 type_name w in
  let a := with_front a w in
  let '(upstream, t) := NewTrace (tls a) in
  let '(root, t) := NewTrace t in
  let '(saved, t) := ContextGuard_ctor root t in
  let '(plan, t) := Span_ctor (str "demo.plan.iteration") (clock 0) t in
  let plan := AddLink upstream plan in
  match generate traj cycles (with_tls t a) with
  | None => None
  | Some a =>
      let a := close_span bd plan (clock 8) a in
      let a := with_tls (ContextGuard_dtor saved (tls a)) a in
      match on_front a (ReportHealth bd (Some (str "demo.planner")) kOk (Some (str "nominal")) (CurrentContext (tls a)) (clock 9) (front a)) with
      | None => None
      | Some a => Some (cycles, a)
      end
  end.
End Main.

(** The table of the example at its address; the console's stays aside. *)
Definition table_address : Z := 1.

(** The loop over the registered counters at exit. *)
Definition metric_text (a : application MiniBackend) (i : nat) (name : bytes) : bytes :=
  str "[mini] metric " ++ print_str None None name ++ str " = " ++
  print_decoded Fixed false false None (Some 0%nat) (printf_arg (counter_value a (BackendSlot (Z.of_nat i)))) ++ [10].

Definition metrics_text (a : application MiniBackend) : bytes :=
  concat (imap (metric_text a) (counters (backend (front a)))).

(** [main]: the exit code, the process's binding variables, what was printed and the
    spans the table was handed; [def] is the default binding, which is never used. *)
Definition main (def : Z) (clock : nat -> Z) (padding type_name : bytes) (mem : bloc -> Z) (a : application MiniBackend)
  : option (Z * (bloc -> Z) * bytes * list span_record) :=
  match srun 1 (InstallBinding table_address) mem with
  | None => None
  | Some (false, mem) => Some (1, mem, stdout (backend (front a)), handed (backend (front a)))
  | Some (true, mem) =>
      match srun 1 (ActiveBinding def) mem with
      | None => None
      | Some (b, mem) =>
          let bd := if b =? table_address then Some Make else None in
          match instrumented bd clock padding type_name a with
          | None => None
          | Some (_, a) =>
              match srun 1 (InstallBinding 0) mem with
              | None => None
              | Some (_, mem) => Some (0, mem, stdout (backend (front a)) ++ metrics_text a, handed (backend (front a)))
              end
          end
      end
  end.

(** ** Registries *)

Lemma Slot_spec store name :
  exists i, fst (Slot store name) = BackendSlot (Z.of_nat i) /\ snd (Slot store name) !! i = Some name /\
    (exists l, snd (Slot store name) = store ++ l) /\ (NoDup store -> NoDup (snd (Slot store name))).
Proof.
  unfold Slot. pose proof (find_source_spec 0 store name) as Hf. destruct (find_source 0 store name) as [k|]; cbn [fst snd].
  - destruct Hf as (j & -> & Hj). exists j. split_and!; try done. exists []. by rewrite app_nil_r.
  - exists (length store). split_and!; [done|apply lookup_snoc_last|by exists [name]|].
    intros Hnd. apply NoDup_app. split; [done|]. split; [|apply NoDup_singleton].
    intros x Hx ->%list_elem_of_singleton. apply Hf. by apply list_elem_of_In.
Qed.

(** The slots a sequence of registrations gets. *)
Fixpoint register (names : list bytes) (store : list bytes) : list slot * list bytes :=
  match names with
  | [] => ([], store)
  | n :: names =>
      let '(sl, store) := Slot store n in
      let '(sls, store) := register names store in (sl :: sls, store)
  end.

Lemma register_spec names store i name sl :
  NoDup store -> names !! i = Some name -> fst (register names store) !! i = Some sl ->
  exists j, sl = BackendSlot (Z.of_nat j) /\ snd (register names store) !! j = Some name.
Proof.
  revert store i. induction names as [|n names IH]; intros store i Hnd Hi Hs; [done|]. cbn [register] in *.
  destruct (Slot_spec store n) as (j & Ej & Hj & _ & Hnd'). destruct (Slot store n) as [s1 store1]. cbn [fst snd] in *.
  assert (forall l st, exists l', snd (register l st) = st ++ l') as Hgrow.
  { clear. induction l as [|m l IHl]; intros st; [exists []; by rewrite app_nil_r|]. cbn [register].
    destruct (Slot_spec st m) as (_ & _ & _ & (l1 & E1) & _). destruct (Slot st m) as [s0 st0]. cbn [snd] in E1.
    destruct (IHl st0) as (l2 & E2). destruct (register l st0) as [sls st2]. cbn [snd] in *.
    exists (l1 ++ l2). by rewrite E2, E1, app_assoc. }
  specialize (IH store1). destruct (Hgrow names store1) as (l' & El').
  destruct (register names store1) as [sls store2]. cbn [fst snd] in *.
  destruct i as [|i]; cbn in Hi, Hs.
  - injection Hi as ->. injection Hs as <-. exists j. split; [done|]. rewrite El'. by apply lookup_app_l_Some.
  - by apply (IH i (Hnd' Hnd)).
Qed.

Lemma register_nodup names store : NoDup store -> NoDup (snd (register names store)).
Proof.
  revert store. induction names as [|n names IH]; intros store Hnd; [done|]. cbn [register].
  destruct (Slot_spec store n) as (_ & _ & _ & _ & H). destruct (Slot store n) as [s1 store1].
  specialize (IH store1 (H Hnd)). by destruct (register names store1).
Qed.

(** One slot per name: in any sequence of registrations with the custom backend,
    two registrations return the same slot exactly when the names are the same; and
    what is added through one handle shows through every handle of that name and
    through no other. *)
Theorem slots_follow_names (names : list bytes) (a : application MiniBackend) (v : Metrics.double) :
  slots_ok (memory a) ->
  let sls := fst (register names []) in
  (forall i j n m s t, names !! i = Some n -> names !! j = Some m -> sls !! i = Some s -> sls !! j = Some t -> (s = t <-> n = m)) /\
  (forall i n s, names !! i = Some n -> sls !! i = Some s ->
     exists a', Counter_Add s v a = Some a' /\
       forall j m t, names !! j = Some m -> sls !! j = Some t ->
         counter_value a' t = if decide (n = m) then dadd (counter_value a t) v else counter_value a t).
Proof.
  intros Hok sls.
  assert (forall i j n m s t, names !! i = Some n -> names !! j = Some m -> sls !! i = Some s -> sls !! j = Some t -> (s = t <-> n = m)) as Hinj.
  { intros i j n m s t Hi Hj Hs Ht.
    destruct (register_spec names [] i n s (NoDup_nil_2) Hi Hs) as (x & -> & Hx).
    destruct (register_spec names [] j m t (NoDup_nil_2) Hj Ht) as (y & -> & Hy).
    split.
    - intros [= E]. assert (x = y) as -> by lia. congruence.
    - intros ->. by rewrite (NoDup_lookup _ _ _ _ (register_nodup names [] NoDup_nil_2) Hx Hy). }
  split; [exact Hinj|]. intros i n s Hi Hs.
  destruct (Counter_Add_spec s v a Hok) as (a' & E & _ & _ & _ & _ & _ & Hc). exists a'. split; [done|].
  intros j m t Hj Ht. rewrite Hc. pose proof (Hinj i j n m s t Hi Hj Hs Ht) as Hst.
  destruct (decide (n = m)) as [Enm|Enm]; [apply Hst in Enm as ->; by rewrite decide_True|].
  rewrite decide_False; [done|]. intros ->. apply Enm. by apply Hst.
Qed.

Lemma slots_follow_names_witness :
  fst (register [str "a"; str "b"; str "a"] []) = [BackendSlot 0; BackendSlot 1; BackendSlot 0] /\
  exists a', Counter_Add (BackendSlot 0) (double_of 2) (mkApp (mkWorld (mkMini [] [] [] []) []) slots0 (Thread no_context None (1, 2))) = Some a' /\
    counter_value a' (BackendSlot 1) = S754_zero false.
Proof.
  split; [vm_compute; reflexivity|].
  destruct (slots_follow_names [str "a"; str "b"; str "a"] (mkApp (mkWorld (mkMini [] [] [] []) []) slots0 (Thread no_context None (1, 2))) (double_of 2))
    as [_ H]; [by intros h|].
  destruct (H 0%nat (str "a") (BackendSlot 0) eq_refl eq_refl) as (a' & E & Hv). exists a'. split; [exact E|].
  rewrite (Hv 1%nat (str "b") (BackendSlot 1) eq_refl eq_refl). rewrite decide_False by (vm_compute; discriminate). reflexivity.
Defined.

(** ** The output *)

Lemma nth_id_nonzero n t : nth_id n t <> 0.
Proof.
  revert t. induction n as [|n IH]; intros t; [apply NextId_ok|apply IH].
Qed.

(** The thread after [n] ids. *)
Definition after_ids (n : nat) (t : Context.thread) : Context.thread := Nat.iter n (fun t => snd (NextId t)) t.

Lemma NewTrace_eq t :
  NewTrace t = (Ctx (Trace (nth_id 0 t) (nth_id 1 t)) (SpanI (nth_id 2 t)), after_ids 3 t).
Proof.
  unfold NewTrace, after_ids, Nat.iter. cbn [nth_id nat_rect].
  destruct (NextId t) as [h t1]. cbn [fst snd]. destruct (NextId t1) as [l t2]. cbn [fst snd].
  by destruct (NextId t2) as [s t3].
Qed.

(** A span under a valid context. *)
Lemma Span_ctor_child name now t :
  TraceId_valid (trace (t_current_context t)) = true ->
  Span_ctor name now t =
  (SpanObj name now (t_current_context t) (span (t_current_context t)) [],
   SetCurrentContext (Ctx (trace (t_current_context t)) (SpanI (fst (NextId t)))) (snd (NextId t))).
Proof. intros H. unfold Span_ctor, Begin. rewrite H. cbn [negb]. by destruct (NextId t). Qed.

Lemma NextId_SetCurrentContext c t : NextId (SetCurrentContext c t) = (fst (NextId t), SetCurrentContext c (snd (NextId t))).
Proof. done. Qed.

Lemma nth_id_after n m t : nth_id n (after_ids m t) = nth_id (m + n) t.
Proof.
  revert t. induction m as [|m IH]; intros t; [done|]. cbn [after_ids Nat.add nth_id]. rewrite <- IH.
  f_equal. unfold after_ids. by rewrite Nat.iter_succ_r.
Qed.

Lemma after_ids_add n m t : after_ids n (after_ids m t) = after_ids (n + m) t.
Proof. unfold after_ids. by rewrite Nat.iter_add. Qed.

Lemma fst_NextId_after n t : fst (NextId (after_ids n t)) = nth_id n t.
Proof. change (fst (NextId ?x)) with (nth_id 0 x). by rewrite nth_id_after, Nat.add_0_r. Qed.

Lemma snd_NextId_after n t : snd (NextId (after_ids n t)) = after_ids (S n) t.
Proof. reflexivity. Qed.

Section Output.
Variables (clock : nat -> Z) (padding type_name : bytes).
Hypothesis padding_length : length padding = 4%nat.

Lemma TrajPoint_length i x y v : length (TrajPoint padding i x y v) = 32%nat.
Proof. unfold TrajPoint. by rewrite !length_app, !length_le_bytes, padding_length. Qed.

Definition printed (s : bytes) (a : application MiniBackend) : application MiniBackend :=
  with_front a (with_backend (front a) (print s (backend (front a)))).
Definition handed_over (r : span_record) (a : application MiniBackend) : application MiniBackend :=
  with_front a (with_backend (front a) (hand r (backend (front a)))).

Lemma publish_points_mini n i traj cycles now a :
  slots_ok (memory a) ->
  exists a', publish_points (Some Make) clock padding n i traj cycles now a = Some a' /\
    front a' = front (printed (concat (repeat (signal_text 32) n)) a) /\ tls a' = tls a /\ slots_ok (memory a') /\
    counter_value a' cycles = Nat.iter n (fun v => dadd v (double_of 1)) (counter_value a cycles).
Proof.
  revert i now a. induction n as [|n IH]; intros i now a Hok.
  - exists a. split_and!; try done. unfold printed, print, with_front, with_backend. cbn. rewrite app_nil_r.
    by destruct a as [[[c g o l] f] m t].
  - cbn [publish_points]. set (a1 := with_front a (Publish _ _ _ _ _)).
    assert (front a1 = front (printed (signal_text 32) a)) as Ef.
    { unfold a1, printed. cbn [with_front front Publish Make emit_signal]. by rewrite TrajPoint_length. }
    destruct (Counter_Add_spec cycles (double_of 1) a1 Hok) as (a2 & -> & Ef2 & Et2 & Hok2 & _ & _ & Hc).
    destruct (IH (i + 1) (S now) a2 Hok2) as (a3 & -> & Ef3 & Et3 & Hok3 & Hc3). exists a3. split; [done|].
    rewrite Ef3, Et3, Hc3, Hc, decide_True by done. split_and!; [|done|done|].
    + unfold printed at 1. cbn [with_front front]. rewrite Ef2, Ef. unfold printed, print. cbn [with_front front with_backend backend stdout counters gauges fallback concat repeat].
      by rewrite app_assoc.
    + by rewrite Nat.iter_succ_r.
Qed.

(** The spans of the run, from the eight ids the thread draws. *)
Record run_ids := mkIds { id0 : Z; id1 : Z; id2 : Z; id3 : Z; id4 : Z; id5 : Z; id6 : Z; id7 : Z }.
Definition ids_of (t : Context.thread) : run_ids :=
  mkIds (nth_id 0 t) (nth_id 1 t) (nth_id 2 t) (nth_id 3 t) (nth_id 4 t) (nth_id 5 t) (nth_id 6 t) (nth_id 7 t).

Definition upstream_of (k : run_ids) : Context := Ctx (Trace (id0 k) (id1 k)) (SpanI (id2 k)).
Definition root_of (k : run_ids) : Context := Ctx (Trace (id3 k) (id4 k)) (SpanI (id5 k)).
Definition plan_of (k : run_ids) : Context := Ctx (Trace (id3 k) (id4 k)) (SpanI (id6 k)).
Definition generate_of (k : run_ids) : Context := Ctx (Trace (id3 k) (id4 k)) (SpanI (id7 k)).

Definition generate_span (k : run_ids) : span_record :=
  SpanRecord (str "demo.plan.generate") (generate_of k) (span (plan_of k)) (clock 1) (clock 7) [].
Definition plan_span (k : run_ids) : span_record :=
  SpanRecord (str "demo.plan.iteration") (plan_of k) (span (root_of k)) (clock 0) (clock 8) [upstream_of k].

(** What the scope of "demo.plan.generate" prints. *)
Definition generate_text (r : span_record) : bytes :=
  concat (repeat (signal_text 32) 3) ++
  event_text 0 kInfo (str "trajectory ready: {} points") (PackArgs [ASigned 3]) ++
  event_dyn_text kWarn (str "streamed 42") ++ span_text r.

Lemma generate_mini traj cycles a :
  slots_ok (memory a) -> TraceId_valid (trace (t_current_context (tls a))) = true ->
  let c := t_current_context (tls a) in
  let r := SpanRecord (str "demo.plan.generate") (Ctx (trace c) (SpanI (fst (NextId (tls a))))) (span c) (clock 1) (clock 7) [] in
  exists a', generate (Some Make) clock padding traj cycles a = Some a' /\
    front a' = front (handed_over r (printed (generate_text r) a)) /\ tls a' = SetCurrentContext c (snd (NextId (tls a))) /\
    slots_ok (memory a') /\
    counter_value a' cycles = Nat.iter 3 (fun v => dadd v (double_of 1)) (counter_value a cycles).
Proof.
  intros Hok Hv c r. unfold generate. rewrite Span_ctor_child by done.
  set (t1 := SetCurrentContext _ _).
  destruct (publish_points_mini 3 0 traj cycles 2 (with_tls t1 a) Hok) as (a1 & -> & Ef & Et & Hok1 & Hc).
  unfold XM_LOG. cbn [compiled_in severity_u8 Z.leb EmitEvent gate Make should_log negb emit_event lift on_front option_map].
  unfold XM_STREAM. cbn [compiled_in severity_u8 Z.leb EmitEventDyn ShouldLog gate Make should_log negb emit_event_dyn lift on_front option_map].
  eexists. split; [done|]. split_and!; [| |exact Hok1|exact Hc].
  - unfold close_span. cbn [Span_dtor front]. unfold on_front, with_front. cbn [front tls]. rewrite Ef, Et.
    unfold handed_over, hand, printed, print, with_backend, with_front.
    cbn [front backend stdout handed counters gauges fallback with_tls tls emit_span Make].
    unfold hand, print, generate_text. cbn [stdout handed counters gauges]. rewrite <- !app_assoc. reflexivity.
  - unfold close_span. cbn [Span_dtor tls with_front]. rewrite Et. done.
Qed.
End Output.

Lemma AddLink_first l s : Context_valid l = true -> links_ s = [] -> AddLink l s = SpanObj (name_ s) (begin_ s) (saved_ s) (parent_ s) [l].
Proof. intros Hv Hl. unfold AddLink. by rewrite Hl, Hv. Qed.

(** The thread draws these ids, in order. *)
Definition draws (t : Context.thread) (k : run_ids) : Prop :=
  exists t3 t6 t7 t8,
    NewTrace t = (upstream_of k, t3) /\ NewTrace t3 = (root_of k, t6) /\
    NextId t6 = (id6 k, t7) /\ NextId t7 = (id7 k, t8).

Lemma NextId_after n t : NextId (after_ids n t) = (nth_id n t, after_ids (S n) t).
Proof. by rewrite (surjective_pairing (NextId (after_ids n t))), fst_NextId_after, snd_NextId_after. Qed.

Lemma draws_ids t : draws t (ids_of t).
Proof.
  unfold draws, ids_of, upstream_of, root_of. cbn [id0 id1 id2 id3 id4 id5 id6 id7].
  exists (after_ids 3 t), (after_ids 6 t), (after_ids 7 t), (after_ids 8 t).
  split; [apply NewTrace_eq|]. split; [|split; apply NextId_after].
  by rewrite NewTrace_eq, !nth_id_after, after_ids_add.
Qed.

Lemma valid_id h l : h <> 0 -> TraceId_valid (Trace h l) = true.
Proof. intros Hh. unfold TraceId_valid. cbn [hi lo]. apply negb_true_iff, Z.eqb_neq. by intros [H _]%Z.lor_eq_0_iff. Qed.

(** [main]'s body on the custom backend: what is printed up to the metrics. *)
Lemma instrumented_mini clock padding type_name a other k :
  length padding = 4%nat -> front a = mkWorld (mkMini [] [] [] []) other -> slots_ok (memory a) ->
  draws (tls a) k -> id0 k <> 0 -> id3 k <> 0 ->
  exists a', instrumented (Some Make) clock padding type_name a = Some (BackendSlot 0, a') /\
    front a' = mkWorld (mkMini [str "demo.cycles"] []
      (resource_text (str "robot.id") (str "demo-bot") ++ channel_text (str "demo.plan.traj_point") 32 ++
       generate_text (generate_span clock k) ++ span_text (plan_span clock k) ++
       health_text (str "demo.planner") kOk (str "nominal"))
      [generate_span clock k; plan_span clock k]) other /\
    counter_value a' (BackendSlot 0) = Nat.iter 3 (fun v => dadd v (double_of 1)) (counter_value a (BackendSlot 0)).
Proof.
  intros Hpad Hf Hok (t3 & t6 & t7 & t8 & E3 & E6 & E7 & E8) H0 H3. unfold instrumented. rewrite Hf.
  cbn [SetResource Make set_resource GetCounter get_counter GetChannel get_signal with_front front with_backend backend print
       Slot find_source counters gauges stdout handed app length fallback tls].
  change (Z.of_nat 0) with 0.
  set (a0 := with_front _ _). rewrite E3, E6. cbn [ContextGuard_ctor].
  rewrite Span_ctor_child by (cbn [SetCurrentContext t_current_context]; by apply valid_id).
  rewrite NextId_SetCurrentContext, E7. cbn [fst snd]. set (t1 := SetCurrentContext (Ctx _ _) _).
  assert (NextId t1 = (id7 k, SetCurrentContext (t_current_context t1) t8)) as E1.
  { unfold t1. cbn [SetCurrentContext t_current_context root_of trace]. by rewrite !NextId_SetCurrentContext, E8. }
  rewrite AddLink_first by first [by apply valid_id|done].
  destruct (generate_mini clock padding Hpad (BackendSlot 0) (BackendSlot 0) (with_tls t1 a0)) as (a1 & -> & Ef1 & Et2 & Hok1 & Hc);
    [done|cbn [with_tls tls t1 t_current_context trace]; by apply valid_id|].
  cbn [with_tls tls] in Ef1, Et2, Hc. rewrite E1 in Ef1, Et2. cbn [fst snd] in Ef1, Et2.
  cbn [ReportHealth Make report_health lift on_front option_map name_ begin_ saved_ parent_].
  eexists. split; [done|]. split; [|exact Hc].
  unfold close_span. cbn [Span_dtor with_front front with_tls name_ begin_ saved_ parent_ links_]. rewrite Ef1, Et2.
  cbn [SetCurrentContext t_current_context emit_span Make].
  unfold a0, handed_over, hand, printed, print, with_backend, with_front. cbn [front backend stdout handed counters gauges fallback with_tls].
  unfold generate_span, plan_span. rewrite <- !app_assoc. reflexivity.
Qed.

(** What the program prints. *)
Definition program_output (clock : nat -> Z) (k : run_ids) : bytes :=
  resource_text (str "robot.id") (str "demo-bot") ++ channel_text (str "demo.plan.traj_point") 32 ++
  generate_text (generate_span clock k) ++ span_text (plan_span clock k) ++
  health_text (str "demo.planner") kOk (str "nominal") ++ str "[mini] metric demo.cycles = 3" ++ [10].

Definition installed_mem (mem : bloc -> Z) : bloc -> Z :=
  upd (upd (upd (upd mem GExplicit 1) GBinding table_address) GExplicit 1) GBinding 0.

(** C33: The custom binding's program end to end: with a table of the right version,
    it installs, runs and unbinds, exits with 0 and prints exactly one line for the
    resource, the channel, each of the three samples, the event (not formatted: the
    backend gets the format and the pack), the streamed text, the inner span, the
    outer span with its link, the health report, and the counter's total.  The
    table is handed exactly two spans: first the inner one, a child of the outer on
    its trace and without links, then the outer one, under the context of the second
    trace the thread minted, linked to the first; whatever the clock and the ids. *)
Theorem custom_binding_prints_every_verb (def : Z) (clock : nat -> Z) (padding type_name other : bytes) (mem : bloc -> Z)
    (a : application MiniBackend) :
  length padding = 4%nat -> mem (Table table_address FAbi) = kBindingAbiVersion ->
  front a = mkWorld (mkMini [] [] [] []) other -> memory a = slots0 ->
  let k := ids_of (tls a) in
  exists inner outer,
    main def clock padding type_name mem a = Some (0, installed_mem mem, program_output clock k, [inner; outer]) /\
    r_name inner = str "demo.plan.generate" /\ r_name outer = str "demo.plan.iteration" /\
    r_parent inner = span (r_ctx outer) /\ trace (r_ctx inner) = trace (r_ctx outer) /\ r_links inner = [] /\
    r_parent outer = SpanI (id5 k) /\ trace (r_ctx outer) = Trace (id3 k) (id4 k) /\
    r_links outer = [Ctx (Trace (id0 k) (id1 k)) (SpanI (id2 k))] /\
    (r_begin outer, r_begin inner, r_end inner, r_end outer) = (clock 0%nat, clock 1%nat, clock 7%nat, clock 8%nat) /\
    Context_valid (upstream_of k) = true /\ Context_valid (root_of k) = true.
Proof.
  intros Hpad Habi Hf Hm. pose proof (draws_ids (tls a)) as Hk.
  assert (id0 (ids_of (tls a)) <> 0 /\ id3 (ids_of (tls a)) <> 0) as [H0 H3] by (split; apply nth_id_nonzero).
  generalize dependent (ids_of (tls a)). intros k Hk H0 H3. cbn zeta.
  exists (generate_span clock k), (plan_span clock k). split_and!; try done; [|by apply valid_id..].
  unfold main. rewrite srun_InstallBinding, Habi. cbn [Z.eqb orb table_address Pos.eqb kBindingAbiVersion].
  assert (srun 1 (ActiveBinding def) (upd (upd mem GExplicit 1) GBinding table_address) =
          Some (table_address, upd (upd mem GExplicit 1) GBinding table_address)) as ->
    by (rewrite srun_ActiveBinding, upd_eq; cbn zeta; cbn [table_address Z.eqb andb]; by rewrite upd_eq).
  rewrite Z.eqb_refl.
  assert (slots_ok (memory a)) as Hok by (rewrite Hm; apply slots0_ok).
  destruct (instrumented_mini clock padding type_name a other k Hpad Hf Hok Hk H0 H3) as (a' & -> & Ef & Hc).
  rewrite srun_InstallBinding. cbn [Z.eqb orb]. rewrite Ef. cbn [backend handed stdout]. do 3 f_equal.
  unfold metrics_text. rewrite Ef. cbn [backend stdout counters].
  unfold program_output. rewrite <- !app_assoc. do 5 f_equal.
  cbn [imap concat]. unfold metric_text. change (Z.of_nat 0) with 0. rewrite Hc. unfold counter_value. rewrite Hm.
  vm_compute. reflexivity.
Qed.

Definition mini_mem (l : bloc) : Z := match l with Table 1 FAbi => kBindingAbiVersion | _ => 0 end.

Lemma custom_binding_prints_every_verb_witness :
  exists out inner outer, main 7 (fun n => 1000000 * Z.of_nat n) [0; 0; 0; 0] (str "9TrajPoint") mini_mem
    (mkApp (mkWorld (mkMini [] [] [] []) []) slots0 (Thread no_context (Some 5) (1, 2))) = Some (0, installed_mem mini_mem, out, [inner; outer]) /\
    r_parent inner = span (r_ctx outer) /\ take 32 out = str "[mini] resource robot.id=demo-bo".
Proof.
  destruct (custom_binding_prints_every_verb 7 (fun n => 1000000 * Z.of_nat n) [0; 0; 0; 0] (str "9TrajPoint") [] mini_mem
    (mkApp (mkWorld (mkMini [] [] [] []) []) slots0 (Thread no_context (Some 5) (1, 2))) eq_refl eq_refl eq_refl eq_refl)
    as (inner & outer & E & _ & _ & Hp & _).
  exists (program_output (fun n => 1000000 * Z.of_nat n) (ids_of (Thread no_context (Some 5) (1, 2)))), inner, outer.
  split; [exact E|]. split; [exact Hp|]. vm_compute. reflexivity.
Defined.
