(* ===== verification/WorkerInbox.v ===== *)
(** * The bounded worker inbox (examples/concurrency_worker_inbox_example.cpp)

    One producer and one worker over an [SpscQueue] and an [EventCount]: the loops of
    both threads as a transition system, one step per call of the library.  A queue
    call is what SpscQueue.v shows it to be: a bounded FIFO whose answers may be
    stale (a refusal while there is room again, an empty answer while a command has
    just been pushed, a shutdown flag not seen yet); the queue of every reachable
    state is the one the program of SpscQueue.v builds when it makes the same calls
    in the same order ([same_calls]).  Parking may end at any time:
    it is bounded by 50 ms. *)

From Stdlib Require Import ZArith Lia String.
From stdpp Require Import base list numbers relations.
From S2P Require Import Prelude Printf Memory SpscQueue.

Local Open Scope Z_scope.

Record Command := mkCommand { kind : Z; arg : Z }.

#[export] Instance Command_eq_dec : EqDecision Command.
Proof. solve_decision. Defined.

Definition inbox_capacity : nat := 64.
Definition kCommands : Z := 100000.

Inductive producer_pc := PPush | PNotify | PShutdown | PNotifyLast | PJoin | PDone (code : Z).
Inductive worker_pc := WPop | WCheck | WPark | WDone.

#[export] Instance producer_pc_eq_dec : EqDecision producer_pc.
Proof. solve_decision. Defined.
#[export] Instance worker_pc_eq_dec : EqDecision worker_pc.
Proof. solve_decision. Defined.

(** [taken] and [accepted] are histories: the commands popped and those pushed. *)
Record inbox := mkInbox {
  queue : list Command;
  shutdown : bool;
  p_at : producer_pc;
  i : Z;
  sent : Z;
  rejected : Z;
  w_at : worker_pc;
  handled : Z;
  accepted : list Command;
  taken : list Command
}.

Definition inbox0 : inbox := mkInbox [] false PPush 0 0 0 WPop 0 [] [].

Section Inbox.
Variable total : Z.

(** The worker: [while (TryPop) ++handled], the flag, the park. *)
Definition worker_pop (s : inbox) : option inbox :=
  match w_at s, queue s with
  | WPop, c :: q =>
      Some (mkInbox q (shutdown s) (p_at s) (i s) (sent s) (rejected s) WPop (u64 (handled s + 1)) (accepted s) (taken s ++ [c]))
  | _, _ => None
  end.
Definition worker_at (s : inbox) (w : worker_pc) : inbox :=
  mkInbox (queue s) (shutdown s) (p_at s) (i s) (sent s) (rejected s) w (handled s) (accepted s) (taken s).

(** The producer: [TryPush(Command{1, i})] and what follows it. *)
Definition producer_push (s : inbox) : inbox :=
  let c := mkCommand 1 (i s) in
  mkInbox (queue s ++ [c]) (shutdown s) PNotify (i s) (u64 (sent s + 1)) (rejected s) (w_at s) (handled s) (accepted s ++ [c]) (taken s).
Definition producer_reject (s : inbox) : inbox :=
  mkInbox (queue s) (shutdown s) PPush (u64 (i s + 1)) (sent s) (u64 (rejected s + 1)) (w_at s) (handled s) (accepted s) (taken s).
Definition producer_next (s : inbox) : inbox :=
  mkInbox (queue s) (shutdown s) PPush (u64 (i s + 1)) (sent s) (rejected s) (w_at s) (handled s) (accepted s) (taken s).
Definition producer_at (s : inbox) (p : producer_pc) (flag : bool) : inbox :=
  mkInbox (queue s) flag p (i s) (sent s) (rejected s) (w_at s) (handled s) (accepted s) (taken s).
Definition exit_code (s : inbox) : Z := if u64 (sent s + rejected s) =? total then 0 else 1.

(** What the worker prints when it leaves, and then the producer. *)
Definition worker_line (s : inbox) : bytes := bytes_of_string "worker: handled " ++ lu (handled s) ++ bytes_of_string " commands" ++ [10].
Definition producer_line (s : inbox) : bytes :=
  bytes_of_string "producer: sent " ++ lu (sent s) ++ bytes_of_string ", rejected " ++ lu (rejected s) ++
  bytes_of_string " (sent+rejected==100000: " ++
  (if u64 (sent s + rejected s) =? total then bytes_of_string "yes" else bytes_of_string "NO " ++ [226; 128; 148] ++ bytes_of_string " bug") ++
  bytes_of_string ")" ++ [10].
Definition output (s : inbox) : bytes := worker_line s ++ producer_line s.

(** [fresh]: answers are never stale. *)
Inductive inbox_step (fresh : bool) : inbox -> inbox -> Prop :=
| w_pop s s' : worker_pop s = Some s' -> inbox_step fresh s s'
| w_empty s : w_at s = WPop -> (fresh = true -> queue s = []) -> inbox_step fresh s (worker_at s WCheck)
| w_stop s : w_at s = WCheck -> shutdown s = true -> inbox_step fresh s (worker_at s WDone)
| w_park s : w_at s = WCheck -> (fresh = true -> shutdown s = false) -> inbox_step fresh s (worker_at s WPark)
| w_wake s : w_at s = WPark -> inbox_step fresh s (worker_at s WPop)
| p_push s : p_at s = PPush -> i s < total -> (length (queue s) < inbox_capacity)%nat -> inbox_step fresh s (producer_push s)
| p_reject s : p_at s = PPush -> i s < total -> (fresh = true -> length (queue s) = inbox_capacity) ->
    inbox_step fresh s (producer_reject s)
| p_notify s : p_at s = PNotify -> inbox_step fresh s (producer_next s)
| p_leave s : p_at s = PPush -> total <= i s -> inbox_step fresh s (producer_at s PShutdown (shutdown s))
| p_shutdown s : p_at s = PShutdown -> inbox_step fresh s (producer_at s PNotifyLast true)
| p_notify_last s : p_at s = PNotifyLast -> inbox_step fresh s (producer_at s PJoin (shutdown s))
| p_join s : p_at s = PJoin -> w_at s = WDone -> inbox_step fresh s (producer_at s (PDone (exit_code s)) (shutdown s)).

Hypothesis total_range : 0 <= total < 2 ^ 62.

(** ** Accounting *)

(** Commands as the producer makes them: increasing numbers below [n]. *)
Fixpoint numbered (n : Z) (l : list Command) : Prop :=
  match l with [] => True | c :: l => kind c = 1 /\ 0 <= arg c < n /\ Forall (fun d => arg c < arg d) l /\ numbered n l end.

Definition past_push (s : inbox) : Z := match p_at s with PNotify => i s + 1 | _ => i s end.

Definition inbox_ok (s : inbox) : Prop :=
  taken s ++ queue s = accepted s /\ (length (queue s) <= inbox_capacity)%nat /\
  handled s = Z.of_nat (length (taken s)) /\ sent s = Z.of_nat (length (accepted s)) /\
  0 <= rejected s /\ 0 <= i s /\ past_push s <= total /\ sent s + rejected s = past_push s /\ numbered (past_push s) (accepted s) /\
  match p_at s with
  | PPush | PNotify => shutdown s = false
  | PShutdown => shutdown s = false /\ i s = total
  | PNotifyLast | PJoin => shutdown s = true /\ i s = total
  | PDone code => shutdown s = true /\ i s = total /\ code = 0 /\ w_at s = WDone
  end /\
  (w_at s = WDone -> shutdown s = true).

Lemma numbered_mono n m l : n <= m -> numbered n l -> numbered m l.
Proof. intros H. induction l as [|c l IH]; [done|]. cbn. intros (? & ? & ? & ?). split_and!; try done; try lia. by apply IH. Qed.

Lemma numbered_snoc n l : 0 <= n -> numbered n l -> numbered (n + 1) (l ++ [mkCommand 1 n]).
Proof.
  intros Hn. induction l as [|c l IH]; cbn; [intros _; split_and!; try done; lia|].
  intros (Hk & Ha & Hf & Hl). split_and!; [done|lia|lia| |by apply IH].
  apply Forall_app_2; [done|]. apply Forall_singleton. cbn. lia.
Qed.

(** A worker step that only moves its program point. *)
Local Ltac worker_moves Hat :=
  cbn [worker_at queue shutdown p_at i sent rejected w_at handled accepted taken] in *; rewrite ?Hat in *;
  split_and!; try done; match goal with |- context [p_at ?s] => destruct (p_at s); naive_solver end.

Lemma inbox_ok_step fresh s s' : inbox_ok s -> inbox_step fresh s s' -> inbox_ok s'.
Proof.
  intros (Hq & Hc & Hh & Hs & Hr & Hi & Ht & Hsum & Hn & Hp & Hw) Hst.
  assert (Z.of_nat (length (taken s)) + Z.of_nat (length (queue s)) = Z.of_nat (length (accepted s))) as Hlen
    by (rewrite <- Hq, length_app; lia).
  destruct Hst as [s s' Hpop|s Hat Hf|s Hat Hf|s Hat Hf|s Hat|s Hat Hlt Hroom|s Hat Hlt Hf|s Hat|s Hat Hge|s Hat|s Hat|s Hat Hd];
    unfold inbox_ok, past_push in *.
  - unfold worker_pop in Hpop. destruct (w_at s) eqn:Ew; try done. destruct (queue s) as [|c q] eqn:Eq; [done|].
    injection Hpop as <-. cbn [queue shutdown p_at i sent rejected w_at handled accepted taken length] in *.
    rewrite wrap_id by (unfold in_width; destruct (p_at s); lia). rewrite length_app. cbn [length].
    split_and!; try done; try lia. by rewrite <- app_assoc.
  - by worker_moves Hat.
  - by worker_moves Hat.
  - by worker_moves Hat.
  - by worker_moves Hat.
  - rewrite Hat in *. cbn [producer_push queue shutdown p_at i sent rejected w_at handled accepted taken].
    rewrite wrap_id by (unfold in_width; lia). rewrite !length_app. cbn [length].
    split_and!; try done; try lia; [by rewrite app_assoc, Hq|by apply numbered_snoc].
  - rewrite Hat in *. cbn [producer_reject queue shutdown p_at i sent rejected w_at handled accepted taken].
    rewrite !wrap_id by (unfold in_width; lia). split_and!; try done; try lia. by apply (numbered_mono (i s)); [lia|].
  - rewrite Hat in *. cbn [producer_next queue shutdown p_at i sent rejected w_at handled accepted taken].
    rewrite wrap_id by (unfold in_width; lia). split_and!; try done; lia.
  - rewrite Hat in *. cbn [producer_at queue shutdown p_at i sent rejected w_at handled accepted taken]. split_and!; try done; lia.
  - rewrite Hat in *. cbn [producer_at queue shutdown p_at i sent rejected w_at handled accepted taken]. split_and!; try done; by destruct Hp.
  - rewrite Hat in *. cbn [producer_at queue shutdown p_at i sent rejected w_at handled accepted taken]. split_and!; try done; by destruct Hp.
  - rewrite Hat in *. cbn [producer_at queue shutdown p_at i sent rejected w_at handled accepted taken]. destruct Hp as [Hp1 Hp2].
    split_and!; try done. unfold exit_code. rewrite wrap_id by (unfold in_width; lia). by rewrite (proj2 (Z.eqb_eq _ _)) by lia.
Qed.

Lemma inbox_ok0 : inbox_ok inbox0.
Proof. unfold inbox_ok, past_push. cbn. split_and!; try done; lia. Qed.

Lemma inbox_reachable fresh s : rtc (inbox_step fresh) inbox0 s -> inbox_ok s.
Proof.
  intros Hr. assert (forall a b, inbox_ok a -> rtc (inbox_step fresh) a b -> inbox_ok b) as H.
  { intros a b Ha Hab. induction Hab; [done|]. eauto using inbox_ok_step. }
  by apply (H inbox0), Hr; apply inbox_ok0.
Qed.

(** ** The queue is that of SpscQueue.v *)

(** The calls that moved a command, in the order in which they were made. *)
Inductive move := Pushed (c : Command) | Popped (c : Command).
Definition pushed_one (m : move) : option Command := match m with Pushed c => Some c | Popped _ => None end.
Definition popped_one (m : move) : option Command := match m with Popped c => Some c | Pushed _ => None end.
Definition move_call (m : move) : queue_call Command := match m with Pushed c => QPush c | Popped _ => QPop end.
Definition move_answer (m : move) : queue_answer Command := match m with Pushed _ => APush true | Popped c => APop (Some c) end.

Definition moved (ms : list move) (s : inbox) : Prop :=
  omap pushed_one ms = accepted s /\ omap popped_one ms = taken s /\
  bounded_queue_run inbox_capacity [] (map move_call ms) = (map move_answer ms, queue s).

Lemma moved_step fresh s s' ms : moved ms s -> inbox_step fresh s s' -> exists ms', moved ms' s'.
Proof.
  intros (Ha & Ht & Hq) Hst.
  destruct Hst as [s s' Hpop|s Hat Hf|s Hat Hf|s Hat Hf|s Hat|s Hat Hlt Hroom|s Hat Hlt Hf|s Hat|s Hat Hge|s Hat|s Hat|s Hat Hd];
    [|by exists ms|by exists ms|by exists ms|by exists ms| |by exists ms|by exists ms|by exists ms|by exists ms|by exists ms|by exists ms].
  - unfold worker_pop in Hpop. destruct (w_at s); try done. destruct (queue s) as [|c q] eqn:Eq; [done|].
    injection Hpop as <-. exists (ms ++ [Popped c]). unfold moved. cbn [accepted taken queue].
    rewrite !omap_app, Ha, Ht, !map_app. cbn [map move_call move_answer omap list_omap pushed_one popped_one].
    rewrite app_nil_r. split_and!; [done..|]. rewrite bounded_queue_run_snoc, Hq. done.
  - exists (ms ++ [Pushed (mkCommand 1 (i s))]). unfold moved. cbn [producer_push accepted taken queue].
    rewrite !omap_app, Ha, Ht, !map_app. cbn [map move_call move_answer omap list_omap pushed_one popped_one].
    rewrite app_nil_r. split_and!; [done..|]. rewrite bounded_queue_run_snoc, Hq. cbn [fst snd bounded_queue].
    by rewrite decide_True.
Qed.

Lemma moved_reachable fresh s : rtc (inbox_step fresh) inbox0 s -> exists ms, moved ms s.
Proof.
  intros Hr. assert (forall a b, (exists ms, moved ms a) -> rtc (inbox_step fresh) a b -> exists ms, moved ms b) as H.
  { intros a b Ha Hab. induction Hab as [|a b c Hst _ IH]; [done|]. apply IH. destruct Ha as [ms Ha]. by eapply moved_step. }
  apply (H inbox0); [by exists []|done].
Qed.

Lemma moves_length ms : length ms = (length (omap pushed_one ms) + length (omap popped_one ms))%nat.
Proof. induction ms as [|[c|c] ms IH]; cbn in *; lia. Qed.

(** Constructed at 64, the program of the queue gives the answers of the moves. *)
Definition same_calls (ms : list move) : Prop :=
  forall fuel s0, exists s1 s2,
    srun fuel (SpscQueue_ctor (Z.of_nat inbox_capacity) true) s0 = Some (tt, s1) /\
    srun fuel (calls_prog (map move_call ms)) s1 = Some (map move_answer ms, s2).

Lemma moved_same_calls ms s :
  moved ms s -> Z.of_nat (length (accepted s)) + Z.of_nat (length (taken s)) < 2 ^ 62 -> same_calls ms.
Proof.
  intros (Ha & Ht & Hq) Hlen fuel s0.
  set (s1 := upd (upd (upd s0 Capacity (Num (Z.of_nat inbox_capacity))) Head (Num 0)) Tail (Num 0)).
  assert (queue_rep inbox_capacity 0 [] s1) as Hrep.
  { split; [|done|cbn; lia]. exists 0%nat. by split_and!. }
  destruct (calls_refine (V:=Command) inbox_capacity ltac:(unfold inbox_capacity; lia) fuel (map move_call ms) 0 [] s1 Hrep)
    as (s2 & H2 & _); [rewrite length_map, moves_length, Ha, Ht; lia|].
  rewrite Hq in H2. exists s1, s2. split; [done|exact H2].
Qed.

(** ** Completion *)

Lemma step_weaken s s' : inbox_step true s s' -> inbox_step false s s'.
Proof. intros H. destruct H; by constructor. Qed.

Lemma producer_finishes (n : nat) s :
  inbox_ok s -> p_at s = PPush \/ p_at s = PNotify -> Z.to_nat (2 * (total - i s) + (if decide (p_at s = PPush) then 1 else 0)) = n ->
  exists s', rtc (inbox_step true) s s' /\ inbox_ok s' /\ p_at s' = PShutdown.
Proof.
  revert s. induction (lt_wf n) as [n _ IH]. intros s Hok Hp Hn.
  assert (forall s1, inbox_step true s s1 -> p_at s1 = PPush \/ p_at s1 = PNotify ->
            (Z.to_nat (2 * (total - i s1) + (if decide (p_at s1 = PPush) then 1 else 0)) < n)%nat ->
            exists s', rtc (inbox_step true) s s' /\ inbox_ok s' /\ p_at s' = PShutdown) as Hgo.
  { intros s1 Hst Hp1 Hlt. destruct (IH _ Hlt s1 (inbox_ok_step true s s1 Hok Hst) Hp1 eq_refl) as (s' & Hr & ? & ?).
    exists s'. split_and!; try done. by apply (rtc_l _ _ s1). }
  destruct (Hok) as (_ & Hc & _ & _ & _ & Hi & Ht & _). unfold past_push in Ht. destruct Hp as [Hp|Hp]; rewrite Hp in *.
  - rewrite decide_True in Hn by done. destruct (Z.lt_ge_cases (i s) total) as [Hlt|Hge].
    + destruct (decide (length (queue s) = inbox_capacity)) as [Hfull|Hroom].
      * apply (Hgo (producer_reject s)); [by apply p_reject|by left|]. cbn [producer_reject i p_at].
        rewrite wrap_id by (unfold in_width; lia). rewrite decide_True by done. lia.
      * apply (Hgo (producer_push s)); [apply p_push; [done..|lia]|by right|]. cbn [producer_push i p_at].
        rewrite decide_False by done. lia.
    + eexists. split; [eapply rtc_once, p_leave; [exact Hp|lia]|]. split; [|done].
      eapply inbox_ok_step; [exact Hok|]. by apply (p_leave true).
  - rewrite decide_False in Hn by done. apply (Hgo (producer_next s)); [by apply p_notify|by left|].
    cbn [producer_next i p_at]. rewrite wrap_id by (unfold in_width; lia). rewrite decide_True by done. lia.
Qed.

Lemma worker_finishes s :
  inbox_ok s -> shutdown s = true -> w_at s <> WDone -> exists s', rtc (inbox_step true) s s' /\ inbox_ok s' /\ w_at s' = WDone /\ p_at s' = p_at s.
Proof.
  intros Hok Hsd Hw.
  assert (forall s, inbox_ok s -> shutdown s = true -> w_at s = WPop ->
            exists s', rtc (inbox_step true) s s' /\ inbox_ok s' /\ w_at s' = WCheck /\ shutdown s' = true /\ p_at s' = p_at s) as Hdrain.
  { clear -total_range. intros s. remember (queue s) as q eqn:Eq. revert s Eq. induction q as [|c q IH]; intros s Eq Hok Hsd Hw.
    - exists (worker_at s WCheck). assert (inbox_step true s (worker_at s WCheck)) as Hst by (by apply w_empty).
      split_and!; try done; [by apply rtc_once|by eapply inbox_ok_step].
    - assert (exists s1, worker_pop s = Some s1 /\ queue s1 = q /\ shutdown s1 = true /\ w_at s1 = WPop /\ p_at s1 = p_at s)
        as (s1 & H1 & Hq & Hsd1 & Hw1 & Hp1).
      { unfold worker_pop. rewrite Hw, <- Eq. by eexists. }
      destruct (IH s1 ltac:(done) (inbox_ok_step true s s1 Hok (w_pop true s s1 H1)) Hsd1 Hw1) as (s' & Hr & ? & ? & ? & ?).
      exists s'. split_and!; try done; [|congruence]. apply (rtc_l _ _ s1); [by apply w_pop|done]. }
  assert (forall s, inbox_ok s -> shutdown s = true -> w_at s = WCheck ->
            exists s', rtc (inbox_step true) s s' /\ inbox_ok s' /\ w_at s' = WDone /\ p_at s' = p_at s) as Hcheck.
  { clear -total_range. intros s Hok Hsd Hw. exists (worker_at s WDone). assert (inbox_step true s (worker_at s WDone)) as Hst by (by apply w_stop).
    split_and!; try done; [by apply rtc_once|by eapply inbox_ok_step]. }
  assert (forall s, inbox_ok s -> shutdown s = true -> w_at s = WPop ->
            exists s', rtc (inbox_step true) s s' /\ inbox_ok s' /\ w_at s' = WDone /\ p_at s' = p_at s) as Hpop.
  { intros u Hu Hus Huw. destruct (Hdrain u Hu Hus Huw) as (u1 & R1 & O1 & W1 & S1 & P1).
    destruct (Hcheck u1 O1 S1 W1) as (u2 & R2 & O2 & W2 & P2). exists u2. split_and!; try done; [by etrans|congruence]. }
  destruct (w_at s) eqn:Ew; [by apply Hpop|by apply Hcheck| |done].
  assert (inbox_step true s (worker_at s WPop)) as Hst by (by apply w_wake).
  destruct (Hpop (worker_at s WPop) (inbox_ok_step true _ _ Hok Hst) Hsd eq_refl) as (s' & Hr & ? & ? & Hp).
  exists s'. split_and!; try done. by apply (rtc_l _ _ (worker_at s WPop)).
Qed.

Lemma join_finishes s : inbox_ok s -> p_at s = PJoin -> exists s', rtc (inbox_step true) s s' /\ p_at s' = PDone 0.
Proof.
  intros Hok Hp.
  assert (forall u, inbox_ok u -> p_at u = PJoin -> w_at u = WDone -> exists s', rtc (inbox_step true) u s' /\ p_at s' = PDone 0) as Hj.
  { intros u Hu Hpu Hwu. exists (producer_at u (PDone (exit_code u)) (shutdown u)).
    assert (inbox_step true u (producer_at u (PDone (exit_code u)) (shutdown u))) as Hst by (by apply p_join).
    split; [by apply rtc_once|]. pose proof (inbox_ok_step true _ _ Hu Hst) as (_ & _ & _ & _ & _ & _ & _ & _ & _ & H & _).
    cbn [producer_at p_at] in *. by destruct H as (_ & _ & -> & _). }
  destruct (decide (w_at s = WDone)) as [Hw|Hw]; [by apply Hj|].
  destruct (Hok) as (_ & _ & _ & _ & _ & _ & _ & _ & _ & Hsd & _). rewrite Hp in Hsd.
  destruct (worker_finishes s Hok (proj1 Hsd) Hw) as (s1 & R1 & O1 & W1 & P1).
  destruct (Hj s1 O1 ltac:(congruence) W1) as (s2 & R2 & P2). exists s2. split; [by etrans|done].
Qed.

Lemma inbox_finishes s : inbox_ok s -> exists s', rtc (inbox_step true) s s' /\ p_at s' = PDone 0.
Proof.
  intros Hok.
  assert (forall u, inbox_ok u -> p_at u = PNotifyLast -> exists s', rtc (inbox_step true) u s' /\ p_at s' = PDone 0) as Hlast.
  { intros u Hu Hp. assert (inbox_step true u (producer_at u PJoin (shutdown u))) as Hst by (by apply p_notify_last).
    destruct (join_finishes _ (inbox_ok_step true _ _ Hu Hst) eq_refl) as (s' & R & P). exists s'. split; [by eapply rtc_l|done]. }
  assert (forall u, inbox_ok u -> p_at u = PShutdown -> exists s', rtc (inbox_step true) u s' /\ p_at s' = PDone 0) as Hshut.
  { intros u Hu Hp. assert (inbox_step true u (producer_at u PNotifyLast true)) as Hst by (by apply p_shutdown).
    destruct (Hlast _ (inbox_ok_step true _ _ Hu Hst) eq_refl) as (s' & R & P). exists s'. split; [by eapply rtc_l|done]. }
  assert (p_at s = PPush \/ p_at s = PNotify -> exists s', rtc (inbox_step true) s s' /\ p_at s' = PDone 0) as Hpush.
  { intros Hp. destruct (producer_finishes _ s Hok Hp eq_refl) as (u & R1 & O1 & P1).
    destruct (Hshut u O1 P1) as (s' & R2 & P2). exists s'. split; [by etrans|done]. }
  destruct (p_at s) eqn:Hp; [apply Hpush; by left|apply Hpush; by right|by apply Hshut|by apply Hlast|by apply join_finishes|].
  exists s. split; [constructor|]. destruct Hok as (_ & _ & _ & _ & _ & _ & _ & _ & _ & H & _). rewrite Hp in H.
  by destruct H as (_ & _ & -> & _).
Qed.

(** ** The lost tail *)

Definition first_commands (n : nat) : list Command := map (fun k => mkCommand 1 (Z.of_nat k)) (seq 0 n).

Lemma first_commands_S n : first_commands (S n) = first_commands n ++ [mkCommand 1 (Z.of_nat n)].
Proof. unfold first_commands. by rewrite seq_S, map_app. Qed.

Definition handled_all (n : nat) : inbox :=
  mkInbox [] false PPush (Z.of_nat n) (Z.of_nat n) 0 WPop (Z.of_nat n) (first_commands n) (first_commands n).

Lemma handle_one n : Z.of_nat n < total -> rtc (inbox_step true) (handled_all n) (handled_all (S n)).
Proof.
  intros Hn. assert (forall z, z = Z.of_nat n -> u64 (z + 1) = Z.of_nat (S n)) as Hw.
  { intros z ->. rewrite wrap_id by (unfold in_width; lia). lia. }
  eapply rtc_l; [apply (p_push true (handled_all n)); [done|done|cbn; unfold inbox_capacity; lia]|].
  eapply rtc_l; [by apply p_notify|]. eapply rtc_once, w_pop. unfold worker_pop.
  cbn [producer_next producer_push handled_all queue shutdown p_at i sent rejected w_at handled accepted taken app].
  unfold handled_all. rewrite !Hw by done. by rewrite first_commands_S.
Qed.

Lemma handle_many n : Z.of_nat n <= total -> rtc (inbox_step true) inbox0 (handled_all n).
Proof.
  induction n as [|n IH]; intros Hn; [constructor|]. etrans; [apply IH; lia|]. apply handle_one. lia.
Qed.

(** The end of a run in which the worker finds the queue empty before the last
    command arrives, and the flag set after it. *)
Lemma last_command_stays n :
  total = Z.of_nat (S n) ->
  exists s, rtc (inbox_step true) inbox0 s /\ p_at s = PDone 0 /\ sent s = total /\ rejected s = 0 /\
    handled s = total - 1 /\ queue s = [mkCommand 1 (total - 1)].
Proof.
  intros Hn. pose proof (handle_many n ltac:(lia)) as Hr.
  set (s1 := worker_at (handled_all n) WCheck). set (s2 := producer_push s1). set (s3 := producer_next s2).
  set (s4 := producer_at s3 PShutdown (shutdown s3)). set (s5 := producer_at s4 PNotifyLast true).
  set (s6 := producer_at s5 PJoin (shutdown s5)). set (s7 := worker_at s6 WDone).
  assert (i s3 = total /\ sent s3 = total) as [Ei Es].
  { cbn [s3 s2 s1 producer_next producer_push worker_at handled_all i sent]. rewrite wrap_id by (unfold in_width; lia). lia. }
  exists (producer_at s7 (PDone (exit_code s7)) (shutdown s7)). split_and!.
  - etrans; [exact Hr|].
    eapply rtc_l; [by apply (w_empty true (handled_all n))|]. fold s1.
    eapply rtc_l; [apply (p_push true s1); [done|cbn; lia|cbn; unfold inbox_capacity; lia]|]. fold s2.
    eapply rtc_l; [by apply (p_notify true s2)|]. fold s3.
    eapply rtc_l; [apply (p_leave true s3); [done|lia]|]. fold s4.
    eapply rtc_l; [by apply (p_shutdown true s4)|]. fold s5.
    eapply rtc_l; [by apply (p_notify_last true s5)|]. fold s6.
    eapply rtc_l; [by apply (w_stop true s6)|]. fold s7.
    apply rtc_once. by apply (p_join true s7).
  - cbn [producer_at p_at]. unfold exit_code. change (sent s7) with (sent s3). change (rejected s7) with 0. rewrite Es.
    rewrite wrap_id by (unfold in_width; lia). by rewrite Z.add_0_r, Z.eqb_refl.
  - exact Es.
  - done.
  - cbn. lia.
  - cbn. do 2 f_equal. lia.
Qed.
End Inbox.

(** C37: The inbox accounts for every command: in any interleaving, with stale answers
    or not, what was accepted is what the worker took followed by what the queue
    holds, in the order sent; the queue never exceeds its capacity; the calls that
    moved the commands, in the order made, get the same answers from the program of
    the queue constructed at 64; every command so far was sent or rejected, once; the program exits with 0, only after the
    worker has left, and has then printed the commands taken, those accepted, the
    rest as rejected, and that they add up; and from every reachable state the program can run to its end. *)
Theorem inbox_accounts_for_commands (fresh : bool) (s : inbox) :
  rtc (inbox_step kCommands fresh) inbox0 s ->
  taken s ++ queue s = accepted s /\ (length (queue s) <= inbox_capacity)%nat /\
  handled s = Z.of_nat (length (taken s)) /\ sent s = Z.of_nat (length (accepted s)) /\
  numbered kCommands (accepted s) /\ 0 <= rejected s /\ sent s + rejected s <= kCommands /\
  (exists ms, omap pushed_one ms = accepted s /\ omap popped_one ms = taken s /\ same_calls ms) /\
  (forall code, p_at s = PDone code -> code = 0 /\ sent s + rejected s = kCommands /\ w_at s = WDone /\
     output kCommands s =
       bytes_of_string "worker: handled " ++ lu (Z.of_nat (length (taken s))) ++ bytes_of_string " commands" ++ [10] ++
       bytes_of_string "producer: sent " ++ lu (Z.of_nat (length (accepted s))) ++ bytes_of_string ", rejected " ++
       lu (100000 - Z.of_nat (length (accepted s))) ++ bytes_of_string " (sent+rejected==100000: yes)" ++ [10]) /\
  (exists s', rtc (inbox_step kCommands true) s s' /\ p_at s' = PDone 0).
Proof.
  intros Hr. assert (0 <= kCommands < 2 ^ 62) as Ht by done.
  pose proof (inbox_reachable kCommands Ht fresh s Hr) as Hok.
  pose proof (inbox_finishes kCommands Ht s Hok) as Hfin.
  destruct (moved_reachable kCommands fresh s Hr) as (ms & Hms).
  destruct Hok as (Hq & Hc & Hh & Hs & Hrj & Hi & Hp & Hsum & Hn & Hpc & Hw).
  assert (Z.of_nat (length (taken s)) + Z.of_nat (length (queue s)) = Z.of_nat (length (accepted s))) as Hlen
    by (rewrite <- Hq, length_app; lia).
  split_and!; try done; [by apply (numbered_mono (past_push s))|lia| |].
  { exists ms. pose proof Hms as (Ha & Hta & _). split_and!; [done..|]. apply (moved_same_calls ms s Hms). unfold kCommands in *. lia. }
  intros code Hcode. rewrite Hcode in Hpc. destruct Hpc as (_ & Hit & -> & Hwd).
  assert (sent s + rejected s = kCommands) as Esum by (unfold past_push in Hsum; rewrite Hcode in Hsum; lia).
  split_and!; [done..|]. unfold output, worker_line, producer_line. rewrite Esum, Hh. change (u64 kCommands =? kCommands) with true.
  replace (rejected s) with (100000 - Z.of_nat (length (accepted s))) by (unfold kCommands in Esum; lia).
  rewrite Hs, <- !app_assoc. reflexivity.
Qed.

Lemma inbox_accounts_for_commands_witness :
  exists s', rtc (inbox_step kCommands true) (handled_all 2) s' /\ p_at s' = PDone 0.
Proof.
  destruct (inbox_accounts_for_commands true (handled_all 2)) as (_ & _ & _ & _ & _ & _ & _ & _ & _ & H).
  - apply handle_many; done.
  - exact H.
Defined.

(** The inbox can lose its tail: there is a run, without any stale answer, in
    which the program exits with 0 and reports every command sent, none rejected,
    while the last one is still in the queue: the worker leaves on the shutdown
    flag without looking at the queue again. *)
Theorem inbox_can_lose_its_tail :
  exists s, rtc (inbox_step kCommands true) inbox0 s /\ p_at s = PDone 0 /\ sent s = kCommands /\ rejected s = 0 /\
    handled s = kCommands - 1 /\ queue s = [mkCommand 1 (kCommands - 1)].
Proof. apply (last_command_stays kCommands ltac:(done) (Z.to_nat (kCommands - 1))). unfold kCommands. lia. Qed.
