(* ===== verification/Traces.v ===== *)
(** * What programs emit, and contexts in use (for the programs of examples/)

    The emissions of a thread in order, the spans among them, and what the scope
    constructors do where a trace is current. *)

From Stdlib Require Import ZArith Lia String.
From stdpp Require Import base list numbers.
From S2P Require Import Prelude Serialization Context Printf ArgPack Format Unbound ConsoleFormat Console.

Local Open Scope Z_scope.

(** What the front door is handed: events and finished spans, in order. *)
Inductive emission := Event (sev : Severity) (fmt : bytes) (args : list arg) (ctx : Context) | SpanEnd (r : span_record).

Definition ended (sp : option span_record) : list emission := match sp with Some r => [SpanEnd r] | None => [] end.

Definition spans_of (l : list emission) : list span_record :=
  omap (fun e => match e with SpanEnd r => Some r | Event _ _ _ _ => None end) l.

Lemma spans_of_app l k : spans_of (l ++ k) = spans_of l ++ spans_of k.
Proof. apply omap_app. Qed.


(** What a record says but for its times. *)
Definition shape (r : span_record) : span_record := SpanRecord (r_name r) (r_ctx r) (r_parent r) 0 0 (r_links r).

(** A context in use: three words, a trace. *)
Definition live (c : Context) : Prop := ctx_ok c /\ Context_valid c = true.

Lemma live_child c i : live c -> in_width 64 i -> live (Ctx (trace c) (SpanI i)).
Proof. intros [(H1 & H2 & H3) Hv] Hi. split; [by split_and!|done]. Qed.

Lemma Span_ctor_live name now t :
  live (t_current_context t) ->
  exists i t', in_width 64 i /\ t_current_context t' = Ctx (trace (t_current_context t)) (SpanI i) /\
    Span_ctor name now t = (SpanObj name now (t_current_context t) (span (t_current_context t)) [], t').
Proof.
  intros [_ Hv]. unfold Span_ctor, Begin. unfold Context_valid in Hv. rewrite Hv. cbn [negb].
  destruct (NextId_ok t) as [Hi _]. destruct (NextId t) as [i t1]. cbn [fst] in Hi.
  exists i. eexists. split; [exact Hi|]. split; [|reflexivity]. done.
Qed.

Lemma NewTrace_live t : exists root t', NewTrace t = (root, t') /\ live root /\ t_current_context t' = t_current_context t.
Proof.
  unfold NewTrace. pose proof (NextId_ok t) as [H1 Hn].
  assert (t_current_context (snd (NextId t)) = t_current_context t) as C1 by done. destruct (NextId t) as [h t1].
  pose proof (NextId_ok t1) as [H2 _].
  assert (t_current_context (snd (NextId t1)) = t_current_context t1) as C2 by done. destruct (NextId t1) as [l t2].
  pose proof (NextId_ok t2) as [H3 _].
  assert (t_current_context (snd (NextId t2)) = t_current_context t2) as C3 by done. destruct (NextId t2) as [s t3].
  cbn [fst snd] in *. do 2 eexists. split; [done|]. split; [|congruence]. split; [by split_and!|].
  unfold Context_valid, TraceId_valid. cbn [trace hi lo]. apply negb_true_iff, Z.eqb_neq. by intros [? _]%Z.lor_eq_0_iff.
Qed.
