(* ===== verification/WorkerPool.v ===== *)
(** * Trace contexts on a reused thread pool (examples/worker_pool_context_example.cpp)

    A pool of worker threads runs tasks that carry their trace identity as envelope
    bytes; the main thread fans an iteration out to four tasks, waits for them and
    links their contexts.  Each worker keeps its thread-local state from task to
    task.  A condition variable with a predicate is the predicate as a guard of the
    step that follows the wait (CondvarEventCount shows that no wake-up is lost).  A
    step is what a thread does up to the end of its next critical section; an event
    it sends on the way is emitted with that step. *)

From Stdlib Require Import ZArith Lia String.
From stdpp Require Import base list numbers relations.
From S2P Require Import Prelude Serialization Context Printf ArgPack Format Unbound ConsoleFormat Console Traces.

Local Open Scope Z_scope.

(** ** Tasks *)

Record task := mkTask { envelope : bytes; tile : Z; iter : Z }.

(** The body of a task on a worker's thread-local state, up to the end of its critical
    section: its open scopes, the event, the result it appends.  The lock, declared
    last, is released first: the span and the guard close after it. *)
Definition run_task (tk : task) (now : Z) (th : thread) : Context * Span * thread * emission * bytes :=
  let '(saved, th) := ContextGuard_ctor (Extract (Some (envelope tk))) th in
  let '(span, th) := Span_ctor (str "demo.pool.tile") now th in
  let ev := Event kInfo (str "tile {} of iteration {} done") [ASigned (tile tk); ASigned (iter tk)] (CurrentContext th) in
  (saved, span, th, ev, Inject (CurrentContext th)).

Definition end_task (saved : Context) (span : Span) (now : Z) (th : thread) : thread * list emission :=
  let '(r, th) := Span_dtor span true now th in (ContextGuard_dtor saved th, ended r).

(** ** The pool and the main thread *)

Inductive worker_pc := Waiting | Running (tk : task) | Ending (saved : Context) (span : Span) | Exited.

Definition kTiles : nat := 4.

(** The main thread: about to start iteration [k], submitting, waiting for the
    results, in the pool's destructor, finished.  [saved], [iteration] and [join] are
    its open scopes. *)
Inductive main_pc :=
| MBegin
| MIter (k : nat)
| MSubmit (k n : nat) (saved : Context) (iteration : Span)
| MWait (k : nat) (saved : Context) (iteration join : Span)
| MStop
| MJoin
| MDone.

Record pool := mkPool {
  q_ : list task;
  stop_ : bool;
  workers_ : list (worker_pc * thread);
  results : list bytes;
  main_at : main_pc;
  main_tls : thread;
  emitted : list emission
}.

Definition emit (p : pool) (l : list emission) : list emission := emitted p ++ l.

(** [Run]'s wait: the predicate holds, then either leave or take the front. *)
Definition worker_take (p : pool) (w : nat) : option pool :=
  match workers_ p !! w with
  | Some (Waiting, th) =>
      match q_ p with
      | [] => if stop_ p
              then Some (mkPool [] (stop_ p) (<[w := (Exited, th)]> (workers_ p)) (results p) (main_at p) (main_tls p) (emitted p))
              else None
      | tk :: q => Some (mkPool q (stop_ p) (<[w := (Running tk, th)]> (workers_ p)) (results p) (main_at p) (main_tls p) (emitted p))
      end
  | _ => None
  end.

(** [task()]: its body, then its scopes.  Each step takes what the clock shows. *)
Definition worker_run (p : pool) (w : nat) (now : Z) : option pool :=
  match workers_ p !! w with
  | Some (Running tk, th) =>
      let '(saved, span, th, ev, res) := run_task tk now th in
      Some (mkPool (q_ p) (stop_ p) (<[w := (Ending saved span, th)]> (workers_ p)) (results p ++ [res])
              (main_at p) (main_tls p) (emit p [ev]))
  | _ => None
  end.

Definition worker_end (p : pool) (w : nat) (now : Z) : option pool :=
  match workers_ p !! w with
  | Some (Ending saved span, th) =>
      let '(th, l) := end_task saved span now th in
      Some (mkPool (q_ p) (stop_ p) (<[w := (Waiting, th)]> (workers_ p)) (results p) (main_at p) (main_tls p) (emit p l))
  | _ => None
  end.

Definition at_main (p : pool) (m : main_pc) (th : thread) (l : list emission) : pool :=
  mkPool (q_ p) (stop_ p) (workers_ p) (results p) m th (emit p l).

(** A worker that can be joined. *)
Definition exited (w : worker_pc * thread) : bool := match fst w with Exited => true | _ => false end.

(** The main thread's next step. *)
Definition main_step (p : pool) (now : Z * Z) : option pool :=
  let th := main_tls p in
  match main_at p with
  | MBegin =>
      Some (at_main p (MIter 1) th
        [Event kInfo (str "worker pool demo: 2 iterations x 4 tiles on a 3-thread pool") [] (CurrentContext th)])
  | MIter k =>
      if (2 <? k)%nat then
        Some (at_main p MStop th
          [Event kInfo (str "done " ++ [226; 128; 148] ++ str " with the SDK bound, each iteration is one trace: tiles as " ++
             str "child spans (correctly parented despite thread reuse), and the " ++ str "join span linking all 4 tiles") []
             (CurrentContext th)])
      else
        let '(root, th) := NewTrace th in
        let '(saved, th) := ContextGuard_ctor root th in
        let '(iteration, th) := Span_ctor (str "demo.pool.iteration") (fst now) th in
        Some (mkPool (q_ p) (stop_ p) (workers_ p) [] (MSubmit k 0 saved iteration) th (emitted p))
  | MSubmit k n saved iteration =>
      if (n <? kTiles)%nat then
        let tk := mkTask (Inject (CurrentContext th)) (Z.of_nat n) (Z.of_nat k) in
        Some (mkPool (q_ p ++ [tk]) (stop_ p) (workers_ p) (results p) (MSubmit k (S n) saved iteration) th (emitted p))
      else
        let '(join, th) := Span_ctor (str "demo.pool.join") (fst now) th in
        Some (at_main p (MWait k saved iteration join) th [])
  | MWait k saved iteration join =>
      if (length (results p) =? kTiles)%nat then
        let join := foldl (fun s r => AddLink (Extract (Some r)) s) join (results p) in
        let ev := Event kInfo (str "iteration {} joined {} tiles") [ASigned (Z.of_nat k); ASigned 4] (CurrentContext th) in
        let '(rj, th) := Span_dtor join true (fst now) th in
        let '(ri, th) := Span_dtor iteration true (snd now) th in
        let th := ContextGuard_dtor saved th in
        Some (at_main p (MIter (S k)) th (ev :: ended rj ++ ended ri))
      else None
  | MStop => Some (mkPool (q_ p) true (workers_ p) (results p) MJoin th (emitted p))
  | MJoin =>
      if forallb exited (workers_ p)
      then Some (at_main p MDone th []) else None
  | MDone => None
  end.

Inductive pool_step : pool -> pool -> Prop :=
| step_take p w p' : worker_take p w = Some p' -> pool_step p p'
| step_run p w now p' : worker_run p w now = Some p' -> pool_step p p'
| step_end p w now p' : worker_end p w now = Some p' -> pool_step p p'
| step_main p now p' : main_step p now = Some p' -> pool_step p p'.

Definition pool0 (workers : list thread) (main : thread) : pool :=
  mkPool [] false (map (pair Waiting) workers) [] MBegin main [].

(** ** A task leaves nothing behind *)

(** What a tile leaves. *)
Definition tile_span (c : Context) (i : Z) : span_record :=
  SpanRecord (str "demo.pool.tile") (Ctx (trace c) (SpanI i)) (span c) 0 0 [].

Lemma run_task_spec c k j now th :
  live c ->
  exists i th' ev, in_width 64 i /\ t_current_context th' = Ctx (trace c) (SpanI i) /\
    run_task (mkTask (Inject c) k j) now th =
      (t_current_context th, SpanObj (str "demo.pool.tile") now c (span c) [], th', ev, Inject (Ctx (trace c) (SpanI i))) /\
    (forall r, ev <> SpanEnd r).
Proof.
  intros Hc. unfold run_task. cbn [envelope ContextGuard_ctor]. rewrite Extract_Inject by apply Hc.
  destruct (Span_ctor_live (str "demo.pool.tile") now (SetCurrentContext c th)) as (i & t' & Hi & Hctx & E); [exact Hc|].
  rewrite E. unfold CurrentContext. rewrite Hctx. exists i, t'. eexists. by split_and!.
Qed.

(** ** Specification *)

Definition is_tile (c : Context) (r : span_record) : Prop :=
  exists i, in_width 64 i /\ r = tile_span c i.

(** The shapes of one iteration's spans: four tiles, children of the
    iteration's span whichever thread ran them; the join, their sibling, linked to
    the four in the order they completed; the iteration, a child of the minted
    root.  All on the root's trace. *)
Definition iteration_spans (l : list span_record) : Prop :=
  exists root i j tiles,
    live root /\ length tiles = kTiles /\ Forall (is_tile (Ctx (trace root) (SpanI i))) tiles /\
    l = tiles ++
      [SpanRecord (str "demo.pool.join") (Ctx (trace root) (SpanI j)) (SpanI i) 0 0 (map r_ctx tiles);
       SpanRecord (str "demo.pool.iteration") (Ctx (trace root) (SpanI i)) (span root) 0 0 []].

(** ** Invariant *)

Definition running (w : worker_pc * thread) : nat := match fst w with Running _ => 1 | _ => 0 end.

(** The context a worker has outside its task, and the span it has still to end. *)
Definition home (w : worker_pc * thread) : Context :=
  match fst w with Ending saved _ => saved | _ => t_current_context (snd w) end.
Definition owed (w : worker_pc * thread) : list span_record :=
  match fst w with
  | Ending _ s => [SpanRecord (name_ s) (t_current_context (snd w)) (parent_ s) 0 0 (links_ s)]
  | _ => []
  end.

(** The shapes of the spans ended or owed. *)
Definition shapes (p : pool) : list span_record :=
  map shape (spans_of (emitted p)) ++ concat (map owed (workers_ p)).

Definition carries (c : Context) (w : worker_pc * thread) : Prop :=
  match fst w with Running tk => envelope tk = Inject c | _ => True end.

(** [n] tasks of an iteration are out, those done have left the spans [cur]. *)
Definition tasks_ok (c : Context) (n : nat) (cur : list span_record) (p : pool) : Prop :=
  (length (q_ p) + sum_list_with running (workers_ p) + length cur = n)%nat /\
  Forall (fun tk => envelope tk = Inject c) (q_ p) /\ Forall (carries c) (workers_ p) /\
  results p = map (fun r => Inject (r_ctx r)) cur /\ Forall (is_tile c) cur.

Definition idle (p : pool) : Prop := q_ p = [] /\ sum_list_with running (workers_ p) = 0%nat.

(** [ctxs] and [c0]: the contexts the workers and the main thread started with. *)
Definition main_ok (c0 : Context) (finished : nat) (cur : list span_record) (p : pool) : Prop :=
  match main_at p with
  | MBegin => idle p /\ cur = [] /\ finished = 0%nat /\ t_current_context (main_tls p) = c0
  | MIter k => idle p /\ cur = [] /\ (1 <= k <= 3)%nat /\ k = S finished /\ t_current_context (main_tls p) = c0
  | MSubmit k n saved iteration =>
      (k <= 2)%nat /\ k = S finished /\ (n <= kTiles)%nat /\ saved = c0 /\
      exists root i b, live root /\ in_width 64 i /\
        iteration = SpanObj (str "demo.pool.iteration") b root (span root) [] /\
        t_current_context (main_tls p) = Ctx (trace root) (SpanI i) /\ tasks_ok (Ctx (trace root) (SpanI i)) n cur p
  | MWait k saved iteration join =>
      (k <= 2)%nat /\ k = S finished /\ saved = c0 /\
      exists root i b j bj, live root /\ in_width 64 i /\
        iteration = SpanObj (str "demo.pool.iteration") b root (span root) [] /\
        join = SpanObj (str "demo.pool.join") bj (Ctx (trace root) (SpanI i)) (SpanI i) [] /\
        t_current_context (main_tls p) = Ctx (trace root) (SpanI j) /\ tasks_ok (Ctx (trace root) (SpanI i)) kTiles cur p
  | _ => idle p /\ cur = [] /\ finished = 2%nat /\ t_current_context (main_tls p) = c0
  end.

Definition pool_ok (ctxs : list Context) (c0 : Context) (p : pool) : Prop :=
  exists done_ cur,
    shapes p ≡ₚ concat done_ ++ cur /\ Forall iteration_spans done_ /\
    map home (workers_ p) = ctxs /\
    (stop_ p = match main_at p with MJoin | MDone => true | _ => false end) /\
    (stop_ p = false -> Forall (fun w => fst w <> Exited) (workers_ p)) /\
    (main_at p = MDone -> Forall (fun w => fst w = Exited) (workers_ p)) /\
    main_ok c0 (length done_) cur p.

Lemma insert_home ws w x y : ws !! w = Some x -> home y = home x -> map home (<[w := y]> ws) = map home ws.
Proof. intros Hw Hc. rewrite list_fmap_insert. apply list_insert_id. rewrite list_lookup_fmap, Hw. cbn. by rewrite Hc. Qed.

(** A worker takes a task. *)
Lemma tasks_take c n cur p w tk q th :
  tasks_ok c n cur p -> q_ p = tk :: q -> workers_ p !! w = Some (Waiting, th) ->
  tasks_ok c n cur (mkPool q (stop_ p) (<[w := (Running tk, th)]> (workers_ p)) (results p) (main_at p) (main_tls p) (emitted p)).
Proof.
  intros (Hn & Hq & Hc & Hr & Hcur) Eq Hw. rewrite Eq in *. apply Forall_cons_1 in Hq as [Htk Hq].
  pose proof (sum_list_with_insert running (workers_ p) w _ (Running tk, th) Hw) as Hsum. cbn [running fst] in Hsum.
  split_and!; cbn [q_ workers_ results length] in *; try done; [lia|]. by apply Forall_insert.
Qed.

(** A worker finishes one. *)
Lemma tasks_run c n cur p w i th x tk e :
  tasks_ok c n cur p -> workers_ p !! w = Some (Running tk, th) -> running x = 0%nat -> carries c x -> in_width 64 i ->
  tasks_ok c n (cur ++ [tile_span c i])
    (mkPool (q_ p) (stop_ p) (<[w := x]> (workers_ p)) (results p ++ [Inject (Ctx (trace c) (SpanI i))]) (main_at p) (main_tls p) e).
Proof.
  intros (Hn & Hq & Hc & Hr & Hcur) Hw Hx Hxc Hi.
  pose proof (sum_list_with_insert running (workers_ p) w _ x Hw) as Hsum. cbn [running fst] in Hsum. rewrite Hx in Hsum.
  split_and!; cbn [q_ workers_ results]; try done.
  - rewrite length_app. cbn [length]. lia.
  - by apply Forall_insert.
  - by rewrite map_app, Hr.
  - apply Forall_app_2; [done|]. apply Forall_singleton. by exists i.
Qed.

(** A worker that was not in a body changes to a place that is none either. *)
Lemma tasks_change c n cur p w x y m t e :
  tasks_ok c n cur p -> workers_ p !! w = Some x -> running x = 0%nat -> running y = 0%nat -> carries c y ->
  tasks_ok c n cur (mkPool (q_ p) (stop_ p) (<[w := y]> (workers_ p)) (results p) m t e).
Proof.
  intros (Hn & Hq & Hc & Hr & Hcur) Hw Hx Hy Hyc.
  pose proof (sum_list_with_insert running (workers_ p) w _ y Hw) as Hsum.
  split_and!; cbn [q_ workers_ results]; try done; [lia|]. by apply Forall_insert.
Qed.

(** While tasks are out, the main thread is in an iteration. *)
Lemma main_tasks c0 fin cur p :
  main_ok c0 fin cur p -> ~ idle p ->
  exists root i n, live root /\ in_width 64 i /\ tasks_ok (Ctx (trace root) (SpanI i)) n cur p /\
    forall p' cur', main_at p' = main_at p -> main_tls p' = main_tls p ->
      tasks_ok (Ctx (trace root) (SpanI i)) n cur' p' -> main_ok c0 fin cur' p'.
Proof.
  intros Hm Hn. unfold main_ok in Hm. destruct (main_at p) as [|k|k n saved it|k saved it join| | |] eqn:Em; try (by destruct Hm).
  - destruct Hm as (Hk & Hf & Hnt & Hs & root & i & b & Hl & Hi & Eit & Ect & Ht). exists root, i, n. split_and!; try done.
    intros p' cur' Ea Et Ht'. unfold main_ok. rewrite Ea, Et. split_and!; try done. by exists root, i, b.
  - destruct Hm as (Hk & Hf & Hs & root & i & b & j & bj & Hl & Hi & Eit & Ej & Ect & Ht). exists root, i, kTiles. split_and!; try done.
    intros p' cur' Ea Et Ht'. unfold main_ok. rewrite Ea, Et. split_and!; try done. by exists root, i, b, j, bj.
Qed.

(** The same for the main thread's invariant. *)
Lemma main_change c0 fin cur p w x y e :
  main_ok c0 fin cur p -> workers_ p !! w = Some x -> running x = 0%nat -> running y = 0%nat -> (forall c, carries c y) ->
  main_ok c0 fin cur (mkPool (q_ p) (stop_ p) (<[w := y]> (workers_ p)) (results p) (main_at p) (main_tls p) e).
Proof.
  intros Hm Hw Hx Hy Hyc. pose proof (sum_list_with_insert running (workers_ p) w _ y Hw) as Hsum.
  assert (idle p -> idle (mkPool (q_ p) (stop_ p) (<[w := y]> (workers_ p)) (results p) (main_at p) (main_tls p) e)) as Hidle.
  { intros [Hq Hr]. split; [exact Hq|]. cbn [workers_]. lia. }
  unfold main_ok in *. cbn [main_at main_tls]. destruct (main_at p) as [|k|k n saved it|k saved it join| | |];
    try (destruct Hm as [Hi Hm]; split; [by apply Hidle|exact Hm]).
  - destruct Hm as (Hk & Hf & Hnt & Hs & root & i & b & Hl & Hi & Eit & Ect & Ht). split_and!; try done.
    exists root, i, b. split_and!; try done. by apply (tasks_change _ _ _ _ _ x y).
  - destruct Hm as (Hk & Hf & Hs & root & i & b & j & bj & Hl & Hi & Eit & Ej & Ect & Ht). split_and!; try done.
    exists root, i, b, j, bj. split_and!; try done. by apply (tasks_change _ _ _ _ _ x y).
Qed.

(** What a worker's step does to the spans ended or owed. *)
Lemma shapes_step p w x y q r l k :
  workers_ p !! w = Some x -> map shape (spans_of l) ++ owed y ≡ₚ k ++ owed x ->
  shapes (mkPool q (stop_ p) (<[w := y]> (workers_ p)) r (main_at p) (main_tls p) (emit p l)) ≡ₚ shapes p ++ k.
Proof.
  intros Hw Hl. unfold shapes, emit. cbn [emitted workers_]. rewrite spans_of_app, map_app.
  pose proof (insert_concat_map owed _ _ _ y Hw) as Ho. revert Ho Hl.
  generalize (concat (map owed (<[w:=y]> (workers_ p)))) (concat (map owed (workers_ p))) (map shape (spans_of (emitted p)))
    (map shape (spans_of l)) (owed x) (owed y). intros A B S L ox oy Ho Hl.
  apply (Permutation_app_inv_l ox). transitivity (S ++ L ++ ox ++ A); [solve_Permutation|].
  rewrite Ho. transitivity (S ++ (L ++ oy) ++ B); [solve_Permutation|]. rewrite Hl. solve_Permutation.
Qed.

Lemma not_done p w x : (main_at p = MDone -> Forall (fun w => fst w = Exited) (workers_ p)) ->
  workers_ p !! w = Some x -> fst x <> Exited -> main_at p <> MDone.
Proof. intros Hd Hw Hx E. specialize (Hd E). rewrite Forall_lookup in Hd. by specialize (Hd w _ Hw). Qed.

Lemma pool_ok_take ctxs c0 p w p' : pool_ok ctxs c0 p -> worker_take p w = Some p' -> pool_ok ctxs c0 p'.
Proof.
  intros (dn & cur & Hsp & Hd & Hctx & Hstop & Hal & Hdone & Hm) H. unfold worker_take in H.
  destruct (workers_ p !! w) as [[pcw th]|] eqn:Ew; [|done]. destruct pcw as [| | |]; try done.
  pose proof (not_done p w _ Hdone Ew ltac:(done)) as Hnd.
  destruct (q_ p) as [|tk q] eqn:Eq.
  - destruct (stop_ p) eqn:Es; [|done]. injection H as <-. exists dn, cur. cbn [workers_ stop_ main_at].
    split_and!; try done; [|by rewrite (insert_home _ _ _ _ Ew)|].
    + rewrite <- Hsp, <- (app_nil_r (shapes p)), <- (shapes_step p w _ (Exited, th) [] (results p) [] []) by done.
      unfold emit. by rewrite app_nil_r, Es.
    + rewrite <- Eq, <- Es. by apply (main_change _ _ _ _ _ _ _ _ Hm Ew).
  - injection H as <-. exists dn, cur. cbn [workers_ stop_ main_at].
    split_and!; try done; [|by rewrite (insert_home _ _ _ _ Ew)|intros E; apply Forall_insert; [by apply Hal|done]|].
    + rewrite <- Hsp, <- (app_nil_r (shapes p)), <- (shapes_step p w _ (Running tk, th) q (results p) [] []) by done.
      unfold emit. by rewrite app_nil_r.
    + destruct (main_tasks _ _ _ _ Hm) as (root & i & n & _ & _ & Ht & Hback); [intros [Hq _]; congruence|].
      apply Hback; [done|done|]. by apply tasks_take.
Qed.

Lemma pool_ok_run ctxs c0 p w now p' : pool_ok ctxs c0 p -> worker_run p w now = Some p' -> pool_ok ctxs c0 p'.
Proof.
  intros (dn & cur & Hsp & Hd & Hctx & Hstop & Hal & Hdone & Hm) H. unfold worker_run in H.
  destruct (workers_ p !! w) as [[pcw th]|] eqn:Ew; [|done]. destruct pcw as [|tk| |]; try done.
  pose proof (not_done p w _ Hdone Ew ltac:(done)) as Hnd.
  destruct (main_tasks _ _ _ _ Hm) as (root & i & n & Hl & Hi & Ht & Hback).
  { intros [_ Hr]. pose proof (sum_list_with_insert running (workers_ p) w _ (Waiting, th) Ew) as Hsum. cbn [running fst] in Hsum. lia. }
  assert (envelope tk = Inject (Ctx (trace root) (SpanI i))) as Etk.
  { destruct Ht as (_ & _ & Hc & _). rewrite Forall_lookup in Hc. by specialize (Hc w _ Ew). }
  destruct tk as [env k j]. cbn [envelope] in Etk. subst env.
  destruct (run_task_spec (Ctx (trace root) (SpanI i)) k j now th (live_child root i Hl Hi)) as (x & th' & ev & Hx & Hc' & E & Hev).
  rewrite E in H. injection H as <-. exists dn, (cur ++ [tile_span (Ctx (trace root) (SpanI i)) x]). cbn [workers_ stop_ main_at].
  split_and!; try done.
  - rewrite app_assoc, <- Hsp. apply shapes_step with (1 := Ew). destruct ev; [|by edestruct Hev]. cbn. by rewrite Hc'.
  - by rewrite (insert_home _ _ _ _ Ew).
  - intros Es. apply Forall_insert; [by apply Hal|done].
  - apply Hback; [done|done|]. by apply (tasks_run _ _ _ _ w x th _ _ _ Ht Ew).
Qed.

Lemma pool_ok_end ctxs c0 p w now p' : pool_ok ctxs c0 p -> worker_end p w now = Some p' -> pool_ok ctxs c0 p'.
Proof.
  intros (dn & cur & Hsp & Hd & Hctx & Hstop & Hal & Hdone & Hm) H. unfold worker_end in H.
  destruct (workers_ p !! w) as [[pcw th]|] eqn:Ew; [|done]. destruct pcw as [| |saved sp|]; try done.
  pose proof (not_done p w _ Hdone Ew ltac:(done)) as Hnd. cbn [end_task Span_dtor ended ContextGuard_dtor] in H.
  injection H as <-. exists dn, cur. cbn [workers_ stop_ main_at]. split_and!; try done.
  - rewrite <- Hsp, <- (app_nil_r (shapes p)). by apply shapes_step with (1 := Ew).
  - by rewrite (insert_home _ _ _ _ Ew).
  - intros Es. apply Forall_insert; [by apply Hal|done].
  - by apply (main_change _ _ _ _ _ _ _ _ Hm Ew).
Qed.

(** ** The main thread's steps *)

(** Linking the results of the tiles: all of them are kept. *)
Lemma link_results c cur s :
  Forall (is_tile c) cur -> live c -> (length (links_ s) + length cur <= kMaxSpanLinks)%nat ->
  foldl (fun s r => AddLink (Extract (Some r)) s) s (map (fun r => Inject (r_ctx r)) cur) =
  SpanObj (name_ s) (begin_ s) (saved_ s) (parent_ s) (links_ s ++ map r_ctx cur).
Proof.
  intros Hcur Hc. revert s. induction Hcur as [|r cur (i & Hi & ->) _ IH]; intros s Hn; cbn [map foldl length] in *.
  - rewrite app_nil_r. by destruct s.
  - pose proof (live_child c i Hc Hi) as [Hok Hv]. cbn [tile_span r_ctx]. rewrite Extract_Inject by done.
    unfold AddLink at 2. rewrite Hv, (proj2 (Nat.ltb_lt _ _)) by lia. cbn [andb].
    rewrite IH by (cbn [links_]; rewrite length_app; cbn [length]; lia).
    cbn [name_ begin_ saved_ parent_ links_]. by rewrite <- app_assoc.
Qed.

Lemma idle_fresh c p :
  idle p -> tasks_ok c 0 [] (mkPool (q_ p) (stop_ p) (workers_ p) [] (main_at p) (main_tls p) (emitted p)).
Proof.
  intros [Hq Hr]. split_and!; cbn [q_ workers_ results]; rewrite ?Hq; try done; [cbn; lia|].
  apply Forall_forall. intros x Hx. unfold carries. destruct x as [[|tk| |] th]; cbn; try done. exfalso.
  apply list_elem_of_lookup in Hx as (w & Hw).
  pose proof (sum_list_with_insert running (workers_ p) w _ (Waiting, th) Hw) as Hsum. cbn [running fst] in Hsum. lia.
Qed.

Lemma shapes_main p q st r m th l :
  shapes (mkPool q st (workers_ p) r m th (emit p l)) ≡ₚ shapes p ++ map shape (spans_of l).
Proof.
  unfold shapes, emit. cbn [emitted workers_]. rewrite spans_of_app, map_app, <- !app_assoc.
  apply Permutation_app_head, Permutation_app_comm.
Qed.

Lemma pool_ok_begin ctxs c0 p now p' : main_at p = MBegin -> pool_ok ctxs c0 p -> main_step p now = Some p' -> pool_ok ctxs c0 p'.
Proof.
  intros Em (dn & cur & Hsp & Hd & Hctx & Hstop & Hal & Hdone & Hm) H. unfold main_step in H. unfold main_ok in Hm. rewrite Em in *.
  injection H as <-. destruct Hm as (Hi & -> & Hf & Hc). exists dn, []. cbn [at_main workers_ stop_ main_at].
  split_and!; try done; [unfold at_main; by rewrite shapes_main, Hsp, app_nil_r|]. unfold main_ok. cbn [main_at main_tls].
  split_and!; try done; lia.
Qed.

Lemma pool_ok_iter ctxs c0 p now p' k : main_at p = MIter k -> pool_ok ctxs c0 p -> main_step p now = Some p' -> pool_ok ctxs c0 p'.
Proof.
  intros Em (dn & cur & Hsp & Hd & Hctx & Hstop & Hal & Hdone & Hm) H. unfold main_step in H. unfold main_ok in Hm. rewrite Em in *.
  destruct Hm as (Hi & -> & Hk & Hf & Hc). destruct (Nat.ltb_spec 2 k).
  - injection H as <-. exists dn, []. cbn [at_main workers_ stop_ main_at].
    split_and!; try done; [unfold at_main; by rewrite shapes_main, Hsp, app_nil_r|]. unfold main_ok. cbn [main_at main_tls].
    split_and!; try done; try apply Hi; lia.
  - destruct (NewTrace_live (main_tls p)) as (root & t1 & E & Hl & Hc1). rewrite E in H. cbn [ContextGuard_ctor] in H.
    destruct (Span_ctor_live (str "demo.pool.iteration") (fst now) (SetCurrentContext root t1)) as (i & t2 & Hid & Hc2 & E2); [exact Hl|].
    rewrite E2 in H. injection H as <-. exists dn, []. cbn [emitted workers_ stop_ main_at].
    split_and!; try done. unfold main_ok. cbn [main_at main_tls]. split_and!; try done; try lia; [by rewrite Hc1|].
    exists root, i, (fst now). split_and!; try done. by apply (idle_fresh _ p).
Qed.

Lemma pool_ok_submit ctxs c0 p now p' k n saved it :
  main_at p = MSubmit k n saved it -> pool_ok ctxs c0 p -> main_step p now = Some p' -> pool_ok ctxs c0 p'.
Proof.
  intros Em (dn & cur & Hsp & Hd & Hctx & Hstop & Hal & Hdone & Hm) H. unfold main_step in H. unfold main_ok in Hm. rewrite Em in *.
  destruct Hm as (Hk & Hf & Hn & Hs & root & i & b & Hl & Hid & Eit & Ect & Ht). destruct (Nat.ltb_spec n kTiles).
  - injection H as <-. exists dn, cur. cbn [emitted workers_ stop_ main_at]. split_and!; try done.
    unfold main_ok. cbn [main_at main_tls]. split_and!; try done. exists root, i, b. split_and!; try done.
    destruct Ht as (Hcnt & Hq & Hcar & Hr & Hcur). split_and!; cbn [q_ workers_ results]; try done.
    + rewrite length_app. cbn [length]. lia.
    + apply Forall_app_2; [done|]. apply Forall_singleton. cbn [envelope]. unfold CurrentContext. by rewrite Ect.
  - assert (n = kTiles) as -> by lia.
    destruct (Span_ctor_live (str "demo.pool.join") (fst now) (main_tls p)) as (j & t2 & Hj & Hc2 & E2);
      [rewrite Ect; by apply live_child|].
    rewrite E2 in H. injection H as <-. exists dn, cur. cbn [at_main emitted workers_ stop_ main_at].
    split_and!; try done; [unfold at_main; by rewrite shapes_main, Hsp, app_nil_r|].
    unfold main_ok. cbn [main_at main_tls]. split_and!; try done.
    exists root, i, b, j, (fst now). rewrite Ect in *. split_and!; try done.
Qed.

Lemma pool_ok_wait ctxs c0 p now p' k saved it join :
  main_at p = MWait k saved it join -> pool_ok ctxs c0 p -> main_step p now = Some p' -> pool_ok ctxs c0 p'.
Proof.
  intros Em (dn & cur & Hsp & Hd & Hctx & Hstop & Hal & Hdone & Hm) H. unfold main_step in H. unfold main_ok in Hm. rewrite Em in *.
  destruct Hm as (Hk & Hf & Hs & root & i & b & j & bj & Hl & Hid & Eit & Ej & Ect & Ht).
  destruct (Nat.eqb_spec (length (results p)) kTiles) as [Hlen|]; [|done].
  destruct Ht as (Hcnt & Hq & Hcar & Hr & Hcur). rewrite Hr, map_length in Hlen.
  rewrite Hr, (link_results (Ctx (trace root) (SpanI i)) cur) in H;
    [|done|by apply live_child|rewrite Ej; cbn [links_ length]; unfold kMaxSpanLinks; unfold kTiles in *; lia].
  rewrite Ej, Eit in H. cbn [Span_dtor name_ begin_ saved_ parent_ links_ ended app ContextGuard_dtor SetCurrentContext t_current_context] in H.
  rewrite Ect in H. injection H as <-.
  set (l := [SpanRecord (str "demo.pool.join") (Ctx (trace root) (SpanI j)) (SpanI i) 0 0 (map r_ctx cur);
             SpanRecord (str "demo.pool.iteration") (Ctx (trace root) (SpanI i)) (span root) 0 0 []]).
  exists (dn ++ [cur ++ l]), []. cbn [at_main emitted workers_ stop_ main_at]. split_and!; try done.
  - unfold at_main. rewrite shapes_main, Hsp, concat_app. cbn [concat]. by rewrite !app_nil_r, <- !app_assoc.
  - apply Forall_app_2; [done|]. apply Forall_singleton.
    exists root, i, j, cur. split; [exact Hl|]. by split_and!.
  - unfold main_ok. cbn [main_at main_tls]. rewrite length_app. cbn [length].
    split_and!; try done; try lia.
    split; [apply nil_length_inv|]; cbn [at_main q_ workers_]; lia.
Qed.

Lemma pool_ok_main ctxs c0 p now p' : pool_ok ctxs c0 p -> main_step p now = Some p' -> pool_ok ctxs c0 p'.
Proof.
  intros Hp H. destruct (main_at p) as [|k|k n saved it|k saved it join| | |] eqn:Em.
  - by apply (pool_ok_begin ctxs c0 p now).
  - by apply (pool_ok_iter ctxs c0 p now p' k).
  - by apply (pool_ok_submit ctxs c0 p now p' k n saved it).
  - by apply (pool_ok_wait ctxs c0 p now p' k saved it join).
  - destruct Hp as (dn & cur & Hsp & Hd & Hctx & Hstop & Hal & Hdone & Hm). unfold main_step in H. unfold main_ok in Hm. rewrite Em in *.
    injection H as <-. exists dn, cur. cbn [emitted workers_ stop_ main_at]. split_and!; try done.
  - destruct Hp as (dn & cur & Hsp & Hd & Hctx & Hstop & Hal & Hdone & Hm). unfold main_step in H. unfold main_ok in Hm. rewrite Em in *.
    destruct (forallb _ _) eqn:Ef; [|done]. injection H as <-. exists dn, cur. cbn [at_main emitted workers_ stop_ main_at].
    split_and!; try done; [unfold at_main; by rewrite shapes_main, Hsp, app_nil_r|]. intros _.
    apply Forall_forall. intros x Hx. rewrite forallb_forall in Ef. apply list_elem_of_In in Hx. specialize (Ef x Hx).
    by destruct x as [[] th].
  - unfold main_step in H. by rewrite Em in H.
Qed.

Lemma pool_ok_step ctxs c0 p p' : pool_ok ctxs c0 p -> pool_step p p' -> pool_ok ctxs c0 p'.
Proof. intros Hp H. destruct H; eauto using pool_ok_take, pool_ok_run, pool_ok_end, pool_ok_main. Qed.

Lemma pool_ok0 workers main :
  pool_ok (map t_current_context workers) (t_current_context main) (pool0 workers main).
Proof.
  exists [], []. cbn [pool0 emitted workers_ stop_ main_at concat app]. split_and!; try done.
  - unfold shapes. cbn. induction workers; [done|]. by cbn.
  - cbn. rewrite map_map. done.
  - intros _. apply Forall_map, Forall_true. done.
  - unfold main_ok. cbn [main_at main_tls pool0]. split_and!; try done. cbn. by induction workers.
Qed.

(** ** Every run ends *)

(** Steps of the main thread still to come. *)
Definition after_iteration (k : nat) : nat := 3 + 7 * (3 - k).
Definition main_left (m : main_pc) : nat :=
  match m with
  | MBegin => S (after_iteration 1)
  | MIter k => after_iteration k
  | MSubmit k n _ _ => (kTiles - n) + 2 + after_iteration (S k)
  | MWait k _ _ _ => 1 + after_iteration (S k)
  | MStop => 2
  | MJoin => 1
  | MDone => 0
  end.

(** A worker's steps: its body, its scopes, the way out. *)
Definition work (w : worker_pc * thread) : nat :=
  match fst w with Waiting => 1 | Running _ => 3 | Ending _ _ => 2 | Exited => 0 end.

Definition left_of (p : pool) : nat := 4 * main_left (main_at p) + 3 * length (q_ p) + sum_list_with work (workers_ p).

Lemma left_take p w p' : worker_take p w = Some p' -> (left_of p' < left_of p)%nat.
Proof.
  unfold worker_take. destruct (workers_ p !! w) as [[[| | |] th]|] eqn:Ew; try done.
  destruct (q_ p) as [|tk q] eqn:Eq; [destruct (stop_ p); [|done]|]; intros [= <-]; unfold left_of; cbn [main_at q_ workers_]; rewrite Eq.
  - pose proof (sum_list_with_insert work (workers_ p) w _ (Exited, th) Ew) as H. cbn [work fst length] in *. lia.
  - pose proof (sum_list_with_insert work (workers_ p) w _ (Running tk, th) Ew) as H. cbn [work fst length] in *. lia.
Qed.

Lemma left_run p w now p' : worker_run p w now = Some p' -> (left_of p' < left_of p)%nat.
Proof.
  unfold worker_run. destruct (workers_ p !! w) as [[[|tk| |] th]|] eqn:Ew; try done.
  destruct (run_task tk now th) as [[[[saved span] th'] ev] res]. intros [= <-]. unfold left_of. cbn [main_at q_ workers_].
  pose proof (sum_list_with_insert work (workers_ p) w _ (Ending saved span, th') Ew) as H. cbn [work fst] in *. lia.
Qed.

Lemma left_end p w now p' : worker_end p w now = Some p' -> (left_of p' < left_of p)%nat.
Proof.
  unfold worker_end. destruct (workers_ p !! w) as [[[| |saved span|] th]|] eqn:Ew; try done.
  destruct (end_task saved span now th) as [th' l]. intros [= <-]. unfold left_of. cbn [main_at q_ workers_].
  pose proof (sum_list_with_insert work (workers_ p) w _ (Waiting, th') Ew) as H. cbn [work fst] in *. lia.
Qed.

Lemma left_main ctxs c0 p now p' : pool_ok ctxs c0 p -> main_step p now = Some p' -> (left_of p' < left_of p)%nat.
Proof.
  intros (dn & cur & _ & _ & _ & _ & _ & _ & Hm) H. unfold main_step in H. unfold main_ok in Hm. unfold left_of.
  destruct (main_at p) as [|k|k n saved it|k saved it join| | |] eqn:Em; cbn [main_left].
  - injection H as <-. cbn [at_main main_at q_ workers_ main_left]. lia.
  - destruct Hm as (_ & _ & Hk & _). unfold after_iteration in *. destruct (Nat.ltb_spec 2 k).
    + injection H as <-. cbn [at_main main_at q_ workers_ main_left]. lia.
    + destruct (NewTrace _) as [root t1]. cbn [ContextGuard_ctor] in H. destruct (Span_ctor _ _ _) as [it t2].
      injection H as <-. cbn [main_at q_ workers_ main_left]. unfold after_iteration, kTiles. lia.
  - unfold kTiles in *. destruct (Nat.ltb_spec n 4).
    + injection H as <-. cbn [main_at q_ workers_ main_left]. rewrite length_app. cbn [length]. unfold kTiles. lia.
    + destruct (Span_ctor _ _ _) as [join t2]. injection H as <-. cbn [at_main main_at q_ workers_ main_left]. lia.
  - destruct (_ =? _)%nat; [|done]. destruct (Span_dtor _ _ _ _) as [rj t1], (Span_dtor _ _ _ _) as [ri t2].
    injection H as <-. cbn [at_main main_at q_ workers_ main_left]. lia.
  - injection H as <-. cbn [main_at q_ workers_ main_left]. lia.
  - destruct (forallb _ _); [|done]. injection H as <-. cbn [at_main main_at q_ workers_ main_left]. lia.
  - done.
Qed.

(** A worker inside a task can move. *)
Lemma quiet_or_moves p :
  (exists p', pool_step p p') \/ Forall (fun w => fst w = Waiting \/ fst w = Exited) (workers_ p).
Proof.
  destruct (decide (Forall (fun w => running w = 0%nat /\ owed w = []) (workers_ p))) as [H|H].
  - right. apply (Forall_impl _ _ _ H). intros [[] th] [H1 H2]; try done; [by left|by right].
  - left. apply not_Forall_Exists, Exists_exists in H; [|intros x; apply _]. destruct H as (x & (w & Ew)%list_elem_of_lookup & Hx).
    destruct x as [[|tk|saved span|] th]; try by destruct Hx.
    + destruct (run_task tk 0 th) as [[[[saved span] th'] ev] res] eqn:E. eexists. apply (step_run p w 0).
      unfold worker_run. by rewrite Ew, E.
    + destruct (end_task saved span 0 th) as [th' l] eqn:E. eexists. apply (step_end p w 0). unfold worker_end. by rewrite Ew, E.
Qed.

(** No deadlock, with at least one worker. *)
Lemma pool_moves ctxs c0 p :
  pool_ok ctxs c0 p -> ctxs <> [] -> main_at p = MDone \/ exists p', pool_step p p'.
Proof.
  intros (dn & cur & _ & _ & Hctx & Hstop & Hal & _ & Hm) Hne.
  assert (workers_ p <> []) as Hw by (intros E; rewrite E in Hctx; by subst ctxs).
  destruct (quiet_or_moves p) as [Hr|Hq]; [by right|].
  assert (q_ p <> [] -> stop_ p = false -> exists p', pool_step p p') as Htake.
  { intros Hqn Hs. destruct (workers_ p) as [|[pcw th] ws] eqn:Ew; [done|].
    apply Forall_cons_1 in Hq as [[E|E] _]; cbn in E; subst pcw; [|by apply Hal in Hs; apply Forall_cons_1 in Hs as [? _]].
    destruct (q_ p) as [|tk q] eqn:Eq; [done|]. eexists. apply (step_take p 0%nat). unfold worker_take. by rewrite Ew, Eq. }
  assert (forall p', main_step p (0, 0) = Some p' -> exists p', pool_step p p') as Hmain by (intros p' H; exists p'; by apply (step_main p (0, 0))).
  unfold main_ok in Hm. unfold main_step in Hmain.
  destruct (main_at p) as [|k|k n saved it|k saved it join| | |] eqn:Em; [right..|by left].
  - by eapply Hmain.
  - destruct (2 <? k)%nat; [by eapply Hmain|]. destruct (NewTrace _) as [root t1]. cbn [ContextGuard_ctor] in Hmain.
    destruct (Span_ctor _ _ _); by eapply Hmain.
  - destruct (n <? kTiles)%nat; [by eapply Hmain|]. destruct (Span_ctor _ _ _); by eapply Hmain.
  - destruct (q_ p) as [|tk q] eqn:Eq; [|by apply Htake].
    destruct Hm as (_ & _ & _ & root & i & b & j & bj & _ & _ & _ & _ & _ & Hcnt & _ & _ & Hr & _).
    assert (sum_list_with running (workers_ p) = 0%nat) as E0.
    { clear -Hq. induction Hq as [|[pcw th] ws [E|E] _ IH]; cbn in *; [done|..]; subst; exact IH. }
    assert (length (results p) = kTiles) as El by (rewrite Hr, map_length; rewrite Eq in Hcnt; cbn [length] in Hcnt; lia).
    rewrite El in Hmain. cbn [Nat.eqb kTiles] in Hmain.
    destruct (Span_dtor _ _ _ _), (Span_dtor _ _ _ _); by eapply Hmain.
  - by eapply Hmain.
  - destruct (forallb exited (workers_ p)) eqn:Ef; [by eapply Hmain|].
    destruct (decide (Forall (fun w => exited w = true) (workers_ p))) as [Hall|Hnot].
    + apply not_true_iff_false in Ef. destruct Ef. apply forallb_forall. intros x Hx%list_elem_of_In. rewrite Forall_forall in Hall. by apply Hall.
    + apply not_Forall_Exists, Exists_exists in Hnot; [|intros x; apply _].
      destruct Hnot as (x & (w & Ew)%list_elem_of_lookup & Hx). rewrite Forall_lookup in Hq.
      destruct x as [pcw th]. destruct (Hq w _ Ew) as [E|E]; cbn in E; subst pcw; [|by destruct Hx].
      destruct Hm as [[Hqe _] _]. eexists. apply (step_take p w). unfold worker_take. by rewrite Ew, Hqe, Hstop.
Qed.

(** C18: Traces on a reused pool: whatever contexts the workers carried before and
    however tasks, workers and main thread interleave, the context each worker has
    outside its task is at every moment the one it started with; every run is
    finite and none gets stuck; and when the program ends, every worker has left,
    the main thread has its context back, and the spans ended are, up to the order
    in which the threads end them, those of two iterations: four tiles, children of
    the iteration on the iteration's trace whichever thread ran them, the join
    linked to all four, and the iteration itself. *)
Theorem pool_traces_follow_tasks (workers : list thread) (main : thread) (p : pool) :
  workers <> [] -> rtc pool_step (pool0 workers main) p ->
  map home (workers_ p) = map t_current_context workers /\
  (forall n p', nsteps pool_step n p p' -> (n + left_of p' <= left_of p)%nat) /\
  (main_at p = MDone \/ exists p', pool_step p p') /\
  (main_at p = MDone ->
     t_current_context (main_tls p) = t_current_context main /\
     Forall (fun w => fst w = Exited) (workers_ p) /\ q_ p = [] /\
     exists l1 l2, map shape (spans_of (emitted p)) ≡ₚ l1 ++ l2 /\ iteration_spans l1 /\ iteration_spans l2).
Proof.
  intros Hne Hr.
  assert (forall a b, pool_ok (map t_current_context workers) (t_current_context main) a -> rtc pool_step a b ->
            pool_ok (map t_current_context workers) (t_current_context main) b) as Hsteps.
  { intros a b Ha Hab. induction Hab; eauto using pool_ok_step. }
  pose proof (Hsteps _ _ (pool_ok0 workers main) Hr) as Hp. clear Hsteps Hr.
  split_and!.
  - by destruct Hp as (dn & cur & _ & _ & Hctx & _).
  - intros n p' Hn. induction Hn as [|n p1 p2 p3 H12 _ IH]; [lia|].
    specialize (IH (pool_ok_step _ _ _ _ Hp H12)).
    assert (left_of p2 < left_of p1)%nat by (destruct H12; eauto using left_take, left_run, left_end, left_main). lia.
  - apply (pool_moves _ _ _ Hp). destruct workers; done.
  - intros Em. destruct Hp as (dn & cur & Hsp & Hd & _ & _ & _ & Hex & Hm). unfold main_ok in Hm. rewrite Em in Hm.
    destruct Hm as ([Hq _] & -> & Hl & Hc). split_and!; [done|by apply Hex|done|].
    destruct dn as [|l1 [|l2 [|]]]; try done. apply Forall_cons_1 in Hd as [H1 Hd]. apply Forall_cons_1 in Hd as [H2 _].
    exists l1, l2. split_and!; [|done|done]. cbn [concat] in Hsp. rewrite !app_nil_r in Hsp. rewrite <- Hsp.
    unfold shapes. rewrite (proj2 (concat_nil_Forall _)), app_nil_r; [done|]. apply Forall_map.
    apply (Forall_impl _ _ _ (Hex Em)). by intros [[] th] [=].
Qed.

(** A run of two workers, one of which starts with a context that is not its own. *)
Definition stale_context : Context := Ctx (Trace 7 8) (SpanI 9).

Lemma pool_traces_follow_tasks_witness :
  let p0 := pool0 [Thread stale_context (Some 3) (1, 2); Thread no_context None (1, 2)] (Thread no_context (Some 11) (1, 2)) in
  exists p', pool_step p0 p'.
Proof.
  intros p0. destruct (pool_traces_follow_tasks [Thread stale_context (Some 3) (1, 2); Thread no_context None (1, 2)]
    (Thread no_context (Some 11) (1, 2)) p0) as (_ & _ & [H|H] & _); [discriminate|apply rtc_refl|discriminate H|exact H].
Defined.
