(* ===== verification/TracePipeline.v ===== *)
(** * A trace over threads with a fan-in (examples/trace_pipeline_example.cpp)

    Three producer threads work under one minted trace and ship their contexts as
    envelope bytes through a locked queue; the main thread gathers them as links of a
    span of its own, searches under a linked span, joins the threads.  Each of
    [Push] and [Pop] is one critical section; a [Pop] that finds nothing is a step
    that changes nothing, the sleep after it included. *)

From Stdlib Require Import ZArith Lia String.
From stdpp Require Import base list numbers relations.
From S2P Require Import Prelude Serialization Context Printf ArgPack Format Unbound ConsoleFormat Console Traces.

Local Open Scope Z_scope.

(** ** Envelopes, the queue *)

Record Envelope := MkEnvelope { env_ctx : bytes; env_kind : Z }.

Definition Push (e : Envelope) (q_ : list Envelope) : list Envelope := q_ ++ [e].

Definition Pop (q_ : list Envelope) : option Envelope * list Envelope :=
  match q_ with
  | [] => (None, [])
  | e :: q_ => (Some e, q_)
  end.

(** ** Producers

    [ProduceInput] up to its sleep, its push, the end of its scopes. *)

Inductive producer_pc :=
| PStart (root : Context) (kind : Z) (name : bytes)
| PPush (kind : Z) (g : Context) (span : Span)
| PEnd (g : Context) (span : Span)
| PExited.

Definition producer_start (root : Context) (kind : Z) (name : bytes) (now : Z) (th : thread) : producer_pc * thread :=
  let '(g, th) := ContextGuard_ctor root th in
  let '(span, th) := Span_ctor name now th in
  (PPush kind g span, th).

Definition producer_push (kind : Z) (th : thread) (q_ : list Envelope) : list Envelope :=
  Push (MkEnvelope (Inject (CurrentContext th)) kind) q_.

Definition producer_end (g : Context) (span : Span) (now : Z) (th : thread) : thread * list emission :=
  let '(r, th) := Span_dtor span true now th in (ContextGuard_dtor g th, ended r).

(** ** The main thread *)

Inductive main_pc :=
| MStart
| MSpawn (n : nat) (root : Context)
| MGather (root g : Context) (plan gather : Span) (got : nat)
| MSearch (g : Context) (plan search : Span)
| MJoin
| MDone.

(** [pushed] is a history: every envelope pushed, in the order of the pushes. *)
Record pipeline := mkPipeline {
  queue : list Envelope;
  producers : list (producer_pc * thread);
  main_at : main_pc;
  main_tls : thread;
  emitted : list emission;
  pushed : list Envelope
}.

Definition inputs : list bytes := [str "demo.input.pose"; str "demo.input.map"; str "demo.input.goal"].

Definition emit (p : pipeline) (l : list emission) : list emission := emitted p ++ l.

(** A step of producer [w]; [now] is what the clock shows. *)
Definition producer_step (p : pipeline) (w : nat) (now : Z) : option pipeline :=
  match producers p !! w with
  | Some (PStart root kind name, th) =>
      Some (mkPipeline (queue p) (<[w := producer_start root kind name now th]> (producers p)) (main_at p) (main_tls p) (emitted p) (pushed p))
  | Some (PPush kind g span, th) =>
      Some (mkPipeline (producer_push kind th (queue p)) (<[w := (PEnd g span, th)]> (producers p)) (main_at p) (main_tls p) (emitted p)
              (pushed p ++ [MkEnvelope (Inject (CurrentContext th)) kind]))
  | Some (PEnd g span, th) =>
      let '(th, l) := producer_end g span now th in
      Some (mkPipeline (queue p) (<[w := (PExited, th)]> (producers p)) (main_at p) (main_tls p) (emit p l) (pushed p))
  | _ => None
  end.

(** What one pass of the gathering loop does with what [Pop] answered. *)
Definition gather_input (e : Envelope) (gather : Span) : Span :=
  let i := Extract (Some (env_ctx e)) in
  if Context_valid i then AddLink i gather else gather.

Definition exited (w : producer_pc * thread) : bool := match fst w with PExited => true | _ => false end.

(** A step of the main thread; [now] is what the clock shows, [dev] what the random
    device will give the thread it creates, whose thread-locals are fresh. *)
Definition main_step (p : pipeline) (now : Z * Z) (dev : Z * Z) : option pipeline :=
  let th := main_tls p in
  match main_at p with
  | MStart =>
      let ev := Event kInfo (str "trace pipeline demo: 3 producer threads -> gather -> plan -> output") [] (CurrentContext th) in
      let '(root, th) := NewTrace th in
      Some (mkPipeline (queue p) (producers p) (MSpawn 0 root) th (emit p [ev]) (pushed p))
  | MSpawn n root =>
      match inputs !! n with
      | Some name =>
          Some (mkPipeline (queue p) (producers p ++ [(PStart root (Z.of_nat n) name, Thread no_context None dev)])
                  (MSpawn (S n) root) th (emitted p) (pushed p))
      | None =>
          let '(g, th) := ContextGuard_ctor root th in
          let '(plan, th) := Span_ctor (str "demo.plan.iteration") (fst now) th in
          let '(gather, th) := Span_ctor (str "demo.plan.gather_inputs") (snd now) th in
          Some (mkPipeline (queue p) (producers p) (MGather root g plan gather 0) th (emitted p) (pushed p))
      end
  | MGather root g plan gather got =>
      if (got <? 3)%nat then
        match Pop (queue p) with
        | (Some e, q_) =>
            Some (mkPipeline q_ (producers p) (MGather root g plan (gather_input e gather) (S got)) th (emitted p) (pushed p))
        | (None, q_) => Some (mkPipeline q_ (producers p) (MGather root g plan gather got) th (emitted p) (pushed p))
        end
      else
        let '(r, th) := Span_dtor gather true (fst now) th in
        let '(search, th) := Span_ctor_linked (str "demo.plan.search") root (snd now) th in
        Some (mkPipeline (queue p) (producers p) (MSearch g plan search) th (emit p (ended r)) (pushed p))
  | MSearch g plan search =>
      let c := CurrentContext th in
      let ev := Event kInfo (str "search done under trace {:x}{:x}") [AUnsigned (hi (trace c)); AUnsigned (lo (trace c))] c in
      let '(rs, th) := Span_dtor search true (fst now) th in
      let '(rp, th) := Span_dtor plan true (snd now) th in
      let th := ContextGuard_dtor g th in
      Some (mkPipeline (queue p) (producers p) MJoin th (emit p (ev :: ended rs ++ ended rp)) (pushed p))
  | MJoin =>
      if forallb exited (producers p) then
        let ev := Event kInfo (str "done " ++ [226; 128; 148] ++ str " with the SDK bound, every stage above lands on ONE timeline "
                    ++ str "under one TraceId, with the gather span linking all 3 inputs") [] (CurrentContext th) in
        Some (mkPipeline (queue p) (producers p) MDone th (emit p [ev]) (pushed p))
      else None
  | MDone => None
  end.

Inductive pipeline_step : pipeline -> pipeline -> Prop :=
| step_producer p w now p' : producer_step p w now = Some p' -> pipeline_step p p'
| step_main p now dev p' : main_step p now dev = Some p' -> pipeline_step p p'.

Definition pipeline0 (main : thread) : pipeline := mkPipeline [] [] MStart main [] [].

(** ** Specification *)

(** The spans of the program on the trace [root], but for their times: [sent] are
    the kind and the span id of each input in the order the envelopes arrived. *)
Definition input_name (k : nat) : bytes := nth k inputs [].
Definition input_ctx (root : Context) (s : nat * Z) : Context := Ctx (trace root) (SpanI (snd s)).
Definition input_span (root : Context) (s : nat * Z) : span_record :=
  SpanRecord (input_name (fst s)) (input_ctx root s) (span root) 0 0 [].
Definition plan_span (root : Context) (i : Z) : span_record :=
  SpanRecord (str "demo.plan.iteration") (Ctx (trace root) (SpanI i)) (span root) 0 0 [].
Definition gather_span (root : Context) (i j : Z) (sent : list (nat * Z)) : span_record :=
  SpanRecord (str "demo.plan.gather_inputs") (Ctx (trace root) (SpanI j)) (SpanI i) 0 0 (map (input_ctx root) sent).
Definition search_span (root : Context) (i k : Z) : span_record :=
  SpanRecord (str "demo.plan.search") (Ctx (trace root) (SpanI k)) (SpanI i) 0 0 [root].

Definition envelope_of (root : Context) (s : nat * Z) : Envelope := MkEnvelope (Inject (input_ctx root s)) (Z.of_nat (fst s)).

(** ** Invariant *)

(** The input a producer has still to send, and the span it has still to end. *)
Definition pending (w : producer_pc * thread) : list nat :=
  match fst w with PStart _ k _ | PPush k _ _ => [Z.to_nat k] | _ => [] end.
Definition owed (w : producer_pc * thread) : list span_record :=
  match fst w with
  | PEnd _ s => [SpanRecord (name_ s) (t_current_context (snd w)) (parent_ s) 0 0 (links_ s)]
  | _ => []
  end.

Definition producer_ok (root : Context) (w : producer_pc * thread) : Prop :=
  match fst w with
  | PStart r k name => r = root /\ (0 <= k < 3)%Z /\ name = input_name (Z.to_nat k) /\ t_current_context (snd w) = no_context
  | PPush k g s => exists b i, (0 <= k < 3)%Z /\ in_width 64 i /\ g = no_context /\
      s = SpanObj (input_name (Z.to_nat k)) b root (span root) [] /\ t_current_context (snd w) = Ctx (trace root) (SpanI i)
  | PEnd g s => g = no_context /\ saved_ s = root
  | PExited => t_current_context (snd w) = no_context
  end.

Definition shapes (p : pipeline) : list span_record := map shape (spans_of (emitted p)) ++ concat (map owed (producers p)).

(** Where the main thread stands, [got] inputs taken of those [sent], with the
    spans [l] it has ended. *)
Definition main_ok (c0 root : Context) (sent : list (nat * Z)) (l : list span_record) (got : nat) (p : pipeline) : Prop :=
  let n := length (producers p) in
  match main_at p with
  | MStart => False
  | MSpawn k r => r = root /\ n = k /\ (k <= 3)%nat /\ got = 0%nat /\ l = [] /\ t_current_context (main_tls p) = c0
  | MGather r g plan gather k =>
      n = 3%nat /\ r = root /\ g = c0 /\ k = got /\ (got <= 3)%nat /\ l = [] /\
      exists b b' i j, in_width 64 i /\ in_width 64 j /\ t_current_context (main_tls p) = Ctx (trace root) (SpanI j) /\
        plan = SpanObj (str "demo.plan.iteration") b root (span root) [] /\
        gather = SpanObj (str "demo.plan.gather_inputs") b' (Ctx (trace root) (SpanI i)) (SpanI i) (map (input_ctx root) (take got sent))
  | MSearch g plan search =>
      n = 3%nat /\ g = c0 /\ got = 3%nat /\
      exists b b' i j k, in_width 64 i /\ in_width 64 k /\ t_current_context (main_tls p) = Ctx (trace root) (SpanI k) /\
        l = [gather_span root i j sent] /\
        plan = SpanObj (str "demo.plan.iteration") b root (span root) [] /\
        search = SpanObj (str "demo.plan.search") b' (Ctx (trace root) (SpanI i)) (SpanI i) [root]
  | MJoin | MDone =>
      n = 3%nat /\ got = 3%nat /\ t_current_context (main_tls p) = c0 /\
      (exists i j k, l = [gather_span root i j sent; search_span root i k; plan_span root i]) /\
      (main_at p = MDone -> Forall (fun w => exited w = true) (producers p))
  end.

Definition running_ok (c0 root : Context) (sent : list (nat * Z)) (l : list span_record) (got : nat) (p : pipeline) : Prop :=
  live root /\ Forall (fun s => in_width 64 (snd s)) sent /\ (got <= length sent)%nat /\
  queue p = map (envelope_of root) (drop got sent) /\ pushed p = map (envelope_of root) sent /\
  map fst sent ++ concat (map pending (producers p)) ≡ₚ seq 0 (length (producers p)) /\
  shapes p ≡ₚ map (input_span root) sent ++ l /\
  Forall (producer_ok root) (producers p) /\
  main_ok c0 root sent l got p.

Definition pipeline_ok (c0 : Context) (p : pipeline) : Prop :=
  (exists main, p = pipeline0 main /\ t_current_context main = c0) \/
  exists root sent l got, running_ok c0 root sent l got p.

(** ** The steps keep it *)

Lemma main_ok_update c0 root sent l got p q w x y e h :
  main_ok c0 root sent l got p -> producers p !! w = Some x -> exited x = false ->
  main_ok c0 root sent l got (mkPipeline q (<[w := y]> (producers p)) (main_at p) (main_tls p) e h).
Proof.
  intros Hm Hw Hx. unfold main_ok in *. cbn [main_at main_tls producers]. rewrite length_insert.
  destruct (main_at p); try done; destruct Hm as (Hn & Hg & Hc & Hl & Hd); split_and!; try done.
  intros _. specialize (Hd eq_refl). rewrite Forall_lookup in Hd. specialize (Hd w x Hw). congruence.
Qed.

Lemma main_ok_sent c0 root sent s l got p :
  main_ok c0 root sent l got p -> (got <= length sent)%nat -> (got < 3)%nat -> main_ok c0 root (sent ++ [s]) l got p.
Proof.
  intros Hm Hs Hg. unfold main_ok in *. destruct (main_at p); try done; try (by destruct Hm as (_ & -> & _); lia);
    try (by destruct Hm as (_ & _ & -> & _); lia).
  rewrite take_app_le by done. exact Hm.
Qed.

(** What a producer's step does to the spans ended or owed. *)
Lemma shapes_producer p w x y q l k h :
  producers p !! w = Some x -> map shape (spans_of l) ++ owed y ≡ₚ k ++ owed x ->
  shapes (mkPipeline q (<[w := y]> (producers p)) (main_at p) (main_tls p) (emit p l) h) ≡ₚ k ++ shapes p.
Proof.
  intros Hw Hl. unfold shapes, emit. cbn [emitted producers]. rewrite spans_of_app, map_app.
  pose proof (insert_concat_map owed _ _ _ y Hw) as Ho. revert Ho Hl.
  generalize (concat (map owed (<[w:=y]> (producers p)))) (concat (map owed (producers p))) (map shape (spans_of (emitted p)))
    (map shape (spans_of l)) (owed x) (owed y). intros A B S L ox oy Ho Hl.
  apply (Permutation_app_inv_l ox). transitivity (S ++ L ++ ox ++ A); [solve_Permutation|].
  rewrite Ho. transitivity (S ++ (L ++ oy) ++ B); [solve_Permutation|]. rewrite Hl. solve_Permutation.
Qed.

Lemma shapes_silent p w x y q k h :
  producers p !! w = Some x -> owed y ≡ₚ k ++ owed x ->
  shapes (mkPipeline q (<[w := y]> (producers p)) (main_at p) (main_tls p) (emitted p) h) ≡ₚ k ++ shapes p.
Proof.
  intros Hw Hl. rewrite <- (shapes_producer p w x y q [] k h Hw) by done. unfold emit. by rewrite app_nil_r.
Qed.

Lemma pending_step ws w x y (sent k : list nat) :
  ws !! w = Some x -> k ++ pending y ≡ₚ pending x ->
  (sent ++ k) ++ concat (map pending (<[w := y]> ws)) ≡ₚ sent ++ concat (map pending ws).
Proof.
  intros Hw Hk. pose proof (insert_concat_map pending _ _ _ y Hw) as Ho. revert Ho Hk.
  generalize (concat (map pending (<[w:=y]> ws))) (concat (map pending ws)) (pending x) (pending y). intros A B ox oy Ho Hk.
  apply (Permutation_app_inv_l oy). transitivity (sent ++ (k ++ oy) ++ A); [solve_Permutation|].
  rewrite Hk, Ho. solve_Permutation.
Qed.

Lemma running_producer c0 root sent l got p w now p' :
  running_ok c0 root sent l got p -> producer_step p w now = Some p' -> exists sent', running_ok c0 root sent' l got p'.
Proof.
  intros (Hl & Hs & Hg & Hq & Hpu & Hp & Hsh & Hpr & Hm) H. unfold producer_step in H.
  destruct (producers p !! w) as [[pc th]|] eqn:Ew; [|done].
  pose proof (Forall_lookup_1 _ _ _ _ Hpr Ew) as Hw. destruct pc as [r k name|k g s|g s|]; cbn [producer_ok fst snd] in Hw; [..|done].
  - destruct Hw as (-> & Hk & -> & Hc). injection H as <-. unfold producer_start.
    change (ContextGuard_ctor root th) with (t_current_context th, SetCurrentContext root th).
    destruct (Span_ctor_live (input_name (Z.to_nat k)) now (SetCurrentContext root th)) as (i & t' & Hi & Hct & E); [exact Hl|].
    rewrite E. exists sent. split_and!; cbn [queue producers]; try done.
    + rewrite length_insert, <- Hp, <- (app_nil_r (map fst sent)) at 1. by apply pending_step with (1 := Ew).
    + rewrite <- Hsh. by apply (shapes_silent p w _ _ (queue p) [] _ Ew).
    + apply Forall_insert; [done|]. unfold producer_ok. cbn [fst snd]. exists now, i. rewrite Hct. split_and!; try done; lia.
    + by apply main_ok_update with (2 := Ew).
  - destruct Hw as (b & i & Hk & Hi & -> & -> & Hc). injection H as <-.
    assert (length sent + 1 <= length (producers p) /\ (length (producers p) <= 3))%nat as [Hn Hn3].
    { apply Permutation_length in Hp. rewrite length_app, length_map, length_seq in Hp.
      pose proof (insert_concat_map pending _ _ _ (PExited, th) Ew) as Ho%Permutation_length.
      rewrite !length_app in Ho. cbn [pending fst length] in Ho. split; [lia|].
      unfold main_ok in Hm. destruct (main_at p); try done; destruct Hm as (Hm & Hm'); lia. }
    exists (sent ++ [(Z.to_nat k, i)]). split_and!; cbn [queue producers]; try done.
    + by apply Forall_app_2; [|apply Forall_singleton].
    + rewrite length_app. cbn. lia.
    + unfold producer_push, Push, CurrentContext. rewrite Hq, Hc, drop_app_le, map_app by done.
      cbn [map]. unfold envelope_of at 3. cbn [fst]. by rewrite Z2Nat.id by lia.
    + cbn [pushed]. unfold CurrentContext. rewrite Hpu, Hc, map_app. cbn [map]. unfold envelope_of at 3. cbn [fst]. by rewrite Z2Nat.id by lia.
    + rewrite length_insert, <- Hp, map_app. cbn [map fst]. by apply pending_step with (1 := Ew).
    + rewrite map_app. cbn [map]. rewrite (Permutation_app_comm (map _ sent)), <- app_assoc, <- Hsh.
      apply (shapes_silent p w _ _ _ [input_span root (Z.to_nat k, i)] _ Ew). cbn. by rewrite Hc.
    + by apply Forall_insert.
    + apply main_ok_sent; [by apply main_ok_update with (2 := Ew)|done|lia].
  - destruct Hw as (-> & Hsv). cbn [producer_end Span_dtor ended ContextGuard_dtor SetCurrentContext] in H.
    injection H as <-. exists sent. split_and!; cbn [queue producers]; try done.
    + rewrite length_insert, <- Hp, <- (app_nil_r (map fst sent)) at 1. by apply pending_step with (1 := Ew).
    + rewrite <- Hsh. by apply (shapes_producer p w _ _ (queue p) _ [] _ Ew).
    + by apply Forall_insert.
    + by apply main_ok_update with (2 := Ew).
Qed.

Lemma shapes_gatherer p q m th l h :
  shapes (mkPipeline q (producers p) m th (emit p l) h) ≡ₚ map shape (spans_of l) ++ shapes p.
Proof.
  unfold shapes, emit. cbn [emitted producers]. rewrite spans_of_app, map_app. solve_Permutation.
Qed.

(** A step of the main thread that leaves the queue and the producers alone. *)
Lemma running_change c0 root sent l l' got p m th ems :
  running_ok c0 root sent l got p -> map shape (spans_of ems) ++ l ≡ₚ l' ->
  (main_ok c0 root sent l got p -> main_ok c0 root sent l' got (mkPipeline (queue p) (producers p) m th (emit p ems) (pushed p))) ->
  running_ok c0 root sent l' got (mkPipeline (queue p) (producers p) m th (emit p ems) (pushed p)).
Proof.
  intros (Hl & Hs & Hg & Hq & Hpu & Hp & Hsh & Hpr & Hm) Hems Hmain. split_and!; try done; [|by apply Hmain].
  rewrite shapes_gatherer, Hsh, <- Hems. solve_Permutation.
Qed.

Lemma running_spawn c0 root sent l got p now dev p' n :
  main_at p = MSpawn n root -> running_ok c0 root sent l got p -> main_step p now dev = Some p' ->
  exists l', running_ok c0 root sent l' got p'.
Proof.
  intros Em Hr H. unfold main_step in H. rewrite Em in H.
  pose proof Hr as (Hl & Hs & Hg & Hq & Hpu & Hp & Hsh & Hpr & Hm). unfold main_ok in Hm. rewrite Em in Hm.
  destruct Hm as (_ & Hn & Hn3 & -> & -> & Hc). destruct (inputs !! n) as [name|] eqn:En.
  - assert (n < 3)%nat as Hn' by by apply lookup_lt_Some in En.
    injection H as <-. exists []. split_and!; cbn [queue producers]; try done.
    + rewrite length_app, Hn, map_app, concat_app, app_assoc, Hp, Hn. cbn [map concat pending fst length app].
      by rewrite Nat2Z.id, Nat.add_1_r, seq_S.
    + rewrite <- Hsh. unfold shapes. cbn [emitted producers]. rewrite map_app, concat_app. cbn [map owed fst concat]. by rewrite !app_nil_r.
    + apply Forall_app_2; [done|]. apply Forall_singleton. unfold producer_ok. cbn [fst snd]. rewrite Nat2Z.id.
      split_and!; try done; try lia. symmetry. by apply nth_lookup_Some.
    + unfold main_ok. cbn [main_at main_tls producers]. rewrite length_app. cbn [length]. split_and!; try done; lia.
  - assert (n = 3)%nat as Hn' by (apply lookup_ge_None in En; cbn in En; lia).
    cbn [ContextGuard_ctor] in H.
    destruct (Span_ctor_live (str "demo.plan.iteration") (fst now) (SetCurrentContext root (main_tls p))) as (i & t1 & Hi & Hc1 & E1); [exact Hl|].
    rewrite E1 in H. cbn [t_current_context SetCurrentContext] in Hc1, H.
    destruct (Span_ctor_live (str "demo.plan.gather_inputs") (snd now) t1) as (j & t2 & Hj & Hc2 & E2);
      [rewrite Hc1; by apply live_child|]. rewrite E2 in H. injection H as <-.
    exists []. rewrite <- (app_nil_r (emitted p)). apply (running_change _ _ _ [] _ _ _ _ _ [] Hr); [done|]. intros _.
    unfold main_ok. cbn [main_at main_tls producers]. rewrite Hc1 in *. split_and!; try done; try lia.
    exists (fst now), (snd now), i, j. by split_and!.
Qed.

Lemma running_gather c0 root sent l got p now dev p' g plan gather :
  main_at p = MGather root g plan gather got -> running_ok c0 root sent l got p -> main_step p now dev = Some p' ->
  exists l' got', running_ok c0 root sent l' got' p'.
Proof.
  intros Em Hr H. unfold main_step in H. rewrite Em in H.
  pose proof Hr as (Hl & Hs & Hg & Hq & Hpu & Hp & Hsh & Hpr & Hm). unfold main_ok in Hm. rewrite Em in Hm.
  destruct Hm as (Hn & _ & -> & _ & Hg3 & -> & b & b' & i & j & Hi & Hj & Hc & -> & ->).
  destruct (Nat.ltb_spec got 3) as [Hlt|Hge].
  - unfold Pop in H. destruct (queue p) as [|e q] eqn:Eq; injection H as <-.
    + exists [], got. split_and!; try done. unfold main_ok. cbn [main_at main_tls producers]. split_and!; try done.
      exists b, b', i, j. by split_and!.
    + symmetry in Hq. apply map_eq_cons in Hq as (s & sent' & Ed & He & Hq).
      assert (sent !! got = Some s) as Hgot by (rewrite <- (Nat.add_0_r got), <- lookup_drop, Ed; done).
      pose proof (lookup_lt_Some _ _ _ Hgot) as Hlen.
      assert (take (S got) sent = take got sent ++ [s]) as Et by by apply take_S_r.
      assert (gather_input e (SpanObj (str "demo.plan.gather_inputs") b' (Ctx (trace root) (SpanI i)) (SpanI i) (map (input_ctx root) (take got sent)))
        = SpanObj (str "demo.plan.gather_inputs") b' (Ctx (trace root) (SpanI i)) (SpanI i) (map (input_ctx root) (take (S got) sent))) as Ega.
      { subst e. unfold gather_input, envelope_of. cbn [env_ctx].
        destruct (live_child root (snd s) Hl (Forall_lookup_1 _ _ _ _ Hs Hgot)) as [Hok Hv].
        change (input_ctx root s) with (Ctx (trace root) (SpanI (snd s))).
        rewrite Extract_Inject, Hv by done. unfold AddLink. cbn [links_]. rewrite Hv, length_map, length_take_le by lia.
        rewrite (proj2 (Nat.ltb_lt _ _)) by (unfold kMaxSpanLinks; lia). cbn [andb name_ begin_ saved_ parent_ links_].
        by rewrite Et, map_app. }
      rewrite Ega. exists [], (S got). split_and!; cbn [queue producers]; try done.
      * rewrite <- Hq. f_equal. replace (S got) with (got + 1)%nat by lia. by rewrite <- drop_drop, Ed.
      * unfold main_ok. cbn [main_at main_tls producers]. split_and!; try done. exists b, b', i, j. by split_and!.
  - assert (got = 3)%nat as -> by lia.
    assert (length sent = 3)%nat as Hlen.
    { apply Permutation_length in Hp. rewrite length_app, length_map, length_seq in Hp. lia. }
    cbn [Span_dtor name_ begin_ saved_ parent_ links_ ended] in H.
    destruct (live_child root i Hl Hi) as [Hok Hv]. unfold Span_ctor_linked in H.
    destruct (Span_ctor_live (str "demo.plan.search") (snd now) (SetCurrentContext (Ctx (trace root) (SpanI i)) (main_tls p)))
      as (k & t' & Hk & Hc' & E); [done|]. rewrite E in H. cbn [t_current_context SetCurrentContext trace] in Hc', H.
    injection H as <-. rewrite Hc, take_ge by lia. eexists [gather_span root i j sent], 3%nat.
    apply (running_change _ _ _ _ _ _ _ _ _ _ Hr); [done|]. intros _.
    unfold main_ok. cbn [main_at main_tls producers]. split_and!; try done.
    exists b, (snd now), i, j, k. split_and!; try done. unfold AddLink. cbn [links_ length]. by rewrite (proj2 Hl).
Qed.

Lemma running_main c0 root sent l got p now dev p' :
  running_ok c0 root sent l got p -> main_step p now dev = Some p' -> exists l' got', running_ok c0 root sent l' got' p'.
Proof.
  intros Hr H. pose proof Hr as (Hl & Hs & Hg & Hq & Hpu & Hp & Hsh & Hpr & Hm). unfold main_ok in Hm.
  destruct (main_at p) as [|n r|r g plan gather k|g plan search| |] eqn:Em; [done|..].
  - destruct Hm as (-> & _ & _ & -> & _). destruct (running_spawn _ _ _ _ _ _ _ _ _ _ Em Hr H) as (l' & H'). by exists l', 0%nat.
  - destruct Hm as (_ & -> & _ & -> & _). by apply (running_gather _ _ _ _ _ _ _ _ _ _ _ _ Em Hr H).
  - destruct Hm as (Hn & -> & -> & b & b' & i & j & k & Hi & Hk & Hc & -> & -> & ->). unfold main_step in H. rewrite Em in H.
    cbn [Span_dtor name_ begin_ saved_ parent_ links_ ended ContextGuard_dtor SetCurrentContext t_current_context] in H.
    unfold CurrentContext in H. rewrite Hc in H. injection H as <-.
    exists [gather_span root i j sent; search_span root i k; plan_span root i], 3%nat.
    apply (running_change _ _ _ _ _ _ _ _ _ _ Hr); [cbn; solve_Permutation|]. intros _.
    unfold main_ok. cbn [main_at main_tls producers]. split_and!; try done. by exists i, j, k.
  - destruct Hm as (Hn & -> & Hc & Hx & _). unfold main_step in H. rewrite Em in H.
    destruct (forallb exited (producers p)) eqn:Ef; [|done]. injection H as <-. exists l, 3%nat.
    apply (running_change _ _ _ _ _ _ _ _ _ _ Hr); [done|]. intros _.
    unfold main_ok. cbn [main_at main_tls producers]. split_and!; try done.
    intros _. apply Forall_forall. intros x Hx'. rewrite forallb_forall in Ef. by apply Ef, list_elem_of_In.
  - unfold main_step in H. by rewrite Em in H.
Qed.

Lemma pipeline_start main now dev p' :
  main_step (pipeline0 main) now dev = Some p' -> exists root, running_ok (t_current_context main) root [] [] 0 p'.
Proof.
  unfold main_step. cbn [pipeline0 main_at main_tls queue producers emit emitted app].
  destruct (NewTrace_live main) as (root & t' & E & Hl & Hc). rewrite E. intros [= <-]. exists root.
  split_and!; try done. unfold main_ok. cbn [main_at main_tls producers]. split_and!; try done; cbn; lia.
Qed.

Lemma pipeline_ok_step c0 p p' : pipeline_ok c0 p -> pipeline_step p p' -> pipeline_ok c0 p'.
Proof.
  intros [(main & -> & Hc)|(root & sent & l & got & Hr)] H; right.
  - inversion H as [q w now q' Hs|q now dev q' Hs]; subst; [by destruct w|]. destruct (pipeline_start _ _ _ _ Hs) as (root & Hr).
    by exists root, [], [], 0%nat.
  - destruct H as [p w now p' H|p now dev p' H].
    + destruct (running_producer _ _ _ _ _ _ _ _ _ Hr H) as (sent' & H'). by exists root, sent', l, got.
    + destruct (running_main _ _ _ _ _ _ _ _ _ Hr H) as (l' & got' & H'). by exists root, sent, l', got'.
Qed.

(** ** Every run ends, but for a [Pop] that finds nothing *)

Definition main_left (m : main_pc) : nat :=
  match m with
  | MStart => 24
  | MSpawn n _ => 11 + 4 * (3 - n)
  | MGather _ _ _ _ got => 7 + (3 - got)
  | MSearch _ _ _ => 2
  | MJoin => 1
  | MDone => 0
  end.

Definition work (w : producer_pc * thread) : nat :=
  match fst w with PStart _ _ _ => 3 | PPush _ _ _ => 2 | PEnd _ _ => 1 | PExited => 0 end.

Definition left_of (p : pipeline) : nat := main_left (main_at p) + sum_list_with work (producers p).

Lemma left_producer p w now p' : producer_step p w now = Some p' -> (left_of p' < left_of p)%nat.
Proof.
  unfold producer_step. destruct (producers p !! w) as [[pc th]|] eqn:Ew; [|done].
  assert (forall y q l h, (work y < work (pc, th))%nat ->
    left_of (mkPipeline q (<[w := y]> (producers p)) (main_at p) (main_tls p) l h) < left_of p)%nat as Hlt.
  { intros y q l h Hy. unfold left_of. cbn [main_at producers].
    pose proof (sum_list_with_insert work (producers p) w _ y Ew). lia. }
  destruct pc as [r k name|k g s|g s|]; [..|done].
  - intros [= <-]. apply Hlt. unfold producer_start. destruct (ContextGuard_ctor r th), (Span_ctor _ _ _). cbn. lia.
  - intros [= <-]. apply Hlt. cbn. lia.
  - destruct (producer_end g s now th). intros [= <-]. apply Hlt. cbn. lia.
Qed.

Lemma left_gatherer p now dev p' :
  main_step p now dev = Some p' -> p' = p \/ (left_of p' < left_of p)%nat.
Proof.
  unfold main_step, left_of. intros H. destruct (main_at p) as [|n r|r g plan gather k|g plan search| |] eqn:Em; cbn [main_left].
  - right. destruct (NewTrace (main_tls p)) as [root th]. injection H as <-. cbn [main_at producers main_left]. lia.
  - right. destruct (inputs !! n) as [name|] eqn:En.
    + apply lookup_lt_Some in En. cbn in En. injection H as <-. cbn [main_at producers main_left].
      rewrite sum_list_with_app. cbn [sum_list_with work fst]. lia.
    + destruct (ContextGuard_ctor _ _) as [c t1]. destruct (Span_ctor _ _ t1) as [plan t2]. destruct (Span_ctor _ _ t2) as [gather t3].
      injection H as <-. cbn [main_at producers main_left]. lia.
  - destruct (Nat.ltb_spec k 3).
    + destruct (queue p) as [|e q] eqn:Eq; cbn [Pop] in H; injection H as <-; [left|right; cbn [main_at producers main_left]; lia].
      destruct p; cbn in *. by subst.
    + right. destruct (Span_dtor _ _ _ _) as [s t1]. destruct (Span_ctor_linked _ _ _ _) as [s' t2]. injection H as <-.
      cbn [main_at producers main_left]. lia.
  - right. destruct (Span_dtor _ _ _ _) as [s t1]. destruct (Span_dtor _ _ _ _) as [s' t2]. injection H as <-.
    cbn [main_at producers main_left]. lia.
  - right. destruct (forallb _ _); [|done]. injection H as <-. cbn [main_at producers main_left]. lia.
  - done.
Qed.

(** A producer that has not exited can move. *)
Lemma producer_moves p : Forall (fun w => exited w = true) (producers p) \/ exists w p', producer_step p w 0 = Some p'.
Proof.
  destruct (decide (Forall (fun w => exited w = true) (producers p))) as [H|H]; [by left|right].
  apply not_Forall_Exists, Exists_exists in H; [|intros x; apply _]. destruct H as ([pc th] & (w & Ew)%list_elem_of_lookup & Hx).
  exists w. unfold producer_step. rewrite Ew. destruct pc as [r k name|k g s|g s|]; [eauto..|by destruct Hx].
Qed.

Lemma pending_exited ws : Forall (fun w => exited w = true) ws -> concat (map pending ws) = [] /\ concat (map owed ws) = [].
Proof. induction 1 as [|[[] th] ws Hx _ [H1 H2]]; cbn in *; try done. Qed.

(** Until the program ends some step makes progress. *)
Lemma pipeline_progress c0 p :
  pipeline_ok c0 p -> main_at p = MDone \/ exists p', pipeline_step p p' /\ (left_of p' < left_of p)%nat.
Proof.
  intros Hok.
  assert ((exists now dev p', main_step p now dev = Some p' /\ p' <> p) -> exists p', pipeline_step p p' /\ (left_of p' < left_of p)%nat) as Hmain.
  { intros (now & dev & p' & H & Hne). exists p'. split; [by apply (step_main p now dev)|]. by destruct (left_gatherer _ _ _ _ H). }
  destruct (producer_moves p) as [Hall|(w & p' & H)];
    [|right; exists p'; split; [by apply (step_producer p w 0)|by eapply left_producer]].
  destruct Hok as [(main & -> & _)|(root & sent & l & got & Hl & Hs & Hg & Hq & Hpu & Hp & Hsh & Hpr & Hm)].
  - right. apply Hmain. exists (0, 0), (0, 0). unfold main_step. cbn [pipeline0 main_at main_tls].
    destruct (NewTrace main) as [r t']. eexists. split; [done|]. by intros [=].
  - destruct (pending_exited _ Hall) as [Hpe _]. rewrite Hpe, app_nil_r in Hp.
    apply Permutation_length in Hp. rewrite length_map, length_seq in Hp.
    unfold main_ok in Hm. destruct (main_at p) as [|n r|r g plan gather k|g plan search| |] eqn:Em; [done|right..|by left];
      apply Hmain; exists (0, 0), (0, 0); unfold main_step; rewrite Em.
    + destruct (inputs !! n).
      * eexists. split; [done|]. intros E. apply (f_equal main_at) in E. rewrite Em in E. injection E. lia.
      * destruct (ContextGuard_ctor _ _) as [c t1]. destruct (Span_ctor _ _ t1) as [s2 t2]. destruct (Span_ctor _ _ t2) as [s3 t3].
        eexists. split; [done|]. intros E. apply (f_equal main_at) in E. by rewrite Em in E.
    + destruct Hm as (Hn & _ & _ & -> & Hg3 & _). destruct (Nat.ltb_spec got 3).
      * destruct (queue p) as [|e q] eqn:Eq.
        { apply (f_equal length) in Hq. rewrite length_map, length_drop in Hq. cbn in Hq. lia. }
        cbn [Pop]. eexists. split; [done|]. intros E. apply (f_equal main_at) in E. rewrite Em in E. injection E. lia.
      * destruct (Span_dtor _ _ _ _) as [s t1]. destruct (Span_ctor_linked _ _ _ _) as [s' t2].
        eexists. split; [done|]. intros E. apply (f_equal main_at) in E. by rewrite Em in E.
    + destruct (Span_dtor _ _ _ _) as [s t1]. destruct (Span_dtor _ _ _ _) as [s' t2].
      eexists. split; [done|]. intros E. apply (f_equal main_at) in E. by rewrite Em in E.
    + destruct (forallb exited (producers p)) eqn:Ef.
      * eexists. split; [done|]. intros E. apply (f_equal main_at) in E. by rewrite Em in E.
      * apply not_true_iff_false in Ef. destruct Ef. apply forallb_forall. intros x Hx%list_elem_of_In.
        rewrite Forall_forall in Hall. by apply Hall.
Qed.

(** C19: The trace pipeline: however the threads interleave and whatever their
    generators draw, every step either finds the queue empty and changes nothing or
    makes progress, of which there is a bounded amount and always some left until
    the program ends.  When it ends, the three inputs have been pushed, each once,
    each envelope being the context of its producer's span, and all were taken; the
    main thread's context is back, every producer's too; and the spans are, up to
    the order in which threads end them, one per input under the minted root, the
    gathering span linked to the contexts of the inputs in the order in which they
    were pushed, the search linked to the root, both children of the plan, and the
    plan under the root: all on one trace. *)
Theorem pipeline_one_trace (main : thread) (p : pipeline) :
  rtc pipeline_step (pipeline0 main) p ->
  (forall p', pipeline_step p p' -> p' = p \/ (left_of p' < left_of p)%nat) /\
  (main_at p = MDone \/ exists p', pipeline_step p p' /\ (left_of p' < left_of p)%nat) /\
  (main_at p = MDone ->
     queue p = [] /\ t_current_context (main_tls p) = t_current_context main /\
     Forall (fun w => t_current_context (snd w) = no_context) (producers p) /\
     exists root sent i j k, live root /\ map fst sent ≡ₚ [0; 1; 2]%nat /\
       pushed p = map (fun s => MkEnvelope (Inject (input_ctx root s)) (Z.of_nat (fst s))) sent /\
       map (fun e => Extract (Some (env_ctx e))) (pushed p) = r_links (gather_span root i j sent) /\
       map shape (spans_of (emitted p)) ≡ₚ
         map (input_span root) sent ++ [gather_span root i j sent; search_span root i k; plan_span root i]).
Proof.
  intros Hr.
  assert (forall a b, pipeline_ok (t_current_context main) a -> rtc pipeline_step a b -> pipeline_ok (t_current_context main) b) as Hsteps.
  { intros a b Ha Hab. induction Hab; eauto using pipeline_ok_step. }
  pose proof (Hsteps _ _ (or_introl (ex_intro _ main (conj eq_refl eq_refl))) Hr) as Hok. clear Hsteps Hr.
  split; [|split; [by apply (pipeline_progress _ _ Hok)|]].
  { intros p' [q w now q' H|q now dev q' H]; [right; by eapply left_producer|by eapply left_gatherer]. }
  intros Em. destruct Hok as [(m & -> & _)|(root & sent & l & got & Hl & Hs & Hg & Hq & Hpu & Hp & Hsh & Hpr & Hm)]; [done|].
  unfold main_ok in Hm. rewrite Em in Hm. destruct Hm as (Hn & -> & Hc & (i & j & k & ->) & Hx). specialize (Hx eq_refl).
  destruct (pending_exited _ Hx) as [Hpe Ho]. rewrite Hpe, app_nil_r, Hn in Hp.
  pose proof (Permutation_length Hp) as Hlen. rewrite length_map, length_seq in Hlen.
  split_and!; [by rewrite Hq, drop_ge by lia|done| |].
  - apply Forall_forall. intros [pc th] Hw. rewrite Forall_forall in Hpr, Hx. specialize (Hpr _ Hw). specialize (Hx _ Hw).
    destruct pc; try done; by destruct Hx.
  - exists root, sent, i, j, k. split_and!; [done|exact Hp|exact Hpu| |].
    + rewrite Hpu, map_map. cbn [gather_span r_links]. apply map_ext_in. intros s Hin.
      rewrite List.Forall_forall in Hs. specialize (Hs s Hin). cbn [envelope_of env_ctx].
      apply Extract_Inject. by apply (live_child root (snd s) Hl).
    + rewrite <- Hsh. unfold shapes. by rewrite Ho, app_nil_r.
Qed.

(** A program whose main thread has a context of its own. *)
Lemma pipeline_one_trace_witness :
  let p0 := pipeline0 (Thread (Ctx (Trace 7 8) (SpanI 9)) (Some 3) (1, 2)) in
  exists p', pipeline_step p0 p' /\ (left_of p' < left_of p0)%nat.
Proof.
  intros p0. destruct (pipeline_one_trace (Thread (Ctx (Trace 7 8) (SpanI 9)) (Some 3) (1, 2)) p0 (rtc_refl _ _)) as (_ & [H|H] & _);
    [discriminate H|exact H].
Defined.
