(* ===== verification/ControlLoop.v ===== *)
(** * A control loop with its instruments (examples/instrumented_control_loop_example.cpp)

    The 200 cycles of a saturated first-order controller, over any binding: its
    arithmetic in binary64, one operation at a time; the handles it updates; the
    deadline it keeps and the health it reports.  The set-point's sine is a parameter
    and the clock is an input. *)

From Stdlib Require Import ZArith Lia String Floats.SpecFloat.
From stdpp Require Import base list numbers.
From S2P Require Import Prelude Context Printf ArgPack Format Unbound ConsoleFormat Console Dispatch Metrics Stats Report Handles.
From S2P Require Import DeviceHealth CustomBinding Serialization Traces.

Local Open Scope Z_scope.

(** ** Numbers *)

(** The doubles nearest to 0.05, 0.01. *)
Definition five_hundredths : Metrics.double := S754_finite false 7205759403792794 (-57).
Definition one_hundredth : Metrics.double := S754_finite false 5764607523034235 (-59).
Definition dsub : Metrics.double -> Metrics.double -> Metrics.double := SFsub 53 1024.
Definition dabs : Metrics.double -> Metrics.double := SFabs.

(** A signed 64-bit result; [None] is its overflow. *)
Definition i64 (z : Z) : option Z := if bool_decide (- 2 ^ 63 <= z < 2 ^ 63) then Some z else None.

(** ** The controller *)

Record ControlState := MkControlState { setpoint : Metrics.double; measured : Metrics.double; command : Metrics.double }.

(** Its 24 bytes. *)
Definition sample_bytes (s : ControlState) : bytes :=
  le_bytes 8 (double_bits (setpoint s)) ++ le_bytes 8 (double_bits (measured s)) ++ le_bytes 8 (double_bits (command s)).

Record Controller := mkController {
  src_ : EventSource;
  jitter_us_ : slot;
  deadline_miss_ : slot;
  temp_c_ : slot;
  state_ch_ : slot;
  plant_ : Metrics.double;
  command_ : Metrics.double;
  health_ : HealthState
}.

(** What the clock shows in one cycle: when the span begins, at the warning and at
    the sample if they are stamped, at [now], when the span ends, and at the health
    report if one follows. *)
Record cycle := mkCycle { c_begin : Z; c_warn : Z; c_sample : Z; c_now : Z; c_end : Z; c_health : Z }.

(** The law: the next plant state, the command before the clamp. *)
Definition plant_next (plant cmd : Metrics.double) : Metrics.double := dadd plant (dmul two_tenths (dsub cmd plant)).
Definition command_next (sp meas : Metrics.double) : Metrics.double := dmul (double_of 2) (dsub sp meas).

(** [duration<double, micro>]. *)
Definition micros (ns : Z) : Metrics.double := ddiv (double_of ns) (double_of 1000).

Definition period : Z := 10 * 1000000.

Section Program.
Context {W : Type} (bd : option (Binding W)).
Variable type_name : bytes.

Definition Controller_ctor (a : application W) : Controller * application W :=
  let '(src, w) := GetEventSource bd (str "demo.motor") (front a) in
  let '(jitter, w) := GetHistogram bd (str "demo.ctrl.jitter_us") w in
  let '(miss, w) := GetCounter bd (str "demo.ctrl.deadline_miss") w in
  let '(temp, w) := GetGauge bd (str "demo.motor.temp_c") w in
  let '(ch, w) := GetChannel bd (str "demo.ctrl.state") 24 8 type_name w in
  (mkController src jitter miss temp ch (S754_zero false) (S754_zero false) kOk, with_front a w).

Definition clamp_warning (k : cycle) (src : EventSource) (sp : Metrics.double) (a : application W) : option (application W) :=
  on_front a (XM_LOG 0 bd (Some src) kWarn (str "saturated: cmd clamped to {} (sp={:.2f})")
    [AFloat (double_bits (double_of 1)); AFloat (double_bits sp)] (CurrentContext (tls a)) (c_warn k) (front a)).

(** After the law: the signal, the gauge, the deadline, the histogram.  [None] is the
    overflow of the difference, or a record with no bucket. *)
Definition instruments (k : cycle) (sp : Metrics.double) (deadline : Z) (meas cmd : Metrics.double) (d : Controller) (a : application W)
  : option (application W) :=
  let a := with_front a (Publish bd (state_ch_ d) (sample_bytes (MkControlState sp meas cmd)) (c_sample k) (front a)) in
  let a := Gauge_Set (temp_c_ d) (dadd (double_of 35) (dmul one_hundredth (dabs cmd))) a in
  match (if deadline <? c_now k then Counter_Add (deadline_miss_ d) (double_of 1) a else Some a) with
  | None => None
  | Some a =>
      match i64 (c_now k - deadline) with
      | None => None
      | Some late => Histogram_Record (jitter_us_ d) (dabs (micros late)) a
      end
  end.

Definition Step (k : cycle) (sp : Metrics.double) (deadline : Z) (d : Controller) (a : application W) : option (Controller * application W) :=
  let '(span, t) := Span_ctor (str "demo.ctrl.cycle") (c_begin k) (tls a) in
  let a := with_tls t a in
  let meas := plant_next (plant_ d) (command_ d) in
  let cmd := command_next sp meas in
  let saturated := dlt (double_of 1) cmd in
  let cmd := if saturated then double_of 1 else cmd in
  match (if saturated then clamp_warning k (src_ d) sp a else Some a) with
  | None => None
  | Some a =>
      match instruments k sp deadline meas cmd d a with
      | None => None
      | Some a =>
          Some (mkController (src_ d) (jitter_us_ d) (deadline_miss_ d) (temp_c_ d) (state_ch_ d) meas cmd (health_ d),
                close_span bd span (c_end k) a)
      end
  end.

Definition Supervise (k : cycle) (sensor_fresh : bool) (d : Controller) (a : application W) : option (Controller * application W) :=
  let next := if sensor_fresh then kOk else kDegraded in
  if decide (next = health_ d) then Some (d, a) else
  let d := mkController (src_ d) (jitter_us_ d) (deadline_miss_ d) (temp_c_ d) (state_ch_ d) (plant_ d) (command_ d) next in
  option_map (pair d)
    (on_front a (ReportHealth bd (Some (str "demo.motor")) next
      (Some (if sensor_fresh then str "recovered" else str "sensor stale")) (CurrentContext (tls a)) (c_health k) (front a))).

(** ** The program *)

Variable sin : Metrics.double -> Metrics.double.
Variable clk : Z -> cycle.

Definition setpoint_at (i : Z) : Metrics.double := sin (dmul five_hundredths (double_of i)).

(** The loop of [main]: [n] more cycles from [i]. *)
Fixpoint cycles (n : nat) (i next : Z) (d : Controller) (a : application W) : option (Controller * application W) :=
  match n with
  | O => Some (d, a)
  | S n =>
      match Step (clk i) (setpoint_at i) next d a with
      | None => None
      | Some (d, a) =>
          match (if i =? 60 then Supervise (clk i) false d a else Some (d, a)) with
          | None => None
          | Some (d, a) =>
              match (if i =? 90 then Supervise (clk i) true d a else Some (d, a)) with
              | None => None
              | Some (d, a) => match i64 (next + period) with Some next => cycles n (i + 1) next d a | None => None end
              end
          end
      end
  end.

(** [start] is what the clock shows before the loop; the other times are the two
    events'. *)
Definition main (start hello bye : Z) (a : application W) : option (Controller * application W) :=
  let a := with_front a (SetResource bd (str "robot.id") (str "demo-bot") (front a)) in
  match on_front a (XM_LOG 0 bd None kInfo (str "instrumented control loop demo: 200 cycles at 100 Hz") [] (CurrentContext (tls a)) hello (front a)) with
  | None => None
  | Some a =>
      let '(ctrl, a) := Controller_ctor a in
      match i64 (start + period) with
      | None => None
      | Some next =>
          match cycles 200 0 next ctrl a with
          | None => None
          | Some (ctrl, a) =>
              option_map (pair ctrl)
                (on_front a (XM_LOG 0 bd None kInfo (str "done " ++ [226; 128; 148] ++ str " with the xmTelemetry SDK bound, the same run would have "
                  ++ str "recorded 200 spans + 200 signal samples and exported the metrics") [] (CurrentContext (tls a)) bye (front a)))
          end
      end
  end.

(** ** Specification *)

(** The plant and the command before cycle [i], and the cycle's sample. *)
Fixpoint law (n : nat) : Metrics.double * Metrics.double :=
  match n with
  | O => (S754_zero false, S754_zero false)
  | S n =>
      let '(plant, cmd) := law n in
      let meas := plant_next plant cmd in
      let cmd := command_next (setpoint_at (Z.of_nat n)) meas in
      (meas, if dlt (double_of 1) cmd then double_of 1 else cmd)
  end.

(** Cycle [n] clamps its command; it ends after its deadline. *)
Definition clamps (n : nat) : bool :=
  dlt (double_of 1) (command_next (setpoint_at (Z.of_nat n)) (plant_next (fst (law n)) (snd (law n)))).
Definition deadline_of (start : Z) (n : nat) : Z := start + period * (Z.of_nat n + 1).
Definition misses (start : Z) (n : nat) : bool := deadline_of start n <? c_now (clk (Z.of_nat n)).
Definition lateness (start : Z) (n : nat) : Z := c_now (clk (Z.of_nat n)) - deadline_of start n.

(** No time overflows, and the jitters are doubles that are not infinite, as the
    quotients of 64-bit integers by 1000 are. *)
Definition cycle_ok (start : Z) (n : nat) : Prop :=
  - 2 ^ 63 <= lateness start n < 2 ^ 63 /\
  dvalid (dabs (micros (lateness start n))) = true /\ dabs (micros (lateness start n)) <> S754_infinity false.
End Program.

(** The clamp works: whatever the sine, no command is above one. *)
Lemma command_clamped sin n : dlt (double_of 1) (snd (law sin n)) = false.
Proof.
  destruct n as [|n]; [reflexivity|]. cbn [law]. destruct (law sin n) as [plant cmd]. cbn [snd].
  destruct (dlt (double_of 1) (command_next _ _)) eqn:E; [reflexivity|exact E].
Qed.

(** ** At the console *)

Section OnConsole.
Variable io : Z -> platform * list write_result.
Hypothesis io_works : forall ts, working (snd (io ts)).
Variables (type_name : bytes) (sin : Metrics.double -> Metrics.double) (clk : Z -> cycle) (start : Z).
Notation bd := (Some (console_binding io)).

Lemma health_console sub state detail ctx now a st other :
  console_app st other a -> ShouldLogImpl st kInfo = true ->
  exists a', on_front a (ReportHealth bd sub state detail ctx now (front a)) = Some a' /\
    console_app (wrote st (event_line (fst (io now)) None (health_severity state) (HealthMessage sub state detail))) other a' /\
    memory a' = memory a /\ tls a' = tls a.
Proof.
  intros [Hf Hm] Hl.
  assert (ShouldLogImpl st (health_severity state) = true) as Hx by (apply admits_above; [done|by destruct state..]).
  cbn [ReportHealth console_binding report_health]. rewrite Hf. cbn [backend]. unfold ReportHealthImpl. rewrite Hx. cbn [negb].
  rewrite EmitLine_spec by apply io_works. change (LookupSource st 0) with (@None bytes).
  cbn [lift on_front option_map]. eexists. by split.
Qed.

(** What the instruments show to a controller. *)
Definition misses_shown (d : Controller) (a : application console) : Metrics.double := counter_value a (deadline_miss_ d).
Definition temp_shown (d : Controller) (a : application console) : Metrics.double := gauge_value a (temp_c_ d).
Definition jitter_shown (d : Controller) (a : application console) : HistogramSlot := histogram_cell (memory a) (jitter_us_ d).

Definition temp_of (cmd : Metrics.double) : Metrics.double := dadd (double_of 35) (dmul one_hundredth (dabs cmd)).

Lemma instruments_console k sp deadline meas cmd d a st other vs :
  console_app st other a -> - 2 ^ 63 <= c_now k - deadline < 2 ^ 63 ->
  let jitter := dabs (micros (c_now k - deadline)) in
  dvalid jitter = true -> jitter <> S754_infinity false -> tallied vs (jitter_shown d a) ->
  exists a', instruments bd k sp deadline meas cmd d a = Some a' /\
    console_app st other a' /\ tls a' = tls a /\
    misses_shown d a' = (if deadline <? c_now k then dadd (misses_shown d a) (double_of 1) else misses_shown d a) /\
    temp_shown d a' = temp_of cmd /\ tallied (vs ++ [jitter]) (jitter_shown d a').
Proof.
  intros [Hf Hm] Hlate jitter Hv Hinf Ht. destruct (HistogramBucketOf_spec jitter Hv Hinf) as (b & Eb & Hb & _).
  unfold instruments. set (a1 := with_front a _). set (a2 := Gauge_Set _ _ a1).
  assert (front a2 = mkWorld st other) as Hf2 by (cbn [a2 a1 Gauge_Set with_front front Publish console_binding emit_signal EmitSignalImpl]; by rewrite Hf).
  assert (gauge_value a2 (temp_c_ d) = temp_of cmd) as Hg.
  { unfold gauge_value, a2, Gauge_Set. cbn [memory gauge_cell]. unfold update. rewrite decide_True by done. apply newest_snoc. }
  assert (exists a3, (if deadline <? c_now k then Counter_Add (deadline_miss_ d) (double_of 1) a2 else Some a2) = Some a3 /\
    front a3 = mkWorld st other /\ tls a3 = tls a /\ slots_ok (memory a3) /\ gauge_value a3 (temp_c_ d) = temp_of cmd /\
    histogram_cell (memory a3) = histogram_cell (memory a) /\
    misses_shown d a3 = (if deadline <? c_now k then dadd (misses_shown d a) (double_of 1) else misses_shown d a))
    as (a3 & -> & Hf3 & Ht3 & Hm3 & Hg3 & Hh3 & Hc3).
  { destruct (deadline <? c_now k); [|by exists a2].
    destruct (Counter_Add_spec (deadline_miss_ d) (double_of 1) a2 Hm) as (a3 & E & Ef & Et & Ho & Eg & Eh & Hc).
    exists a3. rewrite Ef, Et. split_and!; try done; [by unfold gauge_value; rewrite Eg|].
    unfold misses_shown. by rewrite Hc, decide_True. }
  unfold i64. rewrite bool_decide_true by done.
  destruct (Histogram_Record_spec (jitter_us_ d) jitter b a3 Hm3 Eb Hb) as (a4 & E4 & Ef4 & Et4 & Ho4 & Ec4 & Eg4 & Hr4).
  fold jitter. exists a4. rewrite E4, Et4. split_and!; try done.
  - split; [by rewrite Ef4|done].
  - unfold misses_shown, counter_value in *. by rewrite Ec4.
  - unfold temp_shown, gauge_value in *. by rewrite Eg4.
  - unfold jitter_shown in *. rewrite Hh3 in Hr4. by apply (tallied_snoc _ _ b (histogram_cell (memory a) (jitter_us_ d))).
Qed.

(** The line of a clamped command. *)
Definition clamp_line (k : cycle) (sp : Metrics.double) : bytes :=
  event_line (fst (io (c_warn k))) (Some (str "demo.motor")) kWarn
    (event_says (str "saturated: cmd clamped to {} (sp={:.2f})") [AFloat (double_bits (double_of 1)); AFloat (double_bits sp)]).

Lemma Step_console n d a st other vs :
  console_app st other a -> ShouldLogImpl st kInfo = true ->
  LookupSource st (id_ (src_ d)) = Some (str "demo.motor") -> (plant_ d, command_ d) = law sin n -> cycle_ok clk start n ->
  tallied vs (jitter_shown d a) ->
  let k := clk (Z.of_nat n) in
  exists a', let d' := mkController (src_ d) (jitter_us_ d) (deadline_miss_ d) (temp_c_ d) (state_ch_ d) (fst (law sin (S n))) (snd (law sin (S n))) (health_ d) in
    Step bd k (setpoint_at sin (Z.of_nat n)) (deadline_of start n) d a = Some (d', a') /\
    console_app (wrote st (if clamps sin n then clamp_line k (setpoint_at sin (Z.of_nat n)) else [])) other a' /\
    t_current_context (tls a') = t_current_context (tls a) /\
    misses_shown d' a' = (if misses clk start n then dadd (misses_shown d a) (double_of 1) else misses_shown d a) /\
    temp_shown d' a' = temp_of (snd (law sin (S n))) /\
    tallied (vs ++ [dabs (micros (lateness clk start n))]) (jitter_shown d' a').
Proof.
  intros Ha Hl Hsrc Hlaw (Hlate & Hv & Hinf) Ht k. unfold Step, clamps. cbn [law]. rewrite <- Hlaw. cbn [fst snd].
  set (sp := setpoint_at sin (Z.of_nat n)). set (meas := plant_next (plant_ d) (command_ d)).
  destruct (Span_ctor (str "demo.ctrl.cycle") (c_begin k) (tls a)) as [span t] eqn:Es.
  assert (saved_ span = t_current_context (tls a)) as Hsaved.
  { unfold Span_ctor in Es. destruct (Begin _ _). by injection Es as <- _. }
  set (a1 := with_tls t a). assert (console_app st other a1) as Ha1 by exact Ha.
  set (sat := dlt (double_of 1) (command_next sp meas)). set (cmd := if sat then double_of 1 else command_next sp meas).
  assert (exists a2, (if sat then clamp_warning bd k (src_ d) sp a1 else Some a1) = Some a2 /\
    console_app (wrote st (if sat then clamp_line k sp else [])) other a2 /\ memory a2 = memory a) as (a2 & -> & Ha2 & Hm2).
  { destruct sat; [|exists a1; by rewrite wrote_nil].
    destruct (log_console io io_works (Some (src_ d)) kWarn (str "saturated: cmd clamped to {} (sp={:.2f})")
      [AFloat (double_bits (double_of 1)); AFloat (double_bits sp)] (CurrentContext (tls a1)) (c_warn k) a1 st other Ha1)
      as (a2 & E2 & Ha2 & Hm2 & _); [by apply admits_above|repeat constructor; apply double_bits_width|].
    exists a2. split; [exact E2|]. rewrite Hsrc in Ha2. by split. }
  destruct (instruments_console k sp (deadline_of start n) meas cmd d a2 _ other vs Ha2 Hlate Hv Hinf)
    as (a3 & -> & Ha3 & _ & Hc3 & Hg3 & Ht3); [by unfold jitter_shown; rewrite Hm2|].
  eexists. split; [done|]. unfold close_span. cbn [Span_dtor]. split_and!; cbn [tls SetCurrentContext t_current_context memory front].
  - destruct Ha3 as [Hf3 Ho3]. split; [|exact Ho3]. cbn [console_binding emit_span EmitSpanImpl front]. by rewrite Hf3.
  - exact Hsaved.
  - unfold misses_shown, counter_value in *. rewrite Hm2 in Hc3. exact Hc3.
  - exact Hg3.
  - exact Ht3.
Qed.

(** The controller's health before cycle [n], and the lines a cycle writes. *)
Definition health_at (n : nat) : HealthState := if (60 <? n)%nat && (n <=? 90)%nat then kDegraded else kOk.

Definition health_line (k : cycle) (fresh : bool) : bytes :=
  let state := if fresh then kOk else kDegraded in
  event_line (fst (io (c_health k))) None (health_severity state)
    (HealthMessage (Some (str "demo.motor")) state (Some (if fresh then str "recovered" else str "sensor stale"))).

Definition cycle_text (n : nat) : bytes :=
  let k := clk (Z.of_nat n) in
  (if clamps sin n then clamp_line k (setpoint_at sin (Z.of_nat n)) else []) ++
  (if (n =? 60)%nat then health_line k false else []) ++ (if (n =? 90)%nat then health_line k true else []).

Lemma Supervise_console k (fresh : bool) d a st other :
  console_app st other a -> ShouldLogImpl st kInfo = true -> (if fresh then kOk else kDegraded) <> health_ d ->
  exists a', Supervise bd k fresh d a =
      Some (mkController (src_ d) (jitter_us_ d) (deadline_miss_ d) (temp_c_ d) (state_ch_ d) (plant_ d) (command_ d) (if fresh then kOk else kDegraded), a') /\
    console_app (wrote st (health_line k fresh)) other a' /\ memory a' = memory a /\ tls a' = tls a.
Proof.
  intros Ha Hl Hne. unfold Supervise. rewrite decide_False by done.
  destruct (health_console (Some (str "demo.motor")) (if fresh then kOk else kDegraded)
    (Some (if fresh then str "recovered" else str "sensor stale")) (CurrentContext (tls a)) (c_health k) a st other Ha Hl)
    as (a' & -> & Ha' & Hm & Ht). by exists a'.
Qed.

(** The two calls of the supervisor in the loop of [main]. *)
Lemma supervised_console m d a st other :
  console_app st other a -> ShouldLogImpl st kInfo = true -> health_ d = health_at m ->
  let k := clk (Z.of_nat m) in
  exists a', let d' := mkController (src_ d) (jitter_us_ d) (deadline_miss_ d) (temp_c_ d) (state_ch_ d) (plant_ d) (command_ d) (health_at (S m)) in
    (match (if Z.of_nat m =? 60 then Supervise bd k false d a else Some (d, a)) with
     | None => None
     | Some (d, a) => if Z.of_nat m =? 90 then Supervise bd k true d a else Some (d, a)
     end) = Some (d', a') /\
    console_app (wrote st ((if (m =? 60)%nat then health_line k false else []) ++ (if (m =? 90)%nat then health_line k true else []))) other a' /\
    memory a' = memory a /\ tls a' = tls a.
Proof.
  intros Ha Hl Hh k. destruct (Nat.eqb_spec m 60) as [->|H60]; [|destruct (Nat.eqb_spec m 90) as [->|H90]].
  - destruct (Supervise_console k false d a st other Ha Hl) as (a' & E & H); [by rewrite Hh|].
    exists a'. change (Z.of_nat 60 =? 60) with true. change (Z.of_nat 60 =? 90) with false. cbn iota. rewrite E, app_nil_r. by split.
  - destruct (Supervise_console k true d a st other Ha Hl) as (a' & E & H); [by rewrite Hh|].
    exists a'. change (Z.of_nat 90 =? 60) with false. change (Z.of_nat 90 =? 90) with true. cbn iota. rewrite E. by split.
  - exists a. rewrite !(proj2 (Z.eqb_neq _ _)) by lia. cbn [app]. rewrite wrote_nil. split_and!; try done.
    do 2 f_equal. assert (health_at (S m) = health_at m) as ->; [|by rewrite <- Hh; destruct d].
    unfold health_at. replace (60 <? S m)%nat with (60 <? m)%nat; [replace (S m <=? 90)%nat with (m <=? 90)%nat; [done|]|];
      apply eq_true_iff_eq; rewrite ?Nat.leb_le, ?Nat.ltb_lt; lia.
Qed.

Definition jitters (m n : nat) : list Metrics.double := map (fun i => dabs (micros (lateness clk start i))) (seq m n).

Definition misses_in (m n : nat) : nat := length (List.filter (misses clk start) (seq m n)).

Lemma cycles_console n m d a st other vs :
  - 2 ^ 63 <= start -> start + period * (Z.of_nat (m + n) + 1) < 2 ^ 63 ->
  (forall i, (i < m + n)%nat -> cycle_ok clk start i) ->
  console_app st other a -> ShouldLogImpl st kInfo = true ->
  LookupSource st (id_ (src_ d)) = Some (str "demo.motor") ->
  (plant_ d, command_ d) = law sin m -> health_ d = health_at m -> tallied vs (jitter_shown d a) ->
  exists d' a', cycles bd sin clk n (Z.of_nat m) (deadline_of start m) d a = Some (d', a') /\
    console_app (wrote st (concat (map cycle_text (seq m n)))) other a' /\
    t_current_context (tls a') = t_current_context (tls a) /\
    (src_ d' = src_ d /\ health_ d' = health_at (m + n) /\ (plant_ d', command_ d') = law sin (m + n)) /\
    misses_shown d' a' = Nat.iter (misses_in m n) (fun v => dadd v (double_of 1)) (misses_shown d a) /\
    (0 < n -> temp_shown d' a' = temp_of (snd (law sin (m + n))))%nat /\
    tallied (vs ++ jitters m n) (jitter_shown d' a').
Proof.
  intros Hst. revert m d a st vs. induction n as [|n IH]; intros m d a st vs Hend Hok Ha Hl Hsrc Hlaw Hh Ht.
  { exists d, a. cbn [cycles seq map concat jitters misses_in]. rewrite Nat.add_0_r, wrote_nil. unfold jitters. cbn [seq map].
    rewrite app_nil_r. split_and!; try done. lia. }
  cbn [cycles].
  destruct (Step_console m d a st other vs Ha Hl Hsrc Hlaw (Hok m ltac:(lia)) Ht) as (a1 & E1 & Ha1 & Hc1 & Hm1 & Hg1 & Ht1).
  rewrite E1. set (d1 := mkController _ _ _ _ _ _ _ (health_ d)) in *.
  destruct (supervised_console m d1 a1 _ other Ha1 Hl Hh) as (a2 & E2 & Ha2 & Hm2 & Ht2).
  match type of E2 with match ?x with _ => _ end = _ => destruct x as [[dx ax]|]; [|done] end. rewrite E2. clear E2.
  set (d2 := mkController _ _ _ _ _ _ _ (health_at (S m))) in *.
  unfold i64. rewrite bool_decide_true by (unfold deadline_of, period in *; lia).
  replace (deadline_of start m + period) with (deadline_of start (S m)) by (unfold deadline_of, period; lia).
  replace (Z.of_nat m + 1) with (Z.of_nat (S m)) by lia. rewrite wrote_app in Ha2.
  assert (misses_shown d2 a2 = misses_shown d1 a1 /\ temp_shown d2 a2 = temp_shown d1 a1 /\ jitter_shown d2 a2 = jitter_shown d1 a1)
    as (Em2 & Eg2 & Ej2) by (unfold misses_shown, temp_shown, jitter_shown, counter_value, gauge_value; by rewrite Hm2).
  destruct (IH (S m) d2 a2 _ (vs ++ [dabs (micros (lateness clk start m))]) ltac:(lia) ltac:(intros; apply Hok; lia) Ha2 Hl Hsrc)
    as (d' & a' & E' & Ha' & Hc' & (Hs' & Hh' & Hl') & Hm' & Hg' & Ht'); [by cbn [d2 d1 plant_ command_]; destruct (law sin (S m))|done|by rewrite Ej2|].
  exists d', a'. rewrite E'. replace (m + S n)%nat with (S m + n)%nat by lia. split_and!; try done.
  - cbn [seq map concat]. rewrite wrote_app in Ha'. unfold cycle_text at 1. exact Ha'.
  - by rewrite Hc', Ht2.
  - rewrite Hm', Em2, Hm1. unfold misses_in. cbn [seq List.filter]. destruct (misses clk start m); [|done].
    cbn [length]. by rewrite Nat.iter_succ_r.
  - intros _. destruct n as [|n]; [|by apply Hg'; lia]. rewrite Nat.add_0_r. cbn [cycles] in E'. injection E' as <- <-.
    by rewrite Eg2.
  - rewrite <- app_assoc in Ht'. exact Ht'.
Qed.
End OnConsole.

(** ** The program *)

(** Up to 200 misses are counted exactly. *)
Lemma count_exact n :
  (n <= 200)%nat -> Nat.iter n (fun v => dadd v (double_of 1)) (S754_zero false) = double_of (Z.of_nat n).
Proof.
  intros Hn.
  assert (forallb (fun n => bool_decide (Nat.iter n (fun v => dadd v (double_of 1)) (S754_zero false) = double_of (Z.of_nat n))) (seq 0 201) = true) as H
    by (vm_compute; reflexivity).
  rewrite forallb_forall in H. specialize (H n ltac:(apply in_seq; lia)). by apply bool_decide_eq_true in H.
Qed.

Lemma misses_in_le clk start m n : (misses_in clk start m n <= n)%nat.
Proof. unfold misses_in. rewrite <- (length_seq n m) at 2. apply List.filter_length_le. Qed.

Lemma controller_on_console io type_name st other (a : application console) :
  NoDup (sources st) -> Z.of_nat (length (sources st)) + 1 < 2 ^ 32 -> console_app st other a ->
  let '(d, a1) := Controller_ctor (Some (console_binding io)) type_name a in
  exists st1, console_app st1 other a1 /\ memory a1 = memory a /\ tls a1 = tls a /\ g_level st1 = g_level st /\ stderr st1 = stderr st /\
    LookupSource st1 (id_ (src_ d)) = Some (str "demo.motor") /\
    deadline_miss_ d = BackendSlot 0 /\ temp_c_ d = BackendSlot 1 /\ jitter_us_ d = BackendSlot 2 /\
    plant_ d = S754_zero false /\ command_ d = S754_zero false /\ health_ d = kOk.
Proof.
  intros Hnd Hlen [Hf Hm]. unfold Controller_ctor. rewrite Hf. cbn [GetEventSource console_binding intern_source backend].
  pose proof (registry_facts st (str "demo.motor") Hnd Hlen) as Hr.
  destruct (InternSourceImpl (str "demo.motor") st) as [i st1]. destruct Hr as (Hl & El & Es).
  cbn [GetGauge GetCounter GetHistogram GetChannel console_binding get_gauge get_counter get_histogram get_signal with_backend backend fallback].
  exists st1. by split_and!.
Qed.

(** The texts of the first and the last line. *)
Definition hello_text : bytes := str "instrumented control loop demo: 200 cycles at 100 Hz".
Definition bye_text : bytes :=
  str "done " ++ [226; 128; 148] ++ str " with the xmTelemetry SDK bound, the same run would have " ++
  str "recorded 200 spans + 200 signal samples and exported the metrics".

(** C30: The control loop at the console: whatever the sine, the clock and the
    context it is called in, the program runs its 200 cycles and stderr gets exactly
    its first line, for each cycle in order the warning if the command was clamped
    and, after cycles 60 and 90, the health lines degraded and recovered, and the
    last line.  The command is never above one; the counter shows the number of
    cycles that ended after their deadline, the gauge the last temperature, the
    histogram the 200 jitters; the caller's trace context is back. *)
Theorem control_loop_at_console io (st : console) (other type_name : bytes) (sin : Metrics.double -> Metrics.double)
    (clk : Z -> cycle) (start hello bye : Z) (a : application console) :
  (forall ts, working (snd (io ts))) ->
  NoDup (sources st) -> Z.of_nat (length (sources st)) + 1 < 2 ^ 32 -> ShouldLogImpl st kInfo = true ->
  front a = mkWorld st other -> memory a = slots0 ->
  - 2 ^ 63 <= start -> start + period * 201 < 2 ^ 63 -> (forall i, (i < 200)%nat -> cycle_ok clk start i) ->
  exists d a', main (Some (console_binding io)) type_name sin clk start hello bye a = Some (d, a') /\
    stderr (backend (front a')) =
      stderr st ++ info_line io hello hello_text ++ concat (map (cycle_text io sin clk) (seq 0 200)) ++ info_line io bye bye_text /\
    fallback (front a') = other /\ t_current_context (tls a') = t_current_context (tls a) /\
    (forall n, dlt (double_of 1) (snd (law sin n)) = false) /\ command_ d = snd (law sin 200) /\ health_ d = kOk /\
    misses_shown d a' = double_of (Z.of_nat (misses_in clk start 0 200)) /\
    temp_shown d a' = temp_of (snd (law sin 200)) /\
    tallied (jitters clk start 0 200) (jitter_shown d a').
Proof.
  intros Hio Hnd Hlen Hl Hf Hm Hs1 Hs2 Hok.
  assert (console_app st other a) as Ha by (split; [done|]; rewrite Hm; apply slots0_ok).
  unfold main. set (a0 := with_front a _).
  assert (console_app st other a0) as Ha0 by (split; [cbn [a0 with_front front SetResource console_binding set_resource SetResourceImpl]; by rewrite Hf|apply Ha]).
  destruct (log_console io Hio None kInfo hello_text [] (CurrentContext (tls a0)) hello a0 st other Ha0 Hl (List.Forall_nil _))
    as (a1 & E1 & Ha1 & Hm1 & Ht1). fold hello_text. rewrite E1.
  pose proof (controller_on_console io type_name (wrote st _) other a1 Hnd Hlen Ha1) as Hc.
  destruct (Controller_ctor _ type_name a1) as [d a2].
  destruct Hc as (st2 & Ha2 & Hm2 & Ht2 & El & Es & Hsrc & Hmiss & Htemp & Hjit & Hp & Hcmd & Hh).
  unfold i64. rewrite bool_decide_true by (unfold period in *; lia).
  replace (start + period) with (deadline_of start 0) by (unfold deadline_of, period; lia).
  assert (tallied [] (jitter_shown d a2)) as Hj
    by (unfold jitter_shown; rewrite Hm2, Hm1; cbn [a0 with_front memory]; rewrite Hm; apply tallied_ctor).
  assert (ShouldLogImpl st2 kInfo = true) as Hl2 by (unfold ShouldLogImpl; rewrite El; exact Hl).
  assert (start + period * (Z.of_nat (0 + 200) + 1) < 2 ^ 63) as Hs3 by (unfold period in *; lia).
  assert ((plant_ d, command_ d) = law sin 0) as Hlaw by (rewrite Hp, Hcmd; exact eq_refl).
  destruct (cycles_console io Hio sin clk start 200 0 d a2 st2 other [] Hs1 Hs3 Hok Ha2 Hl2 Hsrc Hlaw Hh Hj)
    as (d' & a3 & E3 & Ha3 & Hc3 & (Hsrc3 & Hh3 & Hl3) & Hm3 & Hg3 & Ht3).
  change (Z.of_nat 0) with 0 in E3. rewrite E3.
  set (body := concat (map (cycle_text io sin clk) (seq 0 200))) in *. clearbody body.
  set (J := jitters clk start 0 200) in *. clearbody J.
  pose proof (command_clamped sin) as Hclamp.
  change (0 + 200)%nat with 200%nat in *. set (L := law sin 200) in *. clearbody L.
  pose proof (misses_in_le clk start 0 200) as Hcount. set (M := misses_in clk start 0 200) in *. clearbody M.
  pose proof (level_wrote st2 body kInfo) as Hl3'. rewrite Hl2 in Hl3'.
  destruct (log_console io Hio None kInfo bye_text [] (CurrentContext (tls a3)) bye a3 _ other Ha3 Hl3' (List.Forall_nil _))
    as (a4 & E4 & Ha4 & Hm4 & Ht4).
  fold bye_text. rewrite E4. cbn [option_map]. exists d', a4.
  assert (misses_shown d' a4 = misses_shown d' a3 /\ temp_shown d' a4 = temp_shown d' a3 /\ jitter_shown d' a4 = jitter_shown d' a3)
    as (-> & -> & ->) by (unfold misses_shown, temp_shown, jitter_shown, counter_value, gauge_value; by rewrite Hm4).
  rewrite Ht4. destruct Ha4 as [-> _].
  split; [reflexivity|]. split; [|split; [reflexivity|split; [by rewrite Hc3, Ht2, Ht1|split; [exact Hclamp|split; [by rewrite <- Hl3|split; [exact Hh3|split]]]]]].
  - cbn [backend wrote stderr] in *. rewrite Es, <- !app_assoc. do 3 f_equal.
  - rewrite Hm3. unfold misses_shown, counter_value. rewrite Hm2, Hm1. cbn [a0 with_front memory]. rewrite Hm.
    by apply count_exact.
  - split; [apply Hg3; lia|exact Ht3].
Qed.

(** A clock whose cycles end 3 ms before their deadline, but for every tenth, which
    ends 1 ms after it; a set-point that is always 3/2. *)
Definition demo_clk (i : Z) : cycle :=
  let now := 5000000000 + period * (i + 1) + (if i mod 10 =? 9 then 1000000 else -3000000) in
  mkCycle (now - 2000000) (now - 1000) (now - 500) now (now + 100) (now + 200).

Definition demo_sin (_ : Metrics.double) : Metrics.double := S754_finite false (3 * 2 ^ 51) (-52).

Lemma demo_cycles_ok i : (i < 200)%nat -> cycle_ok demo_clk 5000000000 i.
Proof.
  intros Hi.
  assert (forallb (fun i => (lateness demo_clk 5000000000 i =? 1000000) || (lateness demo_clk 5000000000 i =? -3000000)) (seq 0 200) = true) as H
    by (vm_compute; reflexivity).
  rewrite forallb_forall in H. specialize (H i ltac:(apply in_seq; lia)). apply orb_true_iff in H. unfold cycle_ok.
  destruct H as [H|H]; apply Z.eqb_eq in H; rewrite H; (split; [lia|]); vm_compute; done.
Qed.

Lemma control_loop_at_console_witness :
  let io := fun _ => (demo_platform, [Wrote 767%nat]) in
  let a := mkApp (mkWorld (mkConsole 2 [] []) []) slots0 (Thread (Ctx (Trace 7 8) (SpanI 9)) (Some 3) (1, 2)) in
  exists d a', main (Some (console_binding io)) (str "t") demo_sin demo_clk 5000000000 1 2 a = Some (d, a') /\
    t_current_context (tls a') = Ctx (Trace 7 8) (SpanI 9) /\ misses_shown d a' = double_of 20.
Proof.
  intros io a.
  destruct (control_loop_at_console io (mkConsole 2 [] []) [] (str "t") demo_sin demo_clk 5000000000 1 2 a)
    as (d & a' & E & _ & _ & Hc & _ & _ & _ & Hm & _).
  - intros ts. split; [intros [H|[]]; discriminate|cbn; lia].
  - constructor.
  - cbn; lia.
  - reflexivity.
  - reflexivity.
  - reflexivity.
  - lia.
  - unfold period. lia.
  - exact demo_cycles_ok.
  - exists d, a'. split; [exact E|]. split; [exact Hc|]. rewrite Hm. vm_compute. reflexivity.
Defined.
