(* ===== verification/LoggingTour.v ===== *)
(** * The logging tour (examples/xm_logging_example.cpp)

    The program at the console binding, for any $XM_LOG_LEVEL and any compile-time
    floor: its sequence of macros and level changes, and then its four worker
    threads as a configuration of ConsoleThreads. *)

From Stdlib Require Import ZArith Lia String.
From stdpp Require Import base list numbers relations.
From S2P Require Import Prelude Context Printf ArgPack Format Unbound ConsoleFormat Console Dispatch ConsoleThreads.

Local Open Scope Z_scope.

(** ** The program *)

Section Program.
Variable floor : Z.                                    (* XM_TELEMETRY_LEVEL *)

(** [main] up to the threads; [ts] is what the clock shows at its events, [ctx] the
    main thread's context. *)
Definition tour {S} (bd : option (Binding S)) (ctx : Context) (ts : nat -> Z) (w : world S) : option (world S) :=
  let rpm := 3200 in
  let current := 0x4013000000000000 in                 (* 4.75 *)
  w ← XM_LOG floor bd None kInfo (str "motor spun up: {} RPM at {:.2f} A") [ASigned rpm; AFloat current] ctx (ts 0%nat) w;
  w ← XM_LOG floor bd None kWarn (str "temperature {} C approaching limit") [ASigned 71] ctx (ts 1%nat) w;
  w ← XM_LOG floor bd None kError (str "encoder {} dropped {} ticks") [ASigned 2; ASigned 14] ctx (ts 2%nat) w;
  w ← XM_STREAM floor bd None kDebug (str "debug detail: phase=A count=42") ctx (ts 3%nat) w;
  w ← XM_LOG floor bd None kInfo (str "current level = {}") [ASigned (severity_u8 (GetLogLevel bd w))] ctx (ts 4%nat) w;
  let w := SetLogLevel bd kWarn w in
  w ← XM_LOG floor bd None kInfo (str "this INFO is now suppressed (level raised to WARN)") [] ctx (ts 5%nat) w;
  w ← XM_LOG floor bd None kWarn (str "this WARN still shows") [] ctx (ts 6%nat) w;
  let w := SetLogLevel bd kInfo w in
  XM_LOG floor bd None kTrace (str "trace sites compile out when XM_TELEMETRY_LEVEL > 0") [] ctx (ts 7%nat) w.

(** The calls of worker [id]: a site below the floor is compiled out. *)
Definition worker_tick (id i : Z) : call := Log None kInfo (str "worker {} tick {}") [ASigned id; ASigned i].
Definition worker (id : Z) : list call := if compiled_in floor kInfo then map (worker_tick id) [0; 1; 2] else [].

Definition workers : list (list call) := map worker [0; 1; 2; 3].

(** ** Specification *)

(** What the tour writes when the environment asked for level [L]. *)
Definition shown (L sev : Severity) : bool := compiled_in floor sev && admits (severity_u8 L) sev.

Definition tour_text (io : Z -> platform * list write_result) (ts : nat -> Z) (L : Severity) : bytes :=
  let line k sev msg := event_line (fst (io (ts k))) None sev msg in
  (if shown L kInfo then line 0%nat kInfo (str "motor spun up: 3200 RPM at 4.75 A") else []) ++
  (if shown L kWarn then line 1%nat kWarn (str "temperature 71 C approaching limit") else []) ++
  (if shown L kError then line 2%nat kError (str "encoder 2 dropped 14 ticks") else []) ++
  (if shown L kDebug then line 3%nat kDebug (str "debug detail: phase=A count=42") else []) ++
  (if shown L kInfo then line 4%nat kInfo (str "current level = " ++ [48 + severity_u8 L]) else []) ++
  (if compiled_in floor kWarn then line 6%nat kWarn (str "this WARN still shows") else []).
End Program.

(** write(2) takes every line whole. *)
Definition taken (e : env) : Prop := match written e with Wrote n => (767 <= n)%nat | _ => False end.

(** The lines of worker [id], written when the platform stood at [pls]. *)
Definition worker_text (id i : Z) : bytes := str "worker " ++ [48 + id] ++ str " tick " ++ [48 + i].
Definition worker_line (id : Z) (pl : platform) (i : Z) : bytes := event_line pl None kInfo (worker_text id i).

(** ** The tour *)

Lemma admits_level st L sev : g_level st = severity_u8 L -> ShouldLogImpl st sev = admits (severity_u8 L) sev.
Proof. unfold ShouldLogImpl, admits. by intros ->. Qed.

(** A text of the console and the level it was written under. *)
Definition reached (lv : Severity) (text : bytes) : console := mkConsole (severity_u8 lv) [] text.

Lemma wrote_reached lv t1 t2 : wrote (reached lv t1) t2 = reached lv (t1 ++ t2).
Proof. reflexivity. Qed.

Lemma shown_reached floor lv t sev : compiled_in floor sev && ShouldLogImpl (reached lv t) sev = shown floor lv sev.
Proof. reflexivity. Qed.

Lemma set_reached io lv l t other :
  SetLogLevel (Some (console_binding io)) l (mkWorld (reached lv t) other) = mkWorld (reached l t) other.
Proof. reflexivity. Qed.

Lemma get_reached io lv t other : GetLogLevel (Some (console_binding io)) (mkWorld (reached lv t) other) = lv.
Proof. apply severity_of_u8. Qed.

(** What the texts of the tour say. *)
Lemma says_motor :
  event_says (str "motor spun up: {} RPM at {:.2f} A") [ASigned 3200; AFloat 0x4013000000000000] = str "motor spun up: 3200 RPM at 4.75 A".
Proof. vm_compute. reflexivity. Qed.
Lemma says_temperature : event_says (str "temperature {} C approaching limit") [ASigned 71] = str "temperature 71 C approaching limit".
Proof. vm_compute. reflexivity. Qed.
Lemma says_encoder : event_says (str "encoder {} dropped {} ticks") [ASigned 2; ASigned 14] = str "encoder 2 dropped 14 ticks".
Proof. vm_compute. reflexivity. Qed.
Lemma says_detail : take 511 (str "debug detail: phase=A count=42") = str "debug detail: phase=A count=42".
Proof. vm_compute. reflexivity. Qed.
Lemma says_level L : event_says (str "current level = {}") [ASigned (severity_u8 L)] = str "current level = " ++ [48 + severity_u8 L].
Proof. destruct L; vm_compute; reflexivity. Qed.
Lemma says_warn : event_says (str "this WARN still shows") [] = str "this WARN still shows".
Proof. vm_compute. reflexivity. Qed.

Lemma tour_console floor io ctx ts L other :
  (forall t, working (snd (io t))) ->
  tour floor (Some (console_binding io)) ctx ts (mkWorld (reached L []) other) =
  Some (mkWorld (reached kInfo (tour_text floor io ts L)) other).
Proof.
  intros Hio. unfold tour, tour_text.
  rewrite log_then, shown_reached, wrote_reached by (apply Hio || (repeat constructor; vm_compute; intuition discriminate)).
  rewrite log_then, shown_reached, wrote_reached by (apply Hio || (repeat constructor; vm_compute; intuition discriminate)).
  rewrite log_then, shown_reached, wrote_reached by (apply Hio || (repeat constructor; vm_compute; intuition discriminate)).
  rewrite stream_then, shown_reached, wrote_reached by apply Hio.
  rewrite get_reached.
  rewrite log_then, shown_reached, wrote_reached by (apply Hio || (repeat constructor; destruct L; vm_compute; intuition discriminate)).
  rewrite set_reached, log_then, shown_reached, wrote_reached by (apply Hio || constructor).
  rewrite log_then, shown_reached, wrote_reached by (apply Hio || constructor).
  rewrite set_reached, XM_LOG_console, shown_reached, wrote_reached by (apply Hio || constructor).
  do 3 f_equal. unfold shown. change (admits (severity_u8 kWarn) kInfo) with false. change (admits (severity_u8 kWarn) kWarn) with true.
  change (admits (severity_u8 kInfo) kTrace) with false. rewrite !andb_false_r, andb_true_r, !app_nil_r, <- !app_assoc. cbn [app].
  by rewrite says_motor, says_temperature, says_encoder, says_detail, says_level, says_warn.
Qed.

(** ** The workers *)

(** A thread's history of admitted events that no failed write cut. *)
Lemma admitted_lines Lv st h :
  history_ok Lv st h -> Forall (fun x => forall w, snd x <> Cut w) h ->
  (forall c, c ∈ map fst h -> exists sev fmt args, c = Log None sev fmt args /\ forall lv, Lv lv -> admits lv sev = true) ->
  exists pls, length pls = length h /\
    lines h = zip_with (fun pl c => event_line pl None (call_severity c) (says c)) pls (map fst h).
Proof.
  induction 1 as [|h c o Hh IH Ho]; intros Hcut Hall; [by exists []|].
  apply Forall_app in Hcut as [Hcut Hc]. apply Forall_cons_1 in Hc as [Hc _]. cbn [snd] in Hc.
  destruct IH as (pls & Hlen & E); [done|intros c' Hc'; apply Hall; rewrite map_app; by apply elem_of_app; left|].
  destruct (Hall c) as (sev & fmt & args & -> & Hadm); [rewrite map_app; apply elem_of_app; right; by left|].
  unfold outcome_ok in Ho. destruct o as [id| | |l|w]; [|by destruct Ho| | |by destruct (Hc w)].
  - by destruct Ho as (name & [=] & _).
  - destruct Ho as [_ (lv & Hlv & Hr)]. cbn [call_severity] in Hr. rewrite Hadm in Hr by done. done.
  - destruct Ho as (_ & _ & pl & ->). exists (pls ++ [pl]). rewrite !length_app, Hlen. split; [done|].
    rewrite map_app, zip_with_app by (by rewrite length_map). unfold lines in *. rewrite omap_app, E. done.
Qed.

Lemma says_tick id i : (id = 0 \/ id = 1 \/ id = 2 \/ id = 3) -> (i = 0 \/ i = 1 \/ i = 2) -> says (worker_tick id i) = worker_text id i.
Proof. intros [-> | [-> | [-> | ->]]] [-> | [-> | ->]]; vm_compute; reflexivity. Qed.

Lemma worker_calls floor id c : c ∈ worker floor id -> exists i, c = worker_tick id i /\ (i = 0 \/ i = 1 \/ i = 2).
Proof.
  unfold worker. destruct (compiled_in floor kInfo); [|by intros ?%not_elem_of_nil].
  intros (i & -> & Hi)%list_elem_of_fmap. exists i. split; [done|]. set_solver.
Qed.

Lemma workers_runnable floor t : runnable (reached kInfo t) (workers floor).
Proof.
  split_and!; [constructor|unfold workers, worker; by destruct (compiled_in floor kInfo)|].
  apply Forall_forall. intros p (id & -> & Hid)%list_elem_of_fmap. apply Forall_forall.
  intros c (i & -> & Hi)%worker_calls. cbn. repeat constructor; cbn; unfold in_width; set_solver by lia.
Qed.

Lemma workers_level floor t lv : possible_level (reached kInfo t) (workers floor) lv -> lv = severity_u8 kInfo.
Proof.
  intros [->|(prog & l & Hp & Hl & _)]; [done|]. exfalso.
  apply list_elem_of_fmap in Hp as (id & -> & _). by apply worker_calls in Hl as (i & [=] & _).
Qed.

(** A worker that has finished has written its lines. *)
Lemma worker_wrote floor t st h id :
  id = 0 \/ id = 1 \/ id = 2 \/ id = 3 ->
  history_ok (possible_level (reached kInfo t) (workers floor)) st h -> Forall (fun x => forall w, snd x <> Cut w) h ->
  map fst h = worker floor id ->
  exists pls, length pls = length (worker floor id) /\ lines h = zip_with (worker_line id) pls [0; 1; 2].
Proof.
  intros Hid Hh Hcut Eh. destruct (admitted_lines _ st h Hh Hcut) as (pls & Hlen & E).
  { rewrite Eh. intros c (i & -> & _)%worker_calls. do 3 eexists. split; [done|]. by intros lv ->%workers_level. }
  exists pls. rewrite <- Eh, length_map. split; [done|]. rewrite E, Eh. rewrite <- (length_map fst), Eh in Hlen. revert Hlen.
  unfold worker. destruct (compiled_in floor kInfo); [|by destruct pls].
  cbn [map length]. destruct pls as [|p1 [|p2 [|p3 [|]]]]; try done. intros _. cbn [zip_with map].
  unfold worker_line. by rewrite <- !says_tick by tauto.
Qed.

Lemma uncut_steps c c' : rtc (tstep taken) c c' -> Forall uncut (snd c) -> Forall uncut (snd c').
Proof.
  induction 1 as [|c1 c2 c3 H12 _ IH]; [done|]. intros Hu. apply IH. destruct H12 as [s ts t th e s' th' Ht He Hs]. cbn [snd] in *.
  apply Forall_insert; [done|]. apply (step_uncut e t s th s' th'); [unfold taken in He; by destruct (written e)|by eapply Forall_lookup_1|done].
Qed.

(** C31: The logging tour: for any value of $XM_LOG_LEVEL and any compile-time floor
    the sequential part prints exactly the sites that are compiled in and admitted by
    the level in force, the level it announces is the one the environment set, and it
    leaves the level at Info.  Then the four threads: from every configuration they
    can reach they can finish, and however they interleaved, when they have finished
    stderr has grown by whole lines, each thread's three ticks in its order, or
    nothing at all if Info is below the floor. *)
Theorem logging_tour (floor : Z) (env : option bytes) (io : Z -> platform * list write_result) (ctx : Context) (ts : nat -> Z) (other : bytes) :
  (forall t, working (snd (io t))) ->
  exists st, tour floor (Some (console_binding io)) ctx ts (mkWorld (DefaultConsoleBinding env) other) = Some (mkWorld st other) /\
    stderr st = tour_text floor io ts (LevelFromEnv env kInfo) /\ GetLevelImpl st = kInfo /\
    (forall c, rtc (tstep taken) (start st (workers floor)) c ->
       exists c', rtc (tstep taken) c c' /\ Forall (fun th => finished th = true) (snd c')) /\
    (forall s ths, rtc (tstep taken) (start st (workers floor)) (s, ths) -> Forall (fun th => finished th = true) ths ->
       exists ls, stderr (binding s) = stderr st ++ concat (map snd ls) /\ Forall (fun x => (fst x < 4)%nat) ls /\
         forall k, (k < 4)%nat -> exists pls, length pls = (if compiled_in floor kInfo then 3 else 0)%nat /\
           select k ls = zip_with (worker_line (Z.of_nat k)) pls [0; 1; 2]).
Proof.
  intros Hio. set (L := LevelFromEnv env kInfo). exists (reached kInfo (tour_text floor io ts L)).
  split; [by apply tour_console|]. split; [done|]. split; [done|].
  set (t := tour_text floor io ts L). clearbody t. clear L.
  pose proof (workers_runnable floor t) as Hr. pose proof (proj1 (proj2 Hr)) as HB. pose proof (start_ok _ _ Hr) as H0.
  assert (forall e, taken e -> whole_lines e) as Htw by (intros e; unfold taken, whole_lines; by destruct (written e)).
  split.
  - intros c Hc. pose proof (config_ok_steps _ _ HB _ _ _ H0 Hc) as Hok.
    destruct (run_to_end _ _ (mkEnv demo_platform (Wrote 767) 0) c HB (le_n 767) Hok) as (c' & Hc' & Hf).
    exists c'. split; [|done]. eapply tsteps_weaken; [|exact Hc']. intros e ->. exact (le_n 767).
  - intros s ths Hst Hf.
    destruct (stderr_steps _ _ HB _ _ _ _ H0 (start_stderr _ _) (tsteps_weaken _ _ _ _ Htw Hst)) as (ls & Hout & Hlt & Hsel).
    pose proof (config_ok_steps _ _ HB _ _ _ H0 Hst) as (_ & _ & _ & Hok).
    pose proof (steps_program _ _ _ Hst) as Hprog. rewrite start_program in Hprog.
    assert (Forall uncut ths) as Hcut by (apply (uncut_steps _ _ Hst); cbn [start snd]; apply Forall_map, Forall_true; constructor).
    cbn [fst snd] in *. assert (length ths = 4%nat) as Hlen by (rewrite <- (length_map program), Hprog; done).
    rewrite Hlen in Hlt. exists ls. split; [exact Hout|]. split; [exact Hlt|].
    intros k Hk. destruct (lookup_lt_is_Some_2 ths k ltac:(lia)) as [th Hth].
    assert (program th = worker floor (Z.of_nat k)) as Hp.
    { assert (map program ths !! k = Some (worker floor (Z.of_nat k))) as Hm by (rewrite Hprog; by destruct k as [|[|[|[|]]]]; [..|lia]).
      rewrite list_lookup_fmap, Hth in Hm. by injection Hm. }
    unfold program in Hp. pose proof (Forall_lookup_1 _ _ _ _ Hf Hth) as Hfin. unfold finished in Hfin.
    destruct (todo th) eqn:Et; [|done]. rewrite app_nil_r in Hp.
    destruct (worker_wrote floor t (binding s) (past th) (Z.of_nat k)) as (pls & Hl & E).
    + lia.
    + apply (Hok k th Hth).
    + apply (Forall_lookup_1 _ _ _ _ Hcut Hth).
    + exact Hp.
    + exists pls. rewrite (proj2 (Hsel k th Hth)), E. split; [|done]. rewrite Hl. unfold worker. by destruct (compiled_in floor kInfo).
Qed.

Lemma logging_tour_witness :
  exists st, tour 0 (Some (console_binding (fun _ => (demo_platform, [Wrote 767%nat])))) no_context (fun _ => 0)
      (mkWorld (DefaultConsoleBinding (Some (str "4"))) []) = Some (mkWorld st []) /\
    stderr st =
      str "[error] [1700000000.000000042] [robot]: encoder 2 dropped 14 ticks" ++ [10] ++
      str "[warning] [1700000000.000000042] [robot]: this WARN still shows" ++ [10].
Proof.
  destruct (logging_tour 0 (Some (str "4")) (fun _ => (demo_platform, [Wrote 767%nat])) no_context (fun _ => 0) [])
    as (st & E & Hs & _).
  - intros t. split; [intros [H|[]]; discriminate|cbn; lia].
  - exists st. split; [exact E|]. rewrite Hs. vm_compute. reflexivity.
Defined.
