(* ===== verification/Types.v ===== *)
(** * The type vocabulary (include/xmbase/types)

    Plain vectors, time, stamped values, the geometry records and the tagged
    quantities.  Eigen is not in the repository: its types and operations are the
    class [Eigen], and what is relied on about them the class [EigenLaws]. *)

From Stdlib Require Import ZArith Lia Floats.SpecFloat.
From stdpp Require Import base list numbers.
From S2P Require Import Prelude Metrics Stats.

Local Open Scope Z_scope.

(** ** Scalars, plain vectors *)

(** [EnumBaseType]: 32 bits. *)
Definition enum_base (z : Z) : Z := u32 z.

Record vector3_t (T : Type) := mkVector3 { x3 : T; y3 : T; z3 : T }.
Record vector4_t (T : Type) := mkVector4 { x4 : T; y4 : T; z4 : T; w4 : T }.
Arguments mkVector3 {T}.
Arguments mkVector4 {T}.

(** The default member initializers, [T{}] being [zero]. *)
Definition vector3_default {T} (zero : T) : vector3_t T := mkVector3 zero zero zero.
Definition vector4_default {T} (zero : T) : vector4_t T := mkVector4 zero zero zero zero.

(** ** Time: nanoseconds of the monotonic clock *)

Definition Timestamp : Type := Z.
Definition Duration : Type := Z.

(** [Now] on a clock that counts [1/period] of a second: [time_point_cast] truncates
    towards zero. *)
Definition Now (ticks period : Z) : Timestamp := Z.quot (ticks * 1000000000) period.

(** [duration_cast<microseconds>]. *)
Definition microseconds (d : Duration) : Z := Z.quot d 1000.

(** On the supported hosts the steady clock counts nanoseconds, which the cast
    keeps. *)
Lemma Now_nanoseconds ticks : Now ticks 1000000000 = ticks.
Proof. unfold Now. by rewrite Z.quot_mul by lia. Qed.

(** ** Stamped values *)

Record Stamped (T : Type) := mkStamped { stamp : Timestamp; stamped_value : T }.
Arguments mkStamped {T}.
Arguments stamp {T}.
Arguments stamped_value {T}.

Definition Stamped_default {T} (zero : T) : Stamped T := mkStamped 0 zero.
Definition StampNow {T} (now : Timestamp) (v : T) : Stamped T := mkStamped now v.

(** ** Eigen *)

Class Eigen := {
  Vector : Type;
  Quaternion : Type;
  vec3 : Metrics.double -> Metrics.double -> Metrics.double -> Vector;
  vx : Vector -> Metrics.double;
  vy : Vector -> Metrics.double;
  vz : Vector -> Metrics.double;
  vzero : Vector;
  vunit_z : Vector;
  vadd : Vector -> Vector -> Vector;
  vsub : Vector -> Vector -> Vector;
  vneg : Vector -> Vector;
  vscale : Vector -> Metrics.double -> Vector;
  vdiv : Vector -> Metrics.double -> Vector;
  veqb : Vector -> Vector -> bool;
  vnorm : Vector -> Metrics.double;
  vdot : Vector -> Vector -> Metrics.double;
  qidentity : Quaternion;
  qangle_axis : Metrics.double -> Vector -> Quaternion;
  qw : Quaternion -> Metrics.double
}.

(** Coordinates of what is built, of zero, of a sum; equality by coordinates. *)
Class EigenLaws (E : Eigen) := {
  coords_vec3 : forall a b c, vx (vec3 a b c) = a /\ vy (vec3 a b c) = b /\ vz (vec3 a b c) = c;
  coords_zero : vx vzero = S754_zero false /\ vy vzero = S754_zero false /\ vz vzero = S754_zero false;
  coords_add : forall u v, vx (vadd u v) = dadd (vx u) (vx v) /\ vy (vadd u v) = dadd (vy u) (vy v) /\ vz (vadd u v) = dadd (vz u) (vz v);
  veqb_coords : forall u v, veqb u v = SFeqb (vx u) (vx v) && SFeqb (vy u) (vy v) && SFeqb (vz u) (vz v)
}.

Section Geometry.
Context {E : Eigen}.

(** ** Geometry: records that start at zero and identity *)

Record Twist := mkTwist { linear : Vector; angular : Vector }.
Record Wrench := mkWrench { force : Vector; torque : Vector }.
Record Pose := mkPose { position : Vector; orientation : Quaternion }.
Record Euler := mkEuler { roll : spec_float; pitch : spec_float; yaw : spec_float }.     (* float *)
Record Odometry := mkOdometry { child_frame_id : bytes; pose : Pose; twist : Twist; frame_id : bytes; odom_stamp : Timestamp }.

Definition Twist_default : Twist := mkTwist vzero vzero.
Definition Wrench_default : Wrench := mkWrench vzero vzero.
Definition Pose_default : Pose := mkPose vzero qidentity.
Definition Euler_default : Euler := mkEuler (S754_zero false) (S754_zero false) (S754_zero false).
Definition Odometry_default : Odometry := mkOdometry [] Pose_default Twist_default [] 0.

(** ** Tagged quantities

    The tag is a parameter of the type, so that no operation mixes two of them. *)

Inductive quantity_tag := TLinearVelocity | TAngularVelocity | TLinearAcceleration | TForce | TTorque.

Record Vec3 (Tag : quantity_tag) := MkVec3 { v_ : Vector }.
Arguments MkVec3 {Tag}.
Arguments v_ {Tag}.

Section Tagged.
Context {Tag : quantity_tag}.
Implicit Types (a b : Vec3 Tag) (s : Metrics.double).

Definition Vec3_default : Vec3 Tag := MkVec3 vzero.
Definition Vec3_xyz x y z : Vec3 Tag := MkVec3 (vec3 x y z).
Definition Vec3_vec a : Vector := v_ a.
Definition Vec3_set_vec (u : Vector) a : Vec3 Tag := MkVec3 u.
Definition Vec3_x a : Metrics.double := vx (v_ a).
Definition Vec3_y a : Metrics.double := vy (v_ a).
Definition Vec3_z a : Metrics.double := vz (v_ a).
Definition Vec3_norm a : Metrics.double := vnorm (v_ a).
Definition Vec3_add a b : Vec3 Tag := MkVec3 (vadd (v_ a) (v_ b)).
Definition Vec3_sub a b : Vec3 Tag := MkVec3 (vsub (v_ a) (v_ b)).
Definition Vec3_neg a : Vec3 Tag := MkVec3 (vneg (v_ a)).
Definition Vec3_mul a s : Vec3 Tag := MkVec3 (vscale (v_ a) s).
Definition Vec3_div a s : Vec3 Tag := MkVec3 (vdiv (v_ a) s).
Definition Vec3_add_assign a b : Vec3 Tag := MkVec3 (vadd (v_ a) (v_ b)).
Definition Vec3_sub_assign a b : Vec3 Tag := MkVec3 (vsub (v_ a) (v_ b)).
Definition Vec3_eq a b : bool := veqb (v_ a) (v_ b).
Definition Vec3_neq a b : bool := negb (veqb (v_ a) (v_ b)).
Definition Vec3_Zero : Vec3 Tag := MkVec3 vzero.
Definition scalar_mul s a : Vec3 Tag := Vec3_mul a s.
End Tagged.

(** A default quantity is zero and equal to zero; equality is that of the
    coordinates, so that a NaN is equal to nothing, itself included. *)
Theorem quantity_equality {L : EigenLaws E} {Tag} (a b : Vec3 Tag) :
  Vec3_eq (@Vec3_default Tag) Vec3_Zero = true /\
  Vec3_neq a b = negb (Vec3_eq a b) /\
  (Vec3_eq a b = true <-> SFeqb (Vec3_x a) (Vec3_x b) = true /\ SFeqb (Vec3_y a) (Vec3_y b) = true /\ SFeqb (Vec3_z a) (Vec3_z b) = true) /\
  (Vec3_x a = S754_nan -> Vec3_eq a a = false).
Proof.
  unfold Vec3_eq, Vec3_x, Vec3_y, Vec3_z. split_and!.
  - unfold Vec3_default, Vec3_Zero. cbn [v_]. rewrite veqb_coords. destruct coords_zero as (-> & -> & ->). done.
  - done.
  - rewrite veqb_coords, !andb_true_iff. tauto.
  - intros H. by rewrite veqb_coords, H.
Qed.
End Geometry.
Arguments MkVec3 {E Tag}.
Arguments v_ {E Tag}.

(** ** A concrete instance, to evaluate programs on

    Coordinates as triples; of a quaternion only its real part. *)
Definition triples (cos_half : Metrics.double -> Metrics.double) : Eigen := {|
  Vector := vector3_t Metrics.double;
  Quaternion := Metrics.double;
  vec3 := mkVector3;
  vx := x3 _; vy := y3 _; vz := z3 _;
  vzero := vector3_default (S754_zero false);
  vunit_z := mkVector3 (S754_zero false) (S754_zero false) (double_of 1);
  vadd := fun u v => mkVector3 (dadd (x3 _ u) (x3 _ v)) (dadd (y3 _ u) (y3 _ v)) (dadd (z3 _ u) (z3 _ v));
  vsub := fun u v => let d := SFsub 53 1024 in mkVector3 (d (x3 _ u) (x3 _ v)) (d (y3 _ u) (y3 _ v)) (d (z3 _ u) (z3 _ v));
  vneg := fun u => mkVector3 (SFopp (x3 _ u)) (SFopp (y3 _ u)) (SFopp (z3 _ u));
  vscale := fun u s => mkVector3 (dmul (x3 _ u) s) (dmul (y3 _ u) s) (dmul (z3 _ u) s);
  vdiv := fun u s => mkVector3 (ddiv (x3 _ u) s) (ddiv (y3 _ u) s) (ddiv (z3 _ u) s);
  veqb := fun u v => SFeqb (x3 _ u) (x3 _ v) && SFeqb (y3 _ u) (y3 _ v) && SFeqb (z3 _ u) (z3 _ v);
  vnorm := fun u => SFsqrt 53 1024 (dadd (dadd (dmul (x3 _ u) (x3 _ u)) (dmul (y3 _ u) (y3 _ u))) (dmul (z3 _ u) (z3 _ u)));
  vdot := fun u v => dadd (dadd (dmul (x3 _ u) (x3 _ v)) (dmul (y3 _ u) (y3 _ v))) (dmul (z3 _ u) (z3 _ v));
  qidentity := double_of 1;
  qangle_axis := fun a _ => cos_half a;
  qw := fun q => q
|}.

#[export] Instance triples_laws c : EigenLaws (triples c).
Proof. by split. Qed.
