(* ===== verification/TypesTour.v ===== *)
(** * The tour of the types (examples/types_example.cpp)

    The whole program at any binding, over any Eigen and any clock: what it builds
    and the events it sends. *)

From Stdlib Require Import ZArith Lia String Floats.SpecFloat.
From stdpp Require Import base list numbers.
From S2P Require Import Prelude Context Printf ArgPack Format Unbound ConsoleFormat Console Dispatch Metrics Stats Report Handles Types.

Local Open Scope Z_scope.

(** ** The constants of the program, as binary64 *)

Definition kHalfPi : Metrics.double := S754_finite false 7074237752028440 (-52).
Definition d_half : Metrics.double := ddiv (double_of 1) (double_of 2).
Definition d_2_5ths : Metrics.double := S754_finite false 7205759403792794 (-54).     (* 0.4 *)
Definition d_1_5th : Metrics.double := S754_finite false 7205759403792794 (-55).      (* 0.2 *)
Definition d_gravity : Metrics.double := S754_finite true 5522539043063071 (-49).     (* -9.81 *)
Definition d_zero : Metrics.double := S754_zero false.

Definition F (v : Metrics.double) : arg := AFloat (double_bits v).

Section Program.
Context {E : Eigen} {S : Type} (bd : option (Binding S)).
Variables (ctx : Context) (ts : nat -> Z).

(** [now k]: the [k]-th time the program asks the clock; [ts k] is the one its
    [k]-th event is stamped with. *)
Variable now : nat -> Timestamp.

Definition tour_pose : Pose := mkPose (vec3 (double_of 1) (double_of 2) d_half) (qangle_axis kHalfPi vunit_z).
Definition tour_twist : Twist := mkTwist (vec3 d_2_5ths d_zero d_zero) (vec3 d_zero d_zero d_1_5th).
Definition tour_odometry : Odometry := mkOdometry (str "base_link") tour_pose tour_twist (str "odom") (now 0%nat).

Definition types_tour (w : world S) : option (world S) :=
  let pose := tour_pose in
  w ← XM_LOG 0 bd None kInfo (str "pose: p=({:.2f},{:.2f},{:.2f}) yaw_w={:.3f}")
        [F (vx (position pose)); F (vy (position pose)); F (vz (position pose)); F (qw (orientation pose))] ctx (ts 0%nat) w;
  let odom := tour_odometry in
  w ← XM_LOG 0 bd None kInfo (str "odometry: {} in {} (vx={:.2f} wz={:.2f})")
        [AView (child_frame_id odom); AView (frame_id odom); F (vx (linear (twist odom))); F (vz (angular (twist odom)))] ctx (ts 1%nat) w;
  let t0 := now 1%nat in
  let elapsed := now 2%nat - t0 in
  w ← XM_LOG 0 bd None kInfo (str "elapsed {} us") [ASigned (microseconds elapsed)] ctx (ts 2%nat) w;
  let stamped_pose := StampNow (now 3%nat) pose in
  w ← XM_LOG 0 bd None kInfo (str "stamped pose captured at t={} ns") [ASigned (stamp stamped_pose)] ctx (ts 3%nat) w;
  let f_grav : Vec3 TForce := Vec3_xyz d_zero d_zero d_gravity in
  let f_push : Vec3 TForce := Vec3_xyz (double_of 2) d_zero d_zero in
  let f_net := Vec3_add f_grav f_push in
  let tau : Vec3 TTorque := Vec3_xyz d_zero d_zero d_half in
  w ← XM_LOG 0 bd None kInfo (str "net force = ({:.2f},{:.2f},{:.2f}), |tau| = {:.2f}")
        [F (Vec3_x f_net); F (Vec3_y f_net); F (Vec3_z f_net); F (Vec3_norm tau)] ctx (ts 4%nat) w;
  let work := vdot (Vec3_vec f_push) (position pose) in
  XM_LOG 0 bd None kInfo (str "work along displacement = {:.3f} J") [F work] ctx (ts 5%nat) w.
End Program.

(** ** What it prints *)

Definition tour_lines (io : Z -> platform * list write_result) (ts : nat -> Z) (texts : list bytes) : bytes :=
  concat (imap (fun k text => event_line (fst (io (ts k))) None kInfo text) texts).

(** Doubles and strings fit a pack. *)
Ltac args_ok := repeat (constructor; [first [apply double_bits_width|exact I]|]); constructor.

Lemma F_ok v : value_ok (value_of (F v)).
Proof. apply double_bits_width. Qed.

Lemma LookupSource_0 st : LookupSource st 0 = None.
Proof. reflexivity. Qed.

(** The net force, coordinate by coordinate. *)
Lemma net_force {E : Eigen} {L : EigenLaws E} (f : Vec3 TForce) :
  f = Vec3_add (Vec3_xyz d_zero d_zero d_gravity) (Vec3_xyz (double_of 2) d_zero d_zero) ->
  Vec3_x f = double_of 2 /\ Vec3_y f = d_zero /\ Vec3_z f = d_gravity.
Proof.
  intros ->. unfold Vec3_x, Vec3_y, Vec3_z, Vec3_add, Vec3_xyz. cbn [v_].
  destruct (coords_add (vec3 d_zero d_zero d_gravity) (vec3 (double_of 2) d_zero d_zero)) as (-> & -> & ->).
  destruct (coords_vec3 d_zero d_zero d_gravity) as (-> & -> & ->).
  destruct (coords_vec3 (double_of 2) d_zero d_zero) as (-> & -> & ->).
  split_and!; vm_compute; reflexivity.
Qed.

Lemma says_odometry :
  event_says (str "odometry: {} in {} (vx={:.2f} wz={:.2f})") [AView (str "base_link"); AView (str "odom"); F d_2_5ths; F d_1_5th] =
  str "odometry: base_link in odom (vx=0.40 wz=0.20)".
Proof. vm_compute. reflexivity. Qed.

(** At the console, for any Eigen that keeps coordinates and adds them: six lines,
    the position, the velocities and the net force as built, the elapsed time cut to
    microseconds, and the times as the clock gave them. *)
Theorem types_tour_console {E : Eigen} {L : EigenLaws E} io ctx ts (now : nat -> Timestamp) (st : console) (other : bytes) :
  (forall t, working (snd (io t))) -> ShouldLogImpl st kInfo = true ->
  - 2 ^ 63 <= now 2%nat - now 1%nat < 2 ^ 63 -> - 2 ^ 63 <= now 3%nat < 2 ^ 63 ->
  types_tour (Some (console_binding io)) ctx ts now (mkWorld st other) =
  Some (mkWorld (wrote st (tour_lines io ts [
    event_says (str "pose: p=({:.2f},{:.2f},{:.2f}) yaw_w={:.3f}")
      [F (double_of 1); F (double_of 2); F d_half; F (qw (qangle_axis kHalfPi vunit_z))];
    str "odometry: base_link in odom (vx=0.40 wz=0.20)";
    event_says (str "elapsed {} us") [ASigned (Z.quot (now 2%nat - now 1%nat) 1000)];
    event_says (str "stamped pose captured at t={} ns") [ASigned (now 3%nat)];
    event_says (str "net force = ({:.2f},{:.2f},{:.2f}), |tau| = {:.2f}")
      [F (double_of 2); F d_zero; F d_gravity; F (vnorm (vec3 d_zero d_zero d_half))];
    event_says (str "work along displacement = {:.3f} J")
      [F (vdot (vec3 (double_of 2) d_zero d_zero) (vec3 (double_of 1) (double_of 2) d_half))]])) other).
Proof.
  intros Hio Hl He Hn. unfold types_tour.
  assert (forall st', g_level st' = g_level st -> compiled_in 0 kInfo && ShouldLogImpl st' kInfo = true) as Hsh
    by (intros st' Hst; unfold ShouldLogImpl in *; by rewrite Hst).
  assert (forall z, (- 2 ^ 63 <= z < 2 ^ 63) -> value_ok (value_of (ASigned z))) as HZ by (intros z Hz; exact Hz).
  rewrite log_then, Hsh by first [done|apply Hio|args_ok].
  rewrite log_then, Hsh by first [done|apply Hio|args_ok].
  rewrite log_then, Hsh by first [done|apply Hio|constructor; [apply HZ; unfold microseconds; Z.quot_rem_to_equations; lia|constructor]].
  rewrite log_then, Hsh by first [done|apply Hio|constructor; [by apply HZ|constructor]].
  rewrite log_then, Hsh by first [done|apply Hio|args_ok].
  rewrite XM_LOG_console, Hsh by first [done|apply Hio|args_ok].
  rewrite !wrote_app, LookupSource_0. do 3 f_equal.
  unfold tour_lines, tour_odometry, tour_twist, tour_pose, microseconds, StampNow, Vec3_norm, Vec3_vec.
  cbn [position orientation linear angular twist frame_id child_frame_id stamp].
  destruct (net_force _ eq_refl) as (-> & -> & ->).
  destruct (coords_vec3 (double_of 1) (double_of 2) d_half) as (-> & -> & ->).
  destruct (coords_vec3 d_2_5ths d_zero d_zero) as (-> & _ & _). destruct (coords_vec3 d_zero d_zero d_1_5th) as (_ & _ & ->).
  rewrite says_odometry. cbn [imap concat]. rewrite app_nil_r. reflexivity.
Qed.

(** Evaluated on triples of doubles, the real part of the quaternion being cos 45
    degrees. *)
Definition cos_45 : Metrics.double := S754_finite false 6369051672525773 (-53).

Example types_tour_output :
  let io := fun _ => (demo_platform, [Wrote 767%nat]) in
  let now := fun k => 1000000000 + 5061234 * Z.of_nat k in
  option_map (fun w => stderr (backend w))
    (@types_tour (triples (fun _ => cos_45)) _ (Some (console_binding io)) no_context (fun _ => 0) now (mkWorld (mkConsole 2 [] []) [])) =
  Some (concat (map (fun text => str "[info] [1700000000.000000042] [robot]: " ++ text ++ [10])
    [str "pose: p=(1.00,2.00,0.50) yaw_w=0.707"; str "odometry: base_link in odom (vx=0.40 wz=0.20)"; str "elapsed 5061 us";
     str "stamped pose captured at t=1015183702 ns"; str "net force = (2.00,0.00,-9.81), |tau| = 0.50";
     str "work along displacement = 2.000 J"])).
Proof. vm_compute. reflexivity. Qed.
